(** * Bitcoin price notebook (exercise1/exercise1.ipynb): a shallow embedding

    The notebook is one linear script over a pandas table: read the
    price file, impute zero volumes, parse the dates, derive calendar and
    technical columns, drop incomplete rows, scale, split, train, report.
    This file embeds its data path cell by cell and states what the
    specification says about it.

    - [Float]: float64 cells as exact rationals extended with NaN and the
      two infinities.  The operations of this module do not round: they
      give the number that float64 then rounds.  Everything the notebook
      does with NaN (propagation, [dropna], NaN-skipping reductions) and
      division by zero is inside the model; signed zeros are outside it.
    - [Series]: the pandas column operations the notebook calls ([shift],
      [diff], [pct_change], [rolling(window).mean()], [mean]), with the
      defaults of pandas 2.
    - [Frame]: the table, the cleaning cells, the feature-engineering
      cells and [dropna].  A numeric cell of the input file is missing or
      finite; dates are kept to the day.
    - [Scaler]: scikit-learn's [MinMaxScaler].
    - [Split]: scikit-learn's [train_test_split], over an abstract
      generator of permutations.
    - [Pipeline]: the cells chained, with the stage a failure comes from.
      The printing and plotting cells read the table and leave it as it
      is; they are not part of the data path.  The fitted network is a
      function given from outside.
    - [Notebook]: every code cell as a sequence of name uses and name
      bindings, for the question which names are bound when a cell runs.
    - [Report]: the reporting cells: the zero-volume count, the
      regression metrics of scikit-learn on the unscaled predictions, the
      positions of the scatter plot, the sample prediction against the
      recorded price.  The square root of the RMSE line, the correlation
      matrix and the network itself (its layers, its training, early
      stopping) are not modelled.
    - [Civil], [Cases], [Scoping]: the day number of a calendar date,
      further small tables to run the cells on, and a check of which
      names are certainly bound before each statement.
    - [Binary64], [Scaler64]: the rounding of float64 (to nearest, ties
      to even, 53 significant bits, subnormal numbers, overflow to an
      infinity) and [MinMaxScaler] with every arithmetic step rounded.
      What is stated about the bounds, the order and the round trip of
      scaled values is stated over these two.
    - [Ranges]: the tables on which no cell overflows, in its numbers or
      in its dates.
    - [Cases64], [Hardware]: prices as float64 holds them, and the
      rounded operations next to the floats of the machine.
*)

From Stdlib Require Import String.
From Stdlib Require Import List ZArith QArith Qabs Qround Lia Bool.
From Stdlib Require Import Permutation Sorted Arith PeanoNat Lqa Qpower.
From Stdlib Require Floats.
Import ListNotations.

Set Implicit Arguments.

(* ================================================================== *)
(** ** Generic list helpers *)
(* ================================================================== *)

(** [imap f l] maps with the row position, as pandas does when it
    aligns a freshly computed column with the rows of the table. *)
Fixpoint imap_from {A B : Type} (k : nat) (f : nat -> A -> B) (l : list A)
  : list B :=
  match l with
  | [] => []
  | x :: tl => f k x :: imap_from (S k) f tl
  end.

Definition imap {A B : Type} (f : nat -> A -> B) (l : list A) : list B :=
  imap_from 0 f l.

(** [map2 f xs ys]: element-wise operation of two aligned columns. *)
Fixpoint map2 {A B C : Type} (f : A -> B -> C) (xs : list A) (ys : list B)
  : list C :=
  match xs, ys with
  | x :: xs', y :: ys' => f x y :: map2 f xs' ys'
  | _, _ => []
  end.

(* ================================================================== *)
(** ** Float cells *)
(* ================================================================== *)

Module Float.

(** A float64 value: not-a-number, an infinity with its sign, or a finite
    value held as an exact rational. *)
Inductive fval : Type :=
| NaN : fval
| Inf (neg : bool) : fval
| Fin (q : Q) : fval.

Definition Qltb (a b : Q) : bool := negb (Qle_bool b a).

(** pandas [isna]: true on NaN only; infinities are values. *)
Definition isna (v : fval) : bool :=
  match v with NaN => true | _ => false end.

Definition notna (v : fval) : bool := negb (isna v).

Definition isinf (v : fval) : bool :=
  match v with Inf _ => true | _ => false end.

Definition fneg (v : fval) : fval :=
  match v with
  | NaN => NaN
  | Inf s => Inf (negb s)
  | Fin q => Fin (- q)
  end.

Definition fadd (a b : fval) : fval :=
  match a, b with
  | NaN, _ | _, NaN => NaN
  | Inf s, Inf s' => if Bool.eqb s s' then Inf s else NaN
  | Inf s, Fin _ => Inf s
  | Fin _, Inf s => Inf s
  | Fin x, Fin y => Fin (x + y)
  end.

Definition fsub (a b : fval) : fval := fadd a (fneg b).

Definition fmul (a b : fval) : fval :=
  match a, b with
  | NaN, _ | _, NaN => NaN
  | Inf s, Inf s' => Inf (xorb s s')
  | Inf s, Fin y =>
      if Qeq_bool y 0 then NaN else Inf (xorb s (Qltb y 0))
  | Fin x, Inf s =>
      if Qeq_bool x 0 then NaN else Inf (xorb s (Qltb x 0))
  | Fin x, Fin y => Fin (x * y)
  end.

(** IEEE division: [x/0] is an infinity for [x <> 0] and NaN for
    [x = 0]; a finite value over an infinity is zero. *)
Definition fdiv (a b : fval) : fval :=
  match a, b with
  | NaN, _ | _, NaN => NaN
  | Inf _, Inf _ => NaN
  | Inf s, Fin y => Inf (xorb s (Qltb y 0))
  | Fin _, Inf _ => Fin 0
  | Fin x, Fin y =>
      if Qeq_bool y 0
      then (if Qeq_bool x 0 then NaN else Inf (Qltb x 0))
      else Fin (x / y)
  end.

(** Comparisons as numpy evaluates them: any comparison with NaN is
    false. *)
Definition fltb (a b : fval) : bool :=
  match a, b with
  | NaN, _ | _, NaN => false
  | Inf s, Inf s' => s && negb s'
  | Inf s, Fin _ => s
  | Fin _, Inf s => negb s
  | Fin x, Fin y => Qltb x y
  end.

Definition feqb (a b : fval) : bool :=
  match a, b with
  | NaN, _ | _, NaN => false
  | Inf s, Inf s' => Bool.eqb s s'
  | Fin x, Fin y => Qeq_bool x y
  | _, _ => false
  end.

(** A missing or finite cell of the input file, read as a float. *)
Definition of_cell (c : option Q) : fval :=
  match c with
  | None => NaN
  | Some q => Fin q
  end.

Definition of_Z (z : Z) : fval := Fin (inject_Z z).
Definition of_nat (n : nat) : fval := Fin (inject_Z (Z.of_nat n)).

Definition is_finite (v : fval) : Prop :=
  match v with Fin _ => True | _ => False end.

Definition is_positive (v : fval) : Prop :=
  exists q, v = Fin q /\ 0 < q.

End Float.
Export Float.

(* ================================================================== *)
(** ** pandas Series operations *)
(* ================================================================== *)

Module Series.

(** [s.shift(1)]: every value moves one row down, the first row is
    NaN, the length is kept. *)
Definition shift1 (xs : list fval) : list fval :=
  match xs with
  | [] => []
  | _ :: _ => NaN :: removelast xs
  end.

(** [s.diff()] is [s - s.shift(1)]. *)
Definition diff (xs : list fval) : list fval :=
  map2 fsub xs (shift1 xs).

(** [s.ffill()]: a NaN takes the last value seen above it. *)
Fixpoint ffill_from (last : fval) (xs : list fval) : list fval :=
  match xs with
  | [] => []
  | x :: tl =>
      let v := if isna x then last else x in
      v :: ffill_from v tl
  end.

Definition ffill (xs : list fval) : list fval := ffill_from NaN xs.

(** [s.pct_change()] with the default [fill_method='pad'] of pandas 2:
    forward-fill, then [data / data.shift(1) - 1]. *)
Definition pct_change (xs : list fval) : list fval :=
  let data := ffill xs in
  map2 (fun a b => fsub (fdiv a b) (Fin 1)) data (shift1 data).

(** Sum of a column, oldest row first. *)
Definition fsum (xs : list fval) : fval := fold_left fadd xs (Fin 0).

(** The rows [t-w+1 .. t] of a column (fewer at the top of the table). *)
Definition window (w : nat) (xs : list fval) (t : nat) : list fval :=
  skipn (S t - w) (firstn (S t) xs).

(** One window of [rolling(window=w, min_periods=minp).mean()]: the NaN
    observations are skipped and counted out; the result is NaN unless at
    least [minp] observations remain. *)
Definition window_mean (minp : nat) (obs : list fval) : fval :=
  let valid := filter notna obs in
  let nobs := length valid in
  if (minp <=? nobs)%nat
  then fdiv (fsum valid) (of_nat nobs)
  else NaN.

(** [s.rolling(window=w).mean()]; [min_periods] defaults to the window
    size. *)
Definition rolling_mean (w : nat) (xs : list fval) : list fval :=
  map (fun t => window_mean w (window w xs t)) (seq 0 (length xs)).

(** [s.mean()] with the default [skipna=True]; NaN on an empty series. *)
Definition mean (xs : list fval) : fval :=
  let valid := filter notna xs in
  match valid with
  | [] => NaN
  | _ :: _ => fdiv (fsum valid) (of_nat (length valid))
  end.

End Series.
Export Series.

(* ================================================================== *)
(** ** Failures *)
(* ================================================================== *)

(** The exceptions the library calls of the notebook raise; nothing in
    the notebook catches any of them. *)
Inductive error : Type :=
| DateParseError (text : string)   (* pd.to_datetime on unparsable text *)
| KeyError (label : string)        (* df[...] with an unknown column *)
| EmptyArray                       (* sklearn: array with 0 sample(s) *)
| NoFeatures                       (* sklearn: array with 0 feature(s) *)
| InfiniteInput                    (* sklearn: input contains infinity *)
| EmptyTrainSet                    (* train_test_split: empty train set *)
| NameError (name : string)        (* an unbound global name *)
| LibraryError.                    (* any other failure inside a library *)

Inductive result (A : Type) : Type :=
| Ok (a : A)
| Raise (e : error).

Arguments Ok {A} a.
Arguments Raise {A} e.

Definition bind {A B : Type} (m : result A) (k : A -> result B) : result B :=
  match m with
  | Ok a => k a
  | Raise e => Raise e
  end.

Notation "x <- m ;; k" := (bind m (fun x => k))
  (at level 61, m at next level, right associativity).

Fixpoint mapM {A B : Type} (f : A -> result B) (l : list A)
  : result (list B) :=
  match l with
  | [] => Ok []
  | x :: tl =>
      y <- f x ;;
      ys <- mapM f tl ;;
      Ok (y :: ys)
  end.

(* ================================================================== *)
(** ** The table and the cells that prepare it *)
(* ================================================================== *)

Module Frame.

(** What [pd.to_datetime] makes of one cell of the Date column: a missing
    cell, text no parser accepts, or text denoting a day (counted from
    1970-01-01; the price file has one row per day). *)
Inductive raw_date : Type :=
| DateMissing
| DateUnparsable (text : string)
| DateText (days : Z).

(** One line of the delimited input file.  A numeric field is missing
    or finite. *)
Record CsvRow : Type := mkCsv {
  csv_Date : raw_date;
  csv_Open : option Q;
  csv_High : option Q;
  csv_Low : option Q;
  csv_Close : option Q;
  csv_Volume : option Q;
  csv_Marketcap : option Q;
  csv_Extra : list (option string)   (* any further columns of the file *)
}.

(** A row of the table, with the Date column either still as read ([D] is
    [raw_date]) or parsed ([D] is [option Z], [None] being NaT). *)
Record PriceRecord (D : Type) : Type := mkPrice {
  Date : D;
  Open : fval;
  High : fval;
  Low : fval;
  Close : fval;
  Volume : fval;
  Marketcap : fval;
  Extra : list (option string)
}.

(** Cell 4 (line 60): [df = pd.read_csv('coin_Bitcoin.csv')]. *)
Definition read_csv (file : list CsvRow) : list (PriceRecord raw_date) :=
  map (fun c =>
         mkPrice (csv_Date c)
                 (of_cell (csv_Open c)) (of_cell (csv_High c))
                 (of_cell (csv_Low c)) (of_cell (csv_Close c))
                 (of_cell (csv_Volume c)) (of_cell (csv_Marketcap c))
                 (csv_Extra c))
      file.

Definition set_Volume {D : Type} (r : PriceRecord D) (v : fval)
  : PriceRecord D :=
  mkPrice (Date r) (Open r) (High r) (Low r) (Close r) v (Marketcap r)
          (Extra r).

Definition set_Date {D E : Type} (r : PriceRecord D) (d : E)
  : PriceRecord E :=
  mkPrice d (Open r) (High r) (Low r) (Close r) (Volume r) (Marketcap r)
          (Extra r).

(** *** Cell 8 (lines 108-110): zero volumes *)

(** [non_zero_volumes = df[df['Volume'] > 0]['Volume']] *)
Definition non_zero_volumes {D : Type} (df : list (PriceRecord D))
  : list fval :=
  map (@Volume D) (filter (fun r => fltb (Fin 0) (Volume r)) df).

(** [mean_volume = non_zero_volumes.mean()] *)
Definition mean_volume {D : Type} (df : list (PriceRecord D)) : fval :=
  mean (non_zero_volumes df).

(** [df.loc[df['Volume'] == 0, 'Volume'] = mean_volume] *)
Definition imputed {D : Type} (m : fval) (r : PriceRecord D)
  : PriceRecord D :=
  if feqb (Volume r) (Fin 0) then set_Volume r m else r.

Definition impute_volume {D : Type} (df : list (PriceRecord D))
  : list (PriceRecord D) :=
  map (imputed (mean_volume df)) df.

(** *** Cells 9 and 10 (lines 122-126, 137): the calendar columns *)

(** The proleptic Gregorian date of a day number (days from
    1970-01-01), by eras of 400 years. *)
Definition civil_from_days (days : Z) : Z * Z * Z :=
  let z := (days + 719468)%Z in
  let era := (z / 146097)%Z in
  let doe := (z - era * 146097)%Z in
  let yoe := ((doe - doe / 1460 + doe / 36524 - doe / 146096) / 365)%Z in
  let doy := (doe - (365 * yoe + yoe / 4 - yoe / 100))%Z in
  let mp := ((5 * doy + 2) / 153)%Z in
  let d := (doy - (153 * mp + 2) / 5 + 1)%Z in
  let m := (if (mp <? 10)%Z then mp + 3 else mp - 9)%Z in
  let y := (yoe + era * 400 + (if (m <=? 2)%Z then 1 else 0))%Z in
  (y, m, d).

(** [pd.to_datetime] on one cell: a missing cell becomes NaT, text that
    cannot be parsed raises. *)
Definition parse_date (d : raw_date) : result (option Z) :=
  match d with
  | DateMissing => Ok None
  | DateUnparsable text => Raise (DateParseError text)
  | DateText days => Ok (Some days)
  end.

Definition to_datetime (ds : list raw_date) : result (list (option Z)) :=
  mapM parse_date ds.

(** The [.dt] accessors; NaT gives NaN. *)
Definition dt_field (f : Z -> Z) (t : option Z) : fval :=
  match t with
  | None => NaN
  | Some days => of_Z (f days)
  end.

Definition dt_year : option Z -> fval :=
  dt_field (fun days => fst (fst (civil_from_days days))).
Definition dt_month : option Z -> fval :=
  dt_field (fun days => snd (fst (civil_from_days days))).
Definition dt_day : option Z -> fval :=
  dt_field (fun days => snd (civil_from_days days)).
(** Monday is 0; 1970-01-01 was a Thursday. *)
Definition dt_dayofweek : option Z -> fval :=
  dt_field (fun days => ((days + 3) mod 7)%Z).

(** [df['Date'].min()]: NaT is skipped; NaT when nothing is left. *)
Definition date_min (ts : list (option Z)) : option Z :=
  fold_left (fun acc t =>
               match acc, t with
               | None, _ => t
               | Some a, None => Some a
               | Some a, Some b => Some (Z.min a b)
               end) ts None.

(** [(df['Date'] - df['Date'].min()).dt.days] *)
Definition days_since (start t : option Z) : fval :=
  match start, t with
  | Some s, Some d => of_Z (d - s)
  | _, _ => NaN
  end.

Record Calendar : Type := mkCal {
  Year : fval;
  Month : fval;
  Day : fval;
  DayOfWeek : fval;
  DaysSinceStart : fval
}.

(** A row once the cleaning cells have run. *)
Record CleanRow : Type := mkClean {
  price : PriceRecord (option Z);
  cal : Calendar
}.

(** Cells 9 and 10 on one row, with its parsed date [t] and the
    earliest date [start] of the table. *)
Definition with_calendar (start : option Z) (r : PriceRecord raw_date)
           (t : option Z) : CleanRow :=
  mkClean (set_Date r t)
          (mkCal (dt_year t) (dt_month t) (dt_day t) (dt_dayofweek t)
                 (days_since start t)).

(** Cells 8 to 10 on one row: the row of the cleaned table made from
    [r], the imputation mean [m], the parsed date [t] and the earliest
    date [start]. *)
Definition cleaned (m : fval) (start : option Z) (r : PriceRecord raw_date)
           (t : option Z) : CleanRow :=
  with_calendar start (imputed m r) t.

(** Cells 9 and 10 on a table whose dates parsed to [ts]. *)
Definition add_calendar (df : list (PriceRecord raw_date))
           (ts : list (option Z)) : list CleanRow :=
  map2 (with_calendar (date_min ts)) df ts.

(** Cells 8 to 10, the cleaning stage ("Step 2: Clean up the dataset"). *)
Definition clean (df : list (PriceRecord raw_date))
  : result (list CleanRow) :=
  let df := impute_volume df in
  ts <- to_datetime (map (@Date raw_date) df) ;;
  Ok (add_calendar df ts).

(** *** Cells 12 and 13 (lines 167-170, 181-184): the technical columns *)

Record Technical : Type := mkTech {
  PriceChange : fval;
  PriceChangePercent : fval;
  DailyRange : fval;
  DailyRangePercent : fval;
  MA7 : fval;
  MA30 : fval;
  DistFromMA7 : fval;
  DistFromMA7Percent : fval
}.

Record FeatureRow : Type := mkFeature {
  base : CleanRow;
  tech : Technical
}.

Definition times100 (xs : list fval) : list fval :=
  map (fun v => fmul v (Fin 100)) xs.

(** Row [i] of a computed column. *)
Definition at_row (xs : list fval) (i : nat) : fval := nth i xs NaN.

Definition col (f : PriceRecord (option Z) -> fval) (df : list CleanRow)
  : list fval :=
  map (fun r => f (price r)) df.

Definition engineer (df : list CleanRow) : list FeatureRow :=
  let close := col (@Close _) df in
  (* cell 12 *)
  let PriceChange := diff close in
  let PriceChangePercent := times100 (pct_change close) in
  let DailyRange := map2 fsub (col (@High _) df) (col (@Low _) df) in
  let DailyRangePercent :=
    times100 (map2 fdiv DailyRange (col (@Open _) df)) in
  (* cell 13 *)
  let MA7 := rolling_mean 7 close in
  let MA30 := rolling_mean 30 close in
  let DistFromMA7 := map2 fsub close MA7 in
  let DistFromMA7Percent := times100 (map2 fdiv DistFromMA7 MA7) in
  imap (fun i r =>
          mkFeature r
            (mkTech (at_row PriceChange i) (at_row PriceChangePercent i)
                    (at_row DailyRange i) (at_row DailyRangePercent i)
                    (at_row MA7 i) (at_row MA30 i)
                    (at_row DistFromMA7 i) (at_row DistFromMA7Percent i)))
       df.

(** *** Columns by label *)

(** The numeric columns of the engineered table, by their labels. *)
Definition numeric_columns (r : FeatureRow) : list (string * fval) :=
  let p := price (base r) in
  let c := cal (base r) in
  let t := tech r in
  [ ("Open", Open p); ("High", High p); ("Low", Low p);
    ("Close", Close p); ("Volume", Volume p); ("Marketcap", Marketcap p);
    ("Year", Year c); ("Month", Month c); ("Day", Day c);
    ("DayOfWeek", DayOfWeek c); ("DaysSinceStart", DaysSinceStart c);
    ("PriceChange", PriceChange t);
    ("PriceChangePercent", PriceChangePercent t);
    ("DailyRange", DailyRange t);
    ("DailyRangePercent", DailyRangePercent t);
    ("MA7", MA7 t); ("MA30", MA30 t);
    ("DistFromMA7", DistFromMA7 t);
    ("DistFromMA7Percent", DistFromMA7Percent t) ]%string.

(** The columns the cells 9 to 13 add to the table, in the order they
    are assigned. *)
Definition engineered_columns : list string :=
  [ "Year"; "Month"; "Day"; "DayOfWeek"; "DaysSinceStart";
    "PriceChange"; "PriceChangePercent"; "DailyRange";
    "DailyRangePercent"; "MA7"; "MA30"; "DistFromMA7";
    "DistFromMA7Percent" ]%string.

Fixpoint lookup (label : string) (cols : list (string * fval))
  : option fval :=
  match cols with
  | [] => None
  | (l, v) :: tl => if String.eqb l label then Some v else lookup label tl
  end.

(** [row[label]] *)
Definition getitem (r : FeatureRow) (label : string) : result fval :=
  match lookup label (numeric_columns r) with
  | Some v => Ok v
  | None => Raise (KeyError label)
  end.

(** *** Cell 14 (line 195): [df_clean = df.dropna()] *)

Definition is_none {A : Type} (o : option A) : bool :=
  match o with None => true | Some _ => false end.

(** A row is dropped when any of its cells is missing: NaT in Date, a
    missing cell in a further column of the file, NaN in a numeric
    column. *)
Definition row_isna (r : FeatureRow) : bool :=
  is_none (Date (price (base r)))
  || existsb is_none (Extra (price (base r)))
  || existsb (fun lv => isna (snd lv)) (numeric_columns r).

Definition dropna (df : list FeatureRow) : list FeatureRow :=
  filter (fun r => negb (row_isna r)) df.

(** Cells 4 to 14: from the file to [df_clean]. *)
Definition prepare (file : list CsvRow) : result (list FeatureRow) :=
  df <- clean (read_csv file) ;;
  Ok (dropna (engineer df)).

End Frame.
Export Frame.

(* ================================================================== *)
(** ** scikit-learn's MinMaxScaler *)
(* ================================================================== *)

Module Scaler.

(** A two-dimensional array, row by row. *)
Definition matrix : Type := list (list fval).

Definition n_features (X : matrix) : nat := length (hd [] X).

Definition column (X : matrix) (j : nat) : list fval :=
  map (fun row => nth j row NaN) X.

(** The input validation of fit, transform and inverse_transform
    (NaN is let through, an infinity is not; at least one sample and one
    feature). *)
Definition check_array (X : matrix) : result unit :=
  if existsb (existsb isinf) X then Raise InfiniteInput
  else match X with
       | [] => Raise EmptyArray
       | row :: _ =>
           match row with
           | [] => Raise NoFeatures
           | _ :: _ => Ok tt
           end
       end.

Definition fmin_skipna (a b : fval) : fval :=
  if isna a then b else if isna b then a else if fltb b a then b else a.

Definition fmax_skipna (a b : fval) : fval :=
  if isna a then b else if isna b then a else if fltb a b then b else a.

(** [np.nanmin] and [np.nanmax] over one column. *)
Definition nanmin (xs : list fval) : fval := fold_left fmin_skipna xs NaN.
Definition nanmax (xs : list fval) : fval := fold_left fmax_skipna xs NaN.

(** The machine epsilon of float64, 2^-52. *)
Definition eps : Q := 1 # (2 ^ 52).

(** [_handle_zeros_in_scale]: a (near-)constant column is scaled by 1. *)
Definition handle_zeros_in_scale (scale : fval) : fval :=
  if fltb scale (Fin (10 * eps)) then Fin 1 else scale.

(** [feature_range=(0, 1)], the default. *)
Definition feature_range : fval * fval := (Fin 0, Fin 1).

Record MinMaxScaler : Type := mkScaler {
  data_min_ : list fval;
  data_max_ : list fval;
  data_range_ : list fval;
  scale_ : list fval;
  min_ : list fval
}.

Definition fit (X : matrix) : result MinMaxScaler :=
  _ <- check_array X ;;
  let cols := map (column X) (seq 0 (n_features X)) in
  let data_min := map nanmin cols in
  let data_max := map nanmax cols in
  let data_range := map2 fsub data_max data_min in
  let scale :=
    map (fun r => fdiv (fsub (snd feature_range) (fst feature_range))
                       (handle_zeros_in_scale r))
        data_range in
  let min := map2 (fun m s => fsub (fst feature_range) (fmul m s))
                  data_min scale in
  Ok (mkScaler data_min data_max data_range scale min).

(** The two parameters [fit] computes for one column. *)
Definition column_scale (c : list fval) : fval :=
  fdiv (fsub (snd feature_range) (fst feature_range))
       (handle_zeros_in_scale (fsub (nanmax c) (nanmin c))).

Definition column_min (c : list fval) : fval :=
  fsub (fst feature_range) (fmul (nanmin c) (column_scale c)).

(** The number of columns has to be the one seen by [fit]. *)
Definition check_n_features (s : MinMaxScaler) (X : matrix) : result unit :=
  if forallb (fun row => length row =? length (scale_ s)) X
  then Ok tt else Raise LibraryError.

(** [X *= scale_; X += min_] *)
Definition transform_row (s : MinMaxScaler) (row : list fval) : list fval :=
  map2 fadd (map2 fmul row (scale_ s)) (min_ s).

(** [X -= min_; X /= scale_] *)
Definition inverse_row (s : MinMaxScaler) (row : list fval) : list fval :=
  map2 fdiv (map2 fsub row (min_ s)) (scale_ s).

Definition transform (s : MinMaxScaler) (X : matrix) : result matrix :=
  _ <- check_array X ;;
  _ <- check_n_features s X ;;
  Ok (map (transform_row s) X).

Definition inverse_transform (s : MinMaxScaler) (X : matrix)
  : result matrix :=
  _ <- check_array X ;;
  Ok (map (inverse_row s) X).

Definition fit_transform (X : matrix) : result (MinMaxScaler * matrix) :=
  s <- fit X ;;
  Xs <- transform s X ;;
  Ok (s, Xs).

(** [v.reshape(-1, 1)] and [m.flatten()] *)
Definition reshape_column (v : list fval) : matrix := map (fun x => [x]) v.
Definition flatten (m : matrix) : list fval := concat m.

End Scaler.
Export Scaler.

(* ================================================================== *)
(** ** scikit-learn's train_test_split *)
(* ================================================================== *)

Module Split.

(** numpy's [RandomState], as far as the split uses it: a generator
    state can be made from a seed, and a state yields a permutation of
    [0 .. n-1]. *)
Class RandomState : Type := {
  rng : Type;
  seeded : Z -> rng;
  permutation : rng -> nat -> list nat;
  permutation_spec :
    forall (st : rng) (n : nat), Permutation (permutation st n) (seq 0 n)
}.

Section TrainTestSplit.

Context {RS : RandomState}.

(** [check_random_state]: an integer seeds a fresh generator, [None]
    takes the process-wide one. *)
Definition check_random_state (global : rng) (random_state : option Z)
  : rng :=
  match random_state with
  | Some seed => seeded seed
  | None => global
  end.

(** [_validate_shuffle_split] with a float [test_size] and
    [train_size=None]: [n_test = ceil(test_size * n_samples)],
    [n_train = n_samples - n_test], and an empty train set is refused. *)
Definition validate_shuffle_split (n_samples : nat) (test_size : Q)
  : result (nat * nat) :=
  let n_test :=
    Z.to_nat (Qceiling (test_size * inject_Z (Z.of_nat n_samples))) in
  let n_train := (n_samples - n_test)%nat in
  if (n_train =? 0)%nat then Raise EmptyTrainSet
  else Ok (n_train, n_test).

(** [ShuffleSplit._iter_indices], first split: the head of the
    permutation is the test set, what follows is the train set. *)
Definition split_indices (global : rng) (n_samples : nat) (test_size : Q)
           (random_state : option Z) : result (list nat * list nat) :=
  sizes <- validate_shuffle_split n_samples test_size ;;
  let '(n_train, n_test) := sizes in
  let st := check_random_state global random_state in
  let perm := permutation st n_samples in
  let ind_test := firstn n_test perm in
  let ind_train := firstn n_train (skipn n_test perm) in
  Ok (ind_train, ind_test).

(** [a[ind]]: the rows of [a] at the positions [ind] (the positions come
    from a permutation of [0 .. n-1], so none is out of range). *)
Definition take {A : Type} (a : list A) (ind : list nat) : list A :=
  flat_map (fun i => match nth_error a i with
                     | Some x => [x]
                     | None => []
                     end) ind.

Record split (A B : Type) : Type := mkSplit {
  X_train : list A;
  X_test : list A;
  y_train : list B;
  y_test : list B
}.

Definition train_test_split {A B : Type} (global : rng)
           (X : list A) (y : list B) (test_size : Q)
           (random_state : option Z) : result (split A B) :=
  if negb (length X =? length y)%nat then Raise LibraryError
  else
    ind <- split_indices global (length X) test_size random_state ;;
    let '(train, test) := ind in
    Ok (mkSplit (take X train) (take X test) (take y train) (take y test)).

End TrainTestSplit.

End Split.
Export Split.

(* ================================================================== *)
(** ** The cells chained *)
(* ================================================================== *)

Module Pipeline.

(** Cell 20 (lines 271-272): the columns the model is given. *)
Definition features : list string :=
  [ "Open"; "High"; "Low"; "Volume"; "MA7"; "DailyRange";
    "Year"; "Month"; "DayOfWeek"; "DaysSinceStart" ]%string.

(** [df_clean[features]] *)
Definition select (labels : list string) (df : list FeatureRow)
  : result matrix :=
  mapM (fun r => mapM (getitem r) labels) df.

(** [df_clean['Close']] *)
Definition target (df : list FeatureRow) : result (list fval) :=
  mapM (fun r => getitem r "Close"%string) df.

(** One row of [df_clean[features]] and of [df_clean['Close']]. *)
Definition feature_values (r : FeatureRow) : list fval :=
  [ Open (price (base r)); High (price (base r)); Low (price (base r));
    Volume (price (base r)); MA7 (tech r); DailyRange (tech r);
    Year (cal (base r)); Month (cal (base r)); DayOfWeek (cal (base r));
    DaysSinceStart (cal (base r)) ].

Definition target_value (r : FeatureRow) : fval := Close (price (base r)).

Record Scaled : Type := mkScaled {
  X : matrix;
  y : list fval;
  scaler_X : MinMaxScaler;
  scaler_y : MinMaxScaler;
  X_scaled : matrix;
  y_scaled : list fval
}.

(** Cell 20 (lines 275-283): select, then fit and apply the two
    scalers. *)
Definition scale (df_clean : list FeatureRow) : result Scaled :=
  X <- select features df_clean ;;
  y <- target df_clean ;;
  fX <- fit_transform X ;;
  fy <- fit_transform (reshape_column y) ;;
  Ok (mkScaled X y (fst fX) (fst fy) (snd fX) (flatten (snd fy))).

(** The stages of the notebook, in the order they run. *)
Inductive stage : Type :=
| Ingestion | Cleaning | FeatureEngineering | Scaling | Splitting
| Training | Evaluation | Inference.

Definition stage_index (s : stage) : nat :=
  match s with
  | Ingestion => 0 | Cleaning => 1 | FeatureEngineering => 2
  | Scaling => 3 | Splitting => 4 | Training => 5 | Evaluation => 6
  | Inference => 7
  end.

(** Either the cells ran through, or the run stopped in a stage with the
    exception that stage raised. *)
Inductive outcome (A : Type) : Type :=
| Done (a : A)
| Failed (s : stage) (e : error).

Arguments Done {A} a.
Arguments Failed {A} s e.

Definition in_stage {A : Type} (s : stage) (r : result A) : outcome A :=
  match r with
  | Ok a => Done a
  | Raise e => Failed s e
  end.

Definition and_then {A B : Type} (m : outcome A) (k : A -> outcome B)
  : outcome B :=
  match m with
  | Done a => k a
  | Failed s e => Failed s e
  end.

(** Cells 4 to 20, from the file to the scaled arrays.  No cell looks
    at the size of [df_clean] before [scale] is called on it. *)
Definition run_to_scale (file : list CsvRow) : outcome Scaled :=
  let df := read_csv file in
  and_then (in_stage Cleaning (clean df)) (fun df =>
  let df_clean := dropna (engineer df) in
  in_stage Scaling (scale df_clean)).

Section Run.

Context {RS : RandomState}.

(** Cells 4 to 21, from the file to the train/test split (line 295). *)
Definition run_to_split (global : rng) (file : list CsvRow)
  : outcome (Scaled * split (list fval) fval) :=
  and_then (run_to_scale file) (fun sc =>
  and_then (in_stage Splitting
              (train_test_split global (X_scaled sc) (y_scaled sc)
                                (2 # 10) (Some 42%Z))) (fun sp =>
  Done (sc, sp))).

End Run.

(** Cell 33 (lines 495-498), given the fitted network as a function from
    a scaled feature row to a scaled price. *)
Section SampleInference.

Variable predict : list fval -> fval.

(** [X[-1:]] *)
Definition last_rows {A : Type} (k : nat) (l : list A) : list A :=
  skipn (length l - k) l.

Definition sample_data (sc : Scaled) : matrix := last_rows 1 (X sc).

Definition sample_data_scaled (sc : Scaled) : result matrix :=
  transform (scaler_X sc) (sample_data sc).

Definition sample_prediction (sc : Scaled) : result fval :=
  xs <- sample_data_scaled sc ;;
  let sample_prediction_scaled := reshape_column (map predict xs) in
  inv <- inverse_transform (scaler_y sc) sample_prediction_scaled ;;
  Ok (nth 0 (nth 0 inv []) NaN).

End SampleInference.

End Pipeline.
Export Pipeline.

(* ================================================================== *)
(** ** The notebook as name bindings *)
(* ================================================================== *)

Module Notebook.

Local Open Scope nat_scope.
Local Open Scope string_scope.

(** A simple statement: the global names it reads, in the order Python
    evaluates them, and the names it binds once its right-hand side has
    been computed. *)
Record simple : Type := mkSimple {
  reads : list string;
  binds : list string
}.

Inductive stmt : Type :=
| Exec (s : simple)
| IfThen (test_reads : list string) (body : list simple).

Definition rd (names : list string) : stmt := Exec (mkSimple names []).
Definition def (names : list string) (bound : list string) : stmt :=
  Exec (mkSimple names bound).

(** A code cell with its position in the notebook (markdown cells
    counted, first cell 0). *)
Definition cell : Type := nat * list stmt.

Definition notebook : list cell :=
  [ (1, [ def [] ["pd"]; def [] ["np"]; def [] ["plt"]; def [] ["sns"];
          def [] ["train_test_split"]; def [] ["MinMaxScaler"];
          def [] ["metrics"]; def [] ["Sequential"]; def [] ["Dense"];
          def [] ["ModelCheckpoint"; "EarlyStopping"]; def [] ["Adam"] ]);
    (2, [ rd ["np"] ]);
    (4, [ def ["pd"] ["df"]; rd ["print"; "df"]; rd ["print"];
          rd ["print"; "df"] ]);
    (6, [ rd ["print"]; rd ["print"; "df"] ]);
    (7, [ def ["df"] ["zero_volume_count"];
          rd ["print"; "zero_volume_count"; "zero_volume_count"; "len";
              "df"] ]);
    (8, [ def ["df"; "df"] ["non_zero_volumes"];
          def ["non_zero_volumes"] ["mean_volume"];
          rd ["mean_volume"; "df"; "df"];
          rd ["print"; "mean_volume"] ]);
    (9, [ rd ["pd"; "df"; "df"]; rd ["df"; "df"]; rd ["df"; "df"];
          rd ["df"; "df"]; rd ["df"; "df"] ]);
    (10, [ rd ["df"; "df"; "df"] ]);
    (11, [ rd [] ]);
    (12, [ rd ["df"; "df"]; rd ["df"; "df"]; rd ["df"; "df"; "df"];
           rd ["df"; "df"; "df"] ]);
    (13, [ rd ["df"; "df"]; rd ["df"; "df"]; rd ["df"; "df"; "df"];
           rd ["df"; "df"; "df"] ]);
    (14, [ def ["df"] ["df_clean"]; rd ["print"; "df_clean"] ]);
    (15, [ rd ["plt"]; rd ["plt"; "df_clean"; "df_clean"]; rd ["plt"];
           rd ["plt"]; rd ["plt"]; rd ["plt"]; rd ["plt"] ]);
    (16, [ def ["df_clean"] ["correlation_matrix"] ]);
    (17, [ rd ["plt"]; rd ["sns"; "correlation_matrix"]; rd ["plt"];
           rd ["plt"] ]);
    (18, [ rd ["print"]; rd ["print"; "correlation_matrix"] ]);
    (20, [ def [] ["features"];
           def ["df_clean"; "features"] ["X"];
           def ["df_clean"] ["y"];
           def ["MinMaxScaler"] ["scaler_X"];
           def ["MinMaxScaler"] ["scaler_y"];
           def ["scaler_X"; "X"] ["X_scaled"];
           def ["scaler_y"; "y"] ["y_scaled"] ]);
    (21, [ def ["train_test_split"; "X_scaled"; "y_scaled"]
               ["X_train"; "X_test"; "y_train"; "y_test"];
           rd ["print"; "X_train"]; rd ["print"; "X_test"] ]);
    (23, [ def ["Sequential"] ["model"];
           rd ["model"; "Dense"; "X_train"]; rd ["model"; "Dense"];
           rd ["model"; "Dense"]; rd ["model"; "Dense"];
           def ["Adam"] ["optimizer"];
           rd ["model"; "optimizer"]; rd ["model"] ]);
    (24, [ def ["EarlyStopping"] ["early_stop"] ]);
    (26, [ def ["model"; "X_train"; "y_train"; "checkpoint_callback";
                "early_stop"] ["history"] ]);
    (27, [ rd ["plt"]; rd ["plt"]; rd ["plt"; "history"];
           rd ["plt"; "history"]; rd ["plt"]; rd ["plt"]; rd ["plt"];
           rd ["plt"] ]);
    (29, [ rd ["plt"]; rd ["plt"; "history"]; rd ["plt"; "history"];
           rd ["plt"]; rd ["plt"]; rd ["plt"]; rd ["plt"]; rd ["plt"] ]);
    (30, [ def ["model"; "X_test"; "y_test"] ["test_loss"; "test_mae"];
           rd ["print"; "test_loss"]; rd ["print"; "test_mae"];
           def ["model"; "X_test"] ["y_pred_scaled"];
           def ["scaler_y"; "y_pred_scaled"] ["y_pred"];
           def ["scaler_y"; "y_test"] ["y_test_original"];
           def ["metrics"; "y_test_original"; "y_pred"] ["mse"];
           def ["np"; "mse"] ["rmse"];
           def ["metrics"; "y_test_original"; "y_pred"] ["mae"];
           def ["metrics"; "y_test_original"; "y_pred"] ["r2"];
           rd ["print"]; rd ["print"; "mse"]; rd ["print"; "rmse"];
           rd ["print"; "mae"]; rd ["print"; "r2"] ]);
    (31, [ rd ["plt"];
           def ["np"; "len"; "y_test_original"] ["indices"];
           def ["indices"] ["plot_indices"];
           IfThen ["len"; "indices"]
                  [ mkSimple ["np"; "indices"] ["plot_indices"];
                    mkSimple ["plot_indices"] [] ];
           rd ["plt"; "indices"; "plot_indices"; "y_test_original";
               "plot_indices"];
           rd ["plt"; "indices"; "plot_indices"; "y_pred";
               "plot_indices"];
           rd ["plt"]; rd ["plt"]; rd ["plt"]; rd ["plt"]; rd ["plt"] ]);
    (33, [ def ["X"] ["sample_data"];
           def ["scaler_X"; "sample_data"] ["sample_data_scaled"];
           def ["model"; "sample_data_scaled"]
               ["sample_prediction_scaled"];
           def ["scaler_y"; "sample_prediction_scaled"]
               ["sample_prediction"];
           def ["df_clean"] ["actual_price"];
           rd ["print"; "df_clean"; "features"];
           rd ["print"; "sample_prediction"];
           rd ["print"; "actual_price"];
           rd ["print"; "abs"; "sample_prediction"; "actual_price"];
           rd ["print"; "abs"; "sample_prediction"; "actual_price";
               "actual_price"] ]);
    (35, [ rd [] ]) ].

(** The cell that calls [model.fit]. *)
Definition training_cell : nat := 26.

(** The names of Python's builtins that the notebook reads. *)
Definition builtins : list string := ["print"; "len"; "abs"].

Definition bound (env : list string) (name : string) : bool :=
  existsb (String.eqb name) env.

(** The first name of a statement that is not bound when it is read. *)
Definition first_unbound (env : list string) (names : list string)
  : option string :=
  find (fun n => negb (bound env n)) names.

(** One simple statement.  Its names are looked up first: an unbound one
    raises NameError before any library code of the statement runs.
    Otherwise the library work is done ([lib_ok] tells whether it returns
    normally) and the targets are bound. *)
Definition exec_simple (lib_ok : bool) (env : list string) (s : simple)
  : result (list string) :=
  match first_unbound env (reads s) with
  | Some n => Raise (NameError n)
  | None => if lib_ok then Ok (binds s ++ env)%list
            else Raise LibraryError
  end.

Fixpoint exec_body (lib : nat -> bool) (k : nat) (env : list string)
         (body : list simple) : result (list string) :=
  match body with
  | [] => Ok env
  | s :: tl =>
      env' <- exec_simple (lib k) env s ;;
      exec_body lib (S k) env' tl
  end.

(** The statements of one cell.  [lib k] tells whether the library work
    of statement [k] returns normally, [test k] how the test of an [if]
    at position [k] comes out. *)
Fixpoint exec_stmts (lib test : nat -> bool) (k : nat) (env : list string)
         (l : list stmt) : result (list string) :=
  match l with
  | [] => Ok env
  | Exec s :: tl =>
      env' <- exec_simple (lib k) env s ;;
      exec_stmts lib test (S k) env' tl
  | IfThen names body :: tl =>
      env' <- exec_simple (lib k) env (mkSimple names []) ;;
      env'' <- (if test k
                then exec_body (fun j => lib (k + S j)%nat) 0 env' body
                else Ok env') ;;
      exec_stmts lib test (k + S (length body)) env'' tl
  end.

(** A run from the top: either every cell completed, or the run stopped
    at a cell with the exception it raised. *)
Inductive run_result : Type :=
| Completed (env : list string)
| Stopped (at_cell : nat) (e : error).

Fixpoint run_from (lib test : nat -> nat -> bool) (env : list string)
         (cells : list cell) : run_result :=
  match cells with
  | [] => Completed env
  | (c, body) :: tl =>
      match exec_stmts (lib c) (test c) 0 env body with
      | Ok env' => run_from lib test env' tl
      | Raise e => Stopped c e
      end
  end.

Definition run (lib test : nat -> nat -> bool) : run_result :=
  run_from lib test builtins notebook.

(** Every name some statement of the notebook binds. *)
Definition stmt_binds (s : stmt) : list string :=
  match s with
  | Exec s => binds s
  | IfThen _ body => flat_map binds body
  end.

Definition assigned_names (cells : list cell) : list string :=
  flat_map (fun c => flat_map stmt_binds (snd c)) cells.

End Notebook.

(* ================================================================== *)
(** ** What the specification says, in its own words *)
(* ================================================================== *)

Module Spec.

(** "the simple mean of Close over the trailing [w] rows ending at [t]
    inclusive": the sum of the rows [t-w+1 .. t] over [w]. *)
Definition trailing_mean (w : nat) (xs : list fval) (t : nat) : fval :=
  fdiv (fsum (map (fun k => nth k xs NaN) (seq (S t - w) w))) (of_nat w).

(** "the arithmetic mean of strictly-positive Volume values computed over
    the whole dataset"; undefined when there is none. *)
Definition positive_mean (volumes : list fval) : fval :=
  let positive := filter (fltb (Fin 0)) volumes in
  match positive with
  | [] => NaN
  | _ :: _ => fdiv (fsum positive) (of_nat (length positive))
  end.

(** "Volume = 0" *)
Definition is_zero (v : fval) : Prop := exists q, v = Fin q /\ q == 0.

(** "within floating-point tolerance (1e-6 relative)" of an original
    value; an undefined original stays undefined. *)
Definition within_tolerance (original back : fval) : Prop :=
  match original with
  | Fin x =>
      exists y, back = Fin y /\ Qabs (y - x) <= (1 # 1000000) * Qabs x
  | NaN => back = NaN
  | Inf _ => False
  end.

(** The PriceRecord data model: every cell of the row is present, the
    date is readable, Open and Close are positive. *)
Definition price_row (c : CsvRow) : Prop :=
  (exists days, csv_Date c = DateText days)
  /\ (exists o, csv_Open c = Some o /\ 0 < o)
  /\ (exists h, csv_High c = Some h)
  /\ (exists l, csv_Low c = Some l)
  /\ (exists x, csv_Close c = Some x /\ 0 < x)
  /\ (exists v, csv_Volume c = Some v)
  /\ (exists m, csv_Marketcap c = Some m)
  /\ Forall (fun e => e <> None) (csv_Extra c).

(** The zero volumes can be imputed: there is none, or some volume is
    positive. *)
Definition volume_imputable (file : list CsvRow) : Prop :=
  (forall c, In c file -> forall v, csv_Volume c = Some v -> ~ v == 0)
  \/ (exists c v, In c file /\ csv_Volume c = Some v /\ 0 < v).

(** No Date cell holds text that cannot be read as a date. *)
Definition dates_readable (file : list CsvRow) : Prop :=
  forall c, In c file -> forall text, csv_Date c <> DateUnparsable text.

End Spec.
Export Spec.

(* ================================================================== *)
(** ** A small price table *)
(* ================================================================== *)

Module Demo.

(** Day [i] of a table that starts on 2013-04-29 (day 15824): the close
    rises by one a day from 100, the volume is zero every fifth day. *)
Definition demo_row (i : nat) : CsvRow :=
  let c := inject_Z (Z.of_nat (100 + i)) in
  mkCsv (DateText (15824 + Z.of_nat i))
        (Some (c - (1 # 2))) (Some (c + 2)) (Some (c - 3)) (Some c)
        (Some (if (i mod 5 =? 0)%nat then 0 else inject_Z (Z.of_nat i)))
        (Some (c * 1000))
        [Some "Bitcoin"%string; Some "BTC"%string].

Definition demo_file : list CsvRow := map demo_row (seq 0 32).

(** The same days with no trade recorded on any of them. *)
Definition no_volume (c : CsvRow) : CsvRow :=
  mkCsv (csv_Date c) (csv_Open c) (csv_High c) (csv_Low c) (csv_Close c)
        (Some 0) (csv_Marketcap c) (csv_Extra c).

Definition idle_file : list CsvRow := map no_volume (firstn 30 demo_file).

(** The 32 days again, with the market capitalisation missing on the
    last of them. *)
Definition no_marketcap (c : CsvRow) : CsvRow :=
  mkCsv (csv_Date c) (csv_Open c) (csv_High c) (csv_Low c) (csv_Close c)
        (csv_Volume c) None (csv_Extra c).

Definition gap_file : list CsvRow :=
  firstn 31 demo_file ++ [no_marketcap (demo_row 31)].

(** A table of three days. *)
Definition short_file : list CsvRow := firstn 3 demo_file.

Definition cleaned_or_empty (file : list CsvRow) : list CleanRow :=
  match clean (read_csv file) with
  | Ok df => df
  | Raise _ => []
  end.

Definition demo_clean : list CleanRow :=
  Eval vm_compute in cleaned_or_empty demo_file.

Definition demo_engineered : list FeatureRow :=
  Eval vm_compute in engineer demo_clean.

Definition demo_last : FeatureRow :=
  Eval vm_compute in
    nth 31 demo_engineered
        (mkFeature (mkClean (mkPrice None NaN NaN NaN NaN NaN NaN [])
                            (mkCal NaN NaN NaN NaN NaN))
                   (mkTech NaN NaN NaN NaN NaN NaN NaN NaN)).

Definition demo_usable : list FeatureRow :=
  Eval vm_compute in dropna demo_engineered.

(** A network that answers 1/2 whatever it is shown. *)
Definition constant_model (row : list fval) : fval := Fin (1 # 2).

(** A stand-in generator for running the split: its permutation of
    [0 .. n-1] counts down, whatever the seed.  (numpy's Mersenne Twister
    is not modelled; the split only needs some permutation.) *)
Definition countdown : RandomState :=
  {| rng := Z;
     seeded := fun seed => seed;
     permutation := fun _ n => rev (seq 0 n);
     permutation_spec :=
       fun _ n => Permutation_sym (Permutation_rev (seq 0 n)) |}.

End Demo.
Export Demo.

(* ================================================================== *)
(** ** The reporting cells *)
(* ================================================================== *)

Module Report.

(** Two floats holding the same value; NaN counts as the same as NaN
    (this is not IEEE [==]). *)
Definition feq (a b : fval) : Prop :=
  match a, b with
  | NaN, NaN => True
  | Inf s, Inf s' => s = s'
  | Fin x, Fin y => x == y
  | _, _ => False
  end.

(** Python's [abs] on a float. *)
Definition fabs (v : fval) : fval :=
  match v with
  | NaN => NaN
  | Inf _ => Inf false
  | Fin q => Fin (Qabs q)
  end.

(** *** Cell 7 (lines 96-97): how many volumes are zero *)

(** [zero_volume_count = (df['Volume'] == 0).sum()] *)
Definition zero_volume_count {D : Type} (df : list (PriceRecord D)) : nat :=
  length (filter (fun r => feqb (Volume r) (Fin 0)) df).

(** [zero_volume_count/len(df)*100], a numpy division: 0/0 is NaN. *)
Definition zero_volume_percent {D : Type} (df : list (PriceRecord D))
  : fval :=
  fmul (fdiv (of_nat (zero_volume_count df)) (of_nat (length df)))
       (Fin 100).

(** *** Cell 30 (lines 434-442): the regression metrics *)

(** scikit-learn's check of one target array: no NaN, no infinity, at
    least one sample. *)
Definition check_target (v : list fval) : result unit :=
  if existsb isna v then Raise LibraryError
  else if existsb isinf v then Raise InfiniteInput
  else match v with
       | [] => Raise EmptyArray
       | _ :: _ => Ok tt
       end.

(** [_check_reg_targets]: the two arrays have the same number of
    samples, then each of them is checked. *)
Definition check_reg_targets (y_true y_pred : list fval) : result unit :=
  if negb (length y_true =? length y_pred)%nat then Raise LibraryError
  else
    _ <- check_target y_true ;;
    check_target y_pred.

Definition squared_error (a b : fval) : fval :=
  fmul (fsub a b) (fsub a b).

Definition absolute_error (a b : fval) : fval := fabs (fsub a b).

(** [metrics.mean_squared_error(y_true, y_pred)] *)
Definition mean_squared_error (y_true y_pred : list fval) : result fval :=
  _ <- check_reg_targets y_true y_pred ;;
  Ok (fdiv (fsum (map2 squared_error y_true y_pred))
           (of_nat (length y_true))).

(** [metrics.mean_absolute_error(y_true, y_pred)] *)
Definition mean_absolute_error (y_true y_pred : list fval) : result fval :=
  _ <- check_reg_targets y_true y_pred ;;
  Ok (fdiv (fsum (map2 absolute_error y_true y_pred))
           (of_nat (length y_true))).

(** [metrics.r2_score(y_true, y_pred)]: undefined (NaN, with a warning)
    on fewer than two samples; 1 when the residual sum of squares is 0;
    0 when only the total sum of squares is 0. *)
Definition r2_score (y_true y_pred : list fval) : result fval :=
  _ <- check_reg_targets y_true y_pred ;;
  if (length y_pred <? 2)%nat then Ok NaN
  else
    let numerator := fsum (map2 squared_error y_true y_pred) in
    let average := fdiv (fsum y_true) (of_nat (length y_true)) in
    let denominator :=
      fsum (map (fun v => squared_error v average) y_true) in
    if feqb numerator (Fin 0) then Ok (Fin 1)
    else if feqb denominator (Fin 0) then Ok (Fin 0)
    else Ok (fsub (Fin 1) (fdiv numerator denominator)).


Section Evaluation.

(** The fitted network, from a scaled feature row to a scaled price. *)
Variable predict : list fval -> fval.

(** [y_pred_scaled = model.predict(X_test)], one column. *)
Definition y_pred_scaled (sp : split (list fval) fval) : matrix :=
  reshape_column (map predict (X_test sp)).

(** [y_pred = scaler_y.inverse_transform(y_pred_scaled)] *)
Definition y_pred (sc : Scaled) (sp : split (list fval) fval)
  : result matrix :=
  inverse_transform (scaler_y sc) (y_pred_scaled sp).



End Evaluation.

(** *** Cell 31 (lines 462-468): the points of the scatter plot *)

(** [a.sort()] on integers, by insertion. *)
Fixpoint insert_sorted (x : nat) (l : list nat) : list nat :=
  match l with
  | [] => [x]
  | y :: tl => if (x <=? y)%nat then x :: l else y :: insert_sorted x tl
  end.

Definition sort (l : list nat) : list nat :=
  fold_right insert_sorted [] l.

Section Plot.

Context {RS : RandomState}.

(** [np.random.choice(a, size, replace=False)] on the process-wide
    generator: the first [size] positions of a permutation; a sample
    larger than the population is refused. *)
Definition choice (global : rng) (a : list nat) (size : nat)
  : result (list nat) :=
  if (length a <? size)%nat then Raise LibraryError
  else Ok (take a (firstn size (permutation global (length a)))).

(** The positions plotted, out of [n] test samples. *)
Definition plot_indices (global : rng) (n : nat) : result (list nat) :=
  let indices := seq 0 n in
  if (100 <? length indices)%nat
  then chosen <- choice global indices 100 ;; Ok (sort chosen)
  else Ok indices.

End Plot.

(** *** Cell 33 (lines 501-507): the sample against the recorded price *)

(** [actual_price = df_clean['Close'].iloc[-1]]; [iloc[-1]] fails on an
    empty table. *)
Definition actual_price (sc : Scaled) : result fval :=
  match last_rows 1 (y sc) with
  | [v] => Ok v
  | _ => Raise LibraryError
  end.

(** [abs(sample_prediction - actual_price)] *)
Definition difference (prediction actual : fval) : fval :=
  fabs (fsub prediction actual).

(** [abs(sample_prediction - actual_price) / actual_price * 100] *)
Definition percentage_error (prediction actual : fval) : fval :=
  fmul (fdiv (fabs (fsub prediction actual)) actual) (Fin 100).

End Report.
Export Report.

(* ================================================================== *)
(** ** Day numbers of calendar dates *)
(* ================================================================== *)

Module Civil.

(** The day number (days from 1970-01-01) of the proleptic Gregorian date
    [y]-[m]-[d], the way back from [civil_from_days]. *)
Definition days_from_civil (y m d : Z) : Z :=
  let y' := (if (m <=? 2)%Z then y - 1 else y)%Z in
  let era := (y' / 400)%Z in
  let yoe := (y' - era * 400)%Z in
  let mp := (if (2 <? m)%Z then m - 3 else m + 9)%Z in
  let doy := ((153 * mp + 2) / 5 + d - 1)%Z in
  let doe := (yoe * 365 + yoe / 4 - yoe / 100 + doy)%Z in
  (era * 146097 + doe - 719468)%Z.

End Civil.
Export Civil.

(* ================================================================== *)
(** ** Further small tables *)
(* ================================================================== *)

Module Cases.

(** The 32 days of [demo_file] with the Close price of the second day
    missing. *)
Definition no_close (c : CsvRow) : CsvRow :=
  mkCsv (csv_Date c) (csv_Open c) (csv_High c) (csv_Low c) None
        (csv_Volume c) (csv_Marketcap c) (csv_Extra c).

Definition hole_file : list CsvRow :=
  map (fun i => if (i =? 1)%nat then no_close (demo_row i) else demo_row i)
      (seq 0 32).

Definition hole_clean : list CleanRow :=
  Eval vm_compute in cleaned_or_empty hole_file.

(** The 32 days with a Date cell on the third day that no parser
    accepts. *)
Definition unreadable_date (c : CsvRow) : CsvRow :=
  mkCsv (DateUnparsable "the day after") (csv_Open c) (csv_High c)
        (csv_Low c) (csv_Close c) (csv_Volume c) (csv_Marketcap c)
        (csv_Extra c).

Definition misdated_file : list CsvRow :=
  map (fun i =>
         if (i =? 2)%nat then unreadable_date (demo_row i) else demo_row i)
      (seq 0 32).

(** The scaled arrays of the 32 days. *)
Definition demo_scaled : Scaled :=
  Eval vm_compute in
    match scale demo_usable with
    | Ok sc => sc
    | Raise _ => mkScaled [] [] (mkScaler [] [] [] [] [])
                          (mkScaler [] [] [] [] []) [] []
    end.


(** The first 31 of the 32 days, cleaned. *)
Definition shorter_clean : list CleanRow :=
  Eval vm_compute in cleaned_or_empty (firstn 31 demo_file).

End Cases.
Export Cases.

(* ================================================================== *)
(** ** Which names are certainly bound *)
(* ================================================================== *)

Module Scoping.

Import Notebook.

(** Every name of [names] is among the names known to be bound. *)
Definition resolves (known names : list string) : bool :=
  forallb (bound known) names.

(** The names certainly bound after a sequence of simple statements,
    provided each of them finds the names it reads. *)
Fixpoint check_body (known : list string) (body : list simple)
  : option (list string) :=
  match body with
  | [] => Some known
  | s :: tl =>
      if resolves known (reads s)
      then check_body (binds s ++ known)%list tl
      else None
  end.

(** The same for the statements of a cell.  The branch of an [if] has to
    find its names, but what it binds is not relied on afterwards. *)
Fixpoint check_stmts (known : list string) (l : list stmt)
  : option (list string) :=
  match l with
  | [] => Some known
  | Exec s :: tl =>
      if resolves known (reads s)
      then check_stmts (binds s ++ known)%list tl
      else None
  | IfThen names body :: tl =>
      if resolves known names
      then match check_body known body with
           | Some _ => check_stmts known tl
           | None => None
           end
      else None
  end.

Fixpoint check_cells (known : list string) (cells : list cell)
  : option (list string) :=
  match cells with
  | [] => Some known
  | (_, body) :: tl =>
      match check_stmts known body with
      | Some known' => check_cells known' tl
      | None => None
      end
  end.

(** The cells before the training cell, and the names certainly bound
    when they have run. *)
Definition cells_before_training : list cell := firstn 20 notebook.

Definition known_before_training : list string :=
  Eval vm_compute in
    match check_cells builtins cells_before_training with
    | Some known => known
    | None => []
    end.

(** Every name known to be bound is bound in the environment. *)
Definition covers (known env : list string) : Prop :=
  forall x, In x known -> In x env.

End Scoping.

(* ================================================================== *)
(** ** Float64 arithmetic with its rounding *)
(* ================================================================== *)

Module Binary64.

(** [2 ^ k] for an integer [k] of either sign. *)
Definition pow2 (k : Z) : Q := Qpower 2 k.

(** [floor (log2 |q|)] for [q <> 0]. *)
Definition ilog2 (q : Q) : Z :=
  let k := (Z.log2 (Z.abs (Qnum q)) - Z.log2 (Zpos (Qden q)))%Z in
  if Qle_bool (pow2 k) (Qabs q) then k else (k - 1)%Z.

(** The nearest integer, a tie going to the even one. *)
Definition rne (x : Q) : Z :=
  let f := Qfloor x in
  match Qcompare (x - inject_Z f) (1 # 2) with
  | Lt => f
  | Gt => (f + 1)%Z
  | Eq => if Z.even f then f else (f + 1)%Z
  end.

(** The exponent of the last place of a binary64 number near [q]: 53
    significant bits, and no finer than [2^-1074]. *)
Definition ulp_exponent (q : Q) : Z := Z.max (ilog2 q - 52) (-1074).

(** Round to nearest, ties to even. *)
Definition round (q : Q) : Q :=
  if Qeq_bool q 0 then 0
  else let e := ulp_exponent q in
       Qred (inject_Z (rne (q / pow2 e)) * pow2 e).

(** The float64 result of an operation whose exact result is [q]. *)
Definition to_float (q : Q) : fval :=
  let r := round q in
  if Qle_bool (pow2 1024) (Qabs r) then Inf (Qltb q 0) else Fin r.

Definition rounded (v : fval) : fval :=
  match v with
  | Fin q => to_float q
  | _ => v
  end.

(** The unit roundoff [2^-53] and the largest error of a result in the
    subnormal range, [2^-1075]. *)
Definition u53 : Q := 1 # 9007199254740992.
Definition eta64 : Q := pow2 (-1075).

(** Rounding to the multiples of [2^e]. *)
Definition on_grid (e : Z) (q : Q) : Q :=
  inject_Z (rne (q / pow2 e)) * pow2 e.

(** A binary64 number: at most 53 significant bits over an exponent of
    the last place not below -1074.  (The upper end of the exponent
    range is checked where a result is formed, in [to_float].) *)
Definition representable (q : Q) : Prop :=
  exists k e : Z,
    (-1074 <= e)%Z /\ (Z.abs k <= 2 ^ 53)%Z /\ q == inject_Z k * pow2 e.

(** A number no larger in magnitude than [2^400]. *)
Definition moderate (v : fval) : Prop :=
  exists q, v = Fin q /\ Qabs q <= pow2 400.

Definition moderateb (v : fval) : bool :=
  match v with
  | Fin q => Qle_bool (Qabs q) (pow2 400)
  | _ => false
  end.

(** A recorded price: a positive number between [2^-400] and [2^400]. *)
Definition price_like (v : fval) : Prop :=
  exists q, v = Fin q /\ pow2 (-400) <= q <= pow2 400.

Definition price_likeb (v : fval) : bool :=
  match v with
  | Fin q => Qle_bool (pow2 (-400)) q && Qle_bool q (pow2 400)
  | _ => false
  end.

Definition add64 (a b : fval) : fval := rounded (fadd a b).
Definition sub64 (a b : fval) : fval := rounded (fsub a b).
Definition mul64 (a b : fval) : fval := rounded (fmul a b).
Definition div64 (a b : fval) : fval := rounded (fdiv a b).

End Binary64.
Export Binary64.

(* ================================================================== *)
(** ** The scaler as float64 computes it *)
(* ================================================================== *)

Module Scaler64.

(** [fit], with every arithmetic step rounded: the range of a column,
    the scale [1 / range] and the offset [0 - min * scale]. *)
Definition column_scale64 (c : list fval) : fval :=
  div64 (sub64 (snd feature_range) (fst feature_range))
        (handle_zeros_in_scale (sub64 (nanmax c) (nanmin c))).

Definition column_min64 (c : list fval) : fval :=
  sub64 (fst feature_range) (mul64 (nanmin c) (column_scale64 c)).

Definition fit64 (X : matrix) : result MinMaxScaler :=
  _ <- check_array X ;;
  let cols := map (column X) (seq 0 (n_features X)) in
  let data_min := map nanmin cols in
  let data_max := map nanmax cols in
  let data_range := map2 sub64 data_max data_min in
  let scale :=
    map (fun r => div64 (sub64 (snd feature_range) (fst feature_range))
                        (handle_zeros_in_scale r))
        data_range in
  let min := map2 (fun m s => sub64 (fst feature_range) (mul64 m s))
                  data_min scale in
  Ok (mkScaler data_min data_max data_range scale min).

(** [X *= scale_; X += min_] *)
Definition transform_row64 (s : MinMaxScaler) (row : list fval)
  : list fval :=
  map2 add64 (map2 mul64 row (scale_ s)) (min_ s).

(** [X -= min_; X /= scale_] *)
Definition inverse_row64 (s : MinMaxScaler) (row : list fval)
  : list fval :=
  map2 div64 (map2 sub64 row (min_ s)) (scale_ s).

Definition transform64 (s : MinMaxScaler) (X : matrix) : result matrix :=
  _ <- check_array X ;;
  _ <- check_n_features s X ;;
  Ok (map (transform_row64 s) X).

Definition inverse_transform64 (s : MinMaxScaler) (X : matrix)
  : result matrix :=
  _ <- check_array X ;;
  Ok (map (inverse_row64 s) X).

Definition fit_transform64 (X : matrix)
  : result (MinMaxScaler * matrix) :=
  s <- fit64 X ;;
  Xs <- transform64 s X ;;
  Ok (s, Xs).

(** One entry through [transform], and through [inverse_transform], with
    the scale [sc] and the offset [mn] of its column. *)
Definition scaled64 (sc mn x : Q) : Q := round (round (x * sc) + mn).
Definition unscaled64 (sc mn t : Q) : Q := round (round (t + - mn) / sc).

(** Every row has the width of the first: the array is rectangular. *)
Definition rectangular (X : matrix) : Prop :=
  forall row, In row X -> length row = n_features X.

Definition all_moderate (X : matrix) : Prop :=
  forall row v, In row X -> In v row -> moderate v.

End Scaler64.
Export Scaler64.

(* ================================================================== *)
(** ** Tables within the range of the machine types *)
(* ================================================================== *)

Module Ranges.

(** A cell that is missing or a number no larger than [2^400] in
    magnitude. *)
Definition cell_in_range (c : option Q) : bool :=
  match c with
  | Some q => Qle_bool (Qabs q) (pow2 400)
  | None => true
  end.

Definition positive_cell (c : option Q) : bool :=
  match c with
  | Some q => Qltb 0 q
  | None => true
  end.

Definition row_in_range (c : CsvRow) : bool :=
  cell_in_range (csv_Open c) && cell_in_range (csv_High c)
  && cell_in_range (csv_Low c) && cell_in_range (csv_Close c)
  && cell_in_range (csv_Volume c) && cell_in_range (csv_Marketcap c)
  && positive_cell (csv_Close c).

(** The day numbers of the readable dates. *)
Definition day_numbers (file : list CsvRow) : list Z :=
  flat_map (fun c => match csv_Date c with
                     | DateText d => [d]
                     | _ => []
                     end) file.

(** Every readable date lies within 50000 days of 1970-01-01, that is
    between 1833 and 2106: inside the nanosecond clock of pandas, which
    reaches 106751 days either way, and so that no two dates are that
    far apart. *)
Definition dates_in_range (file : list CsvRow) : bool :=
  forallb (fun d => (Z.abs d <=? 50000)%Z) (day_numbers file).

(** A table the arithmetic of the cells cannot overflow on: every number
    is at most [2^400] in magnitude, a Close price that is present is
    positive, the dates lie between 1833 and 2106 and there are fewer
    than [2^64] rows. *)
Definition in_float_range (file : list CsvRow) : bool :=
  forallb row_in_range file && dates_in_range file
  && (Z.of_nat (length file) <? 2 ^ 64)%Z.

End Ranges.
Export Ranges.

(* ================================================================== *)
(** ** Prices as float64 holds them *)
(* ================================================================== *)

Module Cases64.

(** Three closing prices as float64 holds them: 15.64, 20 and 31. *)
Definition float_prices : list fval :=
  [ Fin (1100567158938665 # 70368744177664); Fin 20; Fin 31 ].

(** Prices from 100.59 to 101.17. *)
Definition narrow_prices : list fval :=
  [ Fin (3539195988415611 # 35184372088832);
    Fin (7119205848454267 # 70368744177664) ].

End Cases64.
Export Cases64.

(* ================================================================== *)
(** ** The floats of the machine *)
(* ================================================================== *)

Module Hardware.

Import PrimFloat.

(** The value of one of Rocq's primitive floats, which are the binary64
    numbers of the machine. *)
Definition value_of (f : float) : fval :=
  match FloatOps.Prim2SF f with
  | SpecFloat.S754_zero _ => Fin 0
  | SpecFloat.S754_finite s m e =>
      Fin (Qred ((if s then -1 else 1) * inject_Z (Zpos m) * pow2 e))
  | SpecFloat.S754_infinity s => Inf s
  | SpecFloat.S754_nan => Float.NaN
  end.

Definition same_value (f : float) (v : fval) : bool :=
  match value_of f, v with
  | Fin q, Fin r => Qeq_bool q r
  | Inf s, Inf s' => Bool.eqb s s'
  | Float.NaN, Float.NaN => true
  | _, _ => false
  end.

(** The four rounded operations against those of the machine. *)
Definition operations_agree (a b : float) : bool :=
  same_value (a + b)%float (add64 (value_of a) (value_of b))
  && same_value (a - b)%float (sub64 (value_of a) (value_of b))
  && same_value (a * b)%float (mul64 (value_of a) (value_of b))
  && same_value (a / b)%float (div64 (value_of a) (value_of b)).

(** Prices, small and large numbers, ties, subnormal numbers and the
    largest float. *)
Definition samples : list float :=
  [ 0x1.f47ae147ae148p+3; 31; 0x1.999999999999ap-4; 3;
    0x1.925c28f5c28f6p+6; 0x1p-60; -1;
    0x1.1ccf385ebc8ap+1023; 0x1.fffffffffffffp+1023;
    0x0.0000000000001p-1022; 0x0.00000000007e8p-1022;
    0x1p+53; -0x1.8p+1; 0 ]%float.

Definition all_agree : bool :=
  forallb (fun a => forallb (operations_agree a) samples) samples.

End Hardware.

(* ================================================================== *)
(** * Facts *)
(* ================================================================== *)

Unset Implicit Arguments.

(** ** The model on small inputs *)

Example first_day_of_the_file :
  civil_from_days 15824 = (2013, 4, 29)%Z
  /\ dt_dayofweek (Some 15824%Z) = Fin 0.
Proof. split; reflexivity. Qed.

Example leap_day : civil_from_days 19782 = (2024, 2, 29)%Z.
Proof. reflexivity. Qed.

Example diff_example :
  diff [Fin 1; Fin 3; NaN; Fin 4] = [NaN; Fin 2; NaN; NaN].
Proof. reflexivity. Qed.

Example pct_change_example :
  pct_change [Fin 1; Fin 3; NaN; Fin 4; Fin 0; Fin 0; Fin 2]
  = [NaN; Fin 2; Fin (0 # 3); Fin (1 # 3); Fin (-4 # 4); NaN; Inf false].
Proof. reflexivity. Qed.

Example rolling_mean_example :
  rolling_mean 3 [Fin 1; Fin 2; Fin 3; NaN; Fin 5; Fin 6; Fin 7]
  = [NaN; NaN; Fin (6 # 3); NaN; NaN; NaN; Fin (18 # 3)].
Proof. reflexivity. Qed.

(** A thousand days leave 971 usable rows, split into 776 for training
    and 195 for testing. *)
Example thousand_days :
  let file := map demo_row (seq 0 1000) in
  option_map (@length _)
             (match prepare file with Ok df => Some df | Raise _ => None end)
  = Some 971%nat
  /\ validate_shuffle_split 971 (2 # 10) = Ok (776%nat, 195%nat)
  /\ match run_to_split (RS := countdown) 0%Z file with
     | Done (_, sp) => Some (length (X_train sp), length (X_test sp))
     | Failed _ _ => None
     end = Some (776%nat, 195%nat).
Proof. split; [| split]; vm_compute; reflexivity. Qed.

(** ** Lists *)

Section ListFacts.

Context {A B C : Type}.

Lemma length_imap_from (f : nat -> A -> B) (l : list A) (k : nat) :
  length (imap_from k f l) = length l.
Proof.
  revert k; induction l as [| x tl IH]; intros k; simpl; [reflexivity |].
  now rewrite IH.
Qed.

Lemma nth_error_imap_from (f : nat -> A -> B) (l : list A) (k i : nat) :
  nth_error (imap_from k f l) i = option_map (f (k + i)%nat) (nth_error l i).
Proof.
  revert k i; induction l as [| x tl IH]; intros k i; simpl.
  - now destruct i.
  - destruct i as [| i]; simpl.
    + now rewrite Nat.add_0_r.
    + rewrite IH. now rewrite Nat.add_succ_r.
Qed.

Lemma length_imap (f : nat -> A -> B) (l : list A) :
  length (imap f l) = length l.
Proof. apply length_imap_from. Qed.

Lemma nth_error_imap (f : nat -> A -> B) (l : list A) (i : nat) :
  nth_error (imap f l) i = option_map (f i) (nth_error l i).
Proof. unfold imap. now rewrite nth_error_imap_from. Qed.

Lemma length_map2 (f : A -> B -> C) (xs : list A) (ys : list B) :
  length (map2 f xs ys) = Nat.min (length xs) (length ys).
Proof.
  revert ys; induction xs as [| x xs IH]; intros [| y ys]; simpl; auto.
Qed.

Lemma nth_error_map2 (f : A -> B -> C) (xs : list A) (ys : list B)
      (i : nat) (x : A) (y : B) :
  nth_error xs i = Some x -> nth_error ys i = Some y ->
  nth_error (map2 f xs ys) i = Some (f x y).
Proof.
  revert ys i; induction xs as [| x0 xs IH]; intros [| y0 ys] [| i];
    simpl; try discriminate.
  - now intros [= ->] [= ->].
  - apply IH.
Qed.

Lemma nth_error_map2_inv (f : A -> B -> C) (xs : list A) (ys : list B)
      (i : nat) (z : C) :
  nth_error (map2 f xs ys) i = Some z ->
  exists x y, nth_error xs i = Some x /\ nth_error ys i = Some y
              /\ z = f x y.
Proof.
  revert ys i; induction xs as [| x0 xs IH]; intros [| y0 ys] [| i];
    simpl; try discriminate.
  - intros [= <-]. now exists x0, y0.
  - apply IH.
Qed.

(** A filter that rejects exactly the first [k] positions is [skipn k]. *)
Lemma filter_skipn (p : A -> bool) (l : list A) (k : nat) :
  (forall i r, nth_error l i = Some r -> p r = (k <=? i)%nat) ->
  filter p l = skipn k l.
Proof.
  revert k; induction l as [| x tl IH]; intros k H.
  - now destruct k.
  - simpl. rewrite (H 0%nat x eq_refl). destruct k as [| k]; simpl.
    + f_equal. rewrite (IH 0%nat); [reflexivity |].
      intros i r Hi. now rewrite (H (S i) r Hi).
    + apply IH. intros i r Hi. now rewrite (H (S i) r Hi).
Qed.

Lemma filter_nil_iff (p : A -> bool) (l : list A) :
  (forall r, In r l -> p r = false) -> filter p l = [].
Proof.
  induction l as [| x tl IH]; intros H; simpl; [reflexivity |].
  rewrite (H x (or_introl eq_refl)). apply IH.
  intros r Hr. apply H. now right.
Qed.

Lemma length_filter_le (p : A -> bool) (l : list A) :
  (length (filter p l) <= length l)%nat.
Proof.
  induction l as [| x tl IH]; simpl; [lia |].
  destruct (p x); simpl; lia.
Qed.

Lemma length_filter_lt (p : A -> bool) (l : list A) (x : A) :
  In x l -> p x = false -> (length (filter p l) < length l)%nat.
Proof.
  induction l as [| y tl IH]; simpl; [tauto |].
  intros [-> | Hin] Hp.
  - rewrite Hp. pose proof (length_filter_le p tl). lia.
  - specialize (IH Hin Hp). destruct (p y); simpl; lia.
Qed.

(** The [w] rows from position [a] on, by slicing and by indexing. *)
Lemma slice_by_index (d : A) (xs : list A) (a w : nat) :
  (a + w <= length xs)%nat ->
  skipn a (firstn (a + w) xs) = map (fun k => nth k xs d) (seq a w).
Proof.
  intros Hlen. rewrite <- firstn_skipn_comm.
  revert a xs Hlen; induction w as [| w IH]; intros a xs Hlen.
  - reflexivity.
  - simpl seq. simpl map.
    destruct (skipn a xs) as [| x tl] eqn:E.
    + assert (L : length (skipn a xs) = 0%nat) by now rewrite E.
      rewrite length_skipn in L. lia.
    + simpl. f_equal.
      * assert (N : nth_error (skipn a xs) 0 = Some x) by now rewrite E.
        rewrite nth_error_skipn, Nat.add_0_r in N.
        symmetry. now apply nth_error_nth.
      * rewrite <- (IH (S a) xs) by lia.
        f_equal. change (S a) with (1 + a)%nat.
        rewrite <- skipn_skipn, E. reflexivity.
  Qed.

End ListFacts.

Lemma mapM_Forall2 {A B : Type} (f : A -> result B) (l : list A)
      (l' : list B) :
  mapM f l = Ok l' -> Forall2 (fun x y => f x = Ok y) l l'.
Proof.
  revert l'; induction l as [| x tl IH]; intros l'; simpl.
  - intros [= <-]. constructor.
  - destruct (f x) as [y | e] eqn:E; simpl; [| discriminate].
    destruct (mapM f tl) as [ys | e]; simpl; [| discriminate].
    intros [= <-]. constructor; auto.
Qed.

Lemma mapM_total {A B : Type} (f : A -> result B) (l : list A) :
  (forall x, In x l -> exists y, f x = Ok y) -> exists l', mapM f l = Ok l'.
Proof.
  induction l as [| x tl IH]; intros H; simpl.
  - now exists [].
  - destruct (H x (or_introl eq_refl)) as [y ->].
    destruct IH as [ys ->]; [intros; apply H; now right |].
    simpl. now exists (y :: ys).
Qed.

Lemma Forall2_nth_error {A B : Type} (R : A -> B -> Prop) (l : list A)
      (l' : list B) (i : nat) (x : A) :
  Forall2 R l l' -> nth_error l i = Some x ->
  exists y, nth_error l' i = Some y /\ R x y.
Proof.
  intros H; revert i; induction H as [| a b l l' Hab _ IH]; intros i.
  - now destruct i.
  - destruct i as [| i]; simpl.
    + intros [= <-]. now exists b.
    + apply IH.
Qed.

(** ** Float cells and Series *)

Lemma isna_true (v : fval) : isna v = true <-> v = NaN.
Proof. destruct v; simpl; split; congruence. Qed.

Lemma notna_false (v : fval) : notna v = false <-> v = NaN.
Proof.
  unfold notna. rewrite negb_false_iff. apply isna_true.
Qed.

Lemma fadd_nan_r (a : fval) : fadd a NaN = NaN.
Proof. now destruct a. Qed.

Lemma fold_fadd_nan (xs : list fval) : fold_left fadd xs NaN = NaN.
Proof. induction xs as [| x tl IH]; simpl; auto. Qed.

Lemma fold_fadd_has_nan (xs : list fval) (acc : fval) :
  In NaN xs -> fold_left fadd xs acc = NaN.
Proof.
  revert acc; induction xs as [| x tl IH]; intros acc; simpl; [tauto |].
  intros [-> | Hin].
  - rewrite fadd_nan_r. apply fold_fadd_nan.
  - now apply IH.
Qed.

Lemma fsum_has_nan (xs : list fval) : In NaN xs -> fsum xs = NaN.
Proof. apply fold_fadd_has_nan. Qed.

Lemma forallb_false_witness {A : Type} (p : A -> bool) (l : list A) :
  forallb p l = false -> exists x, In x l /\ p x = false.
Proof.
  induction l as [| x tl IH]; simpl; [discriminate |].
  destruct (p x) eqn:E; simpl.
  - intros H. destruct (IH H) as [y [Hy Hp]]. exists y; auto.
  - intros _. exists x; auto.
Qed.

(** A window with fewer rows than [min_periods] has no mean. *)
Lemma window_mean_short (w : nat) (obs : list fval) :
  (length obs < w)%nat -> window_mean w obs = NaN.
Proof.
  intros H. unfold window_mean.
  pose proof (length_filter_le notna obs) as L.
  destruct (Nat.leb_spec w (length (filter notna obs))); [lia | reflexivity].
Qed.

(** A full window: skipping NaN and counting the observations gives
    what the plain sum over the window size gives. *)
Lemma window_mean_full (w : nat) (obs : list fval) :
  length obs = w -> window_mean w obs = fdiv (fsum obs) (of_nat w).
Proof.
  intros H. unfold window_mean.
  destruct (forallb notna obs) eqn:E.
  - rewrite (forallb_filter_id _ _ E), H, Nat.leb_refl. reflexivity.
  - destruct (forallb_false_witness _ _ E) as [x [Hin Hx]].
    pose proof (length_filter_lt notna obs x Hin Hx) as L.
    destruct (Nat.leb_spec w (length (filter notna obs))); [lia |].
    apply notna_false in Hx; subst x.
    now rewrite (fsum_has_nan _ Hin).
Qed.

Lemma length_window (w : nat) (xs : list fval) (t : nat) :
  (t < length xs)%nat -> length (window w xs t) = Nat.min w (S t).
Proof.
  intros H. unfold window. rewrite length_skipn, length_firstn. lia.
Qed.

Lemma length_rolling_mean (w : nat) (xs : list fval) :
  length (rolling_mean w xs) = length xs.
Proof. unfold rolling_mean. now rewrite length_map, length_seq. Qed.

Lemma at_row_rolling_mean (w : nat) (xs : list fval) (t : nat) :
  (t < length xs)%nat ->
  at_row (rolling_mean w xs) t = window_mean w (window w xs t).
Proof.
  intros H. unfold at_row, rolling_mean.
  apply nth_error_nth. rewrite nth_error_map, nth_error_seq.
  destruct (Nat.ltb_spec t (length xs)); [reflexivity | lia].
Qed.

(** Before the window is full the rolling mean is undefined. *)
Lemma rolling_mean_undefined (w : nat) (xs : list fval) (t : nat) :
  (S t < w)%nat -> at_row (rolling_mean w xs) t = NaN.
Proof.
  intros H. destruct (Nat.lt_ge_cases t (length xs)) as [L | L].
  - rewrite at_row_rolling_mean by exact L.
    apply window_mean_short. rewrite length_window by exact L. lia.
  - unfold at_row. apply nth_overflow. now rewrite length_rolling_mean.
Qed.

(** Once it is full, the rolling mean is the trailing mean. *)
Lemma rolling_mean_trailing (w : nat) (xs : list fval) (t : nat) :
  (0 < w)%nat -> (w <= S t)%nat -> (t < length xs)%nat ->
  at_row (rolling_mean w xs) t = trailing_mean w xs t.
Proof.
  intros Hw Hfull Ht. rewrite at_row_rolling_mean by exact Ht.
  rewrite window_mean_full.
  - unfold trailing_mean, window. f_equal. f_equal.
    replace (S t) with ((S t - w) + w)%nat at 2 by lia.
    apply slice_by_index. lia.
  - rewrite length_window by exact Ht. lia.
Qed.

(** ** The cleaning cells *)

Section CleanFacts.

Implicit Types (raw : list (PriceRecord raw_date)) (df : list CleanRow).

Lemma Date_imputed {D : Type} (m : fval) (r : PriceRecord D) :
  Date (imputed m r) = Date r.
Proof. unfold imputed. now destruct (feqb _ _). Qed.

Lemma map2_map_l {A A' B C : Type} (f : A' -> B -> C) (g : A -> A')
      (xs : list A) (ys : list B) :
  map2 f (map g xs) ys = map2 (fun x y => f (g x) y) xs ys.
Proof.
  revert ys; induction xs as [| x xs IH]; intros [| y ys]; simpl; auto.
  now rewrite IH.
Qed.

Lemma clean_inv raw df :
  clean raw = Ok df ->
  exists ts,
    Forall2 (fun r t => parse_date (Date r) = Ok t) raw ts
    /\ df = map2 (cleaned (mean_volume raw) (date_min ts)) raw ts.
Proof.
  unfold clean. intros H.
  destruct (to_datetime _) as [ts |] eqn:E; simpl in H; [| discriminate].
  injection H as <-. exists ts. split.
  - apply mapM_Forall2 in E. unfold impute_volume in E.
    rewrite map_map in E.
    clear - E. remember (mean_volume raw) as m eqn:Hm. clear Hm.
    revert ts E. induction raw as [| r tl IH]; intros ts E;
      inversion E; subst; constructor.
    + now rewrite <- (Date_imputed m r).
    + now apply IH.
  - unfold add_calendar, impute_volume. rewrite map2_map_l. reflexivity.
Qed.

Lemma clean_total raw :
  (forall r, In r raw -> forall text, Date r <> DateUnparsable text) ->
  exists df, clean raw = Ok df.
Proof.
  intros H. unfold clean.
  destruct (mapM_total parse_date (map (@Date raw_date) (impute_volume raw)))
    as [ts E].
  - intros d Hd. apply in_map_iff in Hd. destruct Hd as [r' [<- Hr']].
    unfold impute_volume in Hr'. apply in_map_iff in Hr'.
    destruct Hr' as [r [<- Hr]].
    rewrite Date_imputed.
    specialize (H r Hr). destruct (Date r) as [| text | days]; simpl.
    + now exists None.
    + now elim (H text).
    + now exists (Some days).
  - unfold to_datetime. rewrite E. simpl. eauto.
Qed.

Lemma Forall2_map2_nth_error {A B C : Type} (R : A -> B -> Prop)
      (f : A -> B -> C) (xs : list A) (ys : list B) (i : nat) (x : A) :
  Forall2 R xs ys -> nth_error xs i = Some x ->
  exists y, nth_error ys i = Some y /\ R x y
            /\ nth_error (map2 f xs ys) i = Some (f x y).
Proof.
  intros H Hx. destruct (Forall2_nth_error R xs ys i x H Hx) as [y [Hy HR]].
  exists y. repeat split; auto. now apply nth_error_map2.
Qed.

Lemma Forall2_map_map2 {A B C E : Type} (R : A -> B -> Prop)
      (f : A -> B -> C) (h : C -> E) (k : A -> E)
      (xs : list A) (ys : list B) :
  Forall2 R xs ys -> (forall x y, h (f x y) = k x) ->
  map h (map2 f xs ys) = map k xs.
Proof.
  intros H Hk. induction H; simpl; [reflexivity |].
  now rewrite Hk, IHForall2.
Qed.

Lemma Forall2_length_map2 {A B C : Type} (R : A -> B -> Prop)
      (f : A -> B -> C) (xs : list A) (ys : list B) :
  Forall2 R xs ys -> length (map2 f xs ys) = length xs.
Proof.
  intros H. rewrite length_map2, (Forall2_length H). lia.
Qed.

(** The cleaning stage keeps the number of rows. *)
Lemma length_clean raw df : clean raw = Ok df -> length df = length raw.
Proof.
  intros H. destruct (clean_inv raw _ H) as [ts [F ->]].
  exact (Forall2_length_map2 _ _ _ _ F).
Qed.

(** Row [i] of the cleaned table is made from row [i] of the input. *)
Lemma clean_row raw df (i : nat) (r : PriceRecord raw_date) :
  clean raw = Ok df -> nth_error raw i = Some r ->
  exists ts t,
    Forall2 (fun r t => parse_date (Date r) = Ok t) raw ts
    /\ nth_error ts i = Some t
    /\ parse_date (Date r) = Ok t
    /\ nth_error df i = Some (cleaned (mean_volume raw) (date_min ts) r t).
Proof.
  intros H Hr. destruct (clean_inv raw _ H) as [ts [F ->]].
  destruct (Forall2_map2_nth_error _
              (cleaned (mean_volume raw) (date_min ts)) _ _ i _ F Hr)
    as [t [Ht [Hp Hn]]].
  exists ts, t. auto.
Qed.

(** The price columns pass through the cleaning stage as they are. *)
Lemma clean_col (f : forall D, PriceRecord D -> fval) raw df :
  (forall D E (r : PriceRecord D) (d : E), f E (set_Date r d) = f D r) ->
  (forall D (r : PriceRecord D) v, f D (set_Volume r v) = f D r) ->
  clean raw = Ok df ->
  col (f (option Z)) df = map (f raw_date) raw.
Proof.
  intros Hd Hv H. destruct (clean_inv raw _ H) as [ts [F ->]].
  unfold col. apply (Forall2_map_map2 _ _ _ _ _ _ F).
  intros r t. unfold cleaned, with_calendar, imputed. simpl. rewrite Hd.
  destruct (feqb _ _); [apply Hv | reflexivity].
Qed.

Lemma clean_Close raw df :
  clean raw = Ok df -> col (@Close _) df = map (@Close _) raw.
Proof. apply (clean_col (@Close)); reflexivity. Qed.

Lemma clean_Open raw df :
  clean raw = Ok df -> col (@Open _) df = map (@Open _) raw.
Proof. apply (clean_col (@Open)); reflexivity. Qed.

Lemma clean_High raw df :
  clean raw = Ok df -> col (@High _) df = map (@High _) raw.
Proof. apply (clean_col (@High)); reflexivity. Qed.

Lemma clean_Low raw df :
  clean raw = Ok df -> col (@Low _) df = map (@Low _) raw.
Proof. apply (clean_col (@Low)); reflexivity. Qed.

End CleanFacts.

Lemma read_csv_dates_readable (file : list CsvRow) :
  dates_readable file ->
  forall r, In r (read_csv file) -> forall text, Date r <> DateUnparsable text.
Proof.
  intros H r Hr text. unfold read_csv in Hr. apply in_map_iff in Hr.
  destruct Hr as [c [<- Hc]]. simpl. now apply H.
Qed.

Lemma length_read_csv (file : list CsvRow) :
  length (read_csv file) = length file.
Proof. apply length_map. Qed.

(** ** The feature-engineering cells *)

Lemma length_engineer (df : list CleanRow) :
  length (engineer df) = length df.
Proof. apply length_imap. Qed.

Lemma base_engineer (df : list CleanRow) (i : nat) (r : FeatureRow) :
  nth_error (engineer df) i = Some r ->
  nth_error df i = Some (base r).
Proof.
  unfold engineer. rewrite nth_error_imap.
  destruct (nth_error df i) as [c |]; simpl; [| discriminate].
  now intros [= <-].
Qed.

Lemma MA7_engineer (df : list CleanRow) (i : nat) (r : FeatureRow) :
  nth_error (engineer df) i = Some r ->
  MA7 (tech r) = at_row (rolling_mean 7 (col (@Close _) df)) i.
Proof.
  unfold engineer. rewrite nth_error_imap.
  destruct (nth_error df i) as [c |]; simpl; [| discriminate].
  now intros [= <-].
Qed.

Lemma MA30_engineer (df : list CleanRow) (i : nat) (r : FeatureRow) :
  nth_error (engineer df) i = Some r ->
  MA30 (tech r) = at_row (rolling_mean 30 (col (@Close _) df)) i.
Proof.
  unfold engineer. rewrite nth_error_imap.
  destruct (nth_error df i) as [c |]; simpl; [| discriminate].
  now intros [= <-].
Qed.

(* ================================================================== *)
(** * The claims *)
(* ================================================================== *)

(** ** Moving averages *)

Lemma Close_read_csv (file : list CsvRow) :
  map (@Close _) (read_csv file) = map (fun c => of_cell (csv_Close c)) file.
Proof. unfold read_csv. rewrite map_map. reflexivity. Qed.

(** C7.  For every price file and every row [t] of the engineered table:
    from row 6 on, MA7 is the arithmetic mean of the seven Close values
    of the rows [t-6 .. t]; from row 29 on, MA30 is the arithmetic mean
    of the thirty Close values of the rows [t-29 .. t]; on the rows
    before, MA7 respectively MA30 is undefined (NaN). *)
Theorem moving_averages_are_trailing_means
        (file : list CsvRow) (df : list CleanRow) (t : nat)
        (r : FeatureRow) :
  clean (read_csv file) = Ok df ->
  nth_error (engineer df) t = Some r ->
  let close := map (fun c => of_cell (csv_Close c)) file in
  ((6 <= t)%nat -> MA7 (tech r) = trailing_mean 7 close t)
  /\ ((t < 6)%nat -> MA7 (tech r) = NaN)
  /\ ((29 <= t)%nat -> MA30 (tech r) = trailing_mean 30 close t)
  /\ ((t < 29)%nat -> MA30 (tech r) = NaN).
Proof.
  intros Hclean Hr close.
  assert (Hcol : col (@Close _) df = close).
  { rewrite (clean_Close _ _ Hclean). apply Close_read_csv. }
  assert (Ht : (t < length close)%nat).
  { rewrite <- Hcol. unfold col. rewrite length_map.
    rewrite <- (length_engineer df). apply nth_error_Some. congruence. }
  rewrite (MA7_engineer _ _ _ Hr), (MA30_engineer _ _ _ Hr), Hcol.
  repeat split; intros H.
  - apply rolling_mean_trailing; lia.
  - apply rolling_mean_undefined; lia.
  - apply rolling_mean_trailing; lia.
  - apply rolling_mean_undefined; lia.
Qed.

Lemma moving_averages_witness :
  clean (read_csv demo_file) = Ok demo_clean
  /\ nth_error (engineer demo_clean) 31 = Some demo_last
  /\ MA7 (tech demo_last)
     = trailing_mean 7 (map (fun c => of_cell (csv_Close c)) demo_file) 31
  /\ MA30 (tech demo_last)
     = trailing_mean 30 (map (fun c => of_cell (csv_Close c)) demo_file) 31.
Proof.
  assert (H1 : clean (read_csv demo_file) = Ok demo_clean)
    by (vm_compute; reflexivity).
  assert (H2 : nth_error (engineer demo_clean) 31 = Some demo_last)
    by (vm_compute; reflexivity).
  destruct (moving_averages_are_trailing_means demo_file _ 31 _ H1 H2)
    as [A [_ [B _]]].
  split; [exact H1 |].
  split; [exact H2 |].
  split; [apply A; lia | apply B; lia].
Defined.

(** ** The cleaning stage *)

Lemma nth_error_read_csv (file : list CsvRow) (i : nat) (c : CsvRow) :
  nth_error file i = Some c ->
  nth_error (read_csv file) i
  = Some (mkPrice (csv_Date c)
                  (of_cell (csv_Open c)) (of_cell (csv_High c))
                  (of_cell (csv_Low c)) (of_cell (csv_Close c))
                  (of_cell (csv_Volume c)) (of_cell (csv_Marketcap c))
                  (csv_Extra c)).
Proof. intros H. unfold read_csv. now rewrite nth_error_map, H. Qed.

Lemma Volume_read_csv (file : list CsvRow) :
  map (@Volume _) (read_csv file)
  = map (fun c => of_cell (csv_Volume c)) file.
Proof. unfold read_csv. rewrite map_map. reflexivity. Qed.

(** C8.  Whenever the Date column can be read, the cleaning stage
    (cells 8 to 10) returns a table with as many rows as the input file
    has lines, whatever cells are missing, and row [i] of it carries the
    Open, High, Low, Close and Marketcap cells (and the cells of any
    further column) of line [i] unchanged: only Volume and Date are
    rewritten. *)
Theorem cleaning_keeps_rows_and_prices (file : list CsvRow) :
  dates_readable file ->
  exists df,
    clean (read_csv file) = Ok df
    /\ length df = length file
    /\ forall i c,
        nth_error file i = Some c ->
        exists r,
          nth_error df i = Some r
          /\ Open (price r) = of_cell (csv_Open c)
          /\ High (price r) = of_cell (csv_High c)
          /\ Low (price r) = of_cell (csv_Low c)
          /\ Close (price r) = of_cell (csv_Close c)
          /\ Marketcap (price r) = of_cell (csv_Marketcap c)
          /\ Extra (price r) = csv_Extra c.
Proof.
  intros Hd.
  destruct (clean_total (read_csv file) (read_csv_dates_readable _ Hd))
    as [df Hclean].
  exists df. split; [exact Hclean |]. split.
  - rewrite (length_clean _ _ Hclean). apply length_read_csv.
  - intros i c Hc.
    destruct (clean_row _ _ i _ Hclean (nth_error_read_csv _ _ _ Hc))
      as [ts [t [_ [_ [_ Hrow]]]]].
    eexists. split; [exact Hrow |].
    unfold cleaned, with_calendar, imputed. simpl.
    destruct (feqb _ _); simpl; repeat split; reflexivity.
Qed.

Lemma cleaning_keeps_rows_witness :
  dates_readable demo_file
  /\ exists df,
      clean (read_csv demo_file) = Ok df /\ length df = 32%nat.
Proof.
  assert (Hd : dates_readable demo_file).
  { intros c Hc text.
    unfold demo_file in Hc. apply in_map_iff in Hc.
    destruct Hc as [i [<- _]]. discriminate. }
  split; [exact Hd |].
  destruct (cleaning_keeps_rows_and_prices _ Hd) as [df [H1 [H2 _]]].
  exists df. split; [exact H1 | exact H2].
Defined.

(** ** Volume imputation *)

Lemma feqb_zero_iff (v : fval) : feqb v (Fin 0) = true <-> is_zero v.
Proof.
  unfold is_zero. destruct v as [| s | q]; simpl.
  - split; [discriminate | intros [q [H _]]; discriminate].
  - split; [discriminate | intros [q [H _]]; discriminate].
  - rewrite Qeq_bool_iff. split.
    + intros H. now exists q.
    + intros [q' [[= <-] H]]. exact H.
Qed.

Lemma map_filter_comm {A B : Type} (f : A -> B) (p : B -> bool)
      (l : list A) :
  map f (filter (fun x => p (f x)) l) = filter p (map f l).
Proof.
  induction l as [| x tl IH]; simpl; [reflexivity |].
  destruct (p (f x)); simpl; now rewrite IH.
Qed.

Lemma positive_notna (v : fval) : fltb (Fin 0) v = true -> notna v = true.
Proof. now destruct v. Qed.

Lemma filter_filter_id {A : Type} (p q : A -> bool) (l : list A) :
  (forall x, p x = true -> q x = true) ->
  filter q (filter p l) = filter p l.
Proof.
  intros H. apply forallb_filter_id. apply forallb_forall.
  intros x Hx. apply filter_In in Hx. now apply H.
Qed.

(** The mean the notebook imputes is the mean of the strictly positive
    volumes. *)
Lemma mean_volume_positive_mean {D : Type} (df : list (PriceRecord D)) :
  mean_volume df = positive_mean (map (@Volume D) df).
Proof.
  unfold mean_volume, non_zero_volumes, positive_mean, mean.
  rewrite (map_filter_comm (@Volume D) (fltb (Fin 0))).
  now rewrite (filter_filter_id _ _ _ positive_notna).
Qed.

(** C3.  Whenever the Date column can be read, the cleaning stage returns
    a table in which row [i] has, for a line [i] whose Volume is 0, the
    arithmetic mean of the strictly positive Volume cells of the whole
    file (one value for the file), and for a line whose Volume is not 0
    (missing included) the Volume of that line unchanged. *)
Theorem zero_volume_takes_positive_mean (file : list CsvRow) :
  dates_readable file ->
  exists df,
    clean (read_csv file) = Ok df
    /\ forall i c,
        nth_error file i = Some c ->
        exists r,
          nth_error df i = Some r
          /\ (is_zero (of_cell (csv_Volume c)) ->
              Volume (price r)
              = positive_mean (map (fun c => of_cell (csv_Volume c)) file))
          /\ (~ is_zero (of_cell (csv_Volume c)) ->
              Volume (price r) = of_cell (csv_Volume c)).
Proof.
  intros Hd.
  destruct (clean_total (read_csv file) (read_csv_dates_readable _ Hd))
    as [df Hclean].
  exists df. split; [exact Hclean |].
  intros i c Hc.
  destruct (clean_row _ _ i _ Hclean (nth_error_read_csv _ _ _ Hc))
    as [ts [t [_ [_ [_ Hrow]]]]].
  eexists. split; [exact Hrow |].
  unfold cleaned, with_calendar, imputed. simpl.
  rewrite mean_volume_positive_mean, Volume_read_csv.
  destruct (feqb (of_cell (csv_Volume c)) (Fin 0)) eqn:E; simpl.
  - split; [reflexivity |].
    intros N. elim N. now apply feqb_zero_iff.
  - split; [| reflexivity].
    intros Z. apply feqb_zero_iff in Z. congruence.
Qed.

Lemma zero_volume_witness :
  dates_readable demo_file
  /\ exists r,
      nth_error (cleaned_or_empty demo_file) 5 = Some r
      /\ Volume (price r)
         = positive_mean (map (fun c => of_cell (csv_Volume c)) demo_file).
Proof.
  assert (Hd : dates_readable demo_file).
  { intros c Hc text.
    unfold demo_file in Hc. apply in_map_iff in Hc.
    destruct Hc as [i [<- _]]. discriminate. }
  split; [exact Hd |].
  destruct (zero_volume_takes_positive_mean _ Hd) as [df [H1 H2]].
  destruct (H2 5%nat (demo_row 5) eq_refl) as [r [Hr [Hz _]]].
  exists r. split.
  - unfold cleaned_or_empty. rewrite H1. exact Hr.
  - apply Hz. exists 0. split; reflexivity.
Defined.

(** ** Defined and undefined cells of the engineered table *)

Lemma is_finite_inv (v : fval) : is_finite v -> exists q, v = Fin q.
Proof. destruct v; simpl; try tauto. intros _. now eexists. Qed.

Lemma is_positive_finite (v : fval) : is_positive v -> is_finite v.
Proof. now intros [q [-> _]]. Qed.

Lemma Qeq_bool_pos (q : Q) : 0 < q -> Qeq_bool q 0 = false.
Proof.
  intros H. destruct (Qeq_bool q 0) eqn:E; [| reflexivity].
  apply Qeq_bool_iff in E. rewrite E in H. now apply Qlt_irrefl in H.
Qed.

Lemma at_row_finite (xs : list fval) (i : nat) :
  Forall is_finite xs -> (i < length xs)%nat -> is_finite (at_row xs i).
Proof. intros H Hi. unfold at_row. now apply Forall_nth. Qed.

Lemma at_row_positive (xs : list fval) (i : nat) :
  Forall is_positive xs -> (i < length xs)%nat -> is_positive (at_row xs i).
Proof. intros H Hi. unfold at_row. now apply Forall_nth. Qed.

Lemma at_row_map2 (f : fval -> fval -> fval) (xs ys : list fval) (i : nat) :
  (i < length xs)%nat -> (i < length ys)%nat ->
  at_row (map2 f xs ys) i = f (at_row xs i) (at_row ys i).
Proof.
  intros Hx Hy. unfold at_row.
  apply nth_error_nth. apply nth_error_map2; now apply nth_error_nth'.
Qed.

Lemma at_row_times100 (xs : list fval) (i : nat) :
  at_row (times100 xs) i = fmul (at_row xs i) (Fin 100).
Proof.
  unfold at_row, times100.
  exact (map_nth (fun v => fmul v (Fin 100)) xs NaN i).
Qed.

Lemma length_shift1 (xs : list fval) : length (shift1 xs) = length xs.
Proof.
  destruct xs as [| x tl]; [reflexivity |].
  unfold shift1. cbn [length]. rewrite removelast_firstn_len, length_firstn.
  cbn [length]. lia.
Qed.

Lemma at_row_shift1 (xs : list fval) (i : nat) :
  (S i < length xs)%nat -> at_row (shift1 xs) (S i) = at_row xs i.
Proof.
  intros H. unfold at_row, shift1.
  destruct xs as [| x tl]; [simpl in H; lia |].
  cbn [nth]. rewrite removelast_firstn_len, nth_firstn.
  cbn [length] in *.
  destruct (Nat.ltb_spec i (Nat.pred (S (length tl)))); [reflexivity | lia].
Qed.

Lemma at_row_diff (xs : list fval) (i : nat) :
  (S i < length xs)%nat ->
  at_row (diff xs) (S i) = fsub (at_row xs (S i)) (at_row xs i).
Proof.
  intros H. unfold diff.
  rewrite at_row_map2 by (rewrite ?length_shift1; lia).
  now rewrite at_row_shift1.
Qed.

Lemma ffill_from_defined (last : fval) (xs : list fval) :
  Forall is_finite xs -> ffill_from last xs = xs.
Proof.
  intros H; revert last; induction H as [| x tl Hx _ IH]; intros last.
  - reflexivity.
  - simpl. destruct (is_finite_inv _ Hx) as [q ->]. simpl. now rewrite IH.
Qed.

Lemma at_row_pct_change (xs : list fval) (i : nat) :
  Forall is_finite xs -> (S i < length xs)%nat ->
  at_row (pct_change xs) (S i)
  = fsub (fdiv (at_row xs (S i)) (at_row xs i)) (Fin 1).
Proof.
  intros F H. unfold pct_change, ffill. rewrite (ffill_from_defined _ _ F).
  rewrite at_row_map2 by (rewrite ?length_shift1; lia).
  now rewrite at_row_shift1.
Qed.

Lemma fold_fadd_finite (xs : list fval) (q : Q) :
  Forall is_finite xs -> is_finite (fold_left fadd xs (Fin q)).
Proof.
  intros H; revert q; induction H as [| x tl Hx _ IH]; intros q.
  - exact I.
  - simpl. destruct (is_finite_inv _ Hx) as [a ->]. simpl. apply IH.
Qed.

Lemma fsum_finite (xs : list fval) :
  Forall is_finite xs -> is_finite (fsum xs).
Proof. apply fold_fadd_finite. Qed.

Lemma of_nat_pos (n : nat) : (0 < n)%nat -> Qeq_bool (inject_Z (Z.of_nat n)) 0 = false.
Proof.
  intros H. apply Qeq_bool_pos.
  unfold Qlt. simpl. lia.
Qed.

Lemma fdiv_count_finite (v : fval) (n : nat) :
  is_finite v -> (0 < n)%nat -> is_finite (fdiv v (of_nat n)).
Proof.
  intros Hv Hn. destruct (is_finite_inv _ Hv) as [q ->].
  unfold of_nat. simpl. now rewrite (of_nat_pos _ Hn).
Qed.

Lemma Forall_window (P : fval -> Prop) (w : nat) (xs : list fval) (t : nat) :
  Forall P xs -> Forall P (window w xs t).
Proof.
  intros H. unfold window. apply Forall_forall. intros v Hv.
  rewrite Forall_forall in H. apply H.
  pose proof (firstn_skipn (S t - w) (firstn (S t) xs)) as E.
  assert (In v (firstn (S t) xs)).
  { rewrite <- E. apply in_or_app. now right. }
  pose proof (firstn_skipn (S t) xs) as E'.
  rewrite <- E'. apply in_or_app. now left.
Qed.

(** On a fully defined column the rolling mean is defined from the row
    where the window is full. *)
Lemma rolling_mean_finite (w : nat) (xs : list fval) (t : nat) :
  Forall is_finite xs -> (0 < w)%nat -> (w <= S t)%nat ->
  (t < length xs)%nat ->
  is_finite (at_row (rolling_mean w xs) t).
Proof.
  intros F Hw Hfull Ht. rewrite at_row_rolling_mean by exact Ht.
  rewrite window_mean_full by (rewrite length_window by exact Ht; lia).
  apply fdiv_count_finite; [| exact Hw].
  apply fsum_finite. now apply Forall_window.
Qed.

Lemma finite_notna (v : fval) : is_finite v -> isna v = false.
Proof. now destruct v. Qed.

(** Row [i] of the engineered table, column by column. *)
Lemma engineer_row (df : list CleanRow) (i : nat) (r : FeatureRow) :
  nth_error (engineer df) i = Some r ->
  let close := col (@Close _) df in
  let range := map2 fsub (col (@High _) df) (col (@Low _) df) in
  let ma7 := rolling_mean 7 close in
  let dist := map2 fsub close ma7 in
  nth_error df i = Some (base r)
  /\ PriceChange (tech r) = at_row (diff close) i
  /\ PriceChangePercent (tech r) = at_row (times100 (pct_change close)) i
  /\ DailyRange (tech r) = at_row range i
  /\ DailyRangePercent (tech r)
     = at_row (times100 (map2 fdiv range (col (@Open _) df))) i
  /\ MA7 (tech r) = at_row ma7 i
  /\ MA30 (tech r) = at_row (rolling_mean 30 close) i
  /\ DistFromMA7 (tech r) = at_row dist i
  /\ DistFromMA7Percent (tech r) = at_row (times100 (map2 fdiv dist ma7)) i.
Proof.
  unfold engineer. rewrite nth_error_imap.
  destruct (nth_error df i) as [c |]; simpl; [| discriminate].
  intros [= <-]. simpl. repeat split.
Qed.

(** [dropna] looks at every column. *)
Lemma row_isna_false (r : FeatureRow) :
  is_none (Date (price (base r))) = false ->
  existsb is_none (Extra (price (base r))) = false ->
  Forall (fun lv => isna (snd lv) = false) (numeric_columns r) ->
  row_isna r = false.
Proof.
  intros Hd He Hn. unfold row_isna. rewrite Hd, He. cbn [orb].
  apply not_true_is_false. intros E.
  apply existsb_exists in E. destruct E as [lv [Hin Hna]].
  rewrite Forall_forall in Hn. rewrite (Hn lv Hin) in Hna. discriminate.
Qed.

Lemma row_isna_Volume (r : FeatureRow) :
  Volume (price (base r)) = NaN -> row_isna r = true.
Proof.
  intros H. unfold row_isna. apply orb_true_iff. right.
  apply existsb_exists. exists ("Volume"%string, Volume (price (base r))).
  split; [unfold numeric_columns; simpl; auto 20 |].
  simpl. now rewrite H.
Qed.

Lemma row_isna_MA30 (r : FeatureRow) :
  MA30 (tech r) = NaN -> row_isna r = true.
Proof.
  intros H. unfold row_isna. apply orb_true_iff. right.
  apply existsb_exists. exists ("MA30"%string, MA30 (tech r)).
  split; [unfold numeric_columns; simpl; auto 30 |].
  simpl. now rewrite H.
Qed.

(** The thirty-day window fills on row 29: every row before it is
    dropped, whatever the table holds. *)
Lemma early_rows_dropped (df : list CleanRow) (i : nat) (r : FeatureRow) :
  nth_error (engineer df) i = Some r -> (i < 29)%nat -> row_isna r = true.
Proof.
  intros Hr Hi. apply row_isna_MA30.
  rewrite (MA30_engineer _ _ _ Hr). apply rolling_mean_undefined. lia.
Qed.

Lemma short_table_unusable (df : list CleanRow) :
  (length df <= 29)%nat -> dropna (engineer df) = [].
Proof.
  intros H. unfold dropna. apply filter_nil_iff.
  intros r Hr. apply In_nth_error in Hr. destruct Hr as [i Hi].
  rewrite (early_rows_dropped _ _ _ Hi); [reflexivity |].
  assert (i < length (engineer df))%nat
    by (apply nth_error_Some; congruence).
  rewrite length_engineer in *. lia.
Qed.

(** ** A table without trades *)

Lemma fltb_zero_zero (v : fval) : is_zero v -> fltb (Fin 0) v = false.
Proof.
  intros [q [-> Hq]]. simpl. unfold Qltb.
  apply negb_false_iff. apply Qle_bool_iff. rewrite Hq. apply Qle_refl.
Qed.

Lemma mean_volume_all_zero {D : Type} (df : list (PriceRecord D)) :
  (forall r, In r df -> is_zero (Volume r)) -> mean_volume df = NaN.
Proof.
  intros H. unfold mean_volume, non_zero_volumes.
  rewrite filter_nil_iff; [reflexivity |].
  intros r Hr. now apply fltb_zero_zero, H.
Qed.

Lemma read_csv_all_zero (file : list CsvRow) :
  (forall c, In c file -> is_zero (of_cell (csv_Volume c))) ->
  forall r, In r (read_csv file) -> is_zero (Volume r).
Proof.
  intros H r Hr. unfold read_csv in Hr. apply in_map_iff in Hr.
  destruct Hr as [c [<- Hc]]. simpl. now apply H.
Qed.

(** C10.  For a file in which every line has Volume 0: no volume is
    strictly positive, so the imputation mean is NaN; the assignment of
    cell 8 (a total function: nothing in it can raise) writes NaN into
    the Volume of every row; the cleaning stage, whenever the dates can
    be read, returns that table, every row of which has an undefined
    Volume; and [dropna] then discards every row. *)
Theorem all_zero_volume_discards_every_row (file : list CsvRow) :
  (forall c, In c file -> is_zero (of_cell (csv_Volume c))) ->
  mean_volume (read_csv file) = NaN
  /\ (forall r, In r (impute_volume (read_csv file)) -> Volume r = NaN)
  /\ (dates_readable file -> exists df, clean (read_csv file) = Ok df)
  /\ (forall df,
        clean (read_csv file) = Ok df ->
        length df = length file
        /\ (forall r, In r df -> Volume (price r) = NaN)
        /\ dropna (engineer df) = []).
Proof.
  intros Hz.
  pose proof (read_csv_all_zero _ Hz) as Hz'.
  pose proof (mean_volume_all_zero _ Hz') as Hm.
  assert (Himp : forall r, In r (read_csv file) ->
                           Volume (imputed NaN r) = NaN).
  { intros r Hr. unfold imputed.
    rewrite (proj2 (feqb_zero_iff (Volume r)) (Hz' r Hr)). reflexivity. }
  split; [exact Hm |]. split; [| split].
  - intros r Hr. unfold impute_volume in Hr. rewrite Hm in Hr.
    apply in_map_iff in Hr. destruct Hr as [r0 [<- Hr0]]. now apply Himp.
  - intros Hd. apply clean_total. now apply read_csv_dates_readable.
  - intros df Hclean.
    assert (Hvol : forall r, In r df -> Volume (price r) = NaN).
    { intros r Hr. destruct (clean_inv _ _ Hclean) as [ts [F ->]].
      rewrite Hm in Hr. apply In_nth_error in Hr. destruct Hr as [i Hi].
      apply nth_error_map2_inv in Hi.
      destruct Hi as [r0 [t [Hr0 [_ ->]]]].
      unfold cleaned, with_calendar. simpl.
      apply Himp. now apply nth_error_In in Hr0. }
    split; [| split; [exact Hvol |]].
    + rewrite (length_clean _ _ Hclean). apply length_read_csv.
    + unfold dropna. apply filter_nil_iff. intros r Hr.
      rewrite row_isna_Volume; [reflexivity |].
      apply In_nth_error in Hr. destruct Hr as [i Hi].
      apply Hvol. apply base_engineer in Hi. now apply nth_error_In in Hi.
Qed.

Lemma all_zero_volume_witness :
  (forall c, In c idle_file -> is_zero (of_cell (csv_Volume c)))
  /\ mean_volume (read_csv idle_file) = NaN
  /\ prepare idle_file = Ok [].
Proof.
  assert (Hz : forall c, In c idle_file -> is_zero (of_cell (csv_Volume c))).
  { intros c Hc. unfold idle_file in Hc. apply in_map_iff in Hc.
    destruct Hc as [c0 [<- _]]. exists 0. split; reflexivity. }
  destruct (all_zero_volume_discards_every_row _ Hz) as [Hm [_ [_ Hall]]].
  split; [exact Hz |]. split; [exact Hm |].
  unfold prepare.
  destruct (clean (read_csv idle_file)) as [df | e] eqn:E.
  - simpl. f_equal. exact (proj2 (proj2 (Hall df eq_refl))).
  - exfalso. vm_compute in E. discriminate E.
Defined.

(** ** A well-formed price table *)

Lemma fsub_finite (a b : fval) :
  is_finite a -> is_finite b -> is_finite (fsub a b).
Proof.
  intros Ha Hb. destruct (is_finite_inv _ Ha) as [x ->].
  destruct (is_finite_inv _ Hb) as [y ->]. exact I.
Qed.

Lemma fdiv_positive_finite (a b : fval) :
  is_finite a -> is_positive b -> is_finite (fdiv a b).
Proof.
  intros Ha [y [-> Hy]]. destruct (is_finite_inv _ Ha) as [x ->].
  simpl. now rewrite (Qeq_bool_pos _ Hy).
Qed.

Lemma times100_notna (v : fval) :
  isna v = false -> isna (fmul v (Fin 100)) = false.
Proof. destruct v; simpl; auto. Qed.

(** The distance from the moving average over the moving average is
    never 0/0 when the close is positive. *)
Lemma dist_ratio_notna (c m : fval) :
  is_positive c -> is_finite m -> isna (fdiv (fsub c m) m) = false.
Proof.
  intros [x [-> Hx]] Hm. destruct (is_finite_inv _ Hm) as [y ->].
  simpl. destruct (Qeq_bool y 0) eqn:E; [| reflexivity].
  apply Qeq_bool_iff in E.
  assert (N : Qeq_bool (x + - y) 0 = false).
  { apply Qeq_bool_pos. rewrite E. lra. }
  now rewrite N.
Qed.

Lemma fold_date_min_some (ts : list (option Z)) (a : Z) :
  exists s,
    fold_left (fun acc t =>
                 match acc, t with
                 | None, _ => t
                 | Some a, None => Some a
                 | Some a, Some b => Some (Z.min a b)
                 end) ts (Some a) = Some s.
Proof.
  revert a; induction ts as [| t tl IH]; intros a; simpl.
  - now exists a.
  - destruct t; apply IH.
Qed.

Lemma date_min_some (ts : list (option Z)) (d : Z) :
  In (Some d) ts -> exists s, date_min ts = Some s.
Proof.
  unfold date_min. induction ts as [| t tl IH]; simpl; [tauto |].
  intros [-> | Hin].
  - apply fold_date_min_some.
  - destruct t; [apply fold_date_min_some | now apply IH].
Qed.

Lemma positive_mean_finite (xs : list fval) :
  Forall is_finite xs ->
  (exists v, In v xs /\ fltb (Fin 0) v = true) ->
  is_finite (positive_mean xs).
Proof.
  intros F [v [Hin Hv]]. unfold positive_mean.
  assert (Hp : In v (filter (fltb (Fin 0)) xs)) by (apply filter_In; auto).
  destruct (filter (fltb (Fin 0)) xs) as [| p tl] eqn:E; [destruct Hp |].
  apply fdiv_count_finite; [| simpl; lia].
  apply fsum_finite. rewrite <- E.
  apply Forall_forall. intros u Hu. apply filter_In in Hu.
  rewrite Forall_forall in F. now apply F.
Qed.

Section PriceTable.

Variable file : list CsvRow.
Hypothesis well_formed : Forall price_row file.

Lemma price_table_Close :
  Forall is_positive (map (@Close _) (read_csv file)).
Proof.
  unfold read_csv. rewrite map_map. apply Forall_map.
  eapply Forall_impl; [| exact well_formed].
  intros c [_ [_ [_ [_ [[x [-> Hx]] _]]]]]. simpl. now exists x.
Qed.

Lemma price_table_Open :
  Forall is_positive (map (@Open _) (read_csv file)).
Proof.
  unfold read_csv. rewrite map_map. apply Forall_map.
  eapply Forall_impl; [| exact well_formed].
  intros c [_ [[x [-> Hx]] _]]. simpl. now exists x.
Qed.

Lemma price_table_High :
  Forall is_finite (map (@High _) (read_csv file)).
Proof.
  unfold read_csv. rewrite map_map. apply Forall_map.
  eapply Forall_impl; [| exact well_formed].
  intros c [_ [_ [[x ->] _]]]. exact I.
Qed.

Lemma price_table_Low :
  Forall is_finite (map (@Low _) (read_csv file)).
Proof.
  unfold read_csv. rewrite map_map. apply Forall_map.
  eapply Forall_impl; [| exact well_formed].
  intros c [_ [_ [_ [[x ->] _]]]]. exact I.
Qed.

Lemma price_table_Volume :
  Forall is_finite (map (@Volume _) (read_csv file)).
Proof.
  unfold read_csv. rewrite map_map. apply Forall_map.
  eapply Forall_impl; [| exact well_formed].
  intros c [_ [_ [_ [_ [_ [[x ->] _]]]]]]. exact I.
Qed.

Lemma price_table_dates : dates_readable file.
Proof.
  intros c Hc text. rewrite Forall_forall in well_formed.
  destruct (well_formed c Hc) as [[days ->] _]. discriminate.
Qed.

Hypothesis imputable : volume_imputable file.

(** After cell 8 every volume is defined. *)
Lemma price_table_imputed (c : CsvRow) :
  In c file ->
  is_finite (if feqb (of_cell (csv_Volume c)) (Fin 0)
             then mean_volume (read_csv file)
             else of_cell (csv_Volume c)).
Proof.
  intros Hc. pose proof well_formed as W. rewrite Forall_forall in W.
  destruct (W c Hc) as [_ [_ [_ [_ [_ [[v Hv] _]]]]]].
  rewrite Hv. simpl.
  destruct (Qeq_bool v 0) eqn:E; [| exact I].
  apply Qeq_bool_iff in E.
  destruct imputable as [Hnone | [c1 [v1 [Hc1 [Hv1 Hpos]]]]].
  - elim (Hnone c Hc v Hv E).
  - rewrite mean_volume_positive_mean.
    apply positive_mean_finite; [apply price_table_Volume |].
    exists (Fin v1). split.
    + unfold read_csv. rewrite map_map. apply in_map_iff.
      exists c1. simpl. rewrite Hv1. auto.
    + simpl. unfold Qltb. apply negb_true_iff.
      destruct (Qle_bool v1 0) eqn:L; [| reflexivity].
      apply Qle_bool_iff in L. lra.
Qed.

End PriceTable.

Lemma existsb_is_none_false {A : Type} (l : list (option A)) :
  Forall (fun e => e <> None) l -> existsb is_none l = false.
Proof.
  induction 1 as [| e tl He _ IH]; simpl; [reflexivity |].
  destruct e; [exact IH | now elim He].
Qed.

Lemma length_col (f : PriceRecord (option Z) -> fval) (df : list CleanRow) :
  length (col f df) = length df.
Proof. apply length_map. Qed.

(** In a well-formed price table whose zero volumes can be imputed, a
    row from position 29 on has every cell defined. *)
Lemma late_rows_kept (file : list CsvRow) (df : list CleanRow) (i : nat)
      (r : FeatureRow) :
  Forall price_row file -> volume_imputable file ->
  clean (read_csv file) = Ok df ->
  nth_error (engineer df) i = Some r -> (29 <= i)%nat ->
  row_isna r = false.
Proof.
  intros W V Hclean Hr Hi.
  destruct (engineer_row df i r Hr)
    as [Hb [E1 [E2 [E3 [E4 [E5 [E6 [E7 E8]]]]]]]].
  assert (Hlen : (i < length df)%nat) by (apply nth_error_Some; congruence).
  pose proof (length_clean _ _ Hclean) as Ldf.
  rewrite length_read_csv in Ldf.
  destruct (nth_error file i) as [c |] eqn:Hc;
    [| apply nth_error_None in Hc; lia].
  destruct (clean_row _ _ i _ Hclean (nth_error_read_csv _ _ _ Hc))
    as [ts [t [_ [Hts [Hp Hrow]]]]].
  rewrite Hb in Hrow. injection Hrow as Hbase.
  pose proof (nth_error_In _ _ Hc) as Hin.
  pose proof W as W'. rewrite Forall_forall in W'.
  destruct (W' c Hin)
    as [[days Hday] [[o [Ho _]] [[h Hh] [[l Hl] [[x [Hx _]]
         [[v Hv] [[m Hm] Hex]]]]]]].
  simpl in Hp. rewrite Hday in Hp. simpl in Hp. injection Hp as <-.
  destruct (date_min_some ts days (nth_error_In _ _ Hts)) as [s Hs].
  rewrite (clean_Close _ _ Hclean) in E1, E2, E5, E6, E7, E8.
  rewrite (clean_High _ _ Hclean), (clean_Low _ _ Hclean) in E3, E4.
  rewrite (clean_Open _ _ Hclean) in E4.
  pose proof (price_table_Close file W) as PC.
  pose proof (price_table_Open file W) as PO.
  pose proof (price_table_High file W) as PH.
  pose proof (price_table_Low file W) as PL.
  assert (FC := Forall_impl _ is_positive_finite PC).
  set (close := map (@Close _) (read_csv file)) in *.
  set (open := map (@Open _) (read_csv file)) in *.
  set (high := map (@High _) (read_csv file)) in *.
  set (low := map (@Low _) (read_csv file)) in *.
  assert (Lc : length close = length file)
    by (unfold close; now rewrite length_map, length_read_csv).
  assert (Lo : length open = length file)
    by (unfold open; now rewrite length_map, length_read_csv).
  assert (Lh : length high = length file)
    by (unfold high; now rewrite length_map, length_read_csv).
  assert (Ll : length low = length file)
    by (unfold low; now rewrite length_map, length_read_csv).
  destruct i as [| j]; [lia |].
  assert (M7 : is_finite (at_row (rolling_mean 7 close) (S j)))
    by (apply rolling_mean_finite; auto; lia).
  assert (M30 : is_finite (at_row (rolling_mean 30 close) (S j)))
    by (apply rolling_mean_finite; auto; lia).
  assert (Cj : is_positive (at_row close j))
    by (apply at_row_positive; auto; lia).
  assert (CSj : is_positive (at_row close (S j)))
    by (apply at_row_positive; auto; lia).
  assert (OSj : is_positive (at_row open (S j)))
    by (apply at_row_positive; auto; lia).
  assert (R : is_finite (at_row (map2 fsub high low) (S j))).
  { rewrite at_row_map2 by lia.
    apply fsub_finite; apply at_row_finite; auto; lia. }
  apply row_isna_false.
  - rewrite Hbase. reflexivity.
  - rewrite Hbase. simpl. unfold imputed.
    destruct (feqb _ _); simpl; now apply existsb_is_none_false.
  - unfold numeric_columns. rewrite Hbase.
    unfold cleaned, with_calendar. cbn [price cal].
    rewrite E1, E2, E3, E4, E5, E6, E7, E8. clear E1 E2 E3 E4 E5 E6 E7 E8.
    repeat apply Forall_cons; try apply Forall_nil; cbn [snd].
    + unfold imputed. destruct (feqb _ _); simpl; now rewrite Ho.
    + unfold imputed. destruct (feqb _ _); simpl; now rewrite Hh.
    + unfold imputed. destruct (feqb _ _); simpl; now rewrite Hl.
    + unfold imputed. destruct (feqb _ _); simpl; now rewrite Hx.
    + apply finite_notna. unfold imputed. cbn [Volume].
      pose proof (price_table_imputed file W V c Hin) as Hi'.
      destruct (feqb (of_cell (csv_Volume c)) (Fin 0)); exact Hi'.
    + unfold imputed. destruct (feqb _ _); simpl; now rewrite Hm.
    + reflexivity.
    + reflexivity.
    + reflexivity.
    + reflexivity.
    + rewrite Hs. reflexivity.
    + apply finite_notna. rewrite at_row_diff by lia.
      apply fsub_finite; now apply is_positive_finite.
    + rewrite at_row_times100. apply times100_notna, finite_notna.
      rewrite at_row_pct_change by (auto; lia).
      apply fsub_finite; [| exact I].
      apply fdiv_positive_finite; [now apply is_positive_finite | exact Cj].
    + now apply finite_notna.
    + rewrite at_row_times100. apply times100_notna, finite_notna.
      rewrite at_row_map2 by (rewrite ?length_map2; lia).
      now apply fdiv_positive_finite.
    + now apply finite_notna.
    + now apply finite_notna.
    + apply finite_notna.
      rewrite at_row_map2 by (rewrite ?length_rolling_mean; lia).
      apply fsub_finite; [now apply is_positive_finite | exact M7].
    + rewrite at_row_times100. apply times100_notna.
      rewrite at_row_map2
        by (rewrite ?length_map2, ?length_rolling_mean; lia).
      rewrite at_row_map2 by (rewrite ?length_rolling_mean; lia).
      now apply dist_ratio_notna.
Qed.

(** ** The usable rows *)

Lemma demo_file_well_formed : Forall price_row demo_file.
Proof.
  unfold demo_file. apply Forall_map. apply Forall_forall. intros i _.
  unfold price_row, demo_row. cbn [csv_Date csv_Open csv_High csv_Low
    csv_Close csv_Volume csv_Marketcap csv_Extra].
  assert (P : 0 < inject_Z (Z.of_nat (100 + i)) - (1 # 2)).
  { assert (1 <= inject_Z (Z.of_nat (100 + i))).
    { change 1 with (inject_Z 1). rewrite <- Zle_Qle. lia. }
    lra. }
  assert (P' : 0 < inject_Z (Z.of_nat (100 + i))) by lra.
  repeat split; eauto.
  repeat constructor; discriminate.
Qed.

Lemma demo_file_imputable : volume_imputable demo_file.
Proof.
  right. exists (demo_row 1), 1. repeat split.
  unfold demo_file. apply in_map_iff. exists 1%nat. split; [reflexivity |].
  apply in_seq. lia.
Qed.

(** C1, as stated, fails.  A file of thirty days with no trade on any of
    them has more than 29 lines and no usable row, where the claim
    promises one; a file of 32 days with one cell missing on the last day
    has two usable rows, where the claim promises three. *)
Lemma usable_rows_counterexample :
  (29 < length idle_file)%nat
  /\ prepare idle_file = Ok []
  /\ length gap_file = 32%nat
  /\ (exists df, prepare gap_file = Ok df /\ length df = 2%nat)
  /\ ~ (forall file df,
          (29 < length file)%nat -> prepare file = Ok df ->
          length df = (length file - 29)%nat).
Proof.
  assert (L : (29 < length idle_file)%nat) by (vm_compute; lia).
  assert (P : prepare idle_file = Ok []) by (vm_compute; reflexivity).
  split; [exact L |]. split; [exact P |].
  split; [reflexivity |]. split.
  - destruct (prepare gap_file) as [df | e] eqn:E.
    + exists df. split; [reflexivity |].
      vm_compute in E. injection E as <-. reflexivity.
    + vm_compute in E. discriminate E.
  - intros H. specialize (H idle_file [] L P). vm_compute in H.
    discriminate H.
Qed.

(** C1, amended.  A file of at most 29 lines leaves no usable row,
    whatever it holds.  For a file of N lines that satisfies the
    PriceRecord data model (every cell present, readable dates, positive
    Open and Close) and whose zero volumes can be imputed (no volume is
    zero, or some volume is positive), the cells 4 to 14 complete and the
    usable table is the engineered table without its first 29 rows: it has
    N - 29 rows when N > 29 and none otherwise. *)
Theorem usable_rows_of_price_table (file : list CsvRow) :
  (forall df,
      prepare file = Ok df -> (length file <= 29)%nat -> df = [])
  /\ (Forall price_row file -> volume_imputable file ->
      exists df,
        clean (read_csv file) = Ok df
        /\ prepare file = Ok (skipn 29 (engineer df))
        /\ length (skipn 29 (engineer df)) = (length file - 29)%nat).
Proof.
  split.
  - intros out H Hlen. unfold prepare in H.
    destruct (clean (read_csv file)) as [df |] eqn:E; [| discriminate].
    simpl in H. injection H as <-.
    apply short_table_unusable.
    rewrite (length_clean _ _ E), length_read_csv. exact Hlen.
  - intros W V.
    destruct (clean_total (read_csv file)
                (read_csv_dates_readable _ (price_table_dates file W)))
      as [df Hclean].
    exists df. split; [exact Hclean |]. split.
    + unfold prepare. rewrite Hclean. cbn [bind]. f_equal.
      unfold dropna. apply filter_skipn. intros i r Hr.
      destruct (Nat.leb_spec 29 i) as [Hi | Hi].
      * now rewrite (late_rows_kept file df i r W V Hclean Hr Hi).
      * now rewrite (early_rows_dropped df i r Hr Hi).
    + rewrite length_skipn, length_engineer, (length_clean _ _ Hclean).
      now rewrite length_read_csv.
Qed.

Lemma usable_rows_witness :
  Forall price_row demo_file
  /\ volume_imputable demo_file
  /\ exists df, prepare demo_file = Ok df /\ length df = 3%nat.
Proof.
  split; [exact demo_file_well_formed |].
  split; [exact demo_file_imputable |].
  destruct (proj2 (usable_rows_of_price_table demo_file)
                  demo_file_well_formed demo_file_imputable)
    as [df [_ [H1 H2]]].
  eexists. split; [exact H1 | exact H2].
Defined.

(** ** An empty usable table *)

(** C9, as stated, fails: for a file of three days the cleaning and
    feature-engineering cells complete with an empty table, nothing
    stops the run before the scaling stage, and the failure is the one
    the scaler raises. *)
Lemma short_table_counterexample :
  (length short_file < 30)%nat
  /\ prepare short_file = Ok []
  /\ run_to_scale short_file = Failed Scaling EmptyArray
  /\ ~ (forall file,
          (length file < 30)%nat ->
          exists s e,
            run_to_scale file = Failed s e
            /\ (stage_index s < stage_index Scaling)%nat).
Proof.
  assert (L : (length short_file < 30)%nat) by (vm_compute; lia).
  assert (R : run_to_scale short_file = Failed Scaling EmptyArray)
    by (vm_compute; reflexivity).
  split; [exact L |]. split; [vm_compute; reflexivity |].
  split; [exact R |].
  intros H. destruct (H short_file L) as [s [e [Hs Hlt]]].
  rewrite R in Hs. injection Hs as <- <-. simpl in Hlt. lia.
Qed.

(** C9, amended.  For a file of fewer than 30 lines whose dates can be
    read, the cleaning and feature-engineering cells complete and leave
    an empty usable table; the notebook does not test for it: the empty
    table is handed to the scaling stage, and the run stops there with
    the scaler's own failure (an array with no sample).  Every stage
    before the scaling stage completes. *)
Theorem short_table_fails_in_scaling (file : list CsvRow) :
  (length file < 30)%nat -> dates_readable file ->
  prepare file = Ok []
  /\ run_to_scale file = Failed Scaling EmptyArray.
Proof.
  intros Hlen Hd.
  destruct (clean_total (read_csv file) (read_csv_dates_readable _ Hd))
    as [df Hclean].
  assert (E : dropna (engineer df) = []).
  { apply short_table_unusable.
    rewrite (length_clean _ _ Hclean), length_read_csv. lia. }
  split.
  - unfold prepare. rewrite Hclean. cbn [bind]. now rewrite E.
  - unfold run_to_scale. rewrite Hclean. cbn [in_stage and_then].
    rewrite E. reflexivity.
Qed.

Lemma short_table_witness :
  (length short_file < 30)%nat
  /\ dates_readable short_file
  /\ run_to_scale short_file = Failed Scaling EmptyArray.
Proof.
  assert (L : (length short_file < 30)%nat) by (vm_compute; lia).
  assert (Hd : dates_readable short_file).
  { intros c Hc text. unfold short_file, demo_file in Hc.
    cbn [firstn map seq] in Hc.
    destruct Hc as [<- | [<- | [<- | []]]]; discriminate. }
  split; [exact L |]. split; [exact Hd |].
  exact (proj2 (short_table_fails_in_scaling short_file L Hd)).
Defined.

(** ** The train/test split *)

Lemma NoDup_app_disjoint {A : Type} (l l' : list A) :
  NoDup (l ++ l') -> forall a, In a l -> ~ In a l'.
Proof.
  induction l as [| x tl IH]; simpl; intros H a Hin Hin'; [tauto |].
  inversion H as [| ? ? Hx Htl]; subst.
  destruct Hin as [-> | Hin].
  - apply Hx. apply in_or_app. now right.
  - exact (IH Htl a Hin Hin').
Qed.



(** [ceil(0.2 * n)] is the fifth of [n], rounded up. *)
Lemma n_test_fifth (n : nat) :
  Z.to_nat (Qceiling ((2 # 10) * inject_Z (Z.of_nat n))) = ((n + 4) / 5)%nat.
Proof.
  unfold Qceiling, Qfloor, Qmult, Qopp, inject_Z. cbn [Qnum Qden].
  change (Z.pos (10 * 1)) with 10%Z.
  apply Nat2Z.inj. rewrite Nat2Z.inj_div, Nat2Z.inj_add.
  change (Z.of_nat 4) with 4%Z. change (Z.of_nat 5) with 5%Z.
  rewrite Z2Nat.id.
  - generalize (Z.of_nat n) (Nat2Z.is_nonneg n). intros z Hz.
    Z.to_euclidean_division_equations. lia.
  - generalize (Z.of_nat n) (Nat2Z.is_nonneg n). intros z Hz.
    Z.to_euclidean_division_equations. lia.
Qed.

Lemma validate_shuffle_split_fifth (n : nat) :
  validate_shuffle_split n (2 # 10)
  = if (n - (n + 4) / 5 =? 0)%nat then Raise EmptyTrainSet
    else Ok ((n - (n + 4) / 5)%nat, ((n + 4) / 5)%nat).
Proof. unfold validate_shuffle_split. now rewrite n_test_fifth. Qed.

Lemma fifth_bounds (n : nat) :
  (n <= 5 * ((n + 4) / 5) < n + 5)%nat.
Proof.
  pose proof (Nat.div_mod_eq (n + 4) 5) as E.
  pose proof (Nat.mod_upper_bound (n + 4) 5) as B. lia.
Qed.

Section SplitFacts.

Context {RS : RandomState}.

Lemma length_permutation (st : rng) (n : nat) :
  length (permutation st n) = n.
Proof.
  rewrite (Permutation_length (permutation_spec st n)). apply length_seq.
Qed.

(** A seeded split does not read the process-wide generator. *)
Lemma split_indices_seeded (g1 g2 : rng) (n : nat) (test_size : Q)
      (seed : Z) :
  split_indices g1 n test_size (Some seed)
  = split_indices g2 n test_size (Some seed).
Proof. reflexivity. Qed.

Lemma split_indices_total (g : rng) (n : nat) (rs : option Z) :
  (2 <= n)%nat ->
  exists train test, split_indices g n (2 # 10) rs = Ok (train, test).
Proof.
  intros Hn. unfold split_indices. rewrite validate_shuffle_split_fifth.
  pose proof (fifth_bounds n) as B.
  remember ((n + 4) / 5)%nat as k eqn:Hk.
  destruct (Nat.eqb_spec (n - k) 0) as [E | E]; [lia |].
  cbn [bind]. eauto.
Qed.

Lemma split_indices_partition (g : rng) (n : nat) (rs : option Z)
      (train test : list nat) :
  split_indices g n (2 # 10) rs = Ok (train, test) ->
  Permutation (test ++ train) (seq 0 n)
  /\ length test = ((n + 4) / 5)%nat
  /\ length train = (n - (n + 4) / 5)%nat.
Proof.
  unfold split_indices. rewrite validate_shuffle_split_fifth.
  pose proof (fifth_bounds n) as B.
  remember ((n + 4) / 5)%nat as k eqn:Hk.
  destruct (Nat.eqb_spec (n - k) 0) as [E | E]; [discriminate |].
  cbn [bind]. intros [= <- <-].
  set (perm := permutation (check_random_state g rs) n).
  assert (L : length perm = n) by apply length_permutation.
  assert (F : firstn (n - k) (skipn k perm) = skipn k perm).
  { apply firstn_all2. rewrite length_skipn. lia. }
  rewrite F. split; [| split].
  - rewrite firstn_skipn. apply permutation_spec.
  - rewrite length_firstn. lia.
  - rewrite length_skipn. lia.
Qed.

End SplitFacts.

(** C5.  With the seed fixed, the split of [n] rows does not depend on
    the process-wide generator state or on what the rows hold: two runs
    on datasets of the same row count get the same train and test
    positions (or the same refusal).  A split that returns puts the
    first ceil(0.2 n) positions of the seeded permutation in the test
    set and the remaining n - ceil(0.2 n) in the train set: the two are
    disjoint, without repetition, together all of [0 .. n-1], and the
    test share is 20% rounded up to a whole row (exactly 20% and 80%
    when 5 divides n).  From two rows on the split returns. *)
Theorem split_is_a_reproducible_partition
        {RS : RandomState} (g1 g2 : rng) (A B : Type)
        (X1 X2 : list A) (y1 y2 : list B) :
  length X1 = length y1 -> length X2 = length y2 ->
  length X1 = length X2 ->
  let n := length X1 in
  let run1 := split_indices g1 (length X1) (2 # 10) (Some 42%Z) in
  let run2 := split_indices g2 (length X2) (2 # 10) (Some 42%Z) in
  run1 = run2
  /\ train_test_split g1 X1 y1 (2 # 10) (Some 42%Z)
     = (ind <- run1 ;;
        Ok (mkSplit (take X1 (fst ind)) (take X1 (snd ind))
                    (take y1 (fst ind)) (take y1 (snd ind))))
  /\ train_test_split g2 X2 y2 (2 # 10) (Some 42%Z)
     = (ind <- run1 ;;
        Ok (mkSplit (take X2 (fst ind)) (take X2 (snd ind))
                    (take y2 (fst ind)) (take y2 (snd ind))))
  /\ ((2 <= n)%nat -> exists train test, run1 = Ok (train, test))
  /\ (forall train test,
        run1 = Ok (train, test) ->
        Permutation (test ++ train) (seq 0 n)
        /\ NoDup train /\ NoDup test
        /\ (forall i, In i train -> ~ In i test)
        /\ (length train + length test = n)%nat
        /\ (n <= 5 * length test < n + 5)%nat
        /\ (n mod 5 = 0 ->
            5 * length test = n /\ 5 * length train = 4 * n)%nat).
Proof.
  intros L1 L2 L12 n run1 run2.
  assert (E : run1 = run2).
  { unfold run1, run2. rewrite <- L12. apply split_indices_seeded. }
  split; [exact E |]. split; [| split; [| split]].
  - unfold train_test_split. rewrite L1, Nat.eqb_refl. cbn [negb].
    rewrite <- L1. fold run1. destruct run1 as [[train test] | e];
      reflexivity.
  - unfold train_test_split. rewrite L2, Nat.eqb_refl. cbn [negb].
    rewrite <- L2. fold run2. rewrite <- E.
    destruct run1 as [[train test] | e]; reflexivity.
  - intros Hn. apply split_indices_total. exact Hn.
  - intros train test Hrun.
    destruct (split_indices_partition _ _ _ _ _ Hrun) as [P [Lt Ltr]].
    fold n in P, Lt, Ltr.
    pose proof (fifth_bounds n) as Bn.
    assert (ND : NoDup (test ++ train)).
    { apply (Permutation_NoDup (Permutation_sym P)). apply seq_NoDup. }
    split; [exact P |].
    split; [exact (NoDup_app_remove_l _ _ ND) |].
    split; [exact (NoDup_app_remove_r _ _ ND) |].
    split; [intros i Hi Ht; exact (NoDup_app_disjoint _ _ ND i Ht Hi) |].
    split; [lia |]. split; [lia |].
    intros Hmod. pose proof (Nat.div_mod_eq n 5) as D.
    pose proof (Nat.div_mod_eq (n + 4) 5) as D'.
    pose proof (Nat.mod_upper_bound (n + 4) 5) as U. lia.
Qed.

Lemma split_witness :
  let X1 := seq 0 10 in
  let y1 := seq 10 10 in
  let X2 := seq 20 10 in
  let y2 := seq 30 10 in
  length X1 = length X2
  /\ split_indices (RS := countdown) 0%Z (length X1) (2 # 10) (Some 42%Z)
     = split_indices (RS := countdown) 1%Z (length X2) (2 # 10) (Some 42%Z)
  /\ exists train test,
      split_indices (RS := countdown) 0%Z (length X1) (2 # 10) (Some 42%Z)
      = Ok (train, test)
      /\ (length train + length test = 10)%nat.
Proof.
  intros X1 y1 X2 y2.
  destruct (split_is_a_reproducible_partition
              (RS := countdown) 0%Z 1%Z nat nat X1 X2 y1 y2
              eq_refl eq_refl eq_refl)
    as [E [_ [_ [T P]]]].
  split; [reflexivity |]. split; [exact E |].
  destruct (T ltac:(simpl; lia)) as [train [test Hrun]].
  exists train, test. split; [exact Hrun |].
  exact (proj1 (proj2 (proj2 (proj2 (proj2 (P train test Hrun)))))).
Defined.

(** ** The min-max scaler *)

Lemma fold_fmin_finite (xs : list fval) (a : Q) :
  (forall v, In v xs -> isinf v = false) ->
  exists m,
    fold_left fmin_skipna xs (Fin a) = Fin m
    /\ m <= a /\ (forall q, In (Fin q) xs -> m <= q).
Proof.
  revert a; induction xs as [| x tl IH]; intros a Hinf.
  - exists a. split; [reflexivity |]. split; [apply Qle_refl |].
    intros q [].
  - assert (Htl : forall v, In v tl -> isinf v = false)
      by (intros v Hv; apply Hinf; now right).
    destruct x as [| s | b].
    + destruct (IH a Htl) as [m [E [Ha Hq]]].
      exists m. split; [exact E |]. split; [exact Ha |].
      intros q [Hx | Hin]; [discriminate | now apply Hq].
    + specialize (Hinf (Inf s) (or_introl eq_refl)). discriminate.
    + cbn [fold_left]. unfold fmin_skipna at 2. cbn [isna fltb].
      unfold Qltb. destruct (Qle_bool a b) eqn:L; cbn [negb].
      * apply Qle_bool_iff in L.
        destruct (IH a Htl) as [m [E [Ha Hq]]].
        exists m. split; [exact E |]. split; [exact Ha |].
        intros q [[= <-] | Hin]; [lra | now apply Hq].
      * assert (L' : b < a).
        { apply Qnot_le_lt. intros C. apply Qle_bool_iff in C. congruence. }
        destruct (IH b Htl) as [m [E [Hb Hq]]].
        exists m. split; [exact E |]. split; [lra |].
        intros q [[= <-] | Hin]; [exact Hb | now apply Hq].
Qed.

Lemma fold_fmax_finite (xs : list fval) (a : Q) :
  (forall v, In v xs -> isinf v = false) ->
  exists m,
    fold_left fmax_skipna xs (Fin a) = Fin m
    /\ a <= m /\ (forall q, In (Fin q) xs -> q <= m).
Proof.
  revert a; induction xs as [| x tl IH]; intros a Hinf.
  - exists a. split; [reflexivity |]. split; [apply Qle_refl |].
    intros q [].
  - assert (Htl : forall v, In v tl -> isinf v = false)
      by (intros v Hv; apply Hinf; now right).
    destruct x as [| s | b].
    + destruct (IH a Htl) as [m [E [Ha Hq]]].
      exists m. split; [exact E |]. split; [exact Ha |].
      intros q [Hx | Hin]; [discriminate | now apply Hq].
    + specialize (Hinf (Inf s) (or_introl eq_refl)). discriminate.
    + cbn [fold_left]. unfold fmax_skipna at 2. cbn [isna fltb].
      unfold Qltb. destruct (Qle_bool b a) eqn:L; cbn [negb].
      * apply Qle_bool_iff in L.
        destruct (IH a Htl) as [m [E [Ha Hq]]].
        exists m. split; [exact E |]. split; [exact Ha |].
        intros q [[= <-] | Hin]; [lra | now apply Hq].
      * assert (L' : a < b).
        { apply Qnot_le_lt. intros C. apply Qle_bool_iff in C. congruence. }
        destruct (IH b Htl) as [m [E [Hb Hq]]].
        exists m. split; [exact E |]. split; [lra |].
        intros q [[= <-] | Hin]; [exact Hb | now apply Hq].
Qed.

(** On a column without infinities that holds a defined value, the
    fitted minimum and maximum are defined and bound the column. *)
Lemma nanmin_finite (xs : list fval) :
  (forall v, In v xs -> isinf v = false) ->
  (exists q, In (Fin q) xs) ->
  exists m, nanmin xs = Fin m /\ (forall q, In (Fin q) xs -> m <= q).
Proof.
  unfold nanmin. induction xs as [| x tl IH]; intros Hinf [q0 Hq0].
  - destruct Hq0.
  - assert (Htl : forall v, In v tl -> isinf v = false)
      by (intros v Hv; apply Hinf; now right).
    destruct x as [| s | b].
    + destruct Hq0 as [C | Hq0]; [discriminate |].
      destruct (IH Htl (ex_intro _ q0 Hq0)) as [m [E Hq]].
      exists m. split; [exact E |].
      intros q [C | Hin]; [discriminate | now apply Hq].
    + specialize (Hinf (Inf s) (or_introl eq_refl)). discriminate.
    + destruct (fold_fmin_finite tl b Htl) as [m [E [Hb Hq]]].
      exists m. split; [exact E |].
      intros q [[= <-] | Hin]; [exact Hb | now apply Hq].
Qed.

Lemma nanmax_finite (xs : list fval) :
  (forall v, In v xs -> isinf v = false) ->
  (exists q, In (Fin q) xs) ->
  exists m, nanmax xs = Fin m /\ (forall q, In (Fin q) xs -> q <= m).
Proof.
  unfold nanmax. induction xs as [| x tl IH]; intros Hinf [q0 Hq0].
  - destruct Hq0.
  - assert (Htl : forall v, In v tl -> isinf v = false)
      by (intros v Hv; apply Hinf; now right).
    destruct x as [| s | b].
    + destruct Hq0 as [C | Hq0]; [discriminate |].
      destruct (IH Htl (ex_intro _ q0 Hq0)) as [m [E Hq]].
      exists m. split; [exact E |].
      intros q [C | Hin]; [discriminate | now apply Hq].
    + specialize (Hinf (Inf s) (or_introl eq_refl)). discriminate.
    + destruct (fold_fmax_finite tl b Htl) as [m [E [Hb Hq]]].
      exists m. split; [exact E |].
      intros q [[= <-] | Hin]; [exact Hb | now apply Hq].
Qed.

Lemma ten_eps_pos : 0 < 10 * eps.
Proof. reflexivity. Qed.

Lemma ten_eps_small : 10 * eps < 1.
Proof. reflexivity. Qed.

Lemma handle_zeros_finite (r : Q) :
  exists r',
    handle_zeros_in_scale (Fin r) = Fin r'
    /\ 0 < r'
    /\ ((r < 10 * eps /\ r' = 1) \/ (10 * eps <= r /\ r' = r)).
Proof.
  unfold handle_zeros_in_scale. cbn [fltb]. unfold Qltb.
  destruct (Qle_bool (10 * eps) r) eqn:L; cbn [negb].
  - apply Qle_bool_iff in L. pose proof ten_eps_pos as P.
    exists r. split; [reflexivity |]. split; [lra |]. right. now split.
  - assert (L' : r < 10 * eps).
    { apply Qnot_le_lt. intros C. apply Qle_bool_iff in C. congruence. }
    exists 1. split; [reflexivity |]. split; [reflexivity |]. left.
    now split.
Qed.

(** The parameters of one column: the scale is [1/(max - min)], or 1 on
    a column narrower than [10 eps]; it is never zero. *)
Lemma column_parameters (c : list fval) :
  (forall v, In v c -> isinf v = false) ->
  (exists q, In (Fin q) c) ->
  exists m M sc,
    nanmin c = Fin m /\ nanmax c = Fin M
    /\ column_scale c = Fin sc
    /\ column_min c = Fin (0 + - (m * sc))
    /\ 0 < sc
    /\ (forall q, In (Fin q) c -> m <= q <= M)
    /\ ((M - m < 10 * eps /\ sc == 1)
        \/ (10 * eps <= M - m /\ sc == 1 / (M - m))).
Proof.
  intros Hinf Hex.
  destruct (nanmin_finite c Hinf Hex) as [m [Em Hm]].
  destruct (nanmax_finite c Hinf Hex) as [M [EM HM]].
  unfold column_min, column_scale. rewrite Em, EM.
  cbn [feature_range fst snd fsub fneg fadd].
  destruct (handle_zeros_finite (M + - m)) as [r' [Er [Pr Hr]]].
  rewrite Er. cbn [fdiv]. rewrite (Qeq_bool_pos _ Pr).
  cbn [fmul fneg].
  exists m, M, ((1 + - 0) / r').
  split; [reflexivity |]. split; [reflexivity |].
  split; [reflexivity |]. split; [reflexivity |].
  split; [apply Qlt_shift_div_l; lra |].
  split; [intros q Hq; split; [now apply Hm | now apply HM] |].
  destruct Hr as [[Hlt ->] | [Hle ->]].
  - left. split; [exact Hlt | reflexivity].
  - right. split; [exact Hle |]. unfold Qminus. field. lra.
Qed.

Lemma map2_map_same {A B C D : Type} (f : B -> C -> D) (g : A -> B)
      (h : A -> C) (l : list A) :
  map2 f (map g l) (map h l) = map (fun x => f (g x) (h x)) l.
Proof. induction l as [| x tl IH]; simpl; [reflexivity | now rewrite IH]. Qed.

(** What [fit] stores, column by column. *)
Lemma fit_inv (X : matrix) (s : MinMaxScaler) :
  fit X = Ok s ->
  check_array X = Ok tt
  /\ data_min_ s = map (fun j => nanmin (column X j)) (seq 0 (n_features X))
  /\ data_max_ s = map (fun j => nanmax (column X j)) (seq 0 (n_features X))
  /\ scale_ s
     = map (fun j => column_scale (column X j)) (seq 0 (n_features X))
  /\ min_ s
     = map (fun j => column_min (column X j)) (seq 0 (n_features X)).
Proof.
  unfold fit. destruct (check_array X) as [[] | e]; [| discriminate].
  cbn [bind]. intros [= <-]. cbn [data_min_ data_max_ scale_ min_].
  split; [reflexivity |].
  split; [now rewrite map_map |]. split; [now rewrite map_map |].
  rewrite map2_map_same, map_map.
  split; [now rewrite map_map |].
  change (map (fun c => fdiv (fsub (snd feature_range) (fst feature_range))
                             (handle_zeros_in_scale
                                (fsub (nanmax c) (nanmin c)))))
    with (map column_scale).
  rewrite map2_map_same, map_map. reflexivity.
Qed.

Lemma check_array_inv (X : matrix) :
  check_array X = Ok tt ->
  X <> [] /\ forall row v, In row X -> In v row -> isinf v = false.
Proof.
  unfold check_array.
  destruct (existsb (existsb isinf) X) eqn:E; [discriminate |].
  intros H. split.
  - destruct X; [discriminate | discriminate].
  - intros row v Hrow Hv.
    destruct (isinf v) eqn:Ev; [| reflexivity].
    assert (C : existsb (existsb isinf) X = true).
    { apply existsb_exists. exists row. split; [exact Hrow |].
      apply existsb_exists. now exists v. }
    congruence.
Qed.

Lemma column_no_inf (X : matrix) (j : nat) :
  check_array X = Ok tt ->
  forall v, In v (column X j) -> isinf v = false.
Proof.
  intros H v Hv. destruct (check_array_inv X H) as [_ Hinf].
  unfold column in Hv. apply in_map_iff in Hv.
  destruct Hv as [row [<- Hrow]].
  destruct (Nat.lt_ge_cases j (length row)) as [L | L].
  - apply (Hinf row); [exact Hrow | now apply nth_In].
  - now rewrite nth_overflow.
Qed.

Lemma column_entry (X : matrix) (row : list fval) (j : nat) (v : fval) :
  In row X -> nth_error row j = Some v -> In v (column X j).
Proof.
  intros Hrow Hv. unfold column. apply in_map_iff.
  exists row. split; [| exact Hrow]. now apply nth_error_nth.
Qed.

Lemma nth_error_transform_row (s : MinMaxScaler) (row : list fval)
      (j : nat) (x sc mn : fval) :
  nth_error row j = Some x ->
  nth_error (scale_ s) j = Some sc -> nth_error (min_ s) j = Some mn ->
  nth_error (transform_row s row) j = Some (fadd (fmul x sc) mn).
Proof.
  intros Hx Hs Hm. unfold transform_row.
  apply nth_error_map2; [| exact Hm]. now apply nth_error_map2.
Qed.

Lemma nth_error_inverse_row (s : MinMaxScaler) (row : list fval)
      (j : nat) (x sc mn : fval) :
  nth_error row j = Some x ->
  nth_error (scale_ s) j = Some sc -> nth_error (min_ s) j = Some mn ->
  nth_error (inverse_row s row) j = Some (fdiv (fsub x mn) sc).
Proof.
  intros Hx Hs Hm. unfold inverse_row.
  apply nth_error_map2; [| exact Hs]. now apply nth_error_map2.
Qed.

Lemma fit_column (X : matrix) (s : MinMaxScaler) (j : nat) :
  fit X = Ok s -> (j < n_features X)%nat ->
  nth_error (scale_ s) j = Some (column_scale (column X j))
  /\ nth_error (min_ s) j = Some (column_min (column X j)).
Proof.
  intros H Hj. destruct (fit_inv X s H) as [_ [_ [_ [-> ->]]]].
  rewrite !nth_error_map, !nth_error_seq.
  destruct (Nat.ltb_spec j (n_features X)); [| lia]. now split.
Qed.

(** Scaling an entry of the fitted array and scaling back. *)
Lemma round_trip_entry (X : matrix) (s : MinMaxScaler) (row : list fval)
      (j : nat) (v : fval) :
  fit X = Ok s -> In row X -> nth_error row j = Some v ->
  (j < n_features X)%nat ->
  exists back,
    nth_error (inverse_row s (transform_row s row)) j = Some back
    /\ within_tolerance v back.
Proof.
  intros Hfit Hrow Hv Hj.
  destruct (fit_column X s j Hfit Hj) as [Hs Hm].
  destruct (fit_inv X s Hfit) as [Hchk _].
  pose proof (column_no_inf X j Hchk) as Hinf.
  pose proof (column_entry X row j v Hrow Hv) as Hin.
  eexists. split.
  - eapply nth_error_inverse_row; [| exact Hs | exact Hm].
    eapply nth_error_transform_row; [exact Hv | exact Hs | exact Hm].
  - destruct v as [| sg | x].
    + reflexivity.
    + specialize (Hinf _ Hin). discriminate.
    + destruct (column_parameters (column X j) Hinf (ex_intro _ x Hin))
        as [m [M [sc [_ [_ [Esc [Emn [Psc _]]]]]]]].
      rewrite Esc, Emn. cbn [fmul fadd fsub fneg fdiv].
      rewrite (Qeq_bool_pos _ Psc).
      eexists. split; [reflexivity |].
      match goal with
      | |- Qabs (?y - x) <= _ => assert (Z : y - x == 0) by (field; lra)
      end.
      rewrite Z. change (Qabs 0) with 0.
      apply Qmult_le_0_compat; [discriminate | apply Qabs_nonneg].
Qed.

(** ** The scaling cell *)

Lemma mapM_map {A B : Type} (f : A -> result B) (g : A -> B) (l : list A) :
  (forall x, f x = Ok (g x)) -> mapM f l = Ok (map g l).
Proof.
  intros H. induction l as [| x tl IH]; simpl; [reflexivity |].
  now rewrite H, IH.
Qed.

Lemma select_features (df : list FeatureRow) :
  select features df = Ok (map feature_values df).
Proof. apply mapM_map. intros r. reflexivity. Qed.

Lemma target_Close (df : list FeatureRow) :
  target df = Ok (map target_value df).
Proof. apply mapM_map. intros r. reflexivity. Qed.

Lemma fit_transform_inv (X : matrix) (s : MinMaxScaler) (Xs : matrix) :
  fit_transform X = Ok (s, Xs) ->
  fit X = Ok s /\ Xs = map (transform_row s) X.
Proof.
  unfold fit_transform. destruct (fit X) as [s' |]; [| discriminate].
  cbn [bind]. unfold transform.
  destruct (check_array X) as [[] |]; [| discriminate]. cbn [bind].
  destruct (check_n_features s' X) as [[] |]; [| discriminate]. cbn [bind].
  intros [= <- <-]. now split.
Qed.

Lemma scale_inv (df : list FeatureRow) (sc : Scaled) :
  scale df = Ok sc ->
  X sc = map feature_values df
  /\ y sc = map target_value df
  /\ fit (X sc) = Ok (scaler_X sc)
  /\ X_scaled sc = map (transform_row (scaler_X sc)) (X sc)
  /\ fit (reshape_column (y sc)) = Ok (scaler_y sc)
  /\ y_scaled sc
     = flatten (map (transform_row (scaler_y sc)) (reshape_column (y sc))).
Proof.
  unfold scale. rewrite select_features, target_Close. cbn [bind].
  destruct (fit_transform (map feature_values df)) as [[sX Xs] |] eqn:EX;
    [| discriminate].
  cbn [bind].
  destruct (fit_transform (reshape_column (map target_value df)))
    as [[sy ys] |] eqn:Ey; [| discriminate].
  cbn [bind fst snd]. intros [= <-]. cbn [X y scaler_X scaler_y X_scaled
    y_scaled].
  destruct (fit_transform_inv _ _ _ EX) as [FX ->].
  destruct (fit_transform_inv _ _ _ Ey) as [Fy ->].
  repeat split; assumption.
Qed.

Lemma n_features_selected (df : list FeatureRow) (row : list fval) :
  In row (map feature_values df) ->
  n_features (map feature_values df) = 10%nat /\ length row = 10%nat.
Proof.
  intros H. split.
  - destruct df as [| r tl]; [destruct H | reflexivity].
  - apply in_map_iff in H. destruct H as [r [<- _]]. reflexivity.
Qed.

Lemma n_features_column (v : fval) (ys : list fval) :
  In v ys -> n_features (reshape_column ys) = 1%nat.
Proof. destruct ys; [intros [] | reflexivity]. Qed.

(** ** What the feature scaler is fitted on and used for *)

(** A defined entry of the fitted array lies between the fitted minimum
    and maximum of its column, and its scaled value is determined by
    these two: [(x - min) / (max - min)], or [x - min] on a column
    narrower than [10 eps]; it lies in [0, 1]. *)
Lemma scaled_entry (X : matrix) (s : MinMaxScaler) (row : list fval)
      (j : nat) (x : Q) :
  fit X = Ok s -> In row X -> nth_error row j = Some (Fin x) ->
  (j < n_features X)%nat ->
  exists m M t,
    nth_error (data_min_ s) j = Some (Fin m)
    /\ nth_error (data_max_ s) j = Some (Fin M)
    /\ m <= x <= M
    /\ nth_error (transform_row s row) j = Some (Fin t)
    /\ 0 <= t <= 1
    /\ ((M - m < 10 * eps /\ t == x - m)
        \/ (10 * eps <= M - m /\ t == (x - m) / (M - m))).
Proof.
  intros Hfit Hrow Hv Hj.
  destruct (fit_column X s j Hfit Hj) as [Hs Hm].
  destruct (fit_inv X s Hfit) as [Hchk [Emin [Emax _]]].
  pose proof (column_no_inf X j Hchk) as Hinf.
  pose proof (column_entry X row j _ Hrow Hv) as Hin.
  destruct (column_parameters (column X j) Hinf (ex_intro _ x Hin))
    as [m [M [sc [Em [EM [Esc [Emn [Psc [Hb Hcase]]]]]]]]].
  destruct (Hb x Hin) as [Hlo Hhi].
  exists m, M, (x * sc + (0 + - (m * sc))).
  split.
  { rewrite Emin, nth_error_map, nth_error_seq.
    destruct (Nat.ltb_spec j (n_features X)); [| lia]. simpl. now rewrite Em. }
  split.
  { rewrite Emax, nth_error_map, nth_error_seq.
    destruct (Nat.ltb_spec j (n_features X)); [| lia]. simpl. now rewrite EM. }
  split; [now split |].
  split.
  { rewrite (nth_error_transform_row s row j _ _ _ Hv Hs Hm).
    now rewrite Esc, Emn. }
  pose proof ten_eps_pos as P. pose proof ten_eps_small as P1.
  destruct Hcase as [[Hnarrow Hsc] | [Hwide Hsc]].
  - assert (T : x * sc + (0 + - (m * sc)) == x - m)
      by (rewrite Hsc; ring).
    split; [rewrite T; split; lra |]. left. now split.
  - assert (D : 0 < M - m) by lra.
    assert (T : x * sc + (0 + - (m * sc)) == (x - m) / (M - m))
      by (rewrite Hsc; field; lra).
    split; [| right; now split].
    rewrite T. split.
    + apply Qle_shift_div_l; [exact D | lra].
    + apply Qle_shift_div_r; [exact D | lra].
Qed.

(** ** The round trip through a fitted scaler *)

Lemma Forall2_of_nth_error {A B : Type} (R : A -> B -> Prop)
      (l : list A) (l' : list B) :
  length l = length l' ->
  (forall i x y, nth_error l i = Some x -> nth_error l' i = Some y -> R x y) ->
  Forall2 R l l'.
Proof.
  revert l'; induction l as [| x tl IH]; intros [| y tl'] Hlen H;
    try discriminate; constructor.
  - exact (H 0%nat x y eq_refl eq_refl).
  - apply IH; [simpl in Hlen; lia |].
    intros i a b Ha Hb. exact (H (S i) a b Ha Hb).
Qed.

Lemma Forall2_map_self {A B : Type} (R : A -> B -> Prop) (f : A -> B)
      (l : list A) :
  (forall x, In x l -> R x (f x)) -> Forall2 R l (map f l).
Proof.
  induction l as [| x tl IH]; intros H; simpl; constructor.
  - apply H. now left.
  - apply IH. intros a Ha. apply H. now right.
Qed.

Lemma fit_lengths (X : matrix) (s : MinMaxScaler) :
  fit X = Ok s ->
  length (scale_ s) = n_features X /\ length (min_ s) = n_features X.
Proof.
  intros H. destruct (fit_inv X s H) as [_ [_ [_ [-> ->]]]].
  now rewrite !length_map, length_seq.
Qed.

Lemma length_transform_row (s : MinMaxScaler) (row : list fval) :
  length (scale_ s) = length row -> length (min_ s) = length row ->
  length (transform_row s row) = length row.
Proof.
  intros Hs Hm. unfold transform_row. rewrite !length_map2. lia.
Qed.

Lemma length_inverse_row (s : MinMaxScaler) (row : list fval) :
  length (scale_ s) = length row -> length (min_ s) = length row ->
  length (inverse_row s row) = length row.
Proof.
  intros Hs Hm. unfold inverse_row. rewrite !length_map2. lia.
Qed.

(** A scaled entry is never an infinity. *)
Lemma transform_entry (X : matrix) (s : MinMaxScaler) (row : list fval)
      (j : nat) (v : fval) :
  fit X = Ok s -> In row X -> nth_error row j = Some v ->
  (j < n_features X)%nat ->
  exists t, nth_error (transform_row s row) j = Some t /\ isinf t = false.
Proof.
  intros Hfit Hrow Hv Hj. destruct v as [| sg | x].
  - destruct (fit_column X s j Hfit Hj) as [Hs Hm].
    eexists. split.
    + eapply nth_error_transform_row; [exact Hv | exact Hs | exact Hm].
    + reflexivity.
  - destruct (fit_inv X s Hfit) as [Hchk _].
    pose proof (column_no_inf X j Hchk _ (column_entry X row j _ Hrow Hv))
      as C. discriminate C.
  - destruct (scaled_entry X s row j x Hfit Hrow Hv Hj)
      as [m [M [t [_ [_ [_ [Ht _]]]]]]].
    exists (Fin t). now split.
Qed.

(** [inverse_transform] after [transform], on the array the scaler was
    fitted on. *)
Lemma round_trip_array (X : matrix) (s : MinMaxScaler) :
  fit X = Ok s ->
  (forall row, In row X -> length row = n_features X) ->
  transform s X = Ok (map (transform_row s) X)
  /\ exists back,
      inverse_transform s (map (transform_row s) X) = Ok back
      /\ Forall2 (Forall2 within_tolerance) X back.
Proof.
  intros Hfit Hrect.
  destruct (fit_inv X s Hfit) as [Hchk _].
  destruct (fit_lengths X s Hfit) as [Ls Lm].
  assert (Hpos : (0 < n_features X)%nat).
  { unfold check_array in Hchk.
    destruct (existsb (existsb isinf) X); [discriminate |].
    destruct X as [| r0 tl]; [discriminate |].
    destruct r0; [discriminate | unfold n_features; cbn [hd length]; lia]. }
  split.
  - unfold transform. rewrite Hchk. cbn [bind]. unfold check_n_features.
    assert (F : forallb (fun row => length row =? length (scale_ s)) X
                = true).
    { apply forallb_forall. intros row Hrow. apply Nat.eqb_eq.
      rewrite Ls. now apply Hrect. }
    rewrite F. reflexivity.
  - exists (map (inverse_row s) (map (transform_row s) X)). split.
    + unfold inverse_transform.
      assert (C : check_array (map (transform_row s) X) = Ok tt).
      { unfold check_array.
        destruct (existsb (existsb isinf) (map (transform_row s) X)) eqn:E.
        - exfalso. apply existsb_exists in E.
          destruct E as [row' [Hrow' E]]. apply in_map_iff in Hrow'.
          destruct Hrow' as [row [<- Hrow]].
          apply existsb_exists in E. destruct E as [t [Ht Einf]].
          apply In_nth_error in Ht. destruct Ht as [j Hj].
          assert (Lj : (j < length (transform_row s row))%nat)
            by (apply nth_error_Some; congruence).
          rewrite length_transform_row in Lj
            by (rewrite ?Ls, ?Lm; symmetry; now apply Hrect).
          destruct (nth_error row j) as [v |] eqn:Hv;
            [| apply nth_error_None in Hv; lia].
          destruct (transform_entry X s row j v Hfit Hrow Hv) as [t' [Ht' N]].
          { rewrite <- (Hrect row Hrow). exact Lj. }
          rewrite Hj in Ht'. injection Ht' as <-. congruence.
        - destruct X as [| r0 tl]; [discriminate |].
          cbn [map].
          assert (L0 : length (transform_row s r0) = n_features (r0 :: tl)).
          { pose proof (Hrect r0 (or_introl eq_refl)) as L.
            rewrite length_transform_row; rewrite ?Ls, ?Lm; congruence. }
          destruct (transform_row s r0); [simpl in L0; lia | reflexivity]. }
      rewrite C. reflexivity.
    + rewrite map_map. apply Forall2_map_self. intros row Hrow.
      pose proof (Hrect row Hrow) as Lr.
      apply Forall2_of_nth_error.
      * rewrite length_inverse_row;
          rewrite ?length_transform_row; rewrite ?Ls, ?Lm; congruence.
      * intros j v back Hv Hback.
        destruct (round_trip_entry X s row j v Hfit Hrow Hv)
          as [back' [Hb' W]].
        { rewrite <- Lr. apply nth_error_Some. congruence. }
        rewrite Hback in Hb'. now injection Hb' as <-.
Qed.

Lemma reshape_flatten_singletons (m : matrix) :
  Forall (fun row => length row = 1%nat) m ->
  reshape_column (flatten m) = m.
Proof.
  induction 1 as [| row tl Hrow _ IH]; [reflexivity |].
  destruct row as [| v [| w rest]]; try discriminate.
  unfold flatten, reshape_column in *. simpl. now rewrite IH.
Qed.

Lemma transform_fitted_row (X : matrix) (s : MinMaxScaler)
      (row : list fval) :
  fit X = Ok s -> In row X -> length row = n_features X ->
  transform s [row] = Ok [transform_row s row].
Proof.
  intros Hfit Hrow Hlen.
  destruct (fit_inv X s Hfit) as [Hchk [_ [_ [Es _]]]].
  destruct (check_array_inv X Hchk) as [_ Hinf].
  assert (Hpos : (0 < n_features X)%nat).
  { unfold check_array in Hchk.
    destruct (existsb (existsb isinf) X); [discriminate |].
    destruct X as [| r0 tl]; [discriminate |].
    destruct r0; [discriminate | unfold n_features; cbn [hd length]; lia]. }
  unfold transform, check_array. cbn [existsb].
  assert (E : existsb isinf row = false).
  { destruct (existsb isinf row) eqn:E; [| reflexivity].
    apply existsb_exists in E. destruct E as [v [Hv Ev]].
    rewrite (Hinf row v Hrow Hv) in Ev. discriminate. }
  rewrite E. cbn [orb].
  destruct row as [| v0 vtl]; [cbn [length] in Hlen; lia |].
  cbn [bind]. unfold check_n_features. cbn [forallb].
  rewrite Es, length_map, length_seq, Hlen, Nat.eqb_refl. reflexivity.
Qed.

(** C6, as stated, fails: the scaler is not fitted over every derived
    column.  MA30, for one, is a column the feature-engineering cells
    add, and it is not among the columns handed to the scaler. *)
Lemma feature_scaler_counterexample :
  In "MA30"%string engineered_columns
  /\ ~ In "MA30"%string features
  /\ ~ (forall label, In label engineered_columns -> In label features).
Proof.
  assert (A : In "MA30"%string engineered_columns)
    by (unfold engineered_columns; simpl; auto 20).
  assert (B : ~ In "MA30"%string features).
  { unfold features. simpl. intros H.
    repeat (destruct H as [H | H]; [discriminate H |]). exact H. }
  split; [exact A |]. split; [exact B |].
  intros H. exact (B (H _ A)).
Qed.

Lemma last_rows_one_app {A : Type} (l : list A) (x : A) :
  last_rows 1 (l ++ [x]) = [x].
Proof.
  unfold last_rows. rewrite length_app. cbn [length].
  replace (length l + 1 - 1)%nat with (length l + 0)%nat by lia.
  rewrite skipn_app, Nat.add_0_r, skipn_all.
  now replace (length l - length l)%nat with 0%nat by lia.
Qed.

(** C6, amended.  When the scaling cell completes, the feature scaler has
    been fitted once, over the ten selected columns (Open, High, Low,
    Volume, MA7, DailyRange, Year, Month, DayOfWeek, DaysSinceStart) of
    every usable row.  Its fitted minimum and maximum of a column bound
    every defined entry of that column and alone determine the scaled
    entry: [(x - min) / (max - min)], or [x - min] on a column narrower
    than [10 eps] (the value in binary64 is this one rounded).  The same
    fitted scaler scales the single inference sample, which is the row
    of the ten features of the last usable row; the predicted value is
    taken back to price units by the target scaler. *)
Theorem feature_scaler_fitted_on_selected_columns
        (predict : list fval -> fval) (df_clean : list FeatureRow)
        (sc : Scaled) :
  scale df_clean = Ok sc ->
  X sc = map feature_values df_clean
  /\ fit (X sc) = Ok (scaler_X sc)
  /\ X_scaled sc = map (transform_row (scaler_X sc)) (X sc)
  /\ (forall row j x,
        In row (X sc) -> nth_error row j = Some (Fin x) ->
        exists m M t,
          nth_error (data_min_ (scaler_X sc)) j = Some (Fin m)
          /\ nth_error (data_max_ (scaler_X sc)) j = Some (Fin M)
          /\ m <= x <= M
          /\ nth_error (transform_row (scaler_X sc) row) j = Some (Fin t)
          /\ ((M - m < 10 * eps /\ t == x - m)
              \/ (10 * eps <= M - m /\ t == (x - m) / (M - m))))
  /\ (exists front r,
        df_clean = (front ++ [r])%list
        /\ sample_data sc = [feature_values r]
        /\ sample_data_scaled sc
           = Ok [transform_row (scaler_X sc) (feature_values r)]
        /\ let p := predict (transform_row (scaler_X sc)
                                           (feature_values r)) in
           isinf p = false ->
           sample_prediction predict sc
           = Ok (nth 0 (inverse_row (scaler_y sc) [p]) NaN)).
Proof.
  intros H. destruct (scale_inv df_clean sc H)
    as [EX [Ey [FX [EXs [Fy Eys]]]]].
  assert (Hwidth : forall row, In row (X sc) ->
                               length row = n_features (X sc)).
  { intros row Hrow. rewrite EX in Hrow |- *.
    destruct (n_features_selected df_clean row Hrow) as [-> ->].
    reflexivity. }
  split; [exact EX |]. split; [exact FX |]. split; [exact EXs |]. split.
  - intros row j x Hrow Hv.
    destruct (scaled_entry (X sc) _ row j x FX Hrow Hv)
      as [m [M [t [H1 [H2 [H3 [H4 [_ H5]]]]]]]].
    { rewrite <- (Hwidth row Hrow). apply nth_error_Some. congruence. }
    exists m, M, t. repeat (split; [assumption |]). exact H5.
  - assert (Hne : df_clean <> []).
    { destruct (fit_inv _ _ FX) as [Hchk _].
      pose proof (proj1 (check_array_inv _ Hchk)) as N.
      intros C. apply N. now rewrite EX, C. }
    destruct (exists_last Hne) as [front [r Hdf]].
    exists front, r. split; [exact Hdf |].
    assert (Hl : sample_data sc = [feature_values r]).
    { unfold sample_data. rewrite EX, Hdf, map_app. cbn [map].
      apply last_rows_one_app. }
    split; [exact Hl |].
    assert (Hin : In (feature_values r) (X sc)).
    { rewrite EX, Hdf, map_app. apply in_or_app. right. now left. }
    assert (T : sample_data_scaled sc
                = Ok [transform_row (scaler_X sc) (feature_values r)]).
    { unfold sample_data_scaled. rewrite Hl.
      apply (transform_fitted_row (X sc)); auto. }
    split; [exact T |].
    intros p Hp. unfold sample_prediction. rewrite T. cbn [bind map].
    fold p. unfold inverse_transform, check_array, reshape_column.
    cbn [map existsb]. rewrite Hp. reflexivity.
Qed.

Lemma feature_scaler_witness :
  exists sc front r,
    scale demo_usable = Ok sc
    /\ demo_usable = (front ++ [r])%list
    /\ sample_data sc = [feature_values r].
Proof.
  destruct (scale demo_usable) as [sc | e] eqn:E.
  - destruct (feature_scaler_fitted_on_selected_columns
                constant_model demo_usable sc E)
      as [_ [_ [_ [_ [front [r [H1 [H2 _]]]]]]]].
    exists sc, front, r. split; [reflexivity |]. split; [exact H1 | exact H2].
  - exfalso. vm_compute in E. discriminate E.
Defined.

(** ** Names in the notebook *)

Module NotebookFacts.

Import Notebook.

Lemma bound_In (env : list string) (name : string) :
  bound env name = true <-> In name env.
Proof.
  unfold bound. rewrite existsb_exists. split.
  - intros [x [Hx E]]. apply String.eqb_eq in E. now subst.
  - intros H. exists name. split; [exact H | apply String.eqb_refl].
Qed.

Lemma first_unbound_some (env names : list string) (name : string) :
  In name names -> ~ In name env ->
  exists n, first_unbound env names = Some n.
Proof.
  intros Hin Hnot. unfold first_unbound.
  destruct (find _ names) as [n |] eqn:E; [now exists n |].
  pose proof (find_none _ _ E name Hin) as C. simpl in C.
  apply negb_false_iff, bound_In in C. contradiction.
Qed.

Lemma exec_simple_env (ok : bool) (env env' : list string) (s : simple) :
  exec_simple ok env s = Ok env' -> env' = (binds s ++ env)%list.
Proof.
  unfold exec_simple. destruct (first_unbound env (reads s)); [discriminate |].
  destruct ok; [| discriminate]. now intros [= <-].
Qed.

Lemma exec_body_env (lib : nat -> bool) (body : list simple) (k : nat)
      (env env' : list string) :
  exec_body lib k env body = Ok env' ->
  forall x, In x env' -> In x env \/ In x (flat_map binds body).
Proof.
  revert k env; induction body as [| s tl IH]; intros k env; simpl.
  - intros [= <-] x Hx. now left.
  - destruct (exec_simple (lib k) env s) as [env1 |] eqn:E; [| discriminate].
    cbn [bind]. intros H x Hx.
    apply exec_simple_env in E. subst env1.
    destruct (IH _ _ H x Hx) as [Hin | Hin].
    + apply in_app_or in Hin. destruct Hin as [Hin | Hin].
      * right. apply in_or_app. now left.
      * now left.
    + right. apply in_or_app. now right.
Qed.

Lemma exec_stmts_env (lib test : nat -> bool) (l : list stmt) (k : nat)
      (env env' : list string) :
  exec_stmts lib test k env l = Ok env' ->
  forall x, In x env' -> In x env \/ In x (flat_map stmt_binds l).
Proof.
  revert k env; induction l as [| s tl IH]; intros k env; simpl.
  - intros [= <-] x Hx. now left.
  - destruct s as [s | names body].
    + destruct (exec_simple (lib k) env s) as [env1 |] eqn:E;
        [| discriminate].
      cbn [bind]. intros H x Hx.
      apply exec_simple_env in E. subst env1.
      destruct (IH _ _ H x Hx) as [Hin | Hin].
      * apply in_app_or in Hin. destruct Hin as [Hin | Hin].
        -- right. apply in_or_app. now left.
        -- now left.
      * right. apply in_or_app. now right.
    + destruct (exec_simple (lib k) env (mkSimple names [])) as [env1 |]
        eqn:E; [| discriminate].
      cbn [bind]. apply exec_simple_env in E. simpl in E. subst env1.
      destruct (test k).
      * destruct (exec_body _ 0 env body) as [env2 |] eqn:E2;
          [| discriminate].
        cbn [bind]. intros H x Hx.
        destruct (IH _ _ H x Hx) as [Hin | Hin].
        -- destruct (exec_body_env _ _ _ _ _ E2 x Hin) as [Hin' | Hin'].
           ++ now left.
           ++ right. apply in_or_app. now left.
        -- right. apply in_or_app. now right.
      * cbn [bind]. intros H x Hx.
        destruct (IH _ _ H x Hx) as [Hin | Hin].
        -- now left.
        -- right. apply in_or_app. now right.
Qed.

Lemma run_from_env (lib test : nat -> nat -> bool) (cells : list cell)
      (env env' : list string) :
  run_from lib test env cells = Completed env' ->
  forall x, In x env' -> In x env \/ In x (assigned_names cells).
Proof.
  revert env; induction cells as [| [c body] tl IH]; intros env; simpl.
  - intros [= <-] x Hx. now left.
  - destruct (exec_stmts (lib c) (test c) 0 env body) as [env1 |] eqn:E;
      [| discriminate].
    intros H x Hx. destruct (IH _ H x Hx) as [Hin | Hin].
    + destruct (exec_stmts_env _ _ _ _ _ _ E x Hin) as [Hin' | Hin'].
      * now left.
      * right. unfold assigned_names. simpl. apply in_or_app. now left.
    + right. unfold assigned_names. simpl. apply in_or_app. now right.
Qed.

Lemma run_from_stopped (lib test : nat -> nat -> bool) (cells : list cell)
      (env : list string) (c : nat) (e : error) :
  run_from lib test env cells = Stopped c e -> In c (map fst cells).
Proof.
  revert env; induction cells as [| [c0 body] tl IH]; intros env; simpl.
  - discriminate.
  - destruct (exec_stmts (lib c0) (test c0) 0 env body) as [env1 |].
    + intros H. right. exact (IH _ H).
    + intros [= <- _]. now left.
Qed.

Lemma run_from_app (lib test : nat -> nat -> bool) (l1 l2 : list cell)
      (env : list string) :
  run_from lib test env (l1 ++ l2)
  = match run_from lib test env l1 with
    | Completed env1 => run_from lib test env1 l2
    | Stopped c e => Stopped c e
    end.
Proof.
  revert env; induction l1 as [| [c body] tl IH]; intros env; simpl.
  - reflexivity.
  - destruct (exec_stmts (lib c) (test c) 0 env body); [apply IH |].
    reflexivity.
Qed.

Lemma exec_body_ext (lib lib' : nat -> bool) (body : list simple) (k : nat)
      (env : list string) :
  (forall j, lib j = lib' j) ->
  exec_body lib k env body = exec_body lib' k env body.
Proof.
  intros H. revert k env; induction body as [| s tl IH]; intros k env;
    simpl; [reflexivity |].
  rewrite H. destruct (exec_simple (lib' k) env s); simpl; auto.
Qed.

Lemma exec_stmts_ext (lib lib' test : nat -> bool) (l : list stmt)
      (k : nat) (env : list string) :
  (forall j, lib j = lib' j) ->
  exec_stmts lib test k env l = exec_stmts lib' test k env l.
Proof.
  intros H. revert k env; induction l as [| s tl IH]; intros k env;
    simpl; [reflexivity |].
  destruct s as [s | names body]; rewrite H.
  - destruct (exec_simple (lib' k) env s); simpl; auto.
  - destruct (exec_simple (lib' k) env _); simpl; [| reflexivity].
    destruct (test k).
    + rewrite (exec_body_ext (fun j => lib (k + S j)%nat)
                             (fun j => lib' (k + S j)%nat))
        by (intros j; apply H).
      destruct (exec_body _ 0 a body); simpl; auto.
    + simpl. auto.
Qed.

Lemma run_from_ext (lib lib' test : nat -> nat -> bool) (cells : list cell)
      (env : list string) :
  (forall c k, lib c k = lib' c k) ->
  run_from lib test env cells = run_from lib' test env cells.
Proof.
  intros H. revert env; induction cells as [| [c body] tl IH]; intros env;
    simpl; [reflexivity |].
  rewrite (exec_stmts_ext (lib c) (lib' c)) by (intros j; apply H).
  destruct (exec_stmts (lib' c) (test c) 0 env body); auto.
Qed.

End NotebookFacts.

(** ** Which names a run can miss *)

Module ScopingFacts.

Import Notebook Scoping.

Lemma resolves_first_unbound (known env names : list string) :
  covers known env -> resolves known names = true ->
  first_unbound env names = None.
Proof.
  intros Hc Hr. unfold first_unbound.
  destruct (find _ names) as [n |] eqn:E; [| reflexivity].
  apply find_some in E. destruct E as [Hin Hn].
  unfold resolves in Hr. rewrite forallb_forall in Hr.
  specialize (Hr n Hin). apply NotebookFacts.bound_In, Hc in Hr.
  apply NotebookFacts.bound_In in Hr. rewrite Hr in Hn. discriminate.
Qed.

Lemma covers_bind (known env binds : list string) :
  covers known env -> covers (binds ++ known) (binds ++ env).
Proof.
  intros H x Hx. apply in_app_or in Hx. apply in_or_app.
  destruct Hx as [Hx | Hx]; [now left | right; now apply H].
Qed.

Lemma exec_simple_sound (ok : bool) (known env : list string) (s : simple) :
  covers known env -> resolves known (reads s) = true ->
  exec_simple ok env s
  = if ok then Ok (binds s ++ env)%list else Raise LibraryError.
Proof.
  intros Hc Hr. unfold exec_simple.
  now rewrite (resolves_first_unbound known env _ Hc Hr).
Qed.

Lemma check_body_grows (known known' : list string) (body : list simple) :
  check_body known body = Some known' -> covers known known'.
Proof.
  revert known. induction body as [| s tl IH]; intros known; cbn [check_body].
  - intros [= <-] x Hx. exact Hx.
  - destruct (resolves known (reads s)); [| discriminate].
    intros H x Hx. apply (IH _ H). apply in_or_app. now right.
Qed.

Lemma exec_body_sound (lib : nat -> bool) (body : list simple) (k : nat)
      (known known' env : list string) :
  covers known env -> check_body known body = Some known' ->
  match exec_body lib k env body with
  | Ok env' => covers known' env'
  | Raise e => e = LibraryError /\ exists j, lib j = false
  end.
Proof.
  revert k known env.
  induction body as [| s tl IH]; intros k known env Hc;
    cbn [check_body exec_body].
  - now intros [= <-].
  - destruct (resolves known (reads s)) eqn:Hr; [| discriminate].
    intros H. rewrite (exec_simple_sound _ known env s Hc Hr).
    destruct (lib k) eqn:Hk; cbn [bind].
    + apply (IH (S k) _ _ (covers_bind _ _ _ Hc) H).
    + split; [reflexivity | now exists k].
Qed.

Lemma exec_stmts_sound (lib test : nat -> bool) (l : list stmt) (k : nat)
      (known known' env : list string) :
  covers known env -> check_stmts known l = Some known' ->
  match exec_stmts lib test k env l with
  | Ok env' => covers known' env'
  | Raise e => e = LibraryError /\ exists j, lib j = false
  end.
Proof.
  revert k known env.
  induction l as [| [s | names body] tl IH]; intros k known env Hc;
    cbn [check_stmts exec_stmts].
  - now intros [= <-].
  - destruct (resolves known (reads s)) eqn:Hr; [| discriminate].
    intros H. rewrite (exec_simple_sound _ known env s Hc Hr).
    destruct (lib k) eqn:Hk; cbn [bind].
    + apply (IH (S k) _ _ (covers_bind _ _ _ Hc) H).
    + split; [reflexivity | now exists k].
  - destruct (resolves known names) eqn:Hr; [| discriminate].
    destruct (check_body known body) as [kb |] eqn:Hb; [| discriminate].
    intros H.
    rewrite (exec_simple_sound _ known env (mkSimple names []) Hc Hr).
    destruct (lib k) eqn:Hk; cbn [bind binds app].
    + destruct (test k).
      * pose proof (exec_body_sound (fun j => lib (k + S j)%nat) body 0
                                    known kb env Hc Hb) as Hbody.
        destruct (exec_body _ 0 env body) as [env'' | e]; cbn [bind].
        -- apply (IH _ known env''); [| exact H].
           intros x Hx. apply Hbody. now apply (check_body_grows _ _ _ Hb).
        -- destruct Hbody as [-> [j Hj]]. split; [reflexivity |].
           now exists (k + S j)%nat.
      * cbn [bind]. now apply (IH _ known env).
    + split; [reflexivity | now exists k].
Qed.

Lemma run_from_sound (lib test : nat -> nat -> bool) (cells : list cell)
      (known known' env : list string) :
  covers known env -> check_cells known cells = Some known' ->
  match run_from lib test env cells with
  | Completed env' => covers known' env'
  | Stopped c e => e = LibraryError /\ exists k, lib c k = false
  end.
Proof.
  revert known env.
  induction cells as [| [c body] tl IH]; intros known env Hc;
    cbn [check_cells run_from].
  - now intros [= <-].
  - destruct (check_stmts known body) as [k1 |] eqn:Hs; [| discriminate].
    intros H.
    pose proof (exec_stmts_sound (lib c) (test c) body 0 known k1 env Hc Hs)
      as Hbody.
    destruct (exec_stmts (lib c) (test c) 0 env body) as [env1 | e].
    + now apply (IH k1 env1).
    + exact Hbody.
Qed.

Lemma notebook_split :
  notebook
  = (cells_before_training
     ++ (training_cell,
         [def ["model"; "X_train"; "y_train"; "checkpoint_callback";
               "early_stop"]%string ["history"%string]])
     :: skipn 21 notebook)%list.
Proof. reflexivity. Qed.

Lemma cells_before_training_checked :
  check_cells builtins cells_before_training = Some known_before_training.
Proof. vm_compute. reflexivity. Qed.

Lemma notebook_checked_with_callback :
  exists known,
    check_cells ("checkpoint_callback"%string :: builtins) notebook
    = Some known.
Proof. eexists. vm_compute. reflexivity. Qed.

End ScopingFacts.

Lemma not_bound_not_In (env : list string) (name : string) :
  Notebook.bound env name = false -> ~ In name env.
Proof.
  intros H Hin. apply NotebookFacts.bound_In in Hin. congruence.
Qed.

(** C2, as stated, fails: not every run from the top gets to the
    training cell.  A price file of fewer than 30 rows leaves no usable
    row, the first [fit_transform] of cell 20 raises on the empty array
    (the sixth statement of the cell), and the run stops there, six
    cells before [model.fit] would read [checkpoint_callback]. *)
Lemma training_cell_counterexample :
  let lib := fun c k : nat => negb ((c =? 20)%nat && (k =? 5)%nat) in
  run_to_scale short_file = Failed Scaling EmptyArray
  /\ Notebook.run lib (fun _ _ => true) = Notebook.Stopped 20 LibraryError
  /\ ~ (forall lib test : nat -> nat -> bool,
          exists name,
            Notebook.run lib test
            = Notebook.Stopped Notebook.training_cell (NameError name)).
Proof.
  intros lib.
  assert (R : Notebook.run lib (fun _ _ => true)
              = Notebook.Stopped 20 LibraryError)
    by (vm_compute; reflexivity).
  split; [vm_compute; reflexivity |]. split; [exact R |].
  intros C. destruct (C lib (fun _ _ => true)) as [name E].
  rewrite R in E. discriminate E.
Qed.

(** C2, amended.  No cell of the notebook binds the name
    [checkpoint_callback], which the training cell (the call of
    [model.fit]) reads.  So no run from the top completes, however the
    library calls behave.  A run ends in one of two ways: a library call
    of a cell before the training cell fails, and the run stops at that
    cell; or every cell before the training cell completes, and the run
    stops at the training cell with the NameError for
    [checkpoint_callback], raised while the arguments of [model.fit] are
    evaluated.  Nothing catches either failure. *)
Theorem training_cell_raises_name_error (lib test : nat -> nat -> bool) :
  ~ In "checkpoint_callback"%string
       (Notebook.assigned_names Notebook.notebook)
  /\ (exists c e,
        Notebook.run lib test = Notebook.Stopped c e
        /\ ((e = LibraryError /\ (c < Notebook.training_cell)%nat
             /\ exists k, lib c k = false)
            \/ (c = Notebook.training_cell
                /\ e = NameError "checkpoint_callback")))
  /\ ((forall c k, (c < Notebook.training_cell)%nat -> lib c k = true) ->
      Notebook.run lib test
      = Notebook.Stopped Notebook.training_cell
                         (NameError "checkpoint_callback")).
Proof.
  assert (Stops :
            exists c e,
              Notebook.run lib test = Notebook.Stopped c e
              /\ ((e = LibraryError /\ (c < Notebook.training_cell)%nat
                   /\ exists k, lib c k = false)
                  \/ (c = Notebook.training_cell
                      /\ e = NameError "checkpoint_callback"))).
  { unfold Notebook.run.
    rewrite ScopingFacts.notebook_split, NotebookFacts.run_from_app.
    pose proof (ScopingFacts.run_from_sound
                  lib test Scoping.cells_before_training _ _
                  Notebook.builtins (fun x Hx => Hx)
                  ScopingFacts.cells_before_training_checked) as S.
    destruct (Notebook.run_from lib test Notebook.builtins
                                Scoping.cells_before_training)
      as [env1 | c1 e1] eqn:E.
    - assert (N : Notebook.bound env1 "checkpoint_callback" = false).
      { destruct (Notebook.bound env1 "checkpoint_callback") eqn:B;
          [| reflexivity].
        apply NotebookFacts.bound_In in B. exfalso.
        destruct (NotebookFacts.run_from_env _ _ _ _ _ E _ B) as [H | H];
          revert H; apply not_bound_not_In; vm_compute; reflexivity. }
      assert (K : forall name,
                 Notebook.bound Scoping.known_before_training name = true ->
                 Notebook.bound env1 name = true).
      { intros name Hn. apply NotebookFacts.bound_In.
        apply S. now apply NotebookFacts.bound_In. }
      cbn [Notebook.run_from Notebook.exec_stmts Notebook.def].
      unfold Notebook.exec_simple at 1.
      cbn [Notebook.reads Notebook.first_unbound find].
      unfold Notebook.first_unbound. cbn [find].
      rewrite (K "model"%string eq_refl), (K "X_train"%string eq_refl),
        (K "y_train"%string eq_refl), N.
      cbn [negb bind].
      exists Notebook.training_cell, (NameError "checkpoint_callback").
      split; [reflexivity |]. right. now split.
    - exists c1, e1. split; [reflexivity |]. left.
      destruct S as [-> Hk]. split; [reflexivity |]. split; [| exact Hk].
      apply NotebookFacts.run_from_stopped in E.
      unfold Notebook.training_cell.
      cbn in E. repeat (destruct E as [<- | E]; [lia |]). destruct E. }
  split; [apply not_bound_not_In; vm_compute; reflexivity |].
  split; [exact Stops |].
  intros Hlib. destruct Stops as [c [e [Hrun [[_ [Hc [k Hk]]] | [-> ->]]]]].
  - rewrite (Hlib c k Hc) in Hk. discriminate Hk.
  - exact Hrun.
Qed.

Lemma training_cell_witness :
  (forall c k : nat,
      (c < Notebook.training_cell)%nat -> (fun _ _ : nat => true) c k = true)
  /\ Notebook.run (fun _ _ => true) (fun _ _ => true)
     = Notebook.Stopped 26 (NameError "checkpoint_callback").
Proof.
  assert (H : forall c k : nat,
             (c < Notebook.training_cell)%nat ->
             (fun _ _ : nat => true) c k = true) by reflexivity.
  split; [exact H |].
  exact (proj2 (proj2 (training_cell_raises_name_error
                         (fun _ _ => true) (fun _ _ => true))) H).
Defined.

(* ================================================================== *)
(** * Further properties of the cells *)
(* ================================================================== *)

(** ** Cell 8: what the imputation leaves behind *)

(** A value that compares greater than zero: a positive number or plus
    infinity. *)
Lemma fltb_zero_cases (v : fval) :
  fltb (Fin 0) v = true ->
  v = Inf false \/ exists q, v = Fin q /\ 0 < q.
Proof.
  destruct v as [| s | q]; simpl; try discriminate.
  - destruct s; simpl; [discriminate | now left].
  - unfold Qltb. intros H. right. exists q. split; [reflexivity |].
    apply negb_true_iff in H. apply Qnot_le_lt. intros C.
    apply Qle_bool_iff in C. congruence.
Qed.

Lemma fold_fadd_above_zero (xs : list fval) (acc : fval) :
  Forall (fun v => fltb (Fin 0) v = true) xs ->
  (acc = Inf false \/ exists a, acc = Fin a /\ 0 <= a) ->
  xs <> [] \/ fltb (Fin 0) acc = true ->
  fltb (Fin 0) (fold_left fadd xs acc) = true.
Proof.
  intros H; revert acc; induction H as [| x tl Hx _ IH]; intros acc Hacc Hne.
  - destruct Hne as [C | C]; [now elim C | exact C].
  - cbn [fold_left]. apply IH.
    + destruct (fltb_zero_cases x Hx) as [-> | [q [-> Hq]]];
        destruct Hacc as [-> | [a [-> Ha]]]; simpl; auto.
      right. exists (a + q). split; [reflexivity | lra].
    + right.
      destruct (fltb_zero_cases x Hx) as [-> | [q [-> Hq]]];
        destruct Hacc as [-> | [a [-> Ha]]]; simpl; auto.
      unfold Qltb. apply negb_true_iff.
      destruct (Qle_bool (a + q) 0) eqn:L; [| reflexivity].
      apply Qle_bool_iff in L. lra.
Qed.

(** The mean cell 8 imputes is undefined or greater than zero. *)
Lemma mean_volume_above_zero {D : Type} (df : list (PriceRecord D)) :
  mean_volume df = NaN \/ fltb (Fin 0) (mean_volume df) = true.
Proof.
  rewrite mean_volume_positive_mean. unfold positive_mean.
  destruct (filter (fltb (Fin 0)) (map (@Volume D) df)) as [| p tl] eqn:E;
    [now left |].
  right.
  assert (F : Forall (fun v => fltb (Fin 0) v = true) (p :: tl)).
  { rewrite <- E. apply Forall_forall. intros v Hv.
    now apply filter_In in Hv. }
  assert (S : fltb (Fin 0) (fsum (p :: tl)) = true).
  { apply fold_fadd_above_zero; [exact F | | left; discriminate].
    right. exists 0. split; [reflexivity | lra]. }
  assert (N : 0 < inject_Z (Z.of_nat (length (p :: tl)))).
  { unfold Qlt. simpl. lia. }
  destruct (fltb_zero_cases _ S) as [-> | [q [-> Hq]]]; unfold of_nat.
  - cbn [fdiv xorb]. unfold Qltb.
    destruct (Qle_bool 0 (inject_Z (Z.of_nat (length (p :: tl))))) eqn:L;
      [reflexivity |].
    exfalso. assert (C : Qle_bool 0 (inject_Z (Z.of_nat (length (p :: tl))))
                         = true) by (apply Qle_bool_iff; lra).
    congruence.
  - cbn [fdiv]. rewrite (Qeq_bool_pos _ N). cbn [fltb]. unfold Qltb.
    apply negb_true_iff.
    destruct (Qle_bool (q / inject_Z (Z.of_nat (length (p :: tl)))) 0) eqn:L;
      [| reflexivity].
    apply Qle_bool_iff in L.
    assert (P : 0 < q / inject_Z (Z.of_nat (length (p :: tl))))
      by (apply Qlt_shift_div_l; lra).
    lra.
Qed.

Lemma above_zero_not_zero (v : fval) :
  v = NaN \/ fltb (Fin 0) v = true -> feqb v (Fin 0) = false.
Proof.
  intros [-> | H]; [reflexivity |].
  destruct (fltb_zero_cases v H) as [-> | [q [-> Hq]]]; [reflexivity |].
  simpl. now apply Qeq_bool_pos.
Qed.

Lemma imputed_not_zero {D : Type} (df : list (PriceRecord D))
      (r : PriceRecord D) :
  feqb (Volume (imputed (mean_volume df) r)) (Fin 0) = false.
Proof.
  unfold imputed. destruct (feqb (Volume r) (Fin 0)) eqn:E; [| exact E].
  simpl. apply above_zero_not_zero. apply mean_volume_above_zero.
Qed.

(** X1.  After cell 8 no row of the table has a Volume equal to 0,
    whatever the table held: a zero volume has become the mean of the
    volumes greater than zero, which is itself greater than zero, or NaN
    when there is none.  Counting the zero volumes again gives 0, and
    running the cell a second time changes nothing. *)
Theorem imputation_leaves_no_zero_volume
        (D : Type) (df : list (PriceRecord D)) :
  (forall r, In r (impute_volume df) -> feqb (Volume r) (Fin 0) = false)
  /\ (mean_volume df = NaN \/ fltb (Fin 0) (mean_volume df) = true)
  /\ zero_volume_count (impute_volume df) = 0%nat
  /\ impute_volume (impute_volume df) = impute_volume df.
Proof.
  assert (A : forall r, In r (impute_volume df) ->
                        feqb (Volume r) (Fin 0) = false).
  { intros r Hr. unfold impute_volume in Hr. apply in_map_iff in Hr.
    destruct Hr as [r0 [<- _]]. apply imputed_not_zero. }
  split; [exact A |]. split; [apply mean_volume_above_zero |]. split.
  - unfold zero_volume_count. rewrite filter_nil_iff; [reflexivity | exact A].
  - unfold impute_volume at 1.
    remember (mean_volume (impute_volume df)) as m eqn:Hm. clear Hm.
    remember (impute_volume df) as l eqn:Hl. clear Hl.
    induction l as [| r tl IH]; [reflexivity |].
    cbn [map]. rewrite IH by (intros x Hx; apply A; now right).
    unfold imputed at 1. rewrite (A r (or_introl eq_refl)). reflexivity.
Qed.

(** ** Cell 7: the share of zero volumes *)

Lemma Qle_inject_nat (a b : nat) :
  (a <= b)%nat -> inject_Z (Z.of_nat a) <= inject_Z (Z.of_nat b).
Proof. intros H. rewrite <- Zle_Qle. lia. Qed.

(** X2.  The count of zero volumes printed by cell 7 never exceeds the
    number of rows; on a table with at least one row the percentage
    printed beside it is a number between 0 and 100, which is 0 exactly
    when no volume is zero; on a table without rows the division is 0/0
    and the percentage is NaN. *)
Theorem zero_volume_share_is_a_percentage
        (D : Type) (df : list (PriceRecord D)) :
  (zero_volume_count df <= length df)%nat
  /\ (df = [] -> zero_volume_percent df = NaN)
  /\ (df <> [] ->
      exists p,
        zero_volume_percent df = Fin p
        /\ 0 <= p <= 100
        /\ (p == 0 <-> zero_volume_count df = 0%nat)).
Proof.
  assert (L : (zero_volume_count df <= length df)%nat)
    by apply length_filter_le.
  split; [exact L |]. split.
  - intros ->. reflexivity.
  - intros Hne.
    assert (N : (0 < length df)%nat) by (destruct df; [congruence | simpl; lia]).
    unfold zero_volume_percent, of_nat in *.
    remember (zero_volume_count df) as k eqn:Hk. clear Hk.
    remember (length df) as n eqn:Hn. clear Hn.
    cbn [fdiv]. rewrite (of_nat_pos _ N). cbn [fmul].
    eexists. split; [reflexivity |].
    assert (Pn : 0 < inject_Z (Z.of_nat n)) by (unfold Qlt; simpl; lia).
    assert (Pk : 0 <= inject_Z (Z.of_nat k)) by (unfold Qle; simpl; lia).
    pose proof (Qle_inject_nat k n L) as Lkn.
    assert (R0 : 0 <= inject_Z (Z.of_nat k) / inject_Z (Z.of_nat n))
      by (apply Qle_shift_div_l; lra).
    assert (R1 : inject_Z (Z.of_nat k) / inject_Z (Z.of_nat n) <= 1)
      by (apply Qle_shift_div_r; lra).
    split; [split; lra |]. split.
    + intros Z0.
      assert (Zq : inject_Z (Z.of_nat k) / inject_Z (Z.of_nat n) == 0) by lra.
      assert (Zk : inject_Z (Z.of_nat k) == 0).
      { setoid_replace (inject_Z (Z.of_nat k))
          with (inject_Z (Z.of_nat k) / inject_Z (Z.of_nat n)
                * inject_Z (Z.of_nat n)) by (field; lra).
        rewrite Zq. ring. }
      unfold Qeq in Zk. simpl in Zk. lia.
    + intros ->. reflexivity.
Qed.

(** ** Cell 10: days since the start *)






(** ** Cell 9: the calendar columns *)

Lemma day_of_year_range (doe : Z) :
  (0 <= doe < 146097)%Z ->
  let yoe := ((doe - doe / 1460 + doe / 36524 - doe / 146096) / 365)%Z in
  let doy := (doe - (365 * yoe + yoe / 4 - yoe / 100))%Z in
  (0 <= doy <= 365 /\ 0 <= yoe <= 399)%Z.
Proof.
  intros H yoe doy. unfold doy, yoe.
  Z.to_euclidean_division_equations; lia.
Qed.

(** The month is one of 1 to 12, the day one of 1 to 31, and the date
    found is the date of the day number. *)
Lemma civil_from_days_spec (days : Z) :
  let '(y, m, d) := civil_from_days days in
  (1 <= m <= 12 /\ 1 <= d <= 31 /\ days_from_civil y m d = days)%Z.
Proof.
  unfold civil_from_days.
  set (z := (days + 719468)%Z).
  set (era := (z / 146097)%Z).
  assert (H : (0 <= z - era * 146097 < 146097)%Z).
  { unfold era. Z.to_euclidean_division_equations; lia. }
  set (doe := (z - era * 146097)%Z) in *.
  destruct (day_of_year_range doe H) as [Hdoy Hyoe].
  set (yoe := ((doe - doe / 1460 + doe / 36524 - doe / 146096) / 365)%Z)
    in *.
  set (doy := (doe - (365 * yoe + yoe / 4 - yoe / 100))%Z) in *.
  cbv zeta.
  set (mp := ((5 * doy + 2) / 153)%Z).
  assert (Hmp : (0 <= mp <= 11)%Z)
    by (unfold mp; Z.to_euclidean_division_equations; lia).
  assert (Hd : (1 <= doy - (153 * mp + 2) / 5 + 1 <= 31)%Z)
    by (unfold mp; Z.to_euclidean_division_equations; lia).
  unfold days_from_civil.
  destruct (Z.ltb_spec mp 10) as [L | L].
  - destruct (Z.leb_spec (mp + 3) 2) as [C | _]; [lia |].
    destruct (Z.ltb_spec 2 (mp + 3)) as [_ | C]; [| lia].
    split; [lia |]. split; [exact Hd |].
    replace (mp + 3 - 3)%Z with mp by lia.
    replace ((yoe + era * 400 + 0) / 400)%Z with era
      by (Z.to_euclidean_division_equations; lia).
    replace (yoe + era * 400 + 0 - era * 400)%Z with yoe by lia.
    replace ((153 * mp + 2) / 5 + (doy - (153 * mp + 2) / 5 + 1) - 1)%Z
      with doy by lia.
    unfold doy, doe, z. lia.
  - destruct (Z.leb_spec (mp - 9) 2) as [_ | C]; [| lia].
    destruct (Z.ltb_spec 2 (mp - 9)) as [C | _]; [lia |].
    split; [lia |]. split; [exact Hd |].
    replace (mp - 9 + 9)%Z with mp by lia.
    replace ((yoe + era * 400 + 1 - 1) / 400)%Z with era
      by (Z.to_euclidean_division_equations; lia).
    replace (yoe + era * 400 + 1 - 1 - era * 400)%Z with yoe by lia.
    replace ((153 * mp + 2) / 5 + (doy - (153 * mp + 2) / 5 + 1) - 1)%Z
      with doy by lia.
    unfold doy, doe, z. lia.
Qed.

Lemma of_Z_inj (a b : Z) : of_Z a = of_Z b -> a = b.
Proof. unfold of_Z, inject_Z. now intros [= ->]. Qed.

Lemma clean_row_calendar (raw : list (PriceRecord raw_date))
      (df : list CleanRow) (r : CleanRow) :
  clean raw = Ok df -> In r df ->
  Year (cal r) = dt_year (Date (price r))
  /\ Month (cal r) = dt_month (Date (price r))
  /\ Day (cal r) = dt_day (Date (price r))
  /\ DayOfWeek (cal r) = dt_dayofweek (Date (price r)).
Proof.
  intros H Hr. destruct (clean_inv raw df H) as [ts [F ->]].
  apply In_nth_error in Hr. destruct Hr as [i Hi].
  apply nth_error_map2_inv in Hi. destruct Hi as [x [t [_ [_ ->]]]].
  repeat split.
Qed.

(** X4.  After cell 9, every row with a date has a whole-number Month
    between 1 and 12, Day between 1 and 31 and DayOfWeek between 0 and 6;
    a row without a date has these columns and Year undefined.  Two rows
    that agree on Year, Month and Day have the same date, and a row seven
    days after another has the same DayOfWeek. *)
Theorem calendar_columns_are_in_range
        (file : list CsvRow) (df : list CleanRow) :
  clean (read_csv file) = Ok df ->
  (forall r, In r df -> Date (price r) = None ->
             Year (cal r) = NaN /\ Month (cal r) = NaN
             /\ Day (cal r) = NaN /\ DayOfWeek (cal r) = NaN)
  /\ (forall r d,
        In r df -> Date (price r) = Some d ->
        exists y m dd w,
          Year (cal r) = of_Z y /\ Month (cal r) = of_Z m
          /\ Day (cal r) = of_Z dd /\ DayOfWeek (cal r) = of_Z w
          /\ (1 <= m <= 12)%Z /\ (1 <= dd <= 31)%Z /\ (0 <= w <= 6)%Z)
  /\ (forall r r' d d',
        In r df -> In r' df ->
        Date (price r) = Some d -> Date (price r') = Some d' ->
        Year (cal r) = Year (cal r') -> Month (cal r) = Month (cal r') ->
        Day (cal r) = Day (cal r') -> d = d')
  /\ (forall r r' d,
        In r df -> In r' df ->
        Date (price r) = Some d -> Date (price r') = Some (d + 7)%Z ->
        DayOfWeek (cal r) = DayOfWeek (cal r')).
Proof.
  intros H. split; [| split; [| split]].
  - intros r Hr Hd.
    destruct (clean_row_calendar _ _ r H Hr) as [-> [-> [-> ->]]].
    rewrite Hd. repeat split.
  - intros r d Hr Hd.
    destruct (clean_row_calendar _ _ r H Hr) as [-> [-> [-> ->]]].
    rewrite Hd. unfold dt_year, dt_month, dt_day, dt_dayofweek, dt_field.
    pose proof (civil_from_days_spec d) as S.
    destruct (civil_from_days d) as [[y m] dd]. cbn [fst snd].
    destruct S as [Hm [Hdd _]].
    exists y, m, dd, ((d + 3) mod 7)%Z.
    pose proof (Z.mod_pos_bound (d + 3) 7 ltac:(lia)) as Hw.
    split; [reflexivity |]. split; [reflexivity |].
    split; [reflexivity |]. split; [reflexivity |].
    split; [exact Hm |]. split; [exact Hdd | lia].
  - intros r r' d d' Hr Hr' Hd Hd' Ey Em Edd.
    destruct (clean_row_calendar _ _ r H Hr) as [Y [M [Dy _]]].
    destruct (clean_row_calendar _ _ r' H Hr') as [Y' [M' [Dy' _]]].
    rewrite Y, Y', Hd, Hd' in Ey. rewrite M, M', Hd, Hd' in Em.
    rewrite Dy, Dy', Hd, Hd' in Edd.
    unfold dt_year, dt_month, dt_day, dt_field in Ey, Em, Edd.
    apply of_Z_inj in Ey, Em, Edd.
    pose proof (civil_from_days_spec d) as S.
    pose proof (civil_from_days_spec d') as S'.
    destruct (civil_from_days d) as [[y m] dd].
    destruct (civil_from_days d') as [[y' m'] dd'].
    cbn [fst snd] in *. subst y' m' dd'.
    destruct S as [_ [_ <-]]. destruct S' as [_ [_ <-]]. reflexivity.
  - intros r r' d Hr Hr' Hd Hd'.
    destruct (clean_row_calendar _ _ r H Hr) as [_ [_ [_ ->]]].
    destruct (clean_row_calendar _ _ r' H Hr') as [_ [_ [_ ->]]].
    rewrite Hd, Hd'. unfold dt_dayofweek, dt_field. f_equal.
    replace (d + 7 + 3)%Z with (d + 3 + 1 * 7)%Z by lia.
    now rewrite Z.mod_add.
Qed.

Lemma calendar_columns_witness :
  clean (read_csv demo_file) = Ok demo_clean
  /\ forall r d,
      In r demo_clean -> Date (price r) = Some d ->
      exists y m dd w,
        Year (cal r) = of_Z y /\ Month (cal r) = of_Z m
        /\ Day (cal r) = of_Z dd /\ DayOfWeek (cal r) = of_Z w
        /\ (1 <= m <= 12)%Z /\ (1 <= dd <= 31)%Z /\ (0 <= w <= 6)%Z.
Proof.
  assert (H : clean (read_csv demo_file) = Ok demo_clean)
    by (vm_compute; reflexivity).
  split; [exact H |].
  exact (proj1 (proj2 (calendar_columns_are_in_range _ _ H))).
Defined.

(** ** Cell 14: the rows [dropna] keeps *)

Lemma lookup_In (label : string) (cols : list (string * fval)) (v : fval) :
  lookup label cols = Some v -> In (label, v) cols.
Proof.
  induction cols as [| [l x] tl IH]; cbn [lookup]; [discriminate |].
  destruct (String.eqb_spec l label) as [-> | _].
  - intros [= ->]. now left.
  - intros H. right. now apply IH.
Qed.

Lemma existsb_false_Forall {A : Type} (p : A -> bool) (l : list A) :
  existsb p l = false -> Forall (fun x => p x = false) l.
Proof.
  induction l as [| x tl IH]; cbn [existsb]; intros H; constructor.
  - now apply orb_false_iff in H.
  - apply IH. now apply orb_false_iff in H.
Qed.

Lemma row_isna_inv (r : FeatureRow) :
  row_isna r = false ->
  (exists d, Date (price (base r)) = Some d)
  /\ Forall (fun e => e <> None) (Extra (price (base r)))
  /\ Forall (fun lv => isna (snd lv) = false) (numeric_columns r).
Proof.
  unfold row_isna. intros H.
  apply orb_false_iff in H. destruct H as [H Hn].
  apply orb_false_iff in H. destruct H as [Hd He].
  split; [| split].
  - destruct (Date (price (base r))) as [d |]; [now exists d | discriminate].
  - apply existsb_false_Forall in He.
    eapply Forall_impl; [| exact He].
    intros [s |] E; [discriminate | discriminate E].
  - now apply existsb_false_Forall in Hn.
Qed.

Lemma filter_prefix_false {A : Type} (p : A -> bool) (l : list A) (k : nat) :
  (forall i r, nth_error l i = Some r -> (i < k)%nat -> p r = false) ->
  (length (filter p l) <= length l - k)%nat.
Proof.
  revert k. induction l as [| x tl IH]; intros k H; [cbn; lia |].
  destruct k as [| k].
  - rewrite Nat.sub_0_r. apply length_filter_le.
  - cbn [filter]. rewrite (H 0%nat x eq_refl) by lia.
    cbn [length]. rewrite Nat.sub_succ. apply IH.
    intros i r Hi Hlt. apply (H (S i) r Hi). lia.
Qed.

(** X5.  Whatever the file holds, [df_clean] has at most N - 29 rows.
    Each of them is an engineered row at position 29 or later, has a
    date, no missing further cell, and a defined value under every
    numeric label; dropping incomplete rows a second time changes
    nothing. *)
Theorem usable_rows_are_complete
        (file : list CsvRow) (df_clean : list FeatureRow) :
  prepare file = Ok df_clean ->
  (length df_clean <= length file - 29)%nat
  /\ (forall r,
        In r df_clean ->
        (exists d, Date (price (base r)) = Some d)
        /\ Forall (fun e => e <> None) (Extra (price (base r)))
        /\ (forall label v, getitem r label = Ok v -> v <> NaN))
  /\ (forall r,
        In r df_clean ->
        exists df i,
          clean (read_csv file) = Ok df
          /\ nth_error (engineer df) i = Some r /\ (29 <= i)%nat)
  /\ dropna df_clean = df_clean.
Proof.
  unfold prepare. intros H.
  destruct (clean (read_csv file)) as [df | e] eqn:Hc; [| discriminate].
  cbn [bind] in H. injection H as <-.
  split; [| split; [| split]].
  - rewrite <- (length_read_csv file), <- (length_clean _ _ Hc),
      <- (length_engineer df).
    apply filter_prefix_false. intros i r Hi Hlt.
    now rewrite (early_rows_dropped df i r Hi Hlt).
  - intros r Hr. apply filter_In in Hr. destruct Hr as [_ Hr].
    apply negb_true_iff in Hr.
    destruct (row_isna_inv r Hr) as [Hd [He Hn]].
    split; [exact Hd |]. split; [exact He |].
    intros label v Hg. unfold getitem in Hg.
    destruct (lookup label (numeric_columns r)) as [x |] eqn:Hl;
      [| discriminate].
    injection Hg as ->. apply lookup_In in Hl.
    rewrite Forall_forall in Hn. specialize (Hn _ Hl). cbn [snd] in Hn.
    intros ->. discriminate.
  - intros r Hr. apply filter_In in Hr. destruct Hr as [Hin Hr].
    apply negb_true_iff in Hr.
    apply In_nth_error in Hin. destruct Hin as [i Hi].
    exists df, i. split; [reflexivity |]. split; [exact Hi |].
    destruct (Nat.lt_ge_cases i 29) as [Hlt | Hge]; [| exact Hge].
    rewrite (early_rows_dropped df i r Hi Hlt) in Hr. discriminate.
  - unfold dropna. apply filter_filter_id. intros x Hx. exact Hx.
Qed.

Lemma usable_rows_complete_witness :
  prepare demo_file = Ok demo_usable
  /\ (length demo_usable <= length demo_file - 29)%nat
  /\ dropna demo_usable = demo_usable.
Proof.
  assert (H : prepare demo_file = Ok demo_usable)
    by (vm_compute; reflexivity).
  split; [exact H |].
  destruct (usable_rows_are_complete _ _ H) as [Hlen [_ [_ Hd]]].
  split; [exact Hlen | exact Hd].
Defined.

(** ** Cell 13: a gap in the Close column *)

Lemma window_mean_has_nan (w : nat) (obs : list fval) :
  In NaN obs -> (length obs <= w)%nat -> window_mean w obs = NaN.
Proof.
  intros Hin Hlen. unfold window_mean.
  pose proof (length_filter_lt notna obs NaN Hin eq_refl) as Hlt.
  destruct (Nat.leb_spec w (length (filter notna obs))) as [C | _];
    [lia | reflexivity].
Qed.

Lemma In_window (w : nat) (xs : list fval) (t k : nat) :
  (t < length xs)%nat -> (S t - w <= k)%nat -> (k <= t)%nat ->
  In (nth k xs NaN) (window w xs t).
Proof.
  intros Ht Hlo Hhi. unfold window.
  apply (nth_error_In _ (k - (S t - w))).
  rewrite nth_error_skipn, nth_error_firstn.
  replace (S t - w + (k - (S t - w)))%nat with k by lia.
  destruct (Nat.ltb_spec k (S t)) as [_ | C]; [| lia].
  apply nth_error_nth'. lia.
Qed.

Lemma rolling_mean_gap (w : nat) (xs : list fval) (t k : nat) :
  nth k xs NaN = NaN -> (k <= t)%nat -> (t < k + w)%nat ->
  at_row (rolling_mean w xs) t = NaN.
Proof.
  intros Hk Hlo Hhi.
  destruct (Nat.lt_ge_cases t (length xs)) as [Ht | Ht].
  - rewrite (at_row_rolling_mean w xs t Ht).
    apply window_mean_has_nan.
    + rewrite <- Hk. apply In_window; lia.
    + rewrite (length_window w xs t Ht). lia.
  - unfold at_row. apply nth_overflow.
    now rewrite length_rolling_mean.
Qed.

(** X6.  A row of the file without a Close price costs thirty rows: the
    row itself and the 29 after it have no 30-day average and are
    dropped by cell 14, whatever else they hold. *)
Theorem missing_close_discards_thirty_rows
        (file : list CsvRow) (df : list CleanRow) (k : nat) (c : CsvRow) :
  clean (read_csv file) = Ok df ->
  nth_error file k = Some c -> csv_Close c = None ->
  forall i r,
    (k <= i < k + 30)%nat -> nth_error (engineer df) i = Some r ->
    MA30 (tech r) = NaN /\ row_isna r = true
    /\ ((i < k + 7)%nat -> MA7 (tech r) = NaN).
Proof.
  intros Hc Hk Hclose i r Hi Hr.
  assert (Hnan : nth k (col (@Close _) df) NaN = NaN).
  { rewrite (clean_Close _ _ Hc), Close_read_csv.
    apply nth_error_nth.
    rewrite nth_error_map, Hk. cbn [option_map]. now rewrite Hclose. }
  assert (H30 : MA30 (tech r) = NaN).
  { rewrite (MA30_engineer df i r Hr).
    apply (rolling_mean_gap 30 _ i k Hnan); lia. }
  split; [exact H30 |]. split; [now apply row_isna_MA30 |].
  intros H7. rewrite (MA7_engineer df i r Hr).
  apply (rolling_mean_gap 7 _ i k Hnan); lia.
Qed.

Lemma missing_close_witness :
  clean (read_csv hole_file) = Ok hole_clean
  /\ (exists c, nth_error hole_file 1 = Some c /\ csv_Close c = None)
  /\ forall r, nth_error (engineer hole_clean) 30 = Some r ->
               row_isna r = true.
Proof.
  assert (H : clean (read_csv hole_file) = Ok hole_clean)
    by (vm_compute; reflexivity).
  split; [exact H |].
  split; [exists (no_close (demo_row 1)); split; reflexivity |].
  intros r Hr.
  refine (proj1 (proj2 (missing_close_discards_thirty_rows
                          hole_file hole_clean 1 (no_close (demo_row 1))
                          H eq_refl eq_refl 30%nat r _ Hr))).
  lia.
Defined.

(** ** Cell 20: when the scalers can be fitted *)

Lemma of_cell_no_inf (c : option Q) : isinf (of_cell c) = false.
Proof. now destruct c. Qed.

Lemma fsub_no_inf (a b : fval) :
  isinf a = false -> isinf b = false -> isinf (fsub a b) = false.
Proof. destruct a, b; cbn; trivial; discriminate. Qed.

Lemma at_row_no_inf (xs : list fval) (i : nat) :
  Forall (fun v => isinf v = false) xs -> isinf (at_row xs i) = false.
Proof.
  intros H. unfold at_row.
  destruct (nth_in_or_default i xs NaN) as [Hin | ->]; [| reflexivity].
  rewrite Forall_forall in H. now apply H.
Qed.

Lemma Forall_map2 {A B C : Type} (P : A -> Prop) (Q : B -> Prop)
      (R : C -> Prop) (f : A -> B -> C) (xs : list A) (ys : list B) :
  (forall x y, P x -> Q y -> R (f x y)) ->
  Forall P xs -> Forall Q ys -> Forall R (map2 f xs ys).
Proof.
  intros Hf Hx. revert ys.
  induction Hx as [| x xs Px _ IH]; intros ys Hy.
  - destruct ys; constructor.
  - destruct Hy as [| y ys Qy Hy]; [constructor |].
    cbn [map2]. constructor; [now apply Hf | now apply IH].
Qed.

Lemma mean_of_finite_no_inf (xs : list fval) :
  Forall is_finite xs ->
  isinf (fdiv (fsum xs) (of_nat (length xs))) = false.
Proof.
  intros H. destruct xs as [| x tl]; [reflexivity |].
  assert (F : is_finite (fdiv (fsum (x :: tl)) (of_nat (length (x :: tl))))).
  { apply fdiv_count_finite; [now apply fsum_finite | cbn [length]; lia]. }
  destruct (fdiv _ _); [reflexivity | destruct F | reflexivity].
Qed.

Lemma defined_cells_finite (xs : list fval) :
  Forall (fun v => isinf v = false) xs -> Forall is_finite (filter notna xs).
Proof.
  intros H. apply Forall_forall. intros v Hv.
  apply filter_In in Hv. destruct Hv as [Hin Hv].
  rewrite Forall_forall in H. specialize (H v Hin).
  destruct v; [discriminate Hv | discriminate H | exact I].
Qed.

Lemma window_mean_no_inf (w : nat) (obs : list fval) :
  Forall (fun v => isinf v = false) obs -> isinf (window_mean w obs) = false.
Proof.
  intros H. unfold window_mean.
  destruct (w <=? length (filter notna obs))%nat; [| reflexivity].
  apply mean_of_finite_no_inf. now apply defined_cells_finite.
Qed.

Lemma rolling_mean_no_inf (w : nat) (xs : list fval) (t : nat) :
  Forall (fun v => isinf v = false) xs ->
  isinf (at_row (rolling_mean w xs) t) = false.
Proof.
  intros H. destruct (Nat.lt_ge_cases t (length xs)) as [Ht | Ht].
  - rewrite (at_row_rolling_mean w xs t Ht).
    apply window_mean_no_inf. now apply Forall_window.
  - unfold at_row. rewrite nth_overflow; [reflexivity |].
    now rewrite length_rolling_mean.
Qed.

Lemma mean_no_inf (xs : list fval) :
  Forall (fun v => isinf v = false) xs -> isinf (mean xs) = false.
Proof.
  intros H. unfold mean.
  destruct (filter notna xs) as [| x tl] eqn:E; [reflexivity |].
  rewrite <- E. apply mean_of_finite_no_inf. now apply defined_cells_finite.
Qed.

Lemma read_csv_no_inf (file : list CsvRow) (r : PriceRecord raw_date) :
  In r (read_csv file) ->
  isinf (Open r) = false /\ isinf (High r) = false /\ isinf (Low r) = false
  /\ isinf (Close r) = false /\ isinf (Volume r) = false.
Proof.
  unfold read_csv. intros H. apply in_map_iff in H.
  destruct H as [c [<- _]]. cbn.
  repeat split; apply of_cell_no_inf.
Qed.

Lemma read_csv_column_no_inf (f : PriceRecord raw_date -> fval)
      (file : list CsvRow) :
  (forall r, In r (read_csv file) -> isinf (f r) = false) ->
  Forall (fun v => isinf v = false) (map f (read_csv file)).
Proof.
  intros H. apply Forall_forall. intros v Hv.
  apply in_map_iff in Hv. destruct Hv as [r [<- Hr]]. now apply H.
Qed.

Lemma mean_volume_no_inf (file : list CsvRow) :
  isinf (mean_volume (read_csv file)) = false.
Proof.
  unfold mean_volume, non_zero_volumes. apply mean_no_inf.
  apply Forall_forall. intros v Hv.
  apply in_map_iff in Hv. destruct Hv as [r [<- Hr]].
  apply filter_In in Hr. destruct Hr as [Hr _].
  now apply (read_csv_no_inf file r Hr).
Qed.

(** Row [i] of the cleaned table is made from line [i] of the file. *)
Lemma cleaned_row_of_file (file : list CsvRow) (df : list CleanRow)
      (i : nat) (b : CleanRow) :
  clean (read_csv file) = Ok df -> nth_error df i = Some b ->
  exists c r start t,
    nth_error file i = Some c
    /\ nth_error (read_csv file) i = Some r
    /\ b = cleaned (mean_volume (read_csv file)) start r t.
Proof.
  intros Hc Hb.
  assert (Hlen : (i < length file)%nat).
  { rewrite <- (length_read_csv file), <- (length_clean _ _ Hc).
    apply nth_error_Some. congruence. }
  destruct (nth_error file i) as [c |] eqn:Hfile;
    [| apply nth_error_None in Hfile; lia].
  pose proof (nth_error_read_csv file i c Hfile) as Hraw.
  destruct (clean_row _ df i _ Hc Hraw) as [ts [t [_ [_ [_ Hdf]]]]].
  rewrite Hb in Hdf. injection Hdf as ->.
  eexists c, _, (date_min ts), t.
  split; [reflexivity |]. split; [exact Hraw | reflexivity].
Qed.

Lemma cleaned_no_inf (m : fval) (start : option Z)
      (r : PriceRecord raw_date) (t : option Z) :
  isinf m = false ->
  isinf (Open r) = false -> isinf (High r) = false ->
  isinf (Low r) = false -> isinf (Close r) = false ->
  isinf (Volume r) = false ->
  let b := cleaned m start r t in
  isinf (Open (price b)) = false /\ isinf (High (price b)) = false
  /\ isinf (Low (price b)) = false /\ isinf (Close (price b)) = false
  /\ isinf (Volume (price b)) = false
  /\ isinf (Year (cal b)) = false /\ isinf (Month (cal b)) = false
  /\ isinf (DayOfWeek (cal b)) = false
  /\ isinf (DaysSinceStart (cal b)) = false.
Proof.
  intros Hm Ho Hh Hl Hc Hv. unfold cleaned, with_calendar, imputed.
  destruct (feqb (Volume r) (Fin 0)); cbn;
    (repeat split; trivial);
    destruct t as [d |], start as [s |]; reflexivity.
Qed.

Lemma engineered_cells_no_inf (file : list CsvRow) (df : list CleanRow)
      (i : nat) (r : FeatureRow) :
  clean (read_csv file) = Ok df -> nth_error (engineer df) i = Some r ->
  Forall (fun v => isinf v = false) (feature_values r)
  /\ isinf (target_value r) = false.
Proof.
  intros Hc Hr.
  destruct (engineer_row df i r Hr) as [Hb [_ [_ [Hdr [_ [Hma [_ _]]]]]]].
  destruct (cleaned_row_of_file file df i (base r) Hc Hb)
    as [c [raw [start [t [_ [Hraw Hbase]]]]]].
  apply nth_error_In in Hraw.
  destruct (read_csv_no_inf file raw Hraw) as [Ho [Hh [Hl [Hcl Hv]]]].
  destruct (cleaned_no_inf _ start raw t (mean_volume_no_inf file)
                           Ho Hh Hl Hcl Hv)
    as [Ho' [Hh' [Hl' [Hc' [Hv' [Hy [Hm [Hw Hs]]]]]]]].
  rewrite <- Hbase in *.
  assert (Hrange : isinf (DailyRange (tech r)) = false).
  { rewrite Hdr. apply at_row_no_inf.
    rewrite (clean_High _ _ Hc), (clean_Low _ _ Hc).
    apply (Forall_map2 (fun v => isinf v = false)
                       (fun v => isinf v = false));
      [exact fsub_no_inf | |];
      apply read_csv_column_no_inf; intros x Hx;
      now apply (read_csv_no_inf file x Hx). }
  assert (Hma7 : isinf (MA7 (tech r)) = false).
  { rewrite Hma. apply rolling_mean_no_inf.
    rewrite (clean_Close _ _ Hc).
    apply read_csv_column_no_inf; intros x Hx;
      now apply (read_csv_no_inf file x Hx). }
  split; [| exact Hc'].
  unfold feature_values. repeat constructor; assumption.
Qed.

Lemma check_array_ok (X : matrix) :
  X <> [] -> hd [] X <> [] ->
  (forall row v, In row X -> In v row -> isinf v = false) ->
  check_array X = Ok tt.
Proof.
  intros Hne Hhd Hinf. unfold check_array.
  destruct (existsb (existsb isinf) X) eqn:E.
  - apply existsb_exists in E. destruct E as [row [Hrow E]].
    apply existsb_exists in E. destruct E as [v [Hv E]].
    rewrite (Hinf row v Hrow Hv) in E. discriminate.
  - destruct X as [| [| v row] tl]; [now destruct Hne | | reflexivity].
    now destruct Hhd.
Qed.

Lemma fit_transform_total (X : matrix) :
  check_array X = Ok tt ->
  (forall row, In row X -> length row = n_features X) ->
  exists s,
    fit X = Ok s /\ fit_transform X = Ok (s, map (transform_row s) X).
Proof.
  intros Hc Hlen.
  assert (Hfit : exists s, fit X = Ok s).
  { unfold fit. rewrite Hc. cbn [bind]. eexists. reflexivity. }
  destruct Hfit as [s Hfit]. exists s. split; [exact Hfit |].
  destruct (round_trip_array X s Hfit Hlen) as [Ht _].
  unfold fit_transform. rewrite Hfit. cbn [bind]. rewrite Ht. reflexivity.
Qed.

Lemma scale_total (df_clean : list FeatureRow) :
  df_clean <> [] ->
  (forall r, In r df_clean ->
             Forall (fun v => isinf v = false) (feature_values r)
             /\ isinf (target_value r) = false) ->
  exists sc, scale df_clean = Ok sc.
Proof.
  intros Hne Hinf. unfold scale.
  rewrite select_features, target_Close. cbn [bind].
  destruct (fit_transform_total (map feature_values df_clean))
    as [sX [_ ->]].
  { apply check_array_ok.
    - destruct df_clean; [now destruct Hne | discriminate].
    - destruct df_clean; [now destruct Hne | discriminate].
    - intros row v Hrow Hv. apply in_map_iff in Hrow.
      destruct Hrow as [r [<- Hr]].
      destruct (Hinf r Hr) as [F _]. rewrite Forall_forall in F.
      now apply F. }
  { intros row Hrow.
    destruct (n_features_selected df_clean row Hrow) as [-> ->].
    reflexivity. }
  cbn [bind].
  destruct (fit_transform_total (reshape_column (map target_value df_clean)))
    as [sy [_ ->]].
  { apply check_array_ok.
    - destruct df_clean; [now destruct Hne | discriminate].
    - destruct df_clean; [now destruct Hne | discriminate].
    - intros row v Hrow Hv. unfold reshape_column in Hrow.
      apply in_map_iff in Hrow. destruct Hrow as [x [<- Hx]].
      destruct Hv as [<- | []].
      apply in_map_iff in Hx. destruct Hx as [r [<- Hr]].
      now apply (Hinf r Hr). }
  { intros row Hrow. unfold reshape_column in Hrow.
    apply in_map_iff in Hrow. destruct Hrow as [x [<- Hx]].
    now rewrite (n_features_column x _ Hx). }
  cbn [bind]. eexists. reflexivity.
Qed.

Lemma mapM_raise {A B : Type} (f : A -> result B) (l : list A) (e : error) :
  mapM f l = Raise e -> exists x, In x l /\ f x = Raise e.
Proof.
  induction l as [| x tl IH]; cbn [mapM]; [discriminate |].
  destruct (f x) as [y | e'] eqn:Hx; cbn [bind].
  - destruct (mapM f tl) as [ys | e'']; cbn [bind]; [discriminate |].
    intros [= ->]. destruct (IH eq_refl) as [x' [Hin Hx']].
    exists x'. split; [now right | exact Hx'].
  - intros [= ->]. exists x. split; [now left | exact Hx].
Qed.

Lemma clean_raise (file : list CsvRow) (e : error) :
  clean (read_csv file) = Raise e ->
  exists text c,
    e = DateParseError text /\ In c file /\ csv_Date c = DateUnparsable text.
Proof.
  unfold clean, to_datetime. intros H.
  destruct (mapM parse_date _) as [ts | e'] eqn:Hm; [discriminate |].
  cbn [bind] in H. injection H as ->.
  apply mapM_raise in Hm. destruct Hm as [d [Hin Hd]].
  apply in_map_iff in Hin. destruct Hin as [r [<- Hr]].
  unfold impute_volume in Hr. apply in_map_iff in Hr.
  destruct Hr as [r0 [<- Hr0]]. rewrite Date_imputed in Hd.
  unfold read_csv in Hr0. apply in_map_iff in Hr0.
  destruct Hr0 as [c [<- Hc]]. cbn [Date] in Hd.
  destruct (csv_Date c) as [| text |] eqn:E; try discriminate.
  injection Hd as <-. now exists text, c.
Qed.

Lemma length_flatten_singletons (m : matrix) :
  Forall (fun row => length row = 1%nat) m -> length (flatten m) = length m.
Proof.
  unfold flatten. induction 1 as [| row m Hrow _ IH]; [reflexivity |].
  cbn [concat length]. rewrite length_app, Hrow, IH. reflexivity.
Qed.

Lemma length_y_scaled (df : list FeatureRow) (sc : Scaled) :
  scale df = Ok sc -> length (y_scaled sc) = length (y sc).
Proof.
  intros H.
  destruct (scale_inv df sc H) as [_ [_ [_ [_ [Hfit ->]]]]].
  rewrite length_flatten_singletons.
  - unfold reshape_column. now rewrite !length_map.
  - apply Forall_forall. intros row Hrow.
    apply in_map_iff in Hrow. destruct Hrow as [x [<- Hx]].
    unfold reshape_column in Hx. apply in_map_iff in Hx.
    destruct Hx as [v [<- Hv]].
    destruct (fit_lengths _ _ Hfit) as [L1 L2].
    rewrite (n_features_column v _ Hv) in L1, L2.
    now apply length_transform_row.
Qed.

(** X7.  On a table within the range of the float64 and datetime
    arithmetic (numeric cells that are missing or numbers of at most
    [2^400] in magnitude, positive Close prices, dates between 1833 and
    2106), the cells from reading the file to scaling end in one of
    three ways.  A Date cell that cannot be parsed stops the cleaning
    stage; an empty [df_clean] makes the first scaler raise on an array
    without samples; in every other case both scalers are fitted and
    give one scaled feature row and one scaled target for each row of
    [df_clean].  (Outside that range an operation can overflow to an
    infinity, which the scaler refuses, and the subtraction of far-apart
    dates can raise.) *)
Theorem data_path_outcomes (file : list CsvRow) :
  in_float_range file = true ->
  (exists text c,
      In c file /\ csv_Date c = DateUnparsable text
      /\ prepare file = Raise (DateParseError text)
      /\ run_to_scale file = Failed Cleaning (DateParseError text))
  \/ (prepare file = Ok []
      /\ run_to_scale file = Failed Scaling EmptyArray)
  \/ (exists df_clean sc,
        prepare file = Ok df_clean /\ df_clean <> []
        /\ run_to_scale file = Done sc
        /\ X sc = map feature_values df_clean
        /\ y sc = map target_value df_clean
        /\ length (X_scaled sc) = length df_clean
        /\ length (y_scaled sc) = length df_clean).
Proof.
  intros _. unfold prepare, run_to_scale.
  destruct (clean (read_csv file)) as [df | e] eqn:Hc.
  - right. cbn [bind in_stage and_then].
    destruct (dropna (engineer df)) as [| r0 tl] eqn:Hd.
    + left. split; reflexivity.
    + right. rewrite <- Hd.
      destruct (scale_total (dropna (engineer df))) as [sc Hsc].
      { rewrite Hd. discriminate. }
      { intros r Hr. apply filter_In in Hr. destruct Hr as [Hr _].
        apply In_nth_error in Hr. destruct Hr as [i Hi].
        exact (engineered_cells_no_inf file df i r Hc Hi). }
      exists (dropna (engineer df)), sc.
      destruct (scale_inv _ sc Hsc) as [HX [Hy [_ [HXs _]]]].
      split; [reflexivity |]. split; [rewrite Hd; discriminate |].
      split; [now rewrite Hsc |]. split; [exact HX |].
      split; [exact Hy |]. split.
      * now rewrite HXs, HX, !length_map.
      * now rewrite (length_y_scaled _ sc Hsc), Hy, length_map.
  - left. destruct (clean_raise file e Hc) as [text [c [-> [Hin Hd]]]].
    exists text, c. cbn [bind in_stage and_then]. now repeat split.
Qed.

Lemma data_path_witness :
  in_float_range demo_file = true
  /\ exists sc, run_to_scale demo_file = Done sc.
Proof.
  assert (R : in_float_range demo_file = true) by (vm_compute; reflexivity).
  split; [exact R |].
  destruct (data_path_outcomes demo_file R)
    as [[text [c [_ [_ [_ H]]]]] | [[_ H] | [df [sc [_ [_ [H _]]]]]]].
  - exfalso. vm_compute in H. discriminate H.
  - exfalso. vm_compute in H. discriminate H.
  - now exists sc.
Defined.

(** ** Cell 9: a date that cannot be read *)

Lemma mapM_first_raise {A B : Type} (f : A -> result B) (l : list A)
      (i : nat) (x : A) (e : error) :
  nth_error l i = Some x -> f x = Raise e ->
  (forall j y, (j < i)%nat -> nth_error l j = Some y -> exists z, f y = Ok z) ->
  mapM f l = Raise e.
Proof.
  revert i. induction l as [| a tl IH]; intros i Hi Hx Hbefore.
  - destruct i; discriminate.
  - destruct i as [| i]; cbn [nth_error] in Hi; cbn [mapM].
    + injection Hi as ->. now rewrite Hx.
    + destruct (Hbefore 0%nat a ltac:(lia) eq_refl) as [z ->].
      cbn [bind]. rewrite (IH i Hi Hx); [reflexivity |].
      intros j y' Hj Hy. apply (Hbefore (S j) y'); [lia | exact Hy].
Qed.

Lemma nth_error_raw_dates (file : list CsvRow) (i : nat) (c : CsvRow) :
  nth_error file i = Some c ->
  nth_error (map (@Date raw_date) (impute_volume (read_csv file))) i
  = Some (csv_Date c).
Proof.
  intros H. unfold impute_volume.
  rewrite !nth_error_map, (nth_error_read_csv file i c H).
  cbn [option_map]. now rewrite Date_imputed.
Qed.

(** X8.  When a Date cell cannot be parsed, the run stops in the
    cleaning stage, and the exception names the first such cell of the
    file; no later cell runs, so there is no [df_clean]. *)
Theorem first_unreadable_date_is_reported
        (file : list CsvRow) (i : nat) (c : CsvRow) (text : string) :
  nth_error file i = Some c -> csv_Date c = DateUnparsable text ->
  (forall j c', (j < i)%nat -> nth_error file j = Some c' ->
                forall t, csv_Date c' <> DateUnparsable t) ->
  clean (read_csv file) = Raise (DateParseError text)
  /\ prepare file = Raise (DateParseError text)
  /\ run_to_scale file = Failed Cleaning (DateParseError text).
Proof.
  intros Hi Hd Hbefore.
  assert (H : clean (read_csv file) = Raise (DateParseError text)).
  { unfold clean, to_datetime.
    rewrite (mapM_first_raise parse_date _ i (csv_Date c)
                              (DateParseError text)); [reflexivity | | |].
    - now apply nth_error_raw_dates.
    - now rewrite Hd.
    - intros j d Hj Hjd.
      assert (Hlen : (j < length file)%nat)
        by (apply Nat.lt_trans with i; [exact Hj |];
            apply nth_error_Some; congruence).
      destruct (nth_error file j) as [c' |] eqn:Hc';
        [| apply nth_error_None in Hc'; lia].
      rewrite (nth_error_raw_dates file j c' Hc') in Hjd.
      injection Hjd as <-.
      pose proof (Hbefore j c' Hj Hc') as Hok.
      destruct (csv_Date c') as [| t |];
        [now exists None | now destruct (Hok t) | now eexists]. }
  unfold prepare, run_to_scale. rewrite H. now repeat split.
Qed.

Lemma unreadable_date_witness :
  run_to_scale misdated_file
  = Failed Cleaning (DateParseError "the day after").
Proof.
  refine (proj2 (proj2 (first_unreadable_date_is_reported
                          misdated_file 2 (unreadable_date (demo_row 2))
                          "the day after" eq_refl eq_refl _))).
  intros j c' Hj Hc' t.
  destruct j as [| [| j]]; [| | lia];
    cbn in Hc'; injection Hc' as <-; discriminate.
Defined.

(** ** Cell 20: the target scaler *)

Lemma fmin_skipna_cases (a b : fval) :
  fmin_skipna a b = a \/ fmin_skipna a b = b.
Proof.
  unfold fmin_skipna.
  destruct (isna a), (isna b), (fltb b a); auto.
Qed.

Lemma fmax_skipna_cases (a b : fval) :
  fmax_skipna a b = a \/ fmax_skipna a b = b.
Proof.
  unfold fmax_skipna.
  destruct (isna a), (isna b), (fltb a b); auto.
Qed.

Lemma fold_attained (f : fval -> fval -> fval) (xs : list fval) (a : fval) :
  (forall u v, f u v = u \/ f u v = v) ->
  fold_left f xs a = a \/ In (fold_left f xs a) xs.
Proof.
  intros Hf. revert a. induction xs as [| x tl IH]; intros a; [now left |].
  cbn [fold_left]. destruct (IH (f a x)) as [E | Hin].
  - rewrite E. destruct (Hf a x) as [-> | ->]; [now left | right; now left].
  - right. now right.
Qed.

Lemma nanmin_attained (xs : list fval) (m : Q) :
  nanmin xs = Fin m -> In (Fin m) xs.
Proof.
  unfold nanmin. intros H.
  destruct (fold_attained fmin_skipna xs NaN fmin_skipna_cases) as [E | Hin].
  - rewrite H in E. discriminate.
  - now rewrite H in Hin.
Qed.

Lemma nanmax_attained (xs : list fval) (m : Q) :
  nanmax xs = Fin m -> In (Fin m) xs.
Proof.
  unfold nanmax. intros H.
  destruct (fold_attained fmax_skipna xs NaN fmax_skipna_cases) as [E | Hin].
  - rewrite H in E. discriminate.
  - now rewrite H in Hin.
Qed.

Lemma column_reshape (ys : list fval) : column (reshape_column ys) 0 = ys.
Proof.
  unfold column, reshape_column. rewrite map_map. cbn [nth]. apply map_id.
Qed.

Lemma flatten_map_singleton {A : Type} (g : A -> fval) (l : list A) :
  flatten (map (fun v => [g v]) l) = map g l.
Proof.
  unfold flatten. induction l as [| v tl IH]; [reflexivity |].
  cbn [map concat app]. now rewrite IH.
Qed.

(** The run reached the scaled arrays: what they were computed from. *)
Lemma run_to_scale_done (file : list CsvRow) (sc : Scaled) :
  run_to_scale file = Done sc ->
  exists df,
    clean (read_csv file) = Ok df
    /\ prepare file = Ok (dropna (engineer df))
    /\ scale (dropna (engineer df)) = Ok sc.
Proof.
  unfold run_to_scale, prepare.
  destruct (clean (read_csv file)) as [df | e]; [| discriminate].
  cbn [in_stage and_then bind].
  destruct (scale (dropna (engineer df))) as [sc' | e] eqn:E;
    [| discriminate].
  intros [= ->]. now exists df.
Qed.

Lemma usable_cells_finite (file : list CsvRow) (df : list CleanRow)
      (r : FeatureRow) :
  clean (read_csv file) = Ok df -> In r (dropna (engineer df)) ->
  Forall is_finite (feature_values r) /\ is_finite (target_value r).
Proof.
  intros Hc Hr. apply filter_In in Hr. destruct Hr as [Hin Hr].
  apply negb_true_iff in Hr.
  destruct (row_isna_inv r Hr) as [_ [_ Hn]].
  apply In_nth_error in Hin. destruct Hin as [i Hi].
  destruct (engineered_cells_no_inf file df i r Hc Hi) as [Hf Ht].
  assert (K : forall v, isinf v = false -> isna v = false -> is_finite v).
  { intros [| s | q] H1 H2; [discriminate | discriminate | exact I]. }
  unfold numeric_columns in Hn. unfold feature_values, target_value in *.
  repeat match goal with
         | H : Forall _ (_ :: _) |- _ => inversion H; subst; clear H
         end.
  cbn [snd] in *.
  split; [repeat constructor; apply K; assumption | apply K; assumption].
Qed.

(** The target scaler is one affine map [x |-> x * s + (0 - lo * s)],
    fitted on the lowest and highest Close of [df_clean]. *)
Lemma target_scaler_form (file : list CsvRow) (sc : Scaled) :
  run_to_scale file = Done sc ->
  exists lo hi s,
    In (Fin lo) (y sc) /\ In (Fin hi) (y sc)
    /\ (forall v, In v (y sc) -> exists x, v = Fin x /\ lo <= x <= hi)
    /\ 0 < s
    /\ ((hi - lo < 10 * eps /\ s == 1)
        \/ (10 * eps <= hi - lo /\ s == 1 / (hi - lo)))
    /\ data_min_ (scaler_y sc) = [Fin lo]
    /\ data_max_ (scaler_y sc) = [Fin hi]
    /\ scale_ (scaler_y sc) = [Fin s]
    /\ min_ (scaler_y sc) = [Fin (0 + - (lo * s))]
    /\ y_scaled sc
       = map (fun v => fadd (fmul v (Fin s)) (Fin (0 + - (lo * s)))) (y sc).
Proof.
  intros H. destruct (run_to_scale_done file sc H) as [df [Hc [_ Hs]]].
  destruct (scale_inv _ sc Hs) as [_ [Hy [_ [_ [Hfit Hys]]]]].
  assert (Hfin : forall v, In v (y sc) -> is_finite v).
  { intros v Hv. rewrite Hy in Hv. apply in_map_iff in Hv.
    destruct Hv as [r [<- Hr]].
    now apply (usable_cells_finite file df r Hc Hr). }
  destruct (fit_inv _ _ Hfit) as [Hca [Hmin [Hmax [Hscale Hm]]]].
  destruct (check_array_inv _ Hca) as [Hne _].
  destruct (y sc) as [| y0 tl] eqn:Ey; [now destruct Hne |].
  rewrite <- Ey in *.
  assert (Hn : n_features (reshape_column (y sc)) = 1%nat)
    by (rewrite Ey; reflexivity).
  rewrite Hn in Hmin, Hmax, Hscale, Hm. cbn [seq map] in Hmin, Hmax, Hscale, Hm.
  rewrite column_reshape in Hmin, Hmax, Hscale, Hm.
  destruct (column_parameters (y sc)) as [lo [hi [s P]]].
  { intros v Hv. specialize (Hfin v Hv). now destruct v. }
  { destruct (is_finite_inv y0 (Hfin y0 ltac:(rewrite Ey; now left)))
      as [q ->].
    exists q. rewrite Ey. now left. }
  destruct P as [Elo [Ehi [Es [Em [Hpos [Hb Hcase]]]]]].
  rewrite Elo in Hmin. rewrite Ehi in Hmax. rewrite Es in Hscale.
  rewrite Em in Hm.
  exists lo, hi, s.
  split; [now apply nanmin_attained |].
  split; [now apply nanmax_attained |].
  split.
  { intros v Hv. destruct (is_finite_inv v (Hfin v Hv)) as [x ->].
    exists x. split; [reflexivity | now apply Hb]. }
  split; [exact Hpos |]. split; [exact Hcase |].
  split; [exact Hmin |]. split; [exact Hmax |].
  split; [exact Hscale |]. split; [exact Hm |].
  rewrite Hys. unfold reshape_column. rewrite map_map.
  unfold transform_row. rewrite Hscale, Hm. cbn [map2].
  apply flatten_map_singleton.
Qed.

(** ** Cells 30 and 33: from a network output back to a price *)

Lemma unscaled_value (lo hi s t : Q) :
  lo <= hi -> 0 < s ->
  (hi - lo < 10 * eps /\ s == 1) \/ (10 * eps <= hi - lo /\ s == 1 / (hi - lo)) ->
  let v := (t + - (0 + - (lo * s))) / s in
  (10 * eps <= hi - lo -> v == lo + t * (hi - lo))
  /\ (hi - lo < 10 * eps -> v == lo + t)
  /\ (0 <= t -> lo <= v)
  /\ (t <= 1 -> 10 * eps <= hi - lo -> v <= hi).
Proof.
  intros Hb Hs Hcase v.
  pose proof ten_eps_pos as P.
  assert (Ev : v == lo + t / s) by (unfold v; field; lra).
  assert (Hwide : 10 * eps <= hi - lo -> v == lo + t * (hi - lo)).
  { intros Hw. destruct Hcase as [[C _] | [_ Es]]; [lra |].
    rewrite Ev, Es. field. lra. }
  assert (Hnarrow : hi - lo < 10 * eps -> v == lo + t).
  { intros Hn. destruct Hcase as [[_ Es] | [C _]]; [| lra].
    rewrite Ev, Es. field. }
  split; [exact Hwide |]. split; [exact Hnarrow |]. split.
  - intros Ht. rewrite Ev.
    assert (0 <= t / s) by (apply Qle_shift_div_l; lra). lra.
  - intros Ht Hw. rewrite (Hwide Hw).
    assert (t * (hi - lo) <= 1 * (hi - lo))
      by (apply Qmult_le_compat_r; lra).
    lra.
Qed.

(** X10.  Whatever finite outputs the network gives, the inverse of the
    target scaler turns each output [t] into the price
    [lo + t * (hi - lo)], where [lo] and [hi] are the lowest and highest
    Close of [df_clean] (into [lo + t] when these agree to within
    [10 eps]), and a larger output never gives a smaller price.  (The
    value the cell holds is this one rounded, in the precision of the
    array of outputs; rounding keeps the order but lets the price of an
    output of 0 or 1 fall just outside [lo, hi].) *)
Theorem network_output_maps_to_prices_in_order
        (file : list CsvRow) (sc : Scaled) (outputs : list fval) :
  run_to_scale file = Done sc ->
  outputs <> [] -> Forall is_finite outputs ->
  exists lo hi prices,
    data_min_ (scaler_y sc) = [Fin lo]
    /\ data_max_ (scaler_y sc) = [Fin hi]
    /\ lo <= hi
    /\ inverse_transform (scaler_y sc) (reshape_column outputs)
       = Ok (reshape_column prices)
    /\ Forall2 (fun o p =>
                  exists t v,
                    o = Fin t /\ p = Fin v
                    /\ (10 * eps <= hi - lo -> v == lo + t * (hi - lo))
                    /\ (hi - lo < 10 * eps -> v == lo + t))
               outputs prices
    /\ (forall i j t t' v v',
          nth_error outputs i = Some (Fin t) ->
          nth_error outputs j = Some (Fin t') ->
          nth_error prices i = Some (Fin v) ->
          nth_error prices j = Some (Fin v') ->
          t <= t' -> v <= v').
Proof.
  intros H Hne Hfin.
  destruct (target_scaler_form file sc H)
    as [lo [hi [s [Hlo [_ [Hb [Hs [Hcase [Hmin [Hmax [Hsc [Hm _]]]]]]]]]]]].
  assert (Hle : lo <= hi).
  { destruct (Hb _ Hlo) as [x [[= <-] Hx]]. exact (proj2 Hx). }
  set (g := fun o => fdiv (fsub o (Fin (0 + - (lo * s)))) (Fin s)).
  assert (Hg : forall t, g (Fin t) = Fin ((t + - (0 + - (lo * s))) / s)).
  { intros t. unfold g. cbn [fsub fneg fadd fdiv].
    now rewrite (Qeq_bool_pos s Hs). }
  exists lo, hi, (map g outputs).
  split; [exact Hmin |]. split; [exact Hmax |]. split; [exact Hle |].
  split; [| split].
  - unfold inverse_transform. rewrite check_array_ok.
    + cbn [bind]. unfold reshape_column. rewrite !map_map.
      apply f_equal, map_ext. intros o. unfold inverse_row. now rewrite Hsc, Hm.
    + destruct outputs; [now destruct Hne | discriminate].
    + destruct outputs; [now destruct Hne | discriminate].
    + intros row v Hrow Hv. unfold reshape_column in Hrow.
      apply in_map_iff in Hrow. destruct Hrow as [o [<- Ho]].
      destruct Hv as [<- | []].
      rewrite Forall_forall in Hfin. specialize (Hfin o Ho).
      now destruct o.
  - apply Forall2_map_self. intros o Ho.
    rewrite Forall_forall in Hfin.
    destruct (is_finite_inv o (Hfin o Ho)) as [t ->].
    exists t, ((t + - (0 + - (lo * s))) / s).
    split; [reflexivity |]. split; [apply Hg |].
    destruct (unscaled_value lo hi s t Hle Hs Hcase) as [W [N _]].
    now split.
  - intros i j t t' v v' Hi Hj Hv Hv' Hle'.
    rewrite (map_nth_error _ _ _ Hi), Hg in Hv.
    rewrite (map_nth_error _ _ _ Hj), Hg in Hv'.
    injection Hv as <-. injection Hv' as <-.
    apply Qmult_le_compat_r; [lra |].
    apply Qlt_le_weak, Qinv_lt_0_compat, Hs.
Qed.

Lemma network_output_witness :
  exists lo hi prices,
    data_min_ (scaler_y demo_scaled) = [Fin lo]
    /\ data_max_ (scaler_y demo_scaled) = [Fin hi]
    /\ inverse_transform (scaler_y demo_scaled)
                         (reshape_column [Fin 0; Fin (1 # 2); Fin 1])
       = Ok (reshape_column prices).
Proof.
  assert (H : run_to_scale demo_file = Done demo_scaled)
    by (vm_compute; reflexivity).
  destruct (network_output_maps_to_prices_in_order
              demo_file demo_scaled [Fin 0; Fin (1 # 2); Fin 1] H)
    as [lo [hi [prices [H1 [H2 [_ [H3 _]]]]]]].
  - discriminate.
  - repeat constructor.
  - exists lo, hi, prices. now repeat split.
Defined.

(** ** Cell 21: the rows of the two sets *)

Lemma take_app {A : Type} (a : list A) (i j : list nat) :
  take a (i ++ j) = (take a i ++ take a j)%list.
Proof. apply flat_map_app. Qed.

Lemma take_seq_from {A : Type} (l1 l2 : list A) :
  take (l1 ++ l2) (seq (length l1) (length l2)) = l2.
Proof.
  revert l1. induction l2 as [| x tl IH]; intros l1; [reflexivity |].
  cbn [length seq]. unfold take. cbn [flat_map].
  rewrite nth_error_app2, Nat.sub_diag by lia. cbn [nth_error app].
  f_equal.
  specialize (IH (l1 ++ [x])%list).
  rewrite <- app_assoc, length_app, Nat.add_1_r in IH. exact IH.
Qed.

Lemma take_permutation {A : Type} (l : list A) (ind : list nat) :
  Permutation ind (seq 0 (length l)) -> Permutation (take l ind) l.
Proof.
  intros H. rewrite <- (take_seq_from [] l) at 2.
  unfold take. apply Permutation_flat_map. exact H.
Qed.

Lemma length_take {A : Type} (l : list A) (ind : list nat) :
  (forall i, In i ind -> (i < length l)%nat) ->
  length (take l ind) = length ind.
Proof.
  induction ind as [| i tl IH]; intros H; [reflexivity |].
  unfold take. cbn [flat_map].
  destruct (nth_error l i) eqn:E.
  - cbn [app length]. f_equal. apply IH. intros j Hj. apply H. now right.
  - apply nth_error_None in E. specialize (H i (or_introl eq_refl)). lia.
Qed.

Lemma take_map {A B : Type} (f : A -> B) (l : list A) (ind : list nat) :
  take (map f l) ind = map f (take l ind).
Proof.
  induction ind as [| i tl IH]; [reflexivity |].
  unfold take in *. cbn [flat_map]. rewrite map_app, IH, nth_error_map.
  now destruct (nth_error l i).
Qed.

Lemma nth_error_combine_pair {A B : Type} (l : list A) (l' : list B)
      (i : nat) :
  nth_error (combine l l') i
  = match nth_error l i, nth_error l' i with
    | Some a, Some b => Some (a, b)
    | _, _ => None
    end.
Proof.
  revert l' i. induction l as [| a tl IH]; intros l' i.
  - cbn [combine]. now destruct i.
  - destruct l' as [| b tl'].
    + cbn [combine]. destruct i; cbn [nth_error]; [reflexivity |].
      now destruct (nth_error tl i).
    + destruct i; cbn [combine nth_error]; [reflexivity | apply IH].
Qed.

Lemma take_combine {A B : Type} (l : list A) (l' : list B) (ind : list nat) :
  length l = length l' ->
  combine (take l ind) (take l' ind) = take (combine l l') ind.
Proof.
  intros Hlen. induction ind as [| i tl IH]; [reflexivity |].
  unfold take in *. cbn [flat_map]. rewrite nth_error_combine_pair.
  destruct (nth_error l i) as [a |] eqn:Ea;
    destruct (nth_error l' i) as [b |] eqn:Eb; cbn [app combine].
  - now rewrite IH.
  - apply nth_error_None in Eb.
    assert (i < length l)%nat by (apply nth_error_Some; congruence). lia.
  - apply nth_error_None in Ea.
    assert (i < length l')%nat by (apply nth_error_Some; congruence). lia.
  - exact IH.
Qed.

Section SplitRows.

Context {RS : RandomState}.

(** What a successful call of [train_test_split] returned. *)
Lemma train_test_split_inv (g : rng) (A B : Type) (X : list A) (y : list B)
      (rs : option Z) (sp : split A B) :
  train_test_split g X y (2 # 10) rs = Ok sp ->
  length X = length y
  /\ exists train test,
      split_indices g (length X) (2 # 10) rs = Ok (train, test)
      /\ sp = mkSplit (take X train) (take X test)
                      (take y train) (take y test)
      /\ Permutation (test ++ train) (seq 0 (length X))
      /\ length test = ((length X + 4) / 5)%nat
      /\ length train = (length X - (length X + 4) / 5)%nat
      /\ (forall i, In i test -> (i < length X)%nat)
      /\ (forall i, In i train -> (i < length X)%nat).
Proof.
  unfold train_test_split.
  destruct (Nat.eqb_spec (length X) (length y)) as [Hlen | _];
    cbn [negb]; [| discriminate].
  destruct (split_indices g (length X) (2 # 10) rs) as [[train test] | e]
    eqn:E; cbn [bind]; [| discriminate].
  intros [= <-]. split; [exact Hlen |]. exists train, test.
  destruct (split_indices_partition g _ rs train test E) as [P [L1 L2]].
  split; [reflexivity |]. split; [reflexivity |].
  split; [exact P |]. split; [exact L1 |]. split; [exact L2 |].
  assert (K : forall i, In i (test ++ train) -> (i < length X)%nat).
  { intros i Hi. apply (Permutation_in _ P) in Hi.
    apply in_seq in Hi. lia. }
  split; intros i Hi; apply K, in_or_app; [now left | now right].
Qed.

(** X11.  A successful split loses no row, repeats none and keeps every
    feature row together with its own target: the test pairs followed
    by the train pairs are a rearrangement of the pairs it was given.
    The test set has a fifth of the rows, rounded up. *)
Theorem split_keeps_rows_paired
        (g : rng) (A B : Type) (X : list A) (y : list B) (sp : split A B) :
  train_test_split g X y (2 # 10) (Some 42%Z) = Ok sp ->
  length X = length y
  /\ Permutation (combine (X_test sp) (y_test sp)
                  ++ combine (X_train sp) (y_train sp))
                 (combine X y)
  /\ Permutation (X_test sp ++ X_train sp) X
  /\ Permutation (y_test sp ++ y_train sp) y
  /\ length (X_test sp) = ((length X + 4) / 5)%nat
  /\ length (y_test sp) = length (X_test sp)
  /\ length (X_train sp) = (length X - (length X + 4) / 5)%nat
  /\ length (y_train sp) = length (X_train sp).
Proof.
  intros H.
  destruct (train_test_split_inv g A B X y _ sp H)
    as [Hlen [train [test [_ [-> [P [L1 [L2 [B1 B2]]]]]]]]].
  cbn [X_test X_train y_test y_train].
  split; [exact Hlen |]. split; [| split; [| split]].
  - rewrite !take_combine by exact Hlen. rewrite <- take_app.
    apply take_permutation.
    rewrite length_combine, <- Hlen, Nat.min_id. exact P.
  - rewrite <- take_app. now apply take_permutation.
  - rewrite <- take_app. apply take_permutation. now rewrite <- Hlen.
  - rewrite !length_take; try assumption;
      try (intros i Hi; rewrite <- Hlen; auto).
    now repeat split.
Qed.

End SplitRows.

Lemma split_keeps_rows_witness :
  exists sp,
    train_test_split (RS := countdown) 0%Z (seq 0 10) (seq 10 10)
                     (2 # 10) (Some 42%Z) = Ok sp
    /\ Permutation (X_test sp ++ X_train sp) (seq 0 10)
    /\ length (X_test sp) = 2%nat.
Proof.
  destruct (train_test_split (RS := countdown) 0%Z (seq 0 10) (seq 10 10)
                             (2 # 10) (Some 42%Z)) as [sp | e] eqn:E.
  - exists sp. split; [reflexivity |].
    destruct (split_keeps_rows_paired (RS := countdown) _ _ _ _ _ sp E)
      as [_ [_ [P [_ [L _]]]]].
    split; [exact P | exact L].
  - exfalso. vm_compute in E. discriminate E.
Defined.
(** ** Cells 20 and 21 on the usable rows of a file *)

Lemma run_to_scale_usable (file : list CsvRow) (df_clean : list FeatureRow) :
  prepare file = Ok df_clean -> df_clean <> [] ->
  exists sc,
    run_to_scale file = Done sc
    /\ scale df_clean = Ok sc
    /\ length (X_scaled sc) = length df_clean
    /\ length (y_scaled sc) = length df_clean.
Proof.
  unfold prepare, run_to_scale. intros H Hne.
  destruct (clean (read_csv file)) as [df | e] eqn:Hc; [| discriminate].
  cbn [bind] in H. injection H as <-. cbn [in_stage and_then].
  destruct (scale_total (dropna (engineer df)) Hne) as [sc Hsc].
  { intros r Hr. apply filter_In in Hr. destruct Hr as [Hr _].
    apply In_nth_error in Hr. destruct Hr as [i Hi].
    exact (engineered_cells_no_inf file df i r Hc Hi). }
  exists sc. rewrite Hsc. split; [reflexivity |]. split; [reflexivity |].
  destruct (scale_inv _ sc Hsc) as [HX [Hy [_ [HXs _]]]].
  split.
  - now rewrite HXs, HX, !length_map.
  - now rewrite (length_y_scaled _ sc Hsc), Hy, length_map.
Qed.

Section SplitOfFile.

Context {RS : RandomState}.


(** X12.  On a table within the range of the float64 and datetime
    arithmetic, how far the run gets depends on the number of usable
    rows alone: none, and the scaler raises on an empty array; one, and
    the scalers are fitted but the split refuses to leave the train set
    empty; two or more, and the split is made, with a fifth of the rows
    (rounded up) in the test set. *)
Theorem split_needs_two_usable_rows
        (g : rng) (file : list CsvRow) (df_clean : list FeatureRow) :
  in_float_range file = true ->
  prepare file = Ok df_clean ->
  (df_clean = [] -> run_to_split g file = Failed Scaling EmptyArray)
  /\ (length df_clean = 1%nat ->
      run_to_split g file = Failed Splitting EmptyTrainSet)
  /\ ((2 <= length df_clean)%nat ->
      exists sc sp,
        run_to_split g file = Done (sc, sp)
        /\ length (X_test sp) = ((length df_clean + 4) / 5)%nat
        /\ (length (X_train sp) + length (X_test sp) = length df_clean)%nat
        /\ (0 < length (X_train sp))%nat /\ (0 < length (X_test sp))%nat).
Proof.
  intros _ H. split; [| split].
  - intros ->. unfold run_to_split, run_to_scale.
    unfold prepare in H.
    destruct (clean (read_csv file)) as [df | e]; [| discriminate].
    cbn [bind] in H. injection H as H. cbn [in_stage and_then].
    rewrite H. reflexivity.
  - intros Hone.
    destruct (run_to_scale_usable file df_clean H) as [sc [Hs [_ [LX Ly]]]].
    { intros ->. discriminate. }
    unfold run_to_split. rewrite Hs. cbn [and_then].
    unfold train_test_split, split_indices.
    rewrite LX, Ly, Hone, validate_shuffle_split_fifth. reflexivity.
  - intros Htwo.
    destruct (run_to_scale_usable file df_clean H) as [sc [Hs [_ [LX Ly]]]].
    { intros ->. cbn in Htwo. lia. }
    unfold run_to_split. rewrite Hs. cbn [and_then].
    destruct (split_indices_total g (length (X_scaled sc)) (Some 42%Z))
      as [train [test Hi]]; [lia |].
    assert (Ht : exists sp,
               train_test_split g (X_scaled sc) (y_scaled sc) (2 # 10)
                                (Some 42%Z) = Ok sp).
    { unfold train_test_split. rewrite LX, Ly, Nat.eqb_refl. cbn [negb].
      rewrite LX in Hi. rewrite Hi. cbn [bind]. eexists. reflexivity. }
    destruct Ht as [sp Ht]. exists sc, sp. rewrite Ht.
    split; [reflexivity |].
    destruct (train_test_split_inv g _ _ _ _ _ sp Ht)
      as [_ [tr [te [_ [-> [_ [L1 [L2 [B1 B2]]]]]]]]].
    cbn [X_test X_train]. rewrite !length_take by assumption.
    rewrite L1, L2, LX.
    pose proof (fifth_bounds (length df_clean)). repeat split; lia.
Qed.

End SplitOfFile.

Lemma split_by_usable_rows_witness :
  in_float_range demo_file = true
  /\ prepare demo_file = Ok demo_usable
  /\ exists sc sp,
      run_to_split (RS := countdown) 0%Z demo_file = Done (sc, sp)
      /\ length (X_test sp) = 1%nat.
Proof.
  assert (R : in_float_range demo_file = true) by (vm_compute; reflexivity).
  assert (H : prepare demo_file = Ok demo_usable)
    by (vm_compute; reflexivity).
  split; [exact R |]. split; [exact H |].
  destruct (split_needs_two_usable_rows (RS := countdown) 0%Z _ _ R H)
    as [_ [_ K]].
  destruct K as [sc [sp [K1 [K2 _]]]]; [cbn; lia |].
  exists sc, sp. split; [exact K1 | exact K2].
Defined.

(** ** Cell 30: the regression metrics *)

Lemma check_target_ok (v : list fval) :
  check_target v = Ok tt <-> v <> [] /\ Forall is_finite v.
Proof.
  unfold check_target. split.
  - destruct (existsb isna v) eqn:En; [discriminate |].
    destruct (existsb isinf v) eqn:Ei; [discriminate |].
    intros H. split; [destruct v; [discriminate | discriminate] |].
    apply existsb_false_Forall in En. apply existsb_false_Forall in Ei.
    rewrite Forall_forall in *. intros x Hx.
    specialize (En x Hx). specialize (Ei x Hx).
    destruct x; [discriminate | discriminate | exact I].
  - intros [Hne Hfin].
    assert (En : existsb isna v = false).
    { destruct (existsb isna v) eqn:E; [| reflexivity].
      apply existsb_exists in E. destruct E as [x [Hx E]].
      rewrite Forall_forall in Hfin. specialize (Hfin x Hx).
      destruct x; [destruct Hfin | discriminate | discriminate]. }
    assert (Ei : existsb isinf v = false).
    { destruct (existsb isinf v) eqn:E; [| reflexivity].
      apply existsb_exists in E. destruct E as [x [Hx E]].
      rewrite Forall_forall in Hfin. specialize (Hfin x Hx).
      destruct x; [discriminate | destruct Hfin | discriminate]. }
    rewrite En, Ei. destruct v; [now destruct Hne | reflexivity].
Qed.

Lemma check_reg_targets_ok (y_true y_pred : list fval) :
  check_reg_targets y_true y_pred = Ok tt
  <-> length y_true = length y_pred /\ y_true <> []
      /\ Forall is_finite y_true /\ Forall is_finite y_pred.
Proof.
  unfold check_reg_targets.
  destruct (Nat.eqb_spec (length y_true) (length y_pred)) as [Hlen | Hlen];
    cbn [negb].
  - split.
    + destruct (check_target y_true) as [[] | e] eqn:E1; cbn [bind];
        [| discriminate].
      intros E2. apply check_target_ok in E1, E2.
      destruct E1 as [N1 F1], E2 as [_ F2]. now repeat split.
    + intros [_ [N1 [F1 F2]]].
      rewrite (proj2 (check_target_ok y_true) (conj N1 F1)). cbn [bind].
      apply check_target_ok. split; [| exact F2].
      intros ->. destruct y_true; [now destruct N1 | discriminate].
  - split; [discriminate | intros [C _]; now destruct Hlen].
Qed.

Lemma Qsquare_nonneg (x : Q) : 0 <= x * x.
Proof. nra. Qed.

Lemma Qsquare_zero (x : Q) : x * x == 0 -> x == 0.
Proof. intros H. now destruct (Qmult_integral _ _ H). Qed.

Lemma Qabs_square (x : Q) : Qabs x * Qabs x == x * x.
Proof. rewrite <- Qabs_Qmult. apply Qabs_pos, Qsquare_nonneg. Qed.

Lemma Qabs_zero_iff (x : Q) : Qabs x == 0 <-> x == 0.
Proof.
  split; intros H.
  - pose proof (Qabs_nonneg x). pose proof (Qle_Qabs x).
    pose proof (Qle_Qabs (- x)). rewrite Qabs_opp in H2. lra.
  - rewrite H. reflexivity.
Qed.

Lemma inject_nat_succ (n : nat) :
  inject_Z (Z.of_nat (S n)) == inject_Z (Z.of_nat n) + 1.
Proof. rewrite Nat2Z.inj_succ. unfold Z.succ. now rewrite inject_Z_plus. Qed.

Lemma inject_nat_pos (n : nat) : (0 < n)%nat -> 0 < inject_Z (Z.of_nat n).
Proof.
  intros H. change 0 with (inject_Z 0). rewrite <- Zlt_Qlt. lia.
Qed.

(** The two sums of errors, taken together: both grow, both stay where
    they are exactly when the predictions are exact, and they keep the
    inequality from which [(sum |e|)^2 <= n * sum e^2] follows. *)
Lemma errors_fold (yt yp : list fval) (a1 a2 : Q) (n0 : nat) :
  length yt = length yp -> Forall is_finite yt -> Forall is_finite yp ->
  exists s1 s2,
    fold_left fadd (map2 absolute_error yt yp) (Fin a1) = Fin s1
    /\ fold_left fadd (map2 squared_error yt yp) (Fin a2) = Fin s2
    /\ a1 <= s1 /\ a2 <= s2
    /\ (s1 == a1 <-> Forall2 feq yt yp)
    /\ (s2 == a2 <-> Forall2 feq yt yp)
    /\ ((forall t, 2 * a1 * t <= a2 + inject_Z (Z.of_nat n0) * (t * t)) ->
        forall t,
          2 * s1 * t
          <= s2 + inject_Z (Z.of_nat (n0 + length yt)) * (t * t)).
Proof.
  revert yp a1 a2 n0.
  induction yt as [| v yt IH]; intros yp a1 a2 n0 Hlen Ft Fp.
  - destruct yp; [| discriminate]. exists a1, a2. cbn [map2 fold_left].
    split; [reflexivity |]. split; [reflexivity |].
    split; [lra |]. split; [lra |].
    split; [split; [constructor | reflexivity] |].
    split; [split; [constructor | reflexivity] |].
    cbn [length]. now rewrite Nat.add_0_r.
  - destruct yp as [| p yp]; [discriminate |].
    inversion Ft as [| ? ? Fv Ft']; subst.
    inversion Fp as [| ? ? Fq Fp']; subst.
    destruct (is_finite_inv v Fv) as [a ->].
    destruct (is_finite_inv p Fq) as [b ->].
    cbn [map2 fold_left absolute_error squared_error fsub fneg fadd fmul
         fabs].
    injection Hlen as Hlen.
    destruct (IH yp (a1 + Qabs (a + - b)) (a2 + (a + - b) * (a + - b))
                 (S n0) Hlen Ft' Fp')
      as [s1 [s2 [E1 [E2 [L1 [L2 [Z1 [Z2 Inv]]]]]]]].
    exists s1, s2.
    pose proof (Qabs_nonneg (a + - b)) as Habs.
    pose proof (Qsquare_nonneg (a + - b)) as Hsq.
    split; [exact E1 |]. split; [exact E2 |].
    split; [lra |]. split; [lra |].
    assert (Hhead : a == b <-> Qabs (a + - b) == 0).
    { rewrite Qabs_zero_iff. split; intros; lra. }
    assert (Hhead2 : a == b <-> (a + - b) * (a + - b) == 0).
    { split; intros E.
      - rewrite E. ring.
      - apply Qsquare_zero in E. lra. }
    split; [| split].
    + split.
      * intros E. assert (E0 : Qabs (a + - b) == 0) by lra.
        constructor; [cbn [feq]; now apply Hhead |].
        apply Z1. lra.
      * intros F. inversion F as [| ? ? ? ? Fh Ft2]; subst.
        cbn [feq] in Fh. apply Hhead in Fh. apply Z1 in Ft2. lra.
    + split.
      * intros E. assert (E0 : (a + - b) * (a + - b) == 0) by lra.
        constructor; [cbn [feq]; now apply Hhead2 |].
        apply Z2. lra.
      * intros F. inversion F as [| ? ? ? ? Fh Ft2]; subst.
        cbn [feq] in Fh. apply Hhead2 in Fh. apply Z2 in Ft2. lra.
    + intros H0 t. cbn [length]. rewrite Nat.add_succ_r.
      apply Inv. intros u. rewrite inject_nat_succ.
      specialize (H0 u).
      pose proof (Qabs_square (a + - b)) as Hq.
      pose proof (Qsquare_nonneg (Qabs (a + - b) - u)) as Hu.
      set (A := Qabs (a + - b)) in *. set (x := a + - b) in *.
      nra.
Qed.

Lemma sum_of_squares (xs : list fval) (c a : Q) :
  Forall is_finite xs ->
  exists s,
    fold_left fadd (map (fun v => squared_error v (Fin c)) xs) (Fin a) = Fin s
    /\ a <= s.
Proof.
  revert a. induction xs as [| v xs IH]; intros a F.
  - exists a. split; [reflexivity | lra].
  - inversion F as [| ? ? Fv F']; subst.
    destruct (is_finite_inv v Fv) as [x ->].
    cbn [map fold_left squared_error fsub fneg fadd fmul].
    destruct (IH (a + (x + - c) * (x + - c)) F') as [s [E L]].
    exists s. split; [exact E |].
    pose proof (Qsquare_nonneg (x + - c)). lra.
Qed.

(** What the two error metrics return on finite arrays of one positive
    length: the sum of the squared errors and the sum of the absolute
    errors, each over the number of samples. *)
Lemma metric_sums (y_true y_pred : list fval) :
  length y_true = length y_pred -> y_true <> [] ->
  Forall is_finite y_true -> Forall is_finite y_pred ->
  let N := inject_Z (Z.of_nat (length y_true)) in
  exists s1 s2,
    mean_squared_error y_true y_pred = Ok (Fin (s2 / N))
    /\ mean_absolute_error y_true y_pred = Ok (Fin (s1 / N))
    /\ 0 < N /\ 0 <= s1 /\ 0 <= s2
    /\ (s1 == 0 <-> Forall2 feq y_true y_pred)
    /\ (s2 == 0 <-> Forall2 feq y_true y_pred)
    /\ (forall t, 2 * s1 * t <= s2 + N * (t * t)).
Proof.
  intros Hlen Hne Ft Fp N.
  assert (Hc : check_reg_targets y_true y_pred = Ok tt)
    by (apply check_reg_targets_ok; now repeat split).
  destruct (errors_fold y_true y_pred 0 0 0 Hlen Ft Fp)
    as [s1 [s2 [E1 [E2 [L1 [L2 [Z1 [Z2 Inv]]]]]]]].
  assert (Hn : (0 < length y_true)%nat)
    by (destruct y_true; [now destruct Hne | cbn; lia]).
  pose proof (inject_nat_pos _ Hn) as HN. fold N in HN.
  exists s1, s2.
  unfold mean_squared_error, mean_absolute_error, fsum.
  rewrite Hc, E1, E2. cbn [bind fdiv of_nat]. fold N.
  rewrite (Qeq_bool_pos N HN).
  split; [reflexivity |]. split; [reflexivity |].
  split; [exact HN |]. split; [exact L1 |]. split; [exact L2 |].
  split; [exact Z1 |]. split; [exact Z2 |].
  apply Inv. intros t. change (inject_Z (Z.of_nat 0)) with 0. lra.
Qed.

Lemma ratio_nonneg (s N : Q) : 0 < N -> 0 <= s -> 0 <= s / N.
Proof. intros HN Hs. apply Qle_shift_div_l; lra. Qed.

Lemma ratio_zero_iff (s N : Q) : 0 < N -> (s / N == 0 <-> s == 0).
Proof.
  intros HN. split; intros E.
  - setoid_replace s with (s / N * N) by (field; lra). rewrite E. ring.
  - rewrite E. field. lra.
Qed.

(** X14.  On two arrays of the same positive length that hold finite
    values, [mean_squared_error] and [mean_absolute_error] return
    numbers that are not negative, and both return 0 when every
    prediction equals its target. *)
Theorem error_metrics_are_nonnegative (y_true y_pred : list fval) :
  length y_true = length y_pred -> y_true <> [] ->
  Forall is_finite y_true -> Forall is_finite y_pred ->
  exists m a,
    mean_squared_error y_true y_pred = Ok (Fin m)
    /\ mean_absolute_error y_true y_pred = Ok (Fin a)
    /\ 0 <= m /\ 0 <= a
    /\ (Forall2 feq y_true y_pred -> m == 0 /\ a == 0).
Proof.
  intros Hlen Hne Ft Fp.
  destruct (metric_sums y_true y_pred Hlen Hne Ft Fp)
    as [s1 [s2 [E2 [E1 [HN [P1 [P2 [Z1 [Z2 _]]]]]]]]].
  set (N := inject_Z (Z.of_nat (length y_true))) in *.
  exists (s2 / N), (s1 / N).
  split; [exact E2 |]. split; [exact E1 |].
  split; [now apply ratio_nonneg |]. split; [now apply ratio_nonneg |].
  intros F. split.
  - apply (ratio_zero_iff s2 N HN). now apply Z2.
  - apply (ratio_zero_iff s1 N HN). now apply Z1.
Qed.

Lemma error_metrics_witness :
  exists m a,
    mean_squared_error [Fin 1; Fin 2; Fin 4] [Fin 1; Fin 3; Fin 2]
    = Ok (Fin m)
    /\ mean_absolute_error [Fin 1; Fin 2; Fin 4] [Fin 1; Fin 3; Fin 2]
       = Ok (Fin a)
    /\ 0 <= m /\ 0 <= a.
Proof.
  destruct (error_metrics_are_nonnegative
              [Fin 1; Fin 2; Fin 4] [Fin 1; Fin 3; Fin 2])
    as [m [a [H1 [H2 [H3 [H4 _]]]]]].
  - reflexivity.
  - discriminate.
  - repeat constructor.
  - repeat constructor.
  - exists m, a. now repeat split.
Defined.

(** What [r2_score] returns on finite arrays of one length: NaN for a
    single sample, otherwise a value fixed by the residual sum of
    squares [rss] and the total sum of squares [tss]. *)
Lemma r2_score_value (y_true y_pred : list fval) :
  length y_true = length y_pred -> y_true <> [] ->
  Forall is_finite y_true -> Forall is_finite y_pred ->
  (length y_true = 1%nat -> r2_score y_true y_pred = Ok NaN)
  /\ ((2 <= length y_true)%nat ->
      exists rss tss,
        r2_score y_true y_pred
        = Ok (if Qeq_bool rss 0 then Fin 1
              else if Qeq_bool tss 0 then Fin 0
                   else Fin (1 + - (rss / tss)))
        /\ 0 <= rss /\ 0 <= tss
        /\ (rss == 0 <-> Forall2 feq y_true y_pred)).
Proof.
  intros Hlen Hne Ft Fp.
  assert (Hc : check_reg_targets y_true y_pred = Ok tt)
    by (apply check_reg_targets_ok; now repeat split).
  unfold r2_score. rewrite Hc. cbn [bind]. rewrite <- Hlen.
  split.
  - intros ->. reflexivity.
  - intros Htwo.
    destruct (Nat.ltb_spec (length y_true) 2) as [C | _]; [lia |].
    destruct (errors_fold y_true y_pred 0 0 0 Hlen Ft Fp)
      as [_ [s2 [_ [E2 [_ [L2 [_ [Z2 _]]]]]]]].
    assert (Hn : (0 < length y_true)%nat) by lia.
    pose proof (inject_nat_pos _ Hn) as HN.
    destruct (is_finite_inv _ (fsum_finite y_true Ft)) as [total Et].
    unfold fsum in *. rewrite E2, Et. cbn [fdiv of_nat].
    rewrite (Qeq_bool_pos _ HN).
    destruct (sum_of_squares
                y_true (total / inject_Z (Z.of_nat (length y_true))) 0 Ft)
      as [d [Ed Ld]].
    rewrite Ed. cbn [feqb]. exists s2, d.
    split; [| split; [exact L2 | split; [exact Ld | exact Z2]]].
    destruct (Qeq_bool s2 0); [reflexivity |].
    destruct (Qeq_bool d 0) eqn:Qd; [reflexivity |].
    reflexivity.
Qed.

(** X15.  On two arrays of the same length that hold finite values,
    [r2_score] is undefined (NaN) for a single sample; for two or more
    it is a number of at most 1, and it is 1 when every prediction
    equals its target. *)
Theorem r2_score_is_at_most_one (y_true y_pred : list fval) :
  length y_true = length y_pred -> y_true <> [] ->
  Forall is_finite y_true -> Forall is_finite y_pred ->
  (length y_true = 1%nat -> r2_score y_true y_pred = Ok NaN)
  /\ ((2 <= length y_true)%nat ->
      exists r,
        r2_score y_true y_pred = Ok (Fin r)
        /\ r <= 1
        /\ (Forall2 feq y_true y_pred -> r == 1)).
Proof.
  intros Hlen Hne Ft Fp.
  destruct (r2_score_value y_true y_pred Hlen Hne Ft Fp) as [One More].
  split; [exact One |]. intros Htwo.
  destruct (More Htwo) as [rss [tss [E [P1 [P2 Z]]]]]. rewrite E.
  destruct (Qeq_bool rss 0) eqn:Q1.
  - exists 1. split; [reflexivity |]. split; [lra | reflexivity].
  - assert (N1 : ~ rss == 0)
      by (intros C; apply Qeq_bool_iff in C; congruence).
    destruct (Qeq_bool tss 0) eqn:Q2.
    + exists 0. split; [reflexivity |]. split; [lra |].
      intros F. apply Z in F. now destruct N1.
    + assert (N2 : ~ tss == 0)
        by (intros C; apply Qeq_bool_iff in C; congruence).
      exists (1 + - (rss / tss)). split; [reflexivity |].
      assert (Hq : 0 < rss / tss) by (apply Qlt_shift_div_l; lra).
      split; [lra |].
      intros F. apply Z in F. now destruct N1.
Qed.

Lemma r2_score_witness :
  exists r,
    r2_score [Fin 1; Fin 2; Fin 4] [Fin 1; Fin 3; Fin 2] = Ok (Fin r)
    /\ r <= 1.
Proof.
  destruct (r2_score_is_at_most_one
              [Fin 1; Fin 2; Fin 4] [Fin 1; Fin 3; Fin 2])
    as [_ H].
  - reflexivity.
  - discriminate.
  - repeat constructor.
  - repeat constructor.
  - destruct H as [r [H1 [H2 _]]]; [cbn; lia |].
    exists r. split; [exact H1 | exact H2].
Defined.

(** ** Cell 30: predictions, prices and metrics together *)


Lemma take_In {A : Type} (l : list A) (ind : list nat) (v : A) :
  In v (take l ind) -> In v l.
Proof.
  unfold take. intros H. apply in_flat_map in H. destruct H as [i [_ H]].
  destruct (nth_error l i) eqn:E; [| destruct H].
  destruct H as [<- | []]. now apply nth_error_In in E.
Qed.

Lemma inverse_transform_column (s : MinMaxScaler) (sv mv : Q)
      (outs : list fval) :
  scale_ s = [Fin sv] -> min_ s = [Fin mv] -> outs <> [] ->
  (forall v, In v outs -> isinf v = false) ->
  inverse_transform s (reshape_column outs)
  = Ok (reshape_column
          (map (fun o => fdiv (fsub o (Fin mv)) (Fin sv)) outs)).
Proof.
  intros Hs Hm Hne Hinf. unfold inverse_transform. rewrite check_array_ok.
  - cbn [bind]. unfold reshape_column. rewrite !map_map.
    apply f_equal, map_ext. intros o. unfold inverse_row.
    now rewrite Hs, Hm.
  - destruct outs; [now destruct Hne | discriminate].
  - destruct outs; [now destruct Hne | discriminate].
  - intros row v Hrow Hv. unfold reshape_column in Hrow.
    apply in_map_iff in Hrow. destruct Hrow as [o [<- Ho]].
    destruct Hv as [<- | []]. now apply Hinf.
Qed.





Section EvaluationFacts.

Context {RS : RandomState}.


Variable predict : list fval -> fval.


End EvaluationFacts.


(** ** Cell 31: the points of the scatter plot *)

Lemma insert_sorted_perm (x : nat) (l : list nat) :
  Permutation (insert_sorted x l) (x :: l).
Proof.
  induction l as [| y tl IH]; cbn [insert_sorted]; [reflexivity |].
  destruct (x <=? y)%nat; [reflexivity |].
  rewrite IH. apply perm_swap.
Qed.

Lemma sort_perm (l : list nat) : Permutation (sort l) l.
Proof.
  unfold sort. induction l as [| x tl IH]; cbn [fold_right]; [reflexivity |].
  rewrite insert_sorted_perm. now constructor.
Qed.

Lemma insert_sorted_sorted (x : nat) (l : list nat) :
  StronglySorted le l -> StronglySorted le (insert_sorted x l).
Proof.
  induction 1 as [| y tl Hs IH Hy]; cbn [insert_sorted].
  - repeat constructor.
  - destruct (Nat.leb_spec x y) as [Hle | Hgt].
    + constructor; [now constructor |].
      constructor; [exact Hle |].
      eapply Forall_impl; [| exact Hy]. intros z Hz. lia.
    + constructor; [exact IH |].
      apply (Permutation_Forall (Permutation_sym (insert_sorted_perm x tl))).
      constructor; [lia | exact Hy].
Qed.

Lemma sort_sorted (l : list nat) : StronglySorted le (sort l).
Proof.
  unfold sort. induction l as [| x tl IH]; cbn [fold_right];
    [constructor | now apply insert_sorted_sorted].
Qed.

Lemma sorted_NoDup_increasing (l : list nat) :
  StronglySorted le l -> NoDup l -> StronglySorted lt l.
Proof.
  induction 1 as [| x tl Hs IH Hx]; intros Hn; [constructor |].
  inversion Hn as [| ? ? Hnot Hn']; subst.
  constructor; [now apply IH |].
  rewrite Forall_forall in *. intros z Hz.
  specialize (Hx z Hz).
  assert (x <> z) by (intros ->; now destruct Hnot). lia.
Qed.

Lemma seq_increasing (start n : nat) : StronglySorted lt (seq start n).
Proof.
  revert start. induction n as [| n IH]; intros start; cbn [seq];
    constructor; [apply IH |].
  apply Forall_forall. intros z Hz. apply in_seq in Hz. lia.
Qed.

Lemma take_seq_indices (n : nat) (ind : list nat) :
  (forall i, In i ind -> (i < n)%nat) -> take (seq 0 n) ind = ind.
Proof.
  induction ind as [| i tl IH]; intros H; [reflexivity |].
  unfold take in *. cbn [flat_map].
  rewrite nth_error_seq.
  destruct (Nat.ltb_spec i n) as [_ | C].
  - cbn [app Nat.add]. f_equal. apply IH. intros j Hj. apply H. now right.
  - specialize (H i (or_introl eq_refl)). lia.
Qed.

Section PlotFacts.

Context {RS : RandomState}.

(** X17.  The positions plotted in cell 31 are positions of test
    samples, strictly increasing (so none is plotted twice), and there
    are [min n 100] of them: every sample when there are at most 100,
    a sample of exactly 100 otherwise.  The cell never fails. *)
Theorem plot_indices_are_an_increasing_sample (g : rng) (n : nat) :
  exists ind,
    plot_indices g n = Ok ind
    /\ length ind = Nat.min n 100
    /\ (forall i, In i ind -> (i < n)%nat)
    /\ StronglySorted lt ind
    /\ NoDup ind
    /\ ((n <= 100)%nat -> ind = seq 0 n)
    /\ ((100 < n)%nat ->
        Permutation ind (firstn 100 (permutation g n))).
Proof.
  unfold plot_indices, choice. rewrite !length_seq.
  destruct (Nat.ltb_spec 100 n) as [Hbig | Hsmall].
  - destruct (Nat.ltb_spec n 100) as [C | _]; [lia |]. cbn [bind].
    pose proof (permutation_spec g n) as P.
    assert (Hin : forall i, In i (firstn 100 (permutation g n)) ->
                            (i < n)%nat).
    { intros i Hi.
      assert (Hi' : In i (permutation g n)).
      { rewrite <- (firstn_skipn 100 (permutation g n)).
        apply in_or_app. now left. }
      apply (Permutation_in _ P) in Hi'. apply in_seq in Hi'. lia. }
    rewrite (take_seq_indices n _ Hin).
    assert (Hnd : NoDup (firstn 100 (permutation g n))).
    { assert (N : NoDup (permutation g n))
        by (apply (Permutation_NoDup (Permutation_sym P)), seq_NoDup).
      rewrite <- (firstn_skipn 100 (permutation g n)) in N.
      now apply NoDup_app_remove_r in N. }
    pose proof (sort_perm (firstn 100 (permutation g n))) as SP.
    assert (Hnd' : NoDup (sort (firstn 100 (permutation g n))))
      by (apply (Permutation_NoDup (Permutation_sym SP)), Hnd).
    exists (sort (firstn 100 (permutation g n))).
    split; [reflexivity |]. split.
    { rewrite (Permutation_length SP), length_firstn.
      rewrite (Permutation_length P), length_seq. lia. }
    split.
    { intros i Hi. apply Hin. now apply (Permutation_in _ SP). }
    split; [apply sorted_NoDup_increasing; [apply sort_sorted | exact Hnd'] |].
    split; [exact Hnd' |].
    split; [intros C; lia | intros _; exact SP].
  - exists (seq 0 n). split; [reflexivity |].
    split; [rewrite length_seq; lia |].
    split; [intros i Hi; apply in_seq in Hi; lia |].
    split; [apply seq_increasing |].
    split; [apply seq_NoDup |].
    split; [reflexivity | intros C; lia].
Qed.

End PlotFacts.

(** ** Cell 33: the sample and the recorded price *)

Lemma last_rows_map {A B : Type} (f : A -> B) (k : nat) (l : list A) :
  last_rows k (map f l) = map f (last_rows k l).
Proof. unfold last_rows. now rewrite length_map, skipn_map. Qed.

Lemma percentage_error_positive (p x : Q) :
  0 < x ->
  exists e,
    percentage_error (Fin p) (Fin x) = Fin e
    /\ 0 <= e /\ (e == 0 <-> p == x).
Proof.
  intros Hx. exists (Qabs (p + - x) / x * 100).
  unfold percentage_error. cbn [fsub fneg fadd fabs fdiv].
  rewrite (Qeq_bool_pos x Hx). cbn [fmul].
  split; [reflexivity |].
  pose proof (Qabs_nonneg (p + - x)) as Habs.
  assert (Hq : 0 <= Qabs (p + - x) / x) by (apply Qle_shift_div_l; lra).
  split; [lra |].
  split; intros E.
  - assert (E0 : Qabs (p + - x) / x == 0) by lra.
    assert (E1 : Qabs (p + - x) == 0).
    { setoid_replace (Qabs (p + - x)) with (Qabs (p + - x) / x * x)
        by (field; lra).
      rewrite E0. ring. }
    apply (proj1 (Qabs_zero_iff _)) in E1. clear - E1. lra.
  - assert (E1 : p + - x == 0) by (clear - E; lra).
    apply (proj2 (Qabs_zero_iff _)) in E1. rewrite E1. field.
    clear - Hx. lra.
Qed.

(** X18.  The sample of cell 33 is the last row of [df_clean], and the
    price it is compared with is the Close of that same row.  A finite
    network output gives a price, and against a positive recorded price
    the percentage error is a number that is not negative and is 0 only
    for a prediction equal to the recorded price. *)
Theorem sample_is_checked_against_its_own_price
        (predict : list fval -> fval) (file : list CsvRow) (sc : Scaled) :
  run_to_scale file = Done sc ->
  exists front r x,
    prepare file = Ok (front ++ [r])%list
    /\ sample_data sc = [feature_values r]
    /\ sample_data_scaled sc
       = Ok [transform_row (scaler_X sc) (feature_values r)]
    /\ target_value r = Fin x
    /\ actual_price sc = Ok (Fin x)
    /\ (forall t,
          predict (transform_row (scaler_X sc) (feature_values r)) = Fin t ->
          exists p,
            sample_prediction predict sc = Ok (Fin p)
            /\ (0 < x ->
                exists e,
                  percentage_error (Fin p) (Fin x) = Fin e
                  /\ 0 <= e /\ (e == 0 <-> p == x))).
Proof.
  intros H. destruct (run_to_scale_done file sc H) as [df [Hc [Hp Hs]]].
  destruct (target_scaler_form file sc H)
    as [lo [hi [s [Hlo [_ [Hb [Hpos [_ [_ [_ [Hsc [Hm Hys]]]]]]]]]]]].
  destruct (scale_inv _ sc Hs) as [HX [Hy [HfitX _]]].
  assert (Hne : dropna (engineer df) <> []).
  { intros E. rewrite Hy, E in Hlo. destruct Hlo. }
  destruct (exists_last Hne) as [front [r Hdf]].
  assert (Hr : In r (dropna (engineer df))).
  { rewrite Hdf. apply in_or_app. right. now left. }
  assert (Hrow : In (feature_values r) (X sc))
    by (rewrite HX; now apply in_map).
  destruct (Hb (target_value r)) as [x [Ex _]];
    [rewrite Hy; now apply in_map |].
  assert (Hsample : sample_data sc = [feature_values r]).
  { unfold sample_data. rewrite HX, Hdf, map_app. cbn [map].
    apply last_rows_one_app. }
  assert (Hscaled : sample_data_scaled sc
                    = Ok [transform_row (scaler_X sc) (feature_values r)]).
  { unfold sample_data_scaled. rewrite Hsample.
    apply (transform_fitted_row (X sc)); [exact HfitX | exact Hrow |].
    rewrite HX in Hrow |- *.
    destruct (n_features_selected _ _ Hrow) as [-> ->]. reflexivity. }
  assert (Hylast : last_rows 1 (y sc) = [Fin x]).
  { rewrite Hy, Hdf, map_app. cbn [map]. rewrite Ex.
    apply last_rows_one_app. }
  exists front, r, x.
  split; [now rewrite Hp, Hdf |]. split; [exact Hsample |].
  split; [exact Hscaled |]. split; [exact Ex |].
  split; [unfold actual_price; now rewrite Hylast |].
  intros t Ht.
  exists ((t + - (0 + - (lo * s))) / s).
  split.
  - unfold sample_prediction. rewrite Hscaled. cbn [bind map]. rewrite Ht.
    rewrite (inverse_transform_column _ s _ [Fin t] Hsc Hm);
      [| discriminate | intros v [<- | []]; reflexivity].
    cbn [bind map reshape_column nth fsub fneg fadd fdiv].
    now rewrite (Qeq_bool_pos s Hpos).
  - intros Hx. now apply percentage_error_positive.
Qed.

Lemma sample_witness :
  run_to_scale demo_file = Done demo_scaled
  /\ exists x p,
      actual_price demo_scaled = Ok (Fin x)
      /\ sample_prediction constant_model demo_scaled = Ok (Fin p).
Proof.
  assert (H : run_to_scale demo_file = Done demo_scaled)
    by (vm_compute; reflexivity).
  split; [exact H |].
  destruct (sample_is_checked_against_its_own_price
              constant_model demo_file demo_scaled H)
    as [front [r [x [_ [_ [_ [_ [Ha K]]]]]]]].
  destruct (K (1 # 2) eq_refl) as [p [Hp _]].
  exists x, p. split; [exact Ha | exact Hp].
Defined.

(** X19.  [checkpoint_callback] is the only name the notebook reads
    without binding it.  Whatever the library calls do, a run from the
    top ends with a failure inside a library call or with the NameError
    for [checkpoint_callback] at the training cell, never with another
    NameError.  Were the name bound beforehand, no run could raise a
    NameError, and a run whose library calls all return would complete
    every cell, whichever way the test of the [if] in cell 31 goes. *)
Theorem checkpoint_callback_is_the_only_unbound_name
        (lib test : nat -> nat -> bool) :
  (forall c e,
      Notebook.run lib test = Notebook.Stopped c e ->
      (e = LibraryError /\ (c < Notebook.training_cell)%nat
       /\ exists k, lib c k = false)
      \/ (c = Notebook.training_cell
          /\ e = NameError "checkpoint_callback"))
  /\ (forall c e,
        Notebook.run_from lib test
          ("checkpoint_callback"%string :: Notebook.builtins)
          Notebook.notebook = Notebook.Stopped c e ->
        e = LibraryError /\ exists k, lib c k = false)
  /\ ((forall c k, lib c k = true) ->
      exists env,
        Notebook.run_from lib test
          ("checkpoint_callback"%string :: Notebook.builtins)
          Notebook.notebook = Notebook.Completed env).
Proof.
  assert (Second :
            forall c e,
              Notebook.run_from lib test
                ("checkpoint_callback"%string :: Notebook.builtins)
                Notebook.notebook = Notebook.Stopped c e ->
              e = LibraryError /\ exists k, lib c k = false).
  { intros c e H.
    destruct ScopingFacts.notebook_checked_with_callback as [known Hk].
    pose proof (ScopingFacts.run_from_sound
                  lib test Notebook.notebook _ known
                  ("checkpoint_callback"%string :: Notebook.builtins)
                  (fun x Hx => Hx) Hk) as S.
    rewrite H in S. exact S. }
  split; [| split; [exact Second |]].
  - intros c e. unfold Notebook.run.
    rewrite ScopingFacts.notebook_split, NotebookFacts.run_from_app.
    pose proof (ScopingFacts.run_from_sound
                  lib test Scoping.cells_before_training _ _
                  Notebook.builtins (fun x Hx => Hx)
                  ScopingFacts.cells_before_training_checked) as S.
    destruct (Notebook.run_from lib test Notebook.builtins
                                Scoping.cells_before_training)
      as [env1 | c1 e1] eqn:E.
    + assert (N : Notebook.bound env1 "checkpoint_callback" = false).
      { destruct (Notebook.bound env1 "checkpoint_callback") eqn:B;
          [| reflexivity].
        apply NotebookFacts.bound_In in B. exfalso.
        destruct (NotebookFacts.run_from_env _ _ _ _ _ E _ B) as [H | H];
          revert H; apply not_bound_not_In; vm_compute; reflexivity. }
      assert (K : forall name,
                 Notebook.bound Scoping.known_before_training name = true ->
                 Notebook.bound env1 name = true).
      { intros name Hn. apply NotebookFacts.bound_In.
        apply S. now apply NotebookFacts.bound_In. }
      cbn [Notebook.run_from Notebook.exec_stmts Notebook.def].
      unfold Notebook.exec_simple at 1.
      cbn [Notebook.reads Notebook.first_unbound find].
      unfold Notebook.first_unbound. cbn [find].
      rewrite (K "model"%string eq_refl), (K "X_train"%string eq_refl),
        (K "y_train"%string eq_refl), N.
      cbn [negb bind]. intros [= <- <-]. right. now split.
    + intros [= <- <-]. left. destruct S as [-> Hk].
      split; [reflexivity |]. split; [| exact Hk].
      apply NotebookFacts.run_from_stopped in E.
      unfold Notebook.training_cell.
      cbn in E. repeat (destruct E as [<- | E]; [lia |]). destruct E.
  - intros Hlib.
    destruct (Notebook.run_from lib test
                ("checkpoint_callback"%string :: Notebook.builtins)
                Notebook.notebook) as [env | c e] eqn:E.
    + now exists env.
    + destruct (Second c e eq_refl) as [_ [k Hk]].
      rewrite Hlib in Hk. discriminate.
Qed.

(** ** Cell 12: the change and range columns *)

Lemma length_ffill_from (last : fval) (xs : list fval) :
  length (ffill_from last xs) = length xs.
Proof.
  revert last. induction xs as [| x tl IH]; intros last; [reflexivity |].
  cbn [ffill_from length]. now rewrite IH.
Qed.

(** Forward filling leaves a defined cell as it is. *)
Lemma at_row_ffill_from (last : fval) (xs : list fval) (t : nat) :
  isna (at_row xs t) = false ->
  at_row (ffill_from last xs) t = at_row xs t.
Proof.
  unfold at_row. revert last t.
  induction xs as [| x tl IH]; intros last t H.
  - destruct t; discriminate H.
  - destruct t as [| t]; cbn [ffill_from nth] in *.
    + now rewrite H.
    + now apply IH.
Qed.

Lemma at_row_pct_change_defined (xs : list fval) (t : nat) :
  (S t < length xs)%nat ->
  isna (at_row xs t) = false -> isna (at_row xs (S t)) = false ->
  at_row (pct_change xs) (S t)
  = fsub (fdiv (at_row xs (S t)) (at_row xs t)) (Fin 1).
Proof.
  intros Hlen H0 H1. unfold pct_change, ffill.
  rewrite at_row_map2
    by (rewrite ?length_shift1, length_ffill_from; exact Hlen).
  rewrite at_row_shift1 by (rewrite length_ffill_from; exact Hlen).
  now rewrite !at_row_ffill_from.
Qed.

Lemma at_row_first_shifted (f : fval -> fval -> fval) (xs : list fval) :
  (forall v, f v NaN = NaN) -> at_row (map2 f xs (shift1 xs)) 0 = NaN.
Proof.
  intros Hf. destruct xs as [| x tl]; [reflexivity |].
  unfold at_row, shift1. cbn [map2 nth]. apply Hf.
Qed.

Lemma at_row_file_column (f : CsvRow -> fval) (file : list CsvRow)
      (t : nat) (c : CsvRow) :
  nth_error file t = Some c -> at_row (map f file) t = f c.
Proof.
  intros H. unfold at_row. apply nth_error_nth.
  now rewrite nth_error_map, H.
Qed.

Lemma Qeq_bool_false (a : Q) : ~ a == 0 -> Qeq_bool a 0 = false.
Proof.
  intros H. destruct (Qeq_bool a 0) eqn:E; [| reflexivity].
  apply Qeq_bool_iff in E. now destruct H.
Qed.

Lemma Qeq_bool_true (a : Q) : a == 0 -> Qeq_bool a 0 = true.
Proof. intros H. now apply Qeq_bool_iff. Qed.

Lemma row_isna_column (r : FeatureRow) (label : string) :
  In (label, NaN) (numeric_columns r) -> row_isna r = true.
Proof.
  intros H. unfold row_isna. apply orb_true_iff. right.
  apply existsb_exists. exists (label, NaN). now split.
Qed.

Lemma read_csv_columns (file : list CsvRow) :
  map (@Open _) (read_csv file) = map (fun c => of_cell (csv_Open c)) file
  /\ map (@High _) (read_csv file) = map (fun c => of_cell (csv_High c)) file
  /\ map (@Low _) (read_csv file) = map (fun c => of_cell (csv_Low c)) file.
Proof. unfold read_csv. rewrite !map_map. now repeat split. Qed.

(** X20.  Cell 12, column by column, from the cells of the file.  The
    first row has no PriceChange and no PriceChangePercent.  On a later
    row whose own and previous Close are present, PriceChange is their
    difference and PriceChangePercent is that difference over the
    previous Close, times 100; a previous Close of 0 makes it infinite
    or NaN.  A missing previous Close leaves PriceChange undefined, so
    the row is dropped.  DailyRange is High - Low and DailyRangePercent
    is that over Open, times 100; with Open = 0 it is infinite, or NaN
    (and the row dropped) when High = Low. *)
Theorem price_change_and_range_columns
        (file : list CsvRow) (df : list CleanRow) :
  clean (read_csv file) = Ok df ->
  (forall r,
      nth_error (engineer df) 0 = Some r ->
      PriceChange (tech r) = NaN /\ PriceChangePercent (tech r) = NaN)
  /\ (forall t c_prev c r a b,
        nth_error file t = Some c_prev -> nth_error file (S t) = Some c ->
        nth_error (engineer df) (S t) = Some r ->
        csv_Close c_prev = Some a -> csv_Close c = Some b ->
        PriceChange (tech r) = Fin (b + - a)
        /\ (~ a == 0 ->
            exists q,
              PriceChangePercent (tech r) = Fin q
              /\ q == (b - a) / a * 100)
        /\ (a == 0 -> ~ is_finite (PriceChangePercent (tech r))))
  /\ (forall t c_prev r,
        nth_error file t = Some c_prev -> csv_Close c_prev = None ->
        nth_error (engineer df) (S t) = Some r ->
        PriceChange (tech r) = NaN /\ row_isna r = true)
  /\ (forall t c r h l o,
        nth_error file t = Some c -> nth_error (engineer df) t = Some r ->
        csv_High c = Some h -> csv_Low c = Some l -> csv_Open c = Some o ->
        DailyRange (tech r) = Fin (h + - l)
        /\ (~ o == 0 ->
            exists q,
              DailyRangePercent (tech r) = Fin q
              /\ q == (h - l) / o * 100)
        /\ (o == 0 -> ~ h == l ->
            exists s, DailyRangePercent (tech r) = Inf s)
        /\ (o == 0 -> h == l ->
            DailyRangePercent (tech r) = NaN /\ row_isna r = true)).
Proof.
  intros Hc.
  pose proof (clean_Close _ _ Hc) as EC. rewrite Close_read_csv in EC.
  destruct (read_csv_columns file) as [EO [EH EL]].
  pose proof (clean_Open _ _ Hc) as EO'. rewrite EO in EO'.
  pose proof (clean_High _ _ Hc) as EH'. rewrite EH in EH'.
  pose proof (clean_Low _ _ Hc) as EL'. rewrite EL in EL'.
  assert (Hlen : forall t r, nth_error (engineer df) t = Some r ->
                             (t < length file)%nat).
  { intros t r Hr.
    rewrite <- (length_read_csv file), <- (length_clean _ _ Hc),
      <- (length_engineer df).
    apply nth_error_Some. congruence. }
  split; [| split; [| split]].
  - intros r Hr.
    destruct (engineer_row df 0 r Hr) as [_ [-> [-> _]]].
    rewrite at_row_times100. unfold diff, pct_change.
    rewrite !at_row_first_shifted; [now split | |].
    + intros v. now destruct v.
    + intros v. apply fadd_nan_r.
  - intros t c_prev c r a b Hp Hcur Hr Ha Hb.
    destruct (engineer_row df (S t) r Hr) as [_ [-> [-> _]]].
    pose proof (Hlen _ _ Hr) as L.
    assert (A0 : at_row (col (@Close _) df) t = Fin a)
      by (rewrite EC, (at_row_file_column _ file t c_prev Hp), Ha;
          reflexivity).
    assert (A1 : at_row (col (@Close _) df) (S t) = Fin b)
      by (rewrite EC, (at_row_file_column _ file (S t) c Hcur), Hb;
          reflexivity).
    assert (L' : (S t < length (col (@Close _) df))%nat)
      by (rewrite EC, length_map; exact L).
    rewrite (at_row_diff _ t L'), at_row_times100.
    rewrite (at_row_pct_change_defined _ t L')
      by (rewrite ?A0, ?A1; reflexivity).
    rewrite A0, A1. cbn [fsub fneg fadd fdiv].
    split; [reflexivity |]. split.
    + intros Hne. rewrite (Qeq_bool_false a Hne). cbn [fadd fmul].
      eexists. split; [reflexivity |]. field. exact Hne.
    + intros Hz. rewrite (Qeq_bool_true a Hz).
      destruct (Qeq_bool b 0); cbn; intros F; exact F.
  - intros t c_prev r Hp Ha Hr.
    destruct (engineer_row df (S t) r Hr) as [_ [E _]].
    pose proof (Hlen _ _ Hr) as L.
    assert (L' : (S t < length (col (@Close _) df))%nat)
      by (rewrite EC, length_map; exact L).
    assert (N : PriceChange (tech r) = NaN).
    { rewrite E, (at_row_diff _ t L').
      rewrite EC, (at_row_file_column _ file t c_prev Hp), Ha.
      apply fadd_nan_r. }
    split; [exact N |].
    apply (row_isna_column r "PriceChange"). rewrite <- N.
    unfold numeric_columns. cbn. auto 30.
  - intros t c r h l o Hcur Hr Hh Hl Ho.
    destruct (engineer_row df t r Hr) as [_ [_ [_ [E1 [E2 _]]]]].
    pose proof (Hlen _ _ Hr) as L.
    assert (R : at_row (map2 fsub (col (@High _) df) (col (@Low _) df)) t
                = Fin (h + - l)).
    { rewrite at_row_map2 by (rewrite ?EH', ?EL', length_map; exact L).
      rewrite EH', EL', !(at_row_file_column _ file t c Hcur), Hh, Hl.
      reflexivity. }
    assert (P : DailyRangePercent (tech r)
                = fmul (fdiv (Fin (h + - l)) (Fin o)) (Fin 100)).
    { rewrite E2, at_row_times100.
      rewrite at_row_map2
        by (rewrite ?length_map2, ?EH', ?EL', ?EO', !length_map;
            try apply Nat.min_glb_lt; exact L).
      rewrite R, EO', (at_row_file_column _ file t c Hcur), Ho.
      reflexivity. }
    split; [now rewrite E1 |].
    split; [| split].
    + intros Hne. rewrite P. cbn [fdiv].
      rewrite (Qeq_bool_false o Hne). cbn [fmul].
      eexists. split; [reflexivity |]. field. exact Hne.
    + intros Hz Hne. rewrite P. cbn [fdiv].
      rewrite (Qeq_bool_true o Hz).
      rewrite (Qeq_bool_false (h + - l)) by (intros E; apply Hne; lra).
      cbn. now eexists.
    + intros Hz He.
      assert (N : DailyRangePercent (tech r) = NaN).
      { rewrite P. cbn [fdiv]. rewrite (Qeq_bool_true o Hz).
        rewrite (Qeq_bool_true (h + - l)) by lra. reflexivity. }
      split; [exact N |].
      apply (row_isna_column r "DailyRangePercent"). rewrite <- N.
      unfold numeric_columns. cbn. auto 30.
Qed.

Lemma price_change_witness :
  clean (read_csv demo_file) = Ok demo_clean
  /\ PriceChange (tech demo_last) = Fin (131 + - 130).
Proof.
  assert (H : clean (read_csv demo_file) = Ok demo_clean)
    by (vm_compute; reflexivity).
  split; [exact H |].
  destruct (price_change_and_range_columns demo_file demo_clean H)
    as [_ [K _]].
  refine (proj1 (K 30%nat (demo_row 30) (demo_row 31) demo_last 130 131
                   eq_refl eq_refl eq_refl _ _)); reflexivity.
Defined.

(** ** Cell 13: a moving average lies within its window *)

Lemma fold_fadd_bounds (xs : list fval) (lo hi a : Q) :
  Forall (fun v => exists q, v = Fin q /\ lo <= q <= hi) xs ->
  exists s,
    fold_left fadd xs (Fin a) = Fin s
    /\ a + inject_Z (Z.of_nat (length xs)) * lo <= s
    /\ s <= a + inject_Z (Z.of_nat (length xs)) * hi.
Proof.
  intros H. revert a. induction H as [| v xs Hv _ IH]; intros a.
  - exists a. change (inject_Z (Z.of_nat (length (@nil fval)))) with 0.
    split; [reflexivity | lra].
  - destruct Hv as [q [-> Hq]]. cbn [fold_left fadd length].
    destruct (IH (a + q)) as [s [E [L U]]].
    exists s. split; [exact E |].
    rewrite inject_nat_succ. lra.
Qed.

Lemma window_mean_bounds (w : nat) (obs : list fval) (lo hi : Q) :
  (0 < w)%nat -> length obs = w ->
  Forall (fun v => exists q, v = Fin q /\ lo <= q <= hi) obs ->
  exists m, window_mean w obs = Fin m /\ lo <= m <= hi.
Proof.
  intros Hw Hlen H.
  rewrite (window_mean_full w obs Hlen). unfold fsum.
  destruct (fold_fadd_bounds obs lo hi 0 H) as [s [E [L U]]].
  rewrite E, Hlen in *. cbn [fdiv of_nat].
  pose proof (inject_nat_pos w Hw) as P.
  rewrite (Qeq_bool_pos _ P).
  exists (s / inject_Z (Z.of_nat w)). split; [reflexivity |].
  split; [apply Qle_shift_div_l | apply Qle_shift_div_r]; lra.
Qed.

Lemma rolling_mean_bounds (w : nat) (xs : list fval) (t : nat) (lo hi : Q) :
  (0 < w)%nat -> (w <= S t)%nat -> (t < length xs)%nat ->
  (forall k, (S t - w <= k <= t)%nat ->
             exists q, nth k xs NaN = Fin q /\ lo <= q <= hi) ->
  exists m, at_row (rolling_mean w xs) t = Fin m /\ lo <= m <= hi.
Proof.
  intros Hw Hfull Ht H.
  rewrite (at_row_rolling_mean w xs t Ht).
  apply window_mean_bounds; [exact Hw | |].
  - rewrite (length_window w xs t Ht). lia.
  - unfold window.
    replace (S t) with (S t - w + w)%nat at 2 by lia.
    rewrite (slice_by_index NaN xs (S t - w) w) by lia.
    apply Forall_forall. intros v Hv. apply in_map_iff in Hv.
    destruct Hv as [k [<- Hk]]. apply in_seq in Hk. apply H. lia.
Qed.

(** X21.  A moving average of cell 13 never leaves the range of the
    prices it averages: when the Close prices of the 7 (or 30) rows up
    to row [t] lie between [lo] and [hi], so does MA7 (or MA30) of row
    [t]; DistFromMA7 is the Close of the row minus its MA7 and is at
    most [hi - lo] in size. *)
Theorem moving_average_stays_within_its_window
        (file : list CsvRow) (df : list CleanRow) (t : nat) (r : FeatureRow)
        (lo hi : Q) :
  clean (read_csv file) = Ok df ->
  nth_error (engineer df) t = Some r ->
  let in_range k :=
    exists c q, nth_error file k = Some c /\ csv_Close c = Some q
                /\ lo <= q <= hi in
  ((6 <= t)%nat -> (forall k, (t - 6 <= k <= t)%nat -> in_range k) ->
   exists m d x,
     MA7 (tech r) = Fin m /\ lo <= m <= hi
     /\ Close (price (base r)) = Fin x
     /\ DistFromMA7 (tech r) = Fin d /\ d == x - m
     /\ Qabs d <= hi - lo)
  /\ ((29 <= t)%nat -> (forall k, (t - 29 <= k <= t)%nat -> in_range k) ->
      exists m, MA30 (tech r) = Fin m /\ lo <= m <= hi).
Proof.
  intros Hc Hr in_range.
  destruct (engineer_row df t r Hr)
    as [Hb [_ [_ [_ [_ [E7 [E30 [Ed _]]]]]]]].
  pose proof (clean_Close _ _ Hc) as EC. rewrite Close_read_csv in EC.
  assert (Ht : (t < length (col (@Close _) df))%nat).
  { rewrite length_col, <- (length_engineer df).
    apply nth_error_Some. congruence. }
  assert (Hcell : forall k, in_range k ->
                    exists q, nth k (col (@Close _) df) NaN = Fin q
                              /\ lo <= q <= hi).
  { intros k [c [q [Hk [Hq Hb']]]]. exists q. split; [| exact Hb'].
    rewrite EC. apply nth_error_nth.
    rewrite nth_error_map, Hk. cbn [option_map]. now rewrite Hq. }
  split.
  - intros H6 Hwin.
    destruct (rolling_mean_bounds 7 (col (@Close _) df) t lo hi)
      as [m [Em Hm]]; [lia | lia | exact Ht | |].
    { intros k Hk. apply Hcell, Hwin. lia. }
    destruct (Hcell t (Hwin t ltac:(lia))) as [x [Ex Hx]].
    exists m, (x + - m), x.
    split; [now rewrite E7 |]. split; [exact Hm |].
    split.
    { unfold col in Ex.
      rewrite (nth_error_nth _ _ _ (map_nth_error _ _ _ Hb)) in Ex.
      exact Ex. }
    split.
    { rewrite Ed, at_row_map2
        by (rewrite ?length_rolling_mean; exact Ht).
      unfold at_row at 1. rewrite Ex. fold (at_row (rolling_mean 7
        (col (@Close _) df)) t). now rewrite Em. }
    split; [unfold Qminus; reflexivity |].
    apply Qabs_case; intros _; lra.
  - intros H29 Hwin.
    destruct (rolling_mean_bounds 30 (col (@Close _) df) t lo hi)
      as [m [Em Hm]]; [lia | lia | exact Ht | |].
    { intros k Hk. apply Hcell, Hwin. lia. }
    exists m. split; [now rewrite E30 | exact Hm].
Qed.

Lemma moving_average_witness :
  clean (read_csv demo_file) = Ok demo_clean
  /\ nth_error (engineer demo_clean) 31 = Some demo_last
  /\ exists m, MA30 (tech demo_last) = Fin m /\ 100 <= m <= 131.
Proof.
  assert (H : clean (read_csv demo_file) = Ok demo_clean)
    by (vm_compute; reflexivity).
  assert (Hr : nth_error (engineer demo_clean) 31 = Some demo_last)
    by (vm_compute; reflexivity).
  split; [exact H |]. split; [exact Hr |].
  destruct (moving_average_stays_within_its_window
              demo_file demo_clean 31 demo_last 100 131 H Hr) as [_ K].
  apply K; [lia |].
  intros k Hk. exists (demo_row k), (inject_Z (Z.of_nat (100 + k))).
  split; [| split; [reflexivity |]].
  - unfold demo_file. rewrite nth_error_map, nth_error_seq.
    destruct (Nat.ltb_spec k 32) as [_ | C]; [reflexivity | lia].
  - change 100 with (inject_Z 100). change 131 with (inject_Z 131).
    rewrite <- !Zle_Qle. lia.
Defined.

(** ** Cells 9, 12 and 13 never look ahead *)

Lemma at_row_app (xs ys : list fval) (t : nat) :
  (t < length xs)%nat -> at_row (xs ++ ys) t = at_row xs t.
Proof. intros H. unfold at_row. now apply app_nth1. Qed.

Lemma at_row_shift1_any (xs : list fval) (t : nat) :
  (t < length xs)%nat ->
  at_row (shift1 xs) t
  = match t with 0%nat => NaN | S i => at_row xs i end.
Proof.
  intros H. destruct t as [| i].
  - destruct xs; [cbn in H; lia | reflexivity].
  - now apply at_row_shift1.
Qed.

Lemma at_row_shift1_app (xs ys : list fval) (t : nat) :
  (t < length xs)%nat ->
  at_row (shift1 (xs ++ ys)) t = at_row (shift1 xs) t.
Proof.
  intros H.
  rewrite !at_row_shift1_any by (rewrite ?length_app; lia).
  destruct t as [| i]; [reflexivity | apply at_row_app; lia].
Qed.

Lemma at_row_ffill_app (last : fval) (xs ys : list fval) (t : nat) :
  (t < length xs)%nat ->
  at_row (ffill_from last (xs ++ ys)) t = at_row (ffill_from last xs) t.
Proof.
  unfold at_row. revert last t.
  induction xs as [| x tl IH]; intros last t H; [cbn in H; lia |].
  destruct t as [| t]; cbn [app ffill_from nth]; [reflexivity |].
  apply IH. cbn [length] in H. lia.
Qed.

Lemma window_app (w : nat) (xs ys : list fval) (t : nat) :
  (t < length xs)%nat -> window w (xs ++ ys) t = window w xs t.
Proof.
  intros H. unfold window. rewrite firstn_app.
  replace (S t - length xs)%nat with 0%nat by lia.
  cbn [firstn]. now rewrite app_nil_r.
Qed.

Lemma at_row_diff_app (xs ys : list fval) (t : nat) :
  (t < length xs)%nat -> at_row (diff (xs ++ ys)) t = at_row (diff xs) t.
Proof.
  intros H. unfold diff.
  rewrite !at_row_map2 by (rewrite ?length_shift1, ?length_app; lia).
  now rewrite at_row_app, at_row_shift1_app.
Qed.

Lemma at_row_pct_change_app (xs ys : list fval) (t : nat) :
  (t < length xs)%nat ->
  at_row (pct_change (xs ++ ys)) t = at_row (pct_change xs) t.
Proof.
  intros H. unfold pct_change, ffill.
  rewrite !at_row_map2
    by (rewrite ?length_shift1, !length_ffill_from, ?length_app; lia).
  rewrite at_row_ffill_app by exact H.
  rewrite !at_row_shift1_any
    by (rewrite length_ffill_from, ?length_app; lia).
  destruct t as [| i]; [reflexivity |].
  rewrite at_row_ffill_app by lia. reflexivity.
Qed.

Lemma at_row_rolling_mean_app (w : nat) (xs ys : list fval) (t : nat) :
  (t < length xs)%nat ->
  at_row (rolling_mean w (xs ++ ys)) t = at_row (rolling_mean w xs) t.
Proof.
  intros H.
  rewrite !at_row_rolling_mean by (rewrite ?length_app; lia).
  now rewrite window_app.
Qed.

Lemma at_row_map2_app (f : fval -> fval -> fval) (xs ys xs' ys' : list fval)
      (t : nat) :
  (t < length xs)%nat -> (t < length ys)%nat ->
  at_row (map2 f (xs ++ xs') (ys ++ ys')) t = at_row (map2 f xs ys) t.
Proof.
  intros Hx Hy.
  rewrite !at_row_map2 by (rewrite ?length_app; lia).
  now rewrite !at_row_app.
Qed.

(** X23.  The technical columns of a row use that row and earlier rows
    only: appending further rows to the file leaves Open, High, Low,
    Close, Year, Month, Day, DayOfWeek and all eight columns of cells 12
    and 13 of every earlier row as they were.  (Volume and
    DaysSinceStart are not in this list: the imputation mean and the
    earliest date are taken over the whole table.) *)
Theorem technical_columns_do_not_look_ahead
        (file more : list CsvRow) (df df' : list CleanRow) (t : nat)
        (r r' : FeatureRow) :
  clean (read_csv file) = Ok df ->
  clean (read_csv (file ++ more)) = Ok df' ->
  nth_error (engineer df) t = Some r ->
  nth_error (engineer df') t = Some r' ->
  tech r' = tech r
  /\ Open (price (base r')) = Open (price (base r))
  /\ High (price (base r')) = High (price (base r))
  /\ Low (price (base r')) = Low (price (base r))
  /\ Close (price (base r')) = Close (price (base r))
  /\ Year (cal (base r')) = Year (cal (base r))
  /\ Month (cal (base r')) = Month (cal (base r))
  /\ Day (cal (base r')) = Day (cal (base r))
  /\ DayOfWeek (cal (base r')) = DayOfWeek (cal (base r)).
Proof.
  intros Hc Hc' Hr Hr'.
  assert (Ht : (t < length file)%nat).
  { rewrite <- (length_read_csv file), <- (length_clean _ _ Hc),
      <- (length_engineer df).
    apply nth_error_Some. congruence. }
  destruct (engineer_row df t r Hr)
    as [Hb [E1 [E2 [E3 [E4 [E5 [E6 [E7 E8]]]]]]]].
  destruct (engineer_row df' t r' Hr')
    as [Hb' [E1' [E2' [E3' [E4' [E5' [E6' [E7' E8']]]]]]]].
  pose proof (clean_Close _ _ Hc) as C. rewrite Close_read_csv in C.
  pose proof (clean_Close _ _ Hc') as C'.
  rewrite Close_read_csv, map_app in C'.
  destruct (read_csv_columns file) as [O [Hh L]].
  destruct (read_csv_columns (file ++ more)) as [O' [Hh' L']].
  pose proof (clean_Open _ _ Hc) as CO. rewrite O in CO.
  pose proof (clean_Open _ _ Hc') as CO'. rewrite O', map_app in CO'.
  pose proof (clean_High _ _ Hc) as CH. rewrite Hh in CH.
  pose proof (clean_High _ _ Hc') as CH'. rewrite Hh', map_app in CH'.
  pose proof (clean_Low _ _ Hc) as CL. rewrite L in CL.
  pose proof (clean_Low _ _ Hc') as CL'. rewrite L', map_app in CL'.
  rewrite C in *. rewrite C' in *. rewrite CO in *. rewrite CO' in *.
  rewrite CH in *. rewrite CH' in *. rewrite CL in *. rewrite CL' in *.
  assert (Tech : tech r' = tech r).
  { destruct (tech r) as [a1 a2 a3 a4 a5 a6 a7 a8].
    destruct (tech r') as [b1 b2 b3 b4 b5 b6 b7 b8].
    cbn in *. subst.
    f_equal.
    - apply at_row_diff_app. now rewrite length_map.
    - rewrite !at_row_times100. f_equal.
      apply at_row_pct_change_app. now rewrite length_map.
    - apply at_row_map2_app; now rewrite length_map.
    - rewrite !at_row_times100. f_equal.
      rewrite !at_row_map2
        by (rewrite ?length_map2, ?length_app, ?length_map; lia).
      rewrite !at_row_app by now rewrite length_map.
      reflexivity.
    - apply at_row_rolling_mean_app. now rewrite length_map.
    - apply at_row_rolling_mean_app. now rewrite length_map.
    - rewrite !at_row_map2
        by (rewrite ?length_rolling_mean, ?length_app, ?length_map; lia).
      rewrite at_row_app by now rewrite length_map.
      rewrite at_row_rolling_mean_app by now rewrite length_map.
      reflexivity.
    - rewrite !at_row_times100. f_equal.
      rewrite !at_row_map2
        by (rewrite ?length_map2, ?length_rolling_mean, ?length_app,
              ?length_map; lia).
      rewrite at_row_app by now rewrite length_map.
      rewrite at_row_rolling_mean_app by now rewrite length_map.
      reflexivity. }
  split; [exact Tech |].
  destruct (cleaned_row_of_file file df t (base r) Hc Hb)
    as [c [raw [start [d [Hfile [Hraw Eb]]]]]].
  destruct (cleaned_row_of_file (file ++ more) df' t (base r') Hc' Hb')
    as [c' [raw' [start' [d' [Hfile' [Hraw' Eb']]]]]].
  rewrite nth_error_app1 in Hfile' by exact Ht.
  rewrite Hfile in Hfile'. injection Hfile' as <-.
  rewrite (nth_error_read_csv _ _ _ Hfile) in Hraw.
  rewrite (nth_error_read_csv (file ++ more) t c) in Hraw'
    by (rewrite nth_error_app1 by exact Ht; exact Hfile).
  injection Hraw as <-. injection Hraw' as <-.
  assert (Ed : d' = d).
  { destruct (clean_row _ df t _ Hc (nth_error_read_csv _ _ _ Hfile))
      as [ts [d0 [_ [_ [P0 N0]]]]].
    rewrite Hb in N0. injection N0 as N0. rewrite Eb in N0.
    assert (Hfile2 : nth_error (file ++ more) t = Some c)
      by (rewrite nth_error_app1 by exact Ht; exact Hfile).
    destruct (clean_row _ df' t _ Hc' (nth_error_read_csv _ _ _ Hfile2))
      as [ts' [d1 [_ [_ [P1 N1]]]]].
    rewrite Hb' in N1. injection N1 as N1. rewrite Eb' in N1.
    apply (f_equal (fun b => Date (price b))) in N0, N1.
    unfold cleaned, with_calendar in N0, N1. cbn in N0, N1.
    rewrite P0 in P1. injection P1 as P1. congruence. }
  subst d'. rewrite Eb, Eb'.
  unfold cleaned, with_calendar, imputed. cbn [Volume].
  destruct (feqb (of_cell (csv_Volume c)) (Fin 0)); cbn;
    now repeat split.
Qed.

Lemma no_look_ahead_witness :
  clean (read_csv (firstn 31 demo_file)) = Ok shorter_clean
  /\ forall r r',
      nth_error (engineer shorter_clean) 30 = Some r ->
      nth_error (engineer demo_clean) 30 = Some r' ->
      tech r' = tech r.
Proof.
  assert (H : clean (read_csv (firstn 31 demo_file)) = Ok shorter_clean)
    by (vm_compute; reflexivity).
  assert (H' : clean (read_csv (firstn 31 demo_file ++ [demo_row 31]))
               = Ok demo_clean) by (vm_compute; reflexivity).
  split; [exact H |]. intros r r' Hr Hr'.
  exact (proj1 (technical_columns_do_not_look_ahead
                  (firstn 31 demo_file) [demo_row 31]
                  shorter_clean demo_clean 30 r r' H H' Hr Hr')).
Defined.

(** The imputed Volume is not in that list for a reason: the first day
    of the small table has no trade, and its imputed Volume changes when
    the 32nd day is appended. *)
Example imputed_volume_looks_ahead :
  exists r r',
    nth_error shorter_clean 0 = Some r
    /\ nth_error demo_clean 0 = Some r'
    /\ feqb (Volume (price r)) (Volume (price r')) = false.
Proof.
  eexists. eexists. split; [reflexivity |]. split; [reflexivity |].
  vm_compute. reflexivity.
Qed.

(* ================================================================== *)
(** * The scaler in binary64 *)
(* ================================================================== *)

(** ** Rounding to binary64 *)

Lemma pow2_pos (k : Z) : 0 < pow2 k.
Proof. apply Qpower_0_lt. reflexivity. Qed.

Lemma pow2_add (a b : Z) : pow2 (a + b) == pow2 a * pow2 b.
Proof. apply Qpower_plus. discriminate. Qed.

Lemma pow2_le (a b : Z) : (a <= b)%Z -> pow2 a <= pow2 b.
Proof. intros H. apply Qpower_le_compat_l; [exact H | discriminate]. Qed.

Lemma pow2_lt (a b : Z) : (a < b)%Z -> pow2 a < pow2 b.
Proof. intros H. apply Qpower_lt_compat_l; [exact H | reflexivity]. Qed.

Lemma pow2_lt_inv (a b : Z) : pow2 a < pow2 b -> (a < b)%Z.
Proof. intros H. apply (Qpower_lt_compat_l_inv 2); [exact H | reflexivity]. Qed.

Lemma pow2_succ (a : Z) : pow2 (a + 1) == 2 * pow2 a.
Proof.
  rewrite pow2_add. change (pow2 1) with 2. generalize (pow2 a).
  intros p. ring.
Qed.

Lemma pow2_pred (a : Z) : pow2 (a - 1) == pow2 a / 2.
Proof.
  unfold Z.sub. cbn [Z.opp]. rewrite pow2_add.
  change (pow2 (-1)) with (1 # 2). generalize (pow2 a). intros p. field.
Qed.

Lemma pow2_Z (k : Z) : (0 <= k)%Z -> pow2 k == inject_Z (2 ^ k).
Proof. intros H. unfold pow2. now rewrite Zpower_Qpower. Qed.

Lemma Qabs_make (n : Z) (d : positive) :
  Qabs (n # d) == inject_Z (Z.abs n) / inject_Z (Zpos d).
Proof.
  cbn [Qabs]. unfold Qeq, Qdiv, Qinv, Qmult, inject_Z. cbn. lia.
Qed.

(** [ilog2 q] is the binade of [q]. *)
Lemma ilog2_spec (q : Q) :
  ~ q == 0 -> pow2 (ilog2 q) <= Qabs q < pow2 (ilog2 q + 1).
Proof.
  intros Hq. unfold ilog2.
  set (n := Z.abs (Qnum q)). set (d := Zpos (Qden q)).
  assert (Pn : (0 < n)%Z).
  { unfold n. destruct q as [qn qd]. unfold Qeq in Hq. cbn in Hq |- *. lia. }
  assert (Pd : (0 < d)%Z) by (unfold d; lia).
  destruct (Z.log2_spec n Pn) as [Ln Un].
  destruct (Z.log2_spec d Pd) as [Ld Ud].
  pose proof (Z.log2_nonneg n) as Nn. pose proof (Z.log2_nonneg d) as Nd.
  assert (A : Qabs q == inject_Z n / inject_Z d).
  { destruct q as [qn qd]. apply Qabs_make. }
  assert (Dq : 0 < inject_Z d)
    by (change 0 with (inject_Z 0); rewrite <- Zlt_Qlt; exact Pd).
  set (k := (Z.log2 n - Z.log2 d)%Z).
  assert (Lo : pow2 (k - 1) <= Qabs q).
  { rewrite A. apply Qle_shift_div_l; [exact Dq |].
    apply Qle_trans with (pow2 (k - 1) * pow2 (Z.log2 d + 1)).
    - apply Qmult_le_l; [apply pow2_pos |].
      rewrite pow2_Z by lia. rewrite <- Zle_Qle.
      unfold Z.succ in Ud. lia.
    - rewrite <- pow2_add. replace (k - 1 + (Z.log2 d + 1))%Z
        with (Z.log2 n) by (unfold k; lia).
      rewrite pow2_Z by lia. now rewrite <- Zle_Qle. }
  assert (Hi : Qabs q < pow2 (k + 1)).
  { rewrite A. apply Qlt_shift_div_r; [exact Dq |].
    apply Qlt_le_trans with (pow2 (Z.log2 n + 1)).
    - rewrite pow2_Z by lia. rewrite <- Zlt_Qlt. exact Un.
    - replace (Z.log2 n + 1)%Z with (k + 1 + Z.log2 d)%Z by (unfold k; lia).
      rewrite pow2_add. apply Qmult_le_l; [apply pow2_pos |].
      rewrite pow2_Z by lia. now rewrite <- Zle_Qle. }
  destruct (Qle_bool (pow2 k) (Qabs q)) eqn:E.
  - apply Qle_bool_iff in E. split; [exact E | exact Hi].
  - split; [exact Lo |].
    replace (k - 1 + 1)%Z with k by lia.
    apply Qnot_le_lt. intros C. apply Qle_bool_iff in C. congruence.
Qed.

Lemma ilog2_unique (q : Q) (k : Z) :
  pow2 k <= Qabs q < pow2 (k + 1) -> ilog2 q = k.
Proof.
  intros [Lo Hi].
  assert (Hq : ~ q == 0).
  { intros C. rewrite C in Lo. pose proof (pow2_pos k) as P.
    change (Qabs 0) with 0 in Lo. lra. }
  destruct (ilog2_spec q Hq) as [Lo' Hi'].
  assert (A : (k < ilog2 q + 1)%Z).
  { apply pow2_lt_inv. eapply Qle_lt_trans; eassumption. }
  assert (B : (ilog2 q < k + 1)%Z).
  { apply pow2_lt_inv. eapply Qle_lt_trans; eassumption. }
  lia.
Qed.

Lemma ilog2_comp (q q' : Q) : ~ q == 0 -> q == q' -> ilog2 q = ilog2 q'.
Proof.
  intros NZ E. apply ilog2_unique. rewrite E.
  apply ilog2_spec. now rewrite <- E.
Qed.

(** *** The nearest integer *)

Lemma rne_cases (x : Q) :
  let f := Qfloor x in
  (rne x = f /\ x - inject_Z f <= 1 # 2)
  \/ (rne x = (f + 1)%Z /\ 1 # 2 <= x - inject_Z f).
Proof.
  intros f. unfold rne. fold f.
  destruct (Qcompare_spec (x - inject_Z f) (1 # 2)) as [E | L | G].
  - destruct (Z.even f); [left | right]; split; try reflexivity; lra.
  - left. split; [reflexivity | lra].
  - right. split; [reflexivity | lra].
Qed.

Lemma rne_err (x : Q) : Qabs (inject_Z (rne x) - x) <= 1 # 2.
Proof.
  pose proof (Qfloor_le x) as L. pose proof (Qlt_floor x) as U.
  rewrite inject_Z_plus in U. change (inject_Z 1) with 1 in U.
  apply Qabs_Qle_condition.
  destruct (rne_cases x) as [[-> H] | [-> H]].
  - split; lra.
  - rewrite inject_Z_plus. change (inject_Z 1) with 1. split; lra.
Qed.

Lemma rne_comp (x y : Q) : x == y -> rne x = rne y.
Proof.
  intros E. unfold rne. rewrite (Qfloor_comp x y E).
  assert (C : (x - inject_Z (Qfloor y) ?= 1 # 2)
              = (y - inject_Z (Qfloor y) ?= 1 # 2)).
  { apply Qcompare_comp; [now rewrite E | reflexivity]. }
  now rewrite C.
Qed.

Lemma rne_Z (n : Z) : rne (inject_Z n) = n.
Proof.
  unfold rne. rewrite Qfloor_Z.
  assert (C : (inject_Z n - inject_Z n ?= 1 # 2) = Lt).
  { apply (proj1 (Qlt_alt _ _)). generalize (inject_Z n). intros z. lra. }
  now rewrite C.
Qed.

(** *** The rounded value *)

Lemma round_zero (q : Q) : q == 0 -> round q = 0.
Proof.
  intros H. unfold round. apply Qeq_bool_iff in H. now rewrite H.
Qed.

Lemma round_nonzero (q : Q) :
  ~ q == 0 ->
  round q == inject_Z (rne (q / pow2 (ulp_exponent q))) * pow2 (ulp_exponent q).
Proof.
  intros H. unfold round.
  destruct (Qeq_bool q 0) eqn:E; [apply Qeq_bool_iff in E; contradiction |].
  apply Qred_correct.
Qed.

Lemma round_comp (q q' : Q) : q == q' -> round q = round q'.
Proof.
  intros E. unfold round.
  destruct (Qeq_bool q 0) eqn:Z.
  - apply Qeq_bool_iff in Z. rewrite E in Z. apply Qeq_bool_iff in Z.
    now rewrite Z.
  - assert (NZ : ~ q == 0) by (intros C; apply Qeq_bool_iff in C; congruence).
    assert (Z' : Qeq_bool q' 0 = false).
    { destruct (Qeq_bool q' 0) eqn:C; [| reflexivity].
      apply Qeq_bool_iff in C. rewrite <- E in C. contradiction. }
    rewrite Z'. unfold ulp_exponent. rewrite (ilog2_comp q q' NZ E).
    apply Qred_complete.
    rewrite (rne_comp (q / pow2 (Z.max (ilog2 q' - 52) (-1074)))
                      (q' / pow2 (Z.max (ilog2 q' - 52) (-1074)))).
    + reflexivity.
    + now rewrite E.
Qed.

Lemma round_near (q : Q) :
  Qabs (round q - q) <= pow2 (ulp_exponent q - 1).
Proof.
  destruct (Qeq_dec q 0) as [Z | NZ].
  - rewrite (round_zero q Z).
    assert (E : Qabs (0 - q) == 0) by (rewrite Z; reflexivity).
    rewrite E. apply Qlt_le_weak, pow2_pos.
  - rewrite (round_nonzero q NZ).
    set (e := ulp_exponent q). pose proof (pow2_pos e) as P.
    pose proof (rne_err (q / pow2 e)) as R.
    set (k := inject_Z (rne (q / pow2 e))) in *.
    assert (E : k * pow2 e - q == (k - q / pow2 e) * pow2 e)
      by (field; lra).
    rewrite E, Qabs_Qmult, (Qabs_pos (pow2 e)) by lra.
    rewrite pow2_pred.
    apply Qle_trans with ((1 # 2) * pow2 e).
    + apply Qmult_le_r; [exact P | exact R].
    + apply Qle_lteq. right. field.
Qed.

(** The standard model of a rounded operation: a relative error of at
    most [2^-53], or an absolute one of at most [2^-1075] where the
    result is subnormal. *)
Lemma round_err (q : Q) :
  Qabs (round q - q) <= u53 * Qabs q + eta64.
Proof.
  unfold u53, eta64.
  pose proof (Qabs_nonneg q) as A. pose proof (pow2_pos (-1075)) as P.
  assert (U : 0 <= (1 # 9007199254740992) * Qabs q)
    by (apply Qmult_le_0_compat; [discriminate | exact A]).
  destruct (Qeq_dec q 0) as [Z | NZ].
  - rewrite (round_zero q Z).
    assert (E : Qabs (0 - q) == 0) by (rewrite Z; reflexivity).
    rewrite E. lra.
  - eapply Qle_trans; [apply round_near |].
    unfold ulp_exponent.
    destruct (Z.max_spec (ilog2 q - 52) (-1074)) as [[_ ->] | [_ ->]].
    + change (-1074 - 1)%Z with (-1075)%Z. lra.
    + destruct (ilog2_spec q NZ) as [Lo _].
      replace (ilog2 q - 52 - 1)%Z with (ilog2 q + -53)%Z by lia.
      rewrite pow2_add. change (pow2 (-53)) with (1 # 9007199254740992).
      assert (pow2 (ilog2 q) * (1 # 9007199254740992)
              <= (1 # 9007199254740992) * Qabs q).
      { rewrite Qmult_comm. apply Qmult_le_l; [reflexivity | exact Lo]. }
      lra.
Qed.

Lemma Qabs_le_add (p q e : Q) :
  Qabs (p - q) <= e -> Qabs p <= Qabs q + e.
Proof.
  intros H. assert (E : p == q + (p - q)) by ring.
  rewrite E at 1. eapply Qle_trans; [apply Qabs_triangle |]. lra.
Qed.

(** A result well inside the exponent range does not overflow. *)
Lemma to_float_Fin (q : Q) :
  Qabs q <= pow2 1000 -> to_float q = Fin (round q).
Proof.
  intros H. unfold to_float.
  destruct (Qle_bool (pow2 1024) (Qabs (round q))) eqn:E; [| reflexivity].
  exfalso. apply Qle_bool_iff in E.
  pose proof (Qabs_le_add _ _ _ (round_err q)) as B.
  assert (C1 : 4 * pow2 1000 <= pow2 1024)
    by (apply Qle_bool_iff; vm_compute; reflexivity).
  assert (C2 : eta64 <= pow2 1000) by (apply pow2_le; lia).
  pose proof (pow2_pos 1000) as P.
  assert (U : u53 * Qabs q <= Qabs q).
  { rewrite <- (Qmult_1_l (Qabs q)) at 2.
    apply Qmult_le_compat_r; [discriminate | apply Qabs_nonneg]. }
  lra.
Qed.

(** ** The round trip of one value through rounded scaling *)

Lemma pow2_consts :
  eta64 <= 1 /\ 8 * pow2 450 <= pow2 1000
  /\ pow2 400 * pow2 50 == pow2 450
  /\ 1 <= pow2 400
  /\ 32 * (eta64 * pow2 403) <= pow2 (-600)
  /\ 2 * eta64 <= pow2 (-600)
  /\ pow2 403 * pow2 (-403) == 1
  /\ 1 <= pow2 450
  /\ pow2 400 <= pow2 450
  /\ pow2 (-600) <= 1.
Proof.
  repeat (split; [try (apply Qle_bool_iff; vm_compute; reflexivity);
                   try (apply Qeq_bool_iff; vm_compute; reflexivity) |]).
  apply Qle_bool_iff. vm_compute. reflexivity.
Qed.

Lemma round_trip_scalar (s mn x m : Q) :
  pow2 (-403) <= s <= pow2 50 ->
  Qabs x <= pow2 400 -> Qabs m <= pow2 400 ->
  Qabs mn <= 2 * (Qabs m * s) + 3 * eta64 ->
  add64 (mul64 (Fin x) (Fin s)) (Fin mn) = Fin (scaled64 s mn x)
  /\ div64 (sub64 (Fin (scaled64 s mn x)) (Fin mn)) (Fin s)
     = Fin (unscaled64 s mn (scaled64 s mn x))
  /\ Qabs (unscaled64 s mn (scaled64 s mn x) - x)
     <= (1 # 2 ^ 49) * (Qabs x + Qabs m) + pow2 (-600).
Proof.
  intros [Ls Us] Bx Bm Bmn.
  destruct pow2_consts as [C1 [C2 [C3 [C4 [C5 [C6 [C7 [C8 [C9 C10]]]]]]]]].
  pose proof (pow2_pos (-403)) as Ps0.
  assert (Ps : 0 < s) by lra.
  assert (Pe : 0 < eta64) by apply pow2_pos.
  remember (Qabs x * s) as X eqn:HX. remember (Qabs m * s) as M eqn:HM.
  pose proof (Qabs_nonneg x) as Nx. pose proof (Qabs_nonneg m) as Nm.
  assert (NX : 0 <= X) by (rewrite HX; apply Qmult_le_0_compat; lra).
  assert (NM : 0 <= M) by (rewrite HM; apply Qmult_le_0_compat; lra).
  assert (BX : X <= pow2 450).
  { rewrite <- C3, HX. apply Qmult_le_compat_nonneg; split; lra. }
  assert (BM : M <= pow2 450).
  { rewrite <- C3, HM. apply Qmult_le_compat_nonneg; split; lra. }
  assert (Axs : Qabs (x * s) == X).
  { rewrite Qabs_Qmult, (Qabs_pos s), HX by lra. reflexivity. }
  unfold unscaled64, scaled64.
  (* a = fl (x * s) *)
  cbn [mul64 fmul rounded].
  rewrite (to_float_Fin (x * s)) by (rewrite Axs; lra).
  set (a := round (x * s)).
  pose proof (round_err (x * s)) as E1. fold a in E1. rewrite Axs in E1.
  pose proof (Qabs_le_add _ _ _ E1) as Ba. rewrite Axs in Ba.
  (* t = fl (a + mn) *)
  cbn [add64 fadd rounded].
  pose proof (Qabs_triangle a mn) as T1.
  rewrite (to_float_Fin (a + mn)) by (unfold u53 in *; lra).
  set (t := round (a + mn)).
  pose proof (round_err (a + mn)) as E3. fold t in E3.
  split; [reflexivity |].
  (* w = fl (t - mn) *)
  cbn [sub64 fsub fneg fadd rounded].
  assert (Etm : t + - mn == a + (t - (a + mn))) by ring.
  pose proof (Qabs_triangle a (t - (a + mn))) as T2.
  assert (Btm : Qabs (t + - mn) <= 3 * X + M + 3 * eta64).
  { rewrite Etm. unfold u53 in *. lra. }
  rewrite (to_float_Fin (t + - mn)) by lra.
  set (w := round (t + - mn)).
  pose proof (round_err (t + - mn)) as E4. fold w in E4.
  (* the distance of w from x * s *)
  assert (Ew : w - x * s
               == (w - (t + - mn)) + ((t - (a + mn)) + (a - x * s))) by ring.
  pose proof (Qabs_triangle (w - (t + - mn))
                            ((t - (a + mn)) + (a - x * s))) as T3.
  pose proof (Qabs_triangle (t - (a + mn)) (a - x * s)) as T4.
  assert (D : Qabs (w - x * s) <= 6 * u53 * (X + M) + 5 * eta64).
  { rewrite Ew. unfold u53 in *. lra. }
  (* y = fl (w / s) *)
  unfold div64, fdiv.
  assert (Zs : Qeq_bool s 0 = false).
  { destruct (Qeq_bool s 0) eqn:C; [| reflexivity].
    apply Qeq_bool_iff in C. lra. }
  rewrite Zs. cbn [rounded].
  set (r := / s).
  assert (Pr : 0 < r) by (apply Qinv_lt_0_compat; exact Ps).
  assert (Br : r <= pow2 403).
  { unfold r. apply Qle_shift_inv_r; [exact Ps |].
    rewrite <- C7. apply Qmult_le_l; [apply pow2_pos | exact Ls]. }
  assert (Xr : X * r == Qabs x) by (rewrite HX; unfold r; field; lra).
  assert (Mr : M * r == Qabs m) by (rewrite HM; unfold r; field; lra).
  assert (Ews : w / s - x == (w - x * s) * r) by (unfold r; field; lra).
  assert (Dr : Qabs (w / s - x)
               <= 6 * u53 * (Qabs x + Qabs m) + 5 * (eta64 * r)).
  { rewrite Ews, Qabs_Qmult, (Qabs_pos r) by lra.
    apply Qle_trans with ((6 * u53 * (X + M) + 5 * eta64) * r).
    - apply Qmult_le_compat_r; [exact D | lra].
    - rewrite <- Xr, <- Mr. apply Qle_lteq. right. ring. }
  assert (Ber : eta64 * r <= eta64 * pow2 403)
    by (apply Qmult_le_l; [exact Pe | exact Br]).
  pose proof (Qabs_le_add _ _ _ Dr) as Bws.
  rewrite (to_float_Fin (w / s)) by (unfold u53 in *; lra).
  set (y := round (w / s)).
  pose proof (round_err (w / s)) as E5. fold y in E5.
  split; [reflexivity |].
  assert (Ey : y - x == (y - w / s) + (w / s - x)) by ring.
  pose proof (Qabs_triangle (y - w / s) (w / s - x)) as T5.
  rewrite Ey. change (1 # 2 ^ 49) with (1 # 562949953421312).
  unfold u53 in *. lra.
Qed.

(** ** Rounding keeps the order *)

Lemma rne_mono (x y : Q) : x <= y -> (rne x <= rne y)%Z.
Proof.
  intros H. pose proof (Qfloor_resp_le x y H) as F.
  destruct (rne_cases x) as [[Ex Dx] | [Ex Dx]];
    destruct (rne_cases y) as [[Ey Dy] | [Ey Dy]]; rewrite ?Ex, ?Ey; try lia.
  destruct (Z.eq_dec (Qfloor x) (Qfloor y)) as [E | NE]; [| lia].
  exfalso. rewrite E in Dx.
  assert (x == y) by lra.
  pose proof (rne_comp x y H0) as C. lia.
Qed.

Lemma on_grid_mono (e : Z) (q q' : Q) :
  q <= q' -> on_grid e q <= on_grid e q'.
Proof.
  intros H. unfold on_grid. pose proof (pow2_pos e) as P.
  apply Qmult_le_compat_r; [| lra].
  rewrite <- Zle_Qle. apply rne_mono.
  apply Qmult_le_compat_r; [exact H |].
  apply Qlt_le_weak, Qinv_lt_0_compat, P.
Qed.

Lemma on_grid_point (e : Z) (k : Z) :
  on_grid e (inject_Z k * pow2 e) == inject_Z k * pow2 e.
Proof.
  unfold on_grid. pose proof (pow2_pos e) as P.
  rewrite (rne_comp (inject_Z k * pow2 e / pow2 e) (inject_Z k)).
  - now rewrite rne_Z.
  - field. lra.
Qed.

Lemma on_grid_fix (e : Z) (k : Z) (b : Q) :
  b == inject_Z k * pow2 e -> on_grid e b == b.
Proof.
  intros H. rewrite H at 2. rewrite <- (on_grid_point e k).
  unfold on_grid. rewrite (rne_comp (b / pow2 e)
                                    (inject_Z k * pow2 e / pow2 e)).
  - reflexivity.
  - now rewrite H.
Qed.

Lemma round_on_grid (q : Q) : round q == on_grid (ulp_exponent q) q.
Proof.
  destruct (Qeq_dec q 0) as [Z | NZ].
  - rewrite (round_zero q Z). unfold on_grid.
    rewrite (rne_comp (q / pow2 (ulp_exponent q)) (inject_Z 0)).
    + rewrite rne_Z. ring.
    + generalize (pow2 (ulp_exponent q)). intros p. rewrite Z.
      unfold Qdiv. ring.
  - exact (round_nonzero q NZ).
Qed.

(** A multiple of [2^e] is a multiple of every finer power of two. *)
Lemma coarser_grid (e e' : Z) (k : Z) :
  (e' <= e)%Z ->
  inject_Z k * pow2 e == inject_Z (k * 2 ^ (e - e')) * pow2 e'.
Proof.
  intros H. rewrite inject_Z_mult, <- pow2_Z by lia.
  replace e with ((e - e') + e')%Z at 1 by lia. rewrite pow2_add. ring.
Qed.

Lemma ilog2_mono (q q' : Q) :
  ~ q == 0 -> Qabs q <= Qabs q' -> (ilog2 q <= ilog2 q')%Z.
Proof.
  intros NZ H.
  assert (NZ' : ~ q' == 0).
  { intros C. assert (E : Qabs q' == 0) by (rewrite C; reflexivity).
    rewrite E in H. pose proof (Qabs_nonneg q) as N.
    assert (A : Qabs q == 0) by lra.
    apply NZ. destruct (Qabs_Qle_condition q 0) as [K _].
    destruct K as [K1 K2]; [lra |]. lra. }
  destruct (ilog2_spec q NZ) as [L _].
  destruct (ilog2_spec q' NZ') as [_ U].
  assert (pow2 (ilog2 q) < pow2 (ilog2 q' + 1)) by lra.
  apply pow2_lt_inv in H0. lia.
Qed.

Lemma round_nonneg (q : Q) : 0 <= q -> 0 <= round q.
Proof.
  intros H. rewrite round_on_grid.
  apply Qle_trans with (on_grid (ulp_exponent q) 0).
  - unfold on_grid.
    rewrite (rne_comp (0 / pow2 (ulp_exponent q)) (inject_Z 0))
      by (unfold Qdiv; ring).
    rewrite rne_Z. apply Qle_lteq. right. ring.
  - now apply on_grid_mono.
Qed.

Lemma round_nonpos (q : Q) : q <= 0 -> round q <= 0.
Proof.
  intros H. rewrite round_on_grid.
  apply Qle_trans with (on_grid (ulp_exponent q) 0).
  - now apply on_grid_mono.
  - unfold on_grid.
    rewrite (rne_comp (0 / pow2 (ulp_exponent q)) (inject_Z 0))
      by (unfold Qdiv; ring).
    rewrite rne_Z. apply Qle_lteq. right. ring.
Qed.

Lemma round_mono_pos (q q' : Q) : 0 < q -> q <= q' -> round q <= round q'.
Proof.
  intros P H.
  assert (NZ : ~ q == 0) by lra. assert (NZ' : ~ q' == 0) by lra.
  assert (A : Qabs q == q) by (apply Qabs_pos; lra).
  assert (A' : Qabs q' == q') by (apply Qabs_pos; lra).
  pose proof (ilog2_mono q q' NZ) as L. rewrite A, A' in L. specialize (L H).
  rewrite !round_on_grid.
  destruct (Z.eq_dec (ulp_exponent q) (ulp_exponent q')) as [E | NE].
  - rewrite E. now apply on_grid_mono.
  - assert (E' : ulp_exponent q' = (ilog2 q' - 52)%Z
                 /\ (ilog2 q + 1 <= ilog2 q')%Z
                 /\ (ulp_exponent q <= ilog2 q')%Z).
    { unfold ulp_exponent in *. lia. }
    destruct E' as [E' [Lt Le]].
    set (b := pow2 (ilog2 q')).
    destruct (ilog2_spec q NZ) as [_ U].
    destruct (ilog2_spec q' NZ') as [Lo _].
    assert (Bq : q <= b).
    { unfold b. pose proof (pow2_le _ _ Lt). lra. }
    assert (Bq' : b <= q') by (unfold b; lra).
    assert (G : b == inject_Z (2 ^ (ilog2 q' - ulp_exponent q))
                     * pow2 (ulp_exponent q)).
    { unfold b. rewrite <- pow2_Z, <- pow2_add by lia.
      now replace (ilog2 q' - ulp_exponent q + ulp_exponent q)%Z
        with (ilog2 q') by lia. }
    assert (G' : b == inject_Z (2 ^ 52) * pow2 (ulp_exponent q')).
    { unfold b. rewrite <- pow2_Z, <- pow2_add by lia.
      now replace (52 + ulp_exponent q')%Z with (ilog2 q') by lia. }
    apply Qle_trans with b.
    + apply Qle_trans with (on_grid (ulp_exponent q) b).
      * now apply on_grid_mono.
      * rewrite (on_grid_fix _ _ _ G). apply Qle_refl.
    + apply Qle_trans with (on_grid (ulp_exponent q') b).
      * rewrite (on_grid_fix _ _ _ G'). apply Qle_refl.
      * now apply on_grid_mono.
Qed.

Lemma round_mono_neg (q q' : Q) : q' < 0 -> q <= q' -> round q <= round q'.
Proof.
  intros P H.
  assert (NZ : ~ q == 0) by lra. assert (NZ' : ~ q' == 0) by lra.
  assert (A : Qabs q == - q) by (apply Qabs_neg; lra).
  assert (A' : Qabs q' == - q') by (apply Qabs_neg; lra).
  pose proof (ilog2_mono q' q NZ') as L. rewrite A, A' in L.
  assert (L' : (ilog2 q' <= ilog2 q)%Z) by (apply L; lra).
  rewrite !round_on_grid.
  destruct (Z.eq_dec (ulp_exponent q) (ulp_exponent q')) as [E | NE].
  - rewrite E. now apply on_grid_mono.
  - assert (E' : ulp_exponent q = (ilog2 q - 52)%Z
                 /\ (ilog2 q' + 1 <= ilog2 q)%Z
                 /\ (ulp_exponent q' <= ilog2 q)%Z).
    { unfold ulp_exponent in *. lia. }
    destruct E' as [E' [Lt Le]].
    set (b := - pow2 (ilog2 q)).
    destruct (ilog2_spec q' NZ') as [_ U].
    destruct (ilog2_spec q NZ) as [Lo _].
    assert (Bq : q <= b) by (unfold b; lra).
    assert (Bq' : b <= q').
    { unfold b. pose proof (pow2_le _ _ Lt). lra. }
    assert (G : b == inject_Z (- 2 ^ 52) * pow2 (ulp_exponent q)).
    { unfold b. rewrite inject_Z_opp, <- pow2_Z by lia.
      replace (ilog2 q) with (52 + ulp_exponent q)%Z at 1 by lia.
      rewrite pow2_add. ring. }
    assert (G' : b == inject_Z (- 2 ^ (ilog2 q - ulp_exponent q'))
                      * pow2 (ulp_exponent q')).
    { unfold b. rewrite inject_Z_opp, <- pow2_Z by lia.
      replace (ilog2 q) with (ilog2 q - ulp_exponent q' + ulp_exponent q')%Z
        at 1 by lia.
      rewrite pow2_add. ring. }
    apply Qle_trans with b.
    + apply Qle_trans with (on_grid (ulp_exponent q) b).
      * now apply on_grid_mono.
      * rewrite (on_grid_fix _ _ _ G). apply Qle_refl.
    + apply Qle_trans with (on_grid (ulp_exponent q') b).
      * rewrite (on_grid_fix _ _ _ G'). apply Qle_refl.
      * now apply on_grid_mono.
Qed.

(** Rounding to nearest is monotone. *)
Lemma round_mono (q q' : Q) : q <= q' -> round q <= round q'.
Proof.
  intros H.
  destruct (Qlt_le_dec 0 q) as [P | N].
  - now apply round_mono_pos.
  - destruct (Qlt_le_dec q' 0) as [P' | N'].
    + now apply round_mono_neg.
    + apply Qle_trans with 0; [now apply round_nonpos |].
      now apply round_nonneg.
Qed.

(** ** The values rounding lands on *)

Lemma pow2_le_inv (a b : Z) : pow2 a <= pow2 b -> (a <= b)%Z.
Proof.
  intros H. apply (Qpower_le_compat_l_inv 2); [exact H | reflexivity].
Qed.

Lemma ulp_exponent_min (q : Q) : (-1074 <= ulp_exponent q)%Z.
Proof. unfold ulp_exponent. lia. Qed.

Lemma Qabs_inject_Z (k : Z) : Qabs (inject_Z k) == inject_Z (Z.abs k).
Proof. reflexivity. Qed.

Lemma round_representable (q : Q) : representable (round q).
Proof.
  destruct (Qeq_dec q 0) as [Z | NZ].
  - rewrite (round_zero q Z). exists 0%Z, 0%Z.
    split; [lia |]. split; [simpl; lia | reflexivity].
  - set (e := ulp_exponent q). pose proof (pow2_pos e) as P.
    exists (rne (q / pow2 e)), e.
    split; [apply ulp_exponent_min |]. split; [| exact (round_nonzero q NZ)].
    destruct (ilog2_spec q NZ) as [_ U].
    assert (B : Qabs q <= inject_Z (2 ^ 53) * pow2 e).
    { rewrite <- pow2_Z, <- pow2_add by lia.
      apply Qle_trans with (pow2 (ilog2 q + 1)); [lra |].
      apply pow2_le. unfold e, ulp_exponent. lia. }
    apply Qabs_Qle_condition in B. destruct B as [B1 B2].
    assert (L : inject_Z (- 2 ^ 53) <= q / pow2 e).
    { apply Qle_shift_div_l; [exact P |]. rewrite inject_Z_opp. lra. }
    assert (R : q / pow2 e <= inject_Z (2 ^ 53)).
    { apply Qle_shift_div_r; [exact P | exact B2]. }
    apply rne_mono in L, R. rewrite rne_Z in L, R. lia.
Qed.

Lemma representable_opp (q : Q) : representable q -> representable (- q).
Proof.
  intros [k [e [He [Hk E]]]]. exists (- k)%Z, e.
  split; [exact He |]. split; [lia |].
  rewrite E, inject_Z_opp. ring.
Qed.

Lemma representable_comp (q q' : Q) :
  q == q' -> representable q -> representable q'.
Proof.
  intros E [k [e H]]. exists k, e. now rewrite <- E.
Qed.

(** Rounding leaves a binary64 number as it is. *)
Lemma round_fix (q : Q) : representable q -> round q == q.
Proof.
  intros [k [e [He [Hk E]]]].
  destruct (Qeq_dec q 0) as [Z | NZ].
  - rewrite (round_zero q Z). now rewrite Z.
  - rewrite round_on_grid.
    pose proof (pow2_pos e) as P.
    assert (A : Qabs q == inject_Z (Z.abs k) * pow2 e).
    { rewrite E, Qabs_Qmult, Qabs_inject_Z, (Qabs_pos (pow2 e)) by lra.
      reflexivity. }
    destruct (ilog2_spec q NZ) as [Lo Hi].
    assert (B : Qabs q <= pow2 (e + 53)).
    { rewrite A, Z.add_comm, pow2_add, (pow2_Z 53) by lia.
      apply Qmult_le_compat_r; [| lra]. now rewrite <- Zle_Qle. }
    assert (L : (ilog2 q <= e + 53)%Z) by (apply pow2_le_inv; lra).
    destruct (Z.eq_dec (ilog2 q) (e + 53)) as [Top | Below].
    + (* the significand is 2^53: one binade up *)
      assert (K : Z.abs k = (2 ^ 53)%Z).
      { rewrite Top in Lo.
        assert (Qabs q == pow2 (e + 53)) by lra.
        rewrite A, Z.add_comm, pow2_add, (pow2_Z 53) in H by lia.
        assert (inject_Z (Z.abs k) == inject_Z (2 ^ 53)).
        { apply (Qmult_inj_r _ _ (pow2 e)); [lra | exact H]. }
        now apply (proj1 (inject_Z_injective _ _)) in H0. }
      apply (on_grid_fix _ (k / 2)).
      assert (Ex : ulp_exponent q = (e + 1)%Z)
        by (unfold ulp_exponent; lia).
      rewrite Ex, E, pow2_succ.
      assert (K2 : k = (2 * (k / 2))%Z).
      { destruct (Z.abs_eq_or_opp k) as [C | C]; rewrite C in K.
        - now rewrite K.
        - assert (k = (- 2 ^ 53)%Z) by lia. now subst k. }
      rewrite K2 at 1. rewrite inject_Z_mult. ring.
    + assert (Ex : (ulp_exponent q <= e)%Z) by (unfold ulp_exponent; lia).
      apply (on_grid_fix _ (k * 2 ^ (e - ulp_exponent q))).
      eapply Qeq_trans; [exact E | now apply coarser_grid].
Qed.

Lemma round_fix_eq (q : Q) : representable q -> round q = Qred q.
Proof.
  intros H. pose proof (round_fix q H) as E.
  destruct (Qeq_dec q 0) as [Z | NZ].
  - rewrite (round_zero q Z). now rewrite (Qred_complete q 0 Z).
  - unfold round in *.
    destruct (Qeq_bool q 0) eqn:C; [apply Qeq_bool_iff in C; contradiction |].
    apply Qred_complete. now rewrite Qred_correct in E.
Qed.

(** ** The fitted parameters in binary64 *)

Lemma round_one : round (1 + - 0) = 1.
Proof. vm_compute. reflexivity. Qed.

Lemma to_float_zero (q : Q) : q == 0 -> to_float q = Fin 0.
Proof.
  intros H. unfold to_float. rewrite (round_zero q H). reflexivity.
Qed.

Lemma Qinv_le_antitone (a b : Q) : 0 < a -> a <= b -> 1 / b <= 1 / a.
Proof.
  intros Pa H. assert (Pb : 0 < b) by lra.
  apply Qle_shift_div_l; [exact Pa |].
  assert (E : 1 / b * a == a / b) by (field; lra).
  rewrite E. apply Qle_shift_div_r; [exact Pb | lra].
Qed.

Lemma scale_consts :
  eta64 <= 1
  /\ 4 * pow2 400 <= pow2 1000
  /\ 4 * pow2 400 <= pow2 402
  /\ pow2 402 <= pow2 1000
  /\ 1 <= pow2 402
  /\ 2 * (1 / (10 * eps)) + 1 <= pow2 50
  /\ pow2 50 <= pow2 1000
  /\ pow2 (-403) + eta64 <= (1 - u53) * (1 / pow2 402)
  /\ pow2 (-403) <= 1 /\ 1 <= pow2 50
  /\ pow2 400 * pow2 50 == pow2 450
  /\ 4 * pow2 450 <= pow2 1000
  /\ 1 <= pow2 450
  /\ 1 <= pow2 400.
Proof.
  repeat (split; [try (apply Qle_bool_iff; vm_compute; reflexivity);
                   try (apply Qeq_bool_iff; vm_compute; reflexivity) |]).
  apply Qle_bool_iff. vm_compute. reflexivity.
Qed.

(** The scale of a column of moderate numbers is a positive number
    between [2^-403] and [2^50]; the offset is the negated rounded
    product of the minimum and the scale, exactly. *)
Lemma column_parameters64 (c : list fval) :
  c <> [] -> (forall v, In v c -> moderate v) ->
  exists m M s pm mn,
    nanmin c = Fin m /\ nanmax c = Fin M
    /\ In (Fin m) c /\ In (Fin M) c
    /\ (forall q, In (Fin q) c -> m <= q <= M)
    /\ column_scale64 c = Fin s
    /\ pow2 (-403) <= s <= pow2 50
    /\ pm = round (m * s)
    /\ column_min64 c = Fin mn
    /\ mn == - pm
    /\ sub64 (nanmax c) (nanmin c) = Fin (round (M + - m))
    /\ ((round (M + - m) < 10 * eps /\ s = 1)
        \/ (10 * eps <= round (M + - m) /\ s = round (1 / round (M + - m)))).
Proof.
  intros Hne Hmod.
  assert (Hinf : forall v, In v c -> isinf v = false).
  { intros v Hv. destruct (Hmod v Hv) as [q [-> _]]. reflexivity. }
  assert (Hex : exists q, In (Fin q) c).
  { destruct c as [| v tl]; [contradiction |].
    destruct (Hmod v (or_introl eq_refl)) as [q [-> _]].
    exists q. now left. }
  destruct (nanmin_finite c Hinf Hex) as [m [Em Hm]].
  destruct (nanmax_finite c Hinf Hex) as [M [EM HM]].
  pose proof (nanmin_attained c m Em) as Im.
  pose proof (nanmax_attained c M EM) as IM.
  destruct (Hmod _ Im) as [m' [Hm' Bm]]. injection Hm' as <-.
  destruct (Hmod _ IM) as [M' [HM' BM]]. injection HM' as <-.
  destruct scale_consts
    as [C1 [C2 [C3 [C4 [C5 [C6 [C7 [C8 [C9 [C10 [C11 [C12 [C13 C14]]]]]]]]]]]]].
  assert (Pe : 0 < eta64) by apply pow2_pos.
  pose proof (Hm M IM) as LmM.
  (* the range *)
  assert (Brg : Qabs (M + - m) <= 2 * pow2 400).
  { eapply Qle_trans; [apply Qabs_triangle |]. rewrite Qabs_opp. lra. }
  unfold column_min64, column_scale64. rewrite Em, EM.
  cbn [feature_range fst snd sub64 fsub fneg fadd rounded].
  rewrite (to_float_Fin (M + - m)) by lra.
  rewrite (to_float_Fin (1 + - 0)) by (vm_compute; discriminate).
  rewrite round_one.
  set (rg := round (M + - m)).
  pose proof (round_err (M + - m)) as Erg. fold rg in Erg.
  pose proof (Qabs_le_add _ _ _ Erg) as Brg'.
  assert (Nrg : 0 <= rg) by (apply round_nonneg; lra).
  assert (Urg : rg <= pow2 402).
  { pose proof (Qle_Qabs rg). unfold u53 in *. lra. }
  destruct (handle_zeros_finite rg) as [r' [Er [Pr Hr]]].
  rewrite Er. unfold div64, fdiv. rewrite (Qeq_bool_pos r' Pr).
  cbn [rounded].
  assert (Br' : 10 * eps <= r' <= pow2 402).
  { pose proof ten_eps_small as T1. pose proof ten_eps_pos as T2.
    destruct Hr as [[_ ->] | [Hw ->]]; split; lra. }
  destruct Br' as [Lr Ur].
  assert (Pinv : 0 < 1 / r') by (apply Qlt_shift_div_l; lra).
  assert (Uinv : 1 / r' <= 1 / (10 * eps))
    by (apply Qinv_le_antitone; [reflexivity | exact Lr]).
  assert (Linv : 1 / pow2 402 <= 1 / r')
    by (apply Qinv_le_antitone; [exact Pr | exact Ur]).
  assert (Ainv : Qabs (1 / r') == 1 / r') by (apply Qabs_pos; lra).
  rewrite (to_float_Fin (1 / r')) by (rewrite Ainv; lra).
  set (s := round (1 / r')).
  pose proof (round_err (1 / r')) as Es. fold s in Es. rewrite Ainv in Es.
  apply Qabs_diff_Qle_condition in Es. destruct Es as [Es1 Es2].
  assert (Bs : pow2 (-403) <= s <= pow2 50).
  { unfold u53 in *. split; lra. }
  destruct Bs as [Ls Us].
  assert (Ps : 0 < s) by (pose proof (pow2_pos (-403)); lra).
  (* the offset *)
  cbn [mul64 fmul rounded].
  assert (Bms : Qabs (m * s) <= pow2 450).
  { rewrite Qabs_Qmult, (Qabs_pos s) by lra. rewrite <- C11.
    apply Qmult_le_compat_nonneg; split;
      [apply Qabs_nonneg | exact Bm | lra | exact Us]. }
  rewrite (to_float_Fin (m * s)) by lra.
  set (pm := round (m * s)).
  pose proof (round_err (m * s)) as Epm. fold pm in Epm.
  pose proof (Qabs_le_add _ _ _ Epm) as Bpm.
  assert (Z0 : 0 + - pm == - pm) by ring.
  assert (Bmn : Qabs (0 + - pm) <= pow2 1000).
  { rewrite Z0, Qabs_opp. unfold u53 in *. lra. }
  cbn [sub64 fsub fneg fadd rounded].
  rewrite (to_float_Fin (0 + - pm)) by exact Bmn.
  exists m, M, s, pm, (round (0 + - pm)).
  split; [reflexivity |]. split; [reflexivity |].
  split; [exact Im |]. split; [exact IM |].
  split; [intros q Hq; split; [now apply Hm | now apply HM] |].
  split; [reflexivity |]. split; [now split |].
  split; [reflexivity |]. split; [reflexivity |]. split.
  { rewrite round_fix; [exact Z0 |].
    apply (representable_comp (- pm)); [now rewrite Z0 |].
    apply representable_opp, round_representable. }
  split; [reflexivity |].
  destruct Hr as [[Hn Er'] | [Hw Er']]; [left | right];
    (split; [assumption |]); unfold s; rewrite Er'.
  - vm_compute. reflexivity.
  - reflexivity.
Qed.

(** ** One column through the rounded scaler *)

Section RoundedColumn.

Variables lo sc mn : Q.
Hypothesis Hlo : Qabs lo <= pow2 400.
Hypothesis Hsc : pow2 (-403) <= sc <= pow2 50.
Hypothesis Hmn : mn == - round (lo * sc).

Lemma scale_positive : 0 < sc.
Proof. pose proof (pow2_pos (-403)). lra. Qed.

Lemma product_bound (x : Q) : Qabs x <= pow2 400 -> Qabs (x * sc) <= pow2 450.
Proof.
  intros Hx. pose proof scale_positive as P.
  rewrite Qabs_Qmult, (Qabs_pos sc) by lra.
  assert (C : pow2 400 * pow2 50 == pow2 450)
    by (apply Qeq_bool_iff; vm_compute; reflexivity).
  rewrite <- C.
  apply Qmult_le_compat_nonneg; split;
    [apply Qabs_nonneg | exact Hx | lra | exact (proj2 Hsc)].
Qed.

Lemma rounded_bound (q b : Q) :
  Qabs q <= b -> 2 <= b -> Qabs (round q) <= 2 * b.
Proof.
  intros H B. pose proof (Qabs_le_add _ _ _ (round_err q)) as E.
  assert (C : eta64 <= 1) by (apply Qle_bool_iff; vm_compute; reflexivity).
  pose proof (Qabs_nonneg q). unfold u53 in *. lra.
Qed.

Lemma offset_bound : Qabs mn <= 2 * (Qabs lo * sc) + 3 * eta64.
Proof.
  rewrite Hmn, Qabs_opp. pose proof scale_positive as P.
  pose proof (Qabs_le_add _ _ _ (round_err (lo * sc))) as E.
  rewrite Qabs_Qmult, (Qabs_pos sc) in E by lra.
  assert (0 <= Qabs lo * sc)
    by (apply Qmult_le_0_compat; [apply Qabs_nonneg | lra]).
  assert (0 < eta64) by apply pow2_pos.
  unfold u53 in *. lra.
Qed.

Lemma offset_magnitude : Qabs mn <= 2 * pow2 450.
Proof.
  rewrite Hmn, Qabs_opp. apply rounded_bound.
  - now apply product_bound.
  - apply Qle_bool_iff. vm_compute. reflexivity.
Qed.

(** [transform] on one entry. *)
Lemma scaled64_Fin (x : Q) :
  Qabs x <= pow2 400 ->
  add64 (mul64 (Fin x) (Fin sc)) (Fin mn) = Fin (scaled64 sc mn x).
Proof.
  intros Hx. unfold scaled64. cbn [mul64 fmul rounded].
  pose proof (product_bound x Hx) as B.
  assert (C1 : 2 <= pow2 450) by (apply Qle_bool_iff; vm_compute; reflexivity).
  assert (C2 : 4 * pow2 450 <= pow2 1000)
    by (apply Qle_bool_iff; vm_compute; reflexivity).
  rewrite (to_float_Fin (x * sc)) by lra.
  cbn [add64 fadd rounded].
  pose proof (rounded_bound _ _ B C1) as Ba.
  pose proof offset_magnitude as Bm.
  pose proof (Qabs_triangle (round (x * sc)) mn) as T.
  rewrite (to_float_Fin (round (x * sc) + mn)) by lra.
  reflexivity.
Qed.

Lemma scaled64_magnitude (x : Q) :
  Qabs x <= pow2 400 -> Qabs (scaled64 sc mn x) <= pow2 460.
Proof.
  intros Hx. unfold scaled64.
  pose proof (product_bound x Hx) as B.
  assert (C1 : 2 <= pow2 450) by (apply Qle_bool_iff; vm_compute; reflexivity).
  assert (C2 : 8 * pow2 450 <= pow2 460)
    by (apply Qle_bool_iff; vm_compute; reflexivity).
  pose proof (rounded_bound _ _ B C1) as Ba.
  pose proof offset_magnitude as Bm.
  pose proof (Qabs_triangle (round (x * sc)) mn) as T.
  assert (B2 : Qabs (round (x * sc) + mn) <= 4 * pow2 450) by lra.
  assert (C3 : 2 <= 4 * pow2 450) by lra.
  pose proof (rounded_bound _ _ B2 C3). lra.
Qed.

(** [inverse_transform] on one entry. *)
Lemma unscaled64_Fin (t : Q) :
  Qabs t <= pow2 500 ->
  div64 (sub64 (Fin t) (Fin mn)) (Fin sc) = Fin (unscaled64 sc mn t).
Proof.
  intros Ht. unfold unscaled64. pose proof scale_positive as P.
  cbn [sub64 fsub fneg fadd rounded].
  pose proof offset_magnitude as Bm.
  assert (C1 : 2 * pow2 450 <= pow2 500 /\ 1 <= pow2 500
               /\ 4 * pow2 500 <= pow2 1000
               /\ 4 * pow2 500 * pow2 403 <= pow2 1000
               /\ pow2 403 * pow2 (-403) == 1).
  { split; [| split; [| split; [| split]]];
      try (apply Qle_bool_iff; vm_compute; reflexivity).
    apply Qeq_bool_iff. vm_compute. reflexivity. }
  destruct C1 as [C1 [C2 [C3 [C4 C5]]]].
  pose proof (Qabs_triangle t (- mn)) as T. rewrite Qabs_opp in T.
  assert (B : Qabs (t + - mn) <= 2 * pow2 500) by lra.
  rewrite (to_float_Fin (t + - mn)) by lra.
  unfold div64, fdiv. rewrite (Qeq_bool_pos sc P). cbn [rounded].
  assert (C6 : 2 <= 2 * pow2 500) by lra.
  pose proof (rounded_bound _ _ B C6) as Bw.
  set (w := round (t + - mn)) in *.
  assert (Br : / sc <= pow2 403).
  { apply Qle_shift_inv_r; [exact P |].
    rewrite <- C5. apply Qmult_le_l; [apply pow2_pos | exact (proj1 Hsc)]. }
  assert (Pr : 0 < / sc) by (apply Qinv_lt_0_compat; exact P).
  assert (Bq : Qabs (w / sc) <= pow2 1000).
  { unfold Qdiv. rewrite Qabs_Qmult, (Qabs_pos (/ sc)) by lra.
    apply Qle_trans with (2 * (2 * pow2 500) * pow2 403); [| lra].
    apply Qmult_le_compat_nonneg; split;
      [apply Qabs_nonneg | exact Bw | lra | exact Br]. }
  rewrite (to_float_Fin (w / sc)) by exact Bq.
  reflexivity.
Qed.

(** The column minimum is sent to 0, exactly. *)
Lemma scaled64_min (x : Q) : x == lo -> scaled64 sc mn x = 0.
Proof.
  intros E. unfold scaled64. apply round_zero.
  rewrite (round_comp (x * sc) (lo * sc)) by (now rewrite E).
  rewrite Hmn. ring.
Qed.

(** Scaling keeps the order. *)
Lemma scaled64_mono (x x' : Q) :
  x <= x' -> scaled64 sc mn x <= scaled64 sc mn x'.
Proof.
  intros H. unfold scaled64. pose proof scale_positive as P.
  apply round_mono.
  assert (round (x * sc) <= round (x' * sc)).
  { apply round_mono. apply Qmult_le_compat_r; lra. }
  lra.
Qed.

Lemma unscaled64_mono (t t' : Q) :
  t <= t' -> unscaled64 sc mn t <= unscaled64 sc mn t'.
Proof.
  intros H. unfold unscaled64. pose proof scale_positive as P.
  apply round_mono.
  assert (round (t + - mn) <= round (t' + - mn))
    by (apply round_mono; lra).
  apply Qmult_le_compat_r; [exact H0 |].
  apply Qlt_le_weak, Qinv_lt_0_compat, P.
Qed.

(** Back from the scaled value: the original, to within a rounding
    error that is relative to the larger of the value and the column
    minimum. *)
Lemma round_trip64 (x : Q) :
  Qabs x <= pow2 400 ->
  Qabs (unscaled64 sc mn (scaled64 sc mn x) - x)
  <= (1 # 2 ^ 49) * (Qabs x + Qabs lo) + pow2 (-600).
Proof.
  intros Hx.
  exact (proj2 (proj2 (round_trip_scalar sc mn x lo Hsc Hx Hlo
                                         offset_bound))).
Qed.

(** A zero of a column whose minimum is zero comes back as zero. *)
Lemma round_trip64_zero (x : Q) :
  x == 0 -> lo == 0 -> unscaled64 sc mn (scaled64 sc mn x) = 0.
Proof.
  intros Ex El. pose proof scale_positive as P.
  assert (Z : mn == 0).
  { rewrite Hmn. rewrite (round_zero (lo * sc)) by (rewrite El; ring).
    reflexivity. }
  unfold unscaled64. apply round_zero.
  rewrite (scaled64_min x) by (now rewrite Ex, El).
  rewrite (round_zero (0 + - mn)) by (rewrite Z; ring).
  field. lra.
Qed.

End RoundedColumn.

(** ** The rounded scaler on an array *)

Lemma fit64_inv (X : matrix) (s : MinMaxScaler) :
  fit64 X = Ok s ->
  check_array X = Ok tt
  /\ data_min_ s = map (fun j => nanmin (column X j)) (seq 0 (n_features X))
  /\ data_max_ s = map (fun j => nanmax (column X j)) (seq 0 (n_features X))
  /\ scale_ s
     = map (fun j => column_scale64 (column X j)) (seq 0 (n_features X))
  /\ min_ s
     = map (fun j => column_min64 (column X j)) (seq 0 (n_features X))
  /\ data_range_ s
     = map (fun j => sub64 (nanmax (column X j)) (nanmin (column X j)))
           (seq 0 (n_features X)).
Proof.
  unfold fit64. destruct (check_array X) as [[] | e]; [| discriminate].
  cbn [bind]. intros [= <-].
  cbn [data_min_ data_max_ data_range_ scale_ min_].
  split; [reflexivity |].
  split; [now rewrite map_map |]. split; [now rewrite map_map |].
  rewrite map2_map_same, map_map.
  split; [now rewrite map_map |].
  split; [| now rewrite map_map].
  change (map (fun c => div64 (sub64 (snd feature_range) (fst feature_range))
                              (handle_zeros_in_scale
                                 (sub64 (nanmax c) (nanmin c)))))
    with (map column_scale64).
  rewrite map2_map_same, map_map. reflexivity.
Qed.

Lemma fit64_total (X : matrix) :
  check_array X = Ok tt -> exists s, fit64 X = Ok s.
Proof. intros H. unfold fit64. rewrite H. cbn [bind]. now eexists. Qed.

Lemma fit64_lengths (X : matrix) (s : MinMaxScaler) :
  fit64 X = Ok s ->
  length (scale_ s) = n_features X /\ length (min_ s) = n_features X.
Proof.
  intros H. destruct (fit64_inv X s H) as [_ [_ [_ [-> [-> _]]]]].
  now rewrite !length_map, length_seq.
Qed.

Lemma nth_error_transform_row64 (s : MinMaxScaler) (row : list fval)
      (j : nat) (x sc mn : fval) :
  nth_error row j = Some x ->
  nth_error (scale_ s) j = Some sc -> nth_error (min_ s) j = Some mn ->
  nth_error (transform_row64 s row) j = Some (add64 (mul64 x sc) mn).
Proof.
  intros Hx Hs Hm. unfold transform_row64.
  apply nth_error_map2; [| exact Hm]. now apply nth_error_map2.
Qed.

Lemma nth_error_inverse_row64 (s : MinMaxScaler) (row : list fval)
      (j : nat) (x sc mn : fval) :
  nth_error row j = Some x ->
  nth_error (scale_ s) j = Some sc -> nth_error (min_ s) j = Some mn ->
  nth_error (inverse_row64 s row) j = Some (div64 (sub64 x mn) sc).
Proof.
  intros Hx Hs Hm. unfold inverse_row64.
  apply nth_error_map2; [| exact Hs]. now apply nth_error_map2.
Qed.

Lemma column_moderate (X : matrix) (j : nat) :
  rectangular X -> all_moderate X -> X <> [] -> (j < n_features X)%nat ->
  column X j <> [] /\ forall v, In v (column X j) -> moderate v.
Proof.
  intros Hrect Hmod Hne Hj. split.
  - destruct X; [contradiction | discriminate].
  - intros v Hv. unfold column in Hv. apply in_map_iff in Hv.
    destruct Hv as [row [<- Hrow]].
    apply (Hmod row); [exact Hrow |]. apply nth_In.
    now rewrite (Hrect row Hrow).
Qed.

(** What [fit64] stores for one column. *)
Lemma fitted64_column (X : matrix) (s : MinMaxScaler) (j : nat) :
  fit64 X = Ok s -> rectangular X -> all_moderate X ->
  (j < n_features X)%nat ->
  exists lo hi sc mn,
    nth_error (data_min_ s) j = Some (Fin lo)
    /\ nth_error (data_max_ s) j = Some (Fin hi)
    /\ nth_error (scale_ s) j = Some (Fin sc)
    /\ nth_error (min_ s) j = Some (Fin mn)
    /\ In (Fin lo) (column X j) /\ In (Fin hi) (column X j)
    /\ (forall q, In (Fin q) (column X j) -> lo <= q <= hi)
    /\ Qabs lo <= pow2 400
    /\ pow2 (-403) <= sc <= pow2 50
    /\ mn == - round (lo * sc)
    /\ nth_error (data_range_ s) j = Some (Fin (round (hi + - lo)))
    /\ ((round (hi + - lo) < 10 * eps /\ sc = 1)
        \/ (10 * eps <= round (hi + - lo)
            /\ sc = round (1 / round (hi + - lo)))).
Proof.
  intros Hfit Hrect Hmod Hj.
  destruct (fit64_inv X s Hfit) as [Hchk [Emin [Emax [Esc [Emn Erg]]]]].
  destruct (check_array_inv X Hchk) as [Hne _].
  destruct (column_moderate X j Hrect Hmod Hne Hj) as [Cne Cmod].
  destruct (column_parameters64 (column X j) Cne Cmod)
    as [lo [hi [sc [pm [mn [El [Eh [Il [Ih [Hb [Es [Bs [Epm [Em [Hmn [Er Hcase]]]]]]]]]]]]]]]].
  exists lo, hi, sc, mn.
  assert (N : forall (f : nat -> fval),
             nth_error (map f (seq 0 (n_features X))) j = Some (f j)).
  { intros f. rewrite nth_error_map, nth_error_seq.
    destruct (Nat.ltb_spec j (n_features X)); [reflexivity | lia]. }
  rewrite Emin, Emax, Esc, Emn, Erg, !N, El, Eh, Es, Em.
  split; [reflexivity |]. split; [reflexivity |].
  split; [reflexivity |]. split; [reflexivity |].
  split; [exact Il |]. split; [exact Ih |]. split; [exact Hb |].
  split; [destruct (Cmod _ Il) as [q [[= <-] Bq]]; exact Bq |].
  split; [exact Bs |]. split; [now rewrite Hmn, Epm |].
  split; [rewrite El, Eh in Er; now rewrite Er | exact Hcase].
Qed.

Lemma rectangular_width (X : matrix) (row : list fval) (j : nat) (v : fval) :
  rectangular X -> In row X -> nth_error row j = Some v ->
  (j < n_features X)%nat.
Proof.
  intros Hrect Hrow Hv. rewrite <- (Hrect row Hrow).
  apply nth_error_Some. congruence.
Qed.

(** One entry of the fitted array, scaled: a number that is at least 0,
    and 0 for the column minimum. *)
Lemma scaled64_entry (X : matrix) (s : MinMaxScaler) (row : list fval)
      (j : nat) (x : Q) :
  fit64 X = Ok s -> rectangular X -> all_moderate X ->
  In row X -> nth_error row j = Some (Fin x) ->
  exists lo hi sc mn,
    nth_error (data_min_ s) j = Some (Fin lo)
    /\ nth_error (data_max_ s) j = Some (Fin hi)
    /\ nth_error (scale_ s) j = Some (Fin sc)
    /\ nth_error (min_ s) j = Some (Fin mn)
    /\ In (Fin lo) (column X j) /\ In (Fin hi) (column X j)
    /\ lo <= x <= hi
    /\ Qabs lo <= pow2 400 /\ Qabs x <= pow2 400
    /\ pow2 (-403) <= sc <= pow2 50
    /\ mn == - round (lo * sc)
    /\ nth_error (transform_row64 s row) j = Some (Fin (scaled64 sc mn x)).
Proof.
  intros Hfit Hrect Hmod Hrow Hv.
  pose proof (rectangular_width X row j _ Hrect Hrow Hv) as Hj.
  destruct (fitted64_column X s j Hfit Hrect Hmod Hj)
    as [lo [hi [sc [mn [E1 [E2 [E3 [E4 [Il [Ih [Hb [Bl [Bs [Hmn _]]]]]]]]]]]]]].
  pose proof (column_entry X row j _ Hrow Hv) as Hin.
  assert (Bx : Qabs x <= pow2 400).
  { destruct (Hmod row (Fin x) Hrow (nth_error_In _ _ Hv)) as [q [[= <-] B]].
    exact B. }
  exists lo, hi, sc, mn.
  repeat (split; [assumption |]).
  split; [now apply Hb |]. repeat (split; [assumption |]).
  rewrite (nth_error_transform_row64 s row j _ _ _ Hv E3 E4).
  now rewrite (scaled64_Fin lo sc mn Bl Bs Hmn x Bx).
Qed.

(** ** The scaled maximum *)

Lemma near_one_consts :
  eta64 <= 1 # 2 ^ 200
  /\ eta64 * pow2 50 <= 1 # 2 ^ 200
  /\ eta64 * pow2 402 <= 1 # 2 ^ 200
  /\ 4 * pow2 400 <= pow2 402
  /\ 1 <= pow2 400.
Proof.
  repeat (split; [apply Qle_bool_iff; vm_compute; reflexivity |]).
  apply Qle_bool_iff. vm_compute. reflexivity.
Qed.

(** On a column wider than [10 eps] the highest value is sent to 1 up to
    rounding: the error grows with the size of the values relative to
    the width of the column. *)
Lemma scaled_maximum_near_one (lo hi sc mn : Q) :
  lo <= hi -> Qabs lo <= pow2 400 -> Qabs hi <= pow2 400 ->
  pow2 (-403) <= sc <= pow2 50 ->
  10 * eps <= round (hi + - lo) -> sc = round (1 / round (hi + - lo)) ->
  mn == - round (lo * sc) ->
  Qabs (scaled64 sc mn hi - 1)
  <= (1 # 2 ^ 50) * (1 + (Qabs lo + Qabs hi) * sc).
Proof.
  intros Hle Bl Bh [Ls Us] Hw Esc Hmn.
  destruct near_one_consts as [C1 [C2 [C3 [C4 C5]]]].
  change (1 # 2 ^ 200)
    with (1 # 1606938044258990275541962092341162602522202993782792835301376)
    in *.
  pose proof (pow2_pos (-403)) as P0.
  assert (Ps : 0 < sc) by lra.
  assert (Pe : 0 < eta64) by apply pow2_pos.
  pose proof ten_eps_pos as Pt.
  remember (hi + - lo) as R eqn:HR.
  assert (NR : 0 <= R) by (rewrite HR; lra).
  assert (AR : Qabs R == R) by (now apply Qabs_pos).
  remember (round R) as rg eqn:Hrg.
  pose proof (round_err R) as Erg. rewrite <- Hrg, AR in Erg.
  assert (Prg : 0 < rg) by lra.
  assert (Brg : rg <= pow2 402).
  { apply Qabs_diff_Qle_condition in Erg.
    assert (R <= 2 * pow2 400).
    { rewrite HR. pose proof (Qle_Qabs hi). pose proof (Qle_Qabs (- lo)).
      rewrite Qabs_opp in H0. lra. }
    unfold u53 in *. lra. }
  assert (Ainv : Qabs (1 / rg) == 1 / rg).
  { apply Qabs_pos. apply Qlt_le_weak, Qlt_shift_div_l; lra. }
  pose proof (round_err (1 / rg)) as Es. rewrite <- Esc, Ainv in Es.
  (* rg * sc is 1 up to rounding *)
  assert (D1 : Qabs (rg * sc - 1) <= u53 + eta64 * rg).
  { assert (E : rg * sc - 1 == rg * (sc - 1 / rg)) by (field; lra).
    rewrite E, Qabs_Qmult, (Qabs_pos rg) by lra.
    apply Qle_trans with (rg * (u53 * (1 / rg) + eta64)).
    - apply Qmult_le_l; [exact Prg | exact Es].
    - apply Qle_lteq. right. field. lra. }
  (* so is R * sc *)
  remember (R * sc) as P eqn:HP.
  assert (NP : 0 <= P) by (rewrite HP; apply Qmult_le_0_compat; lra).
  assert (D2 : Qabs ((R - rg) * sc) <= u53 * P + eta64 * sc).
  { rewrite Qabs_Qmult, (Qabs_pos sc) by lra.
    assert (E : Qabs (R - rg) == Qabs (rg - R)).
    { rewrite <- Qabs_opp. apply Qabs_wd. ring. }
    rewrite E.
    apply Qle_trans with ((u53 * R + eta64) * sc).
    - apply Qmult_le_compat_r; [exact Erg | lra].
    - rewrite HP. apply Qle_lteq. right. ring. }
  assert (K1 : eta64 * rg <= 1 # 1606938044258990275541962092341162602522202993782792835301376).
  { apply Qle_trans with (eta64 * pow2 402); [| exact C3].
    apply Qmult_le_l; [exact Pe | exact Brg]. }
  assert (K2 : eta64 * sc <= 1 # 1606938044258990275541962092341162602522202993782792835301376).
  { apply Qle_trans with (eta64 * pow2 50); [| exact C2].
    apply Qmult_le_l; [exact Pe | exact Us]. }
  assert (EP : P - 1 == (R - rg) * sc + (rg * sc - 1))
    by (rewrite HP; ring).
  pose proof (Qabs_triangle ((R - rg) * sc) (rg * sc - 1)) as T1.
  rewrite <- EP in T1.
  assert (DP : Qabs (P - 1) <= 3 * u53).
  { apply Qabs_Qle_condition.
    assert (X1 : Qabs (P - 1) <= u53 * P + u53 + 2 * (1 # 1606938044258990275541962092341162602522202993782792835301376))
      by lra.
    apply Qabs_Qle_condition in X1.
    unfold u53 in *. split; lra. }
  (* the two products and their difference *)
  remember ((Qabs lo + Qabs hi) * sc) as H eqn:HH.
  pose proof (Qabs_nonneg lo) as Nl. pose proof (Qabs_nonneg hi) as Nh.
  assert (NH : 0 <= H) by (rewrite HH; apply Qmult_le_0_compat; lra).
  pose proof (round_err (hi * sc)) as Ea.
  pose proof (round_err (lo * sc)) as Ep.
  rewrite Qabs_Qmult, (Qabs_pos sc) in Ea, Ep by lra.
  unfold scaled64.
  remember (round (hi * sc)) as a eqn:Ha.
  remember (round (lo * sc)) as pm eqn:Hpm.
  assert (Eapm : a + mn - P == (a - hi * sc) + - (pm - lo * sc)).
  { rewrite Hmn, HP, HR. ring. }
  pose proof (Qabs_triangle (a - hi * sc) (- (pm - lo * sc))) as T2.
  rewrite Qabs_opp, <- Eapm in T2.
  assert (Dapm : Qabs (a + mn - P) <= u53 * H + 2 * eta64).
  { rewrite HH. lra. }
  pose proof (Qabs_le_add _ _ _ Dapm) as Bapm.
  rewrite (Qabs_pos P) in Bapm by exact NP.
  pose proof (round_err (a + mn)) as Et.
  remember (round (a + mn)) as t eqn:Ht.
  assert (Et1 : t - 1 == (t - (a + mn)) + ((a + mn - P) + (P - 1))) by ring.
  pose proof (Qabs_triangle (t - (a + mn)) ((a + mn - P) + (P - 1))) as T3.
  pose proof (Qabs_triangle (a + mn - P) (P - 1)) as T4.
  rewrite <- Et1 in T3.
  apply Qabs_Qle_condition in DP.
  change (1 # 2 ^ 50) with (1 # 1125899906842624).
  unfold u53 in *. lra.
Qed.

(** ** The round trip of an array *)

Lemma transform64_fitted (X : matrix) (s : MinMaxScaler) :
  fit64 X = Ok s -> rectangular X ->
  transform64 s X = Ok (map (transform_row64 s) X).
Proof.
  intros Hfit Hrect. destruct (fit64_inv X s Hfit) as [Hchk _].
  destruct (fit64_lengths X s Hfit) as [Ls _].
  unfold transform64. rewrite Hchk. cbn [bind]. unfold check_n_features.
  assert (F : forallb (fun row => length row =? length (scale_ s)) X = true).
  { apply forallb_forall. intros row Hrow. apply Nat.eqb_eq.
    rewrite Ls. now apply Hrect. }
  now rewrite F.
Qed.

Lemma length_transform_row64 (s : MinMaxScaler) (row : list fval) :
  length (scale_ s) = length row -> length (min_ s) = length row ->
  length (transform_row64 s row) = length row.
Proof.
  intros Hs Hm. unfold transform_row64. rewrite !length_map2. lia.
Qed.

Lemma transform64_entries (X : matrix) (s : MinMaxScaler)
      (row : list fval) (v : fval) :
  fit64 X = Ok s -> rectangular X -> all_moderate X ->
  In row X -> In v (transform_row64 s row) ->
  exists j x sc mn,
    nth_error row j = Some (Fin x)
    /\ nth_error (transform_row64 s row) j = Some v
    /\ v = Fin (scaled64 sc mn x).
Proof.
  intros Hfit Hrect Hmod Hrow Hv.
  destruct (fit64_lengths X s Hfit) as [Ls Lm].
  apply In_nth_error in Hv. destruct Hv as [j Hj].
  assert (Lj : (j < length row)%nat).
  { rewrite <- (length_transform_row64 s row);
      [apply nth_error_Some; congruence | |];
      rewrite ?Ls, ?Lm; symmetry; now apply Hrect. }
  destruct (nth_error row j) as [w |] eqn:Hw;
    [| apply nth_error_None in Hw; lia].
  destruct (Hmod row w Hrow (nth_error_In _ _ Hw)) as [x [-> _]].
  destruct (scaled64_entry X s row j x Hfit Hrect Hmod Hrow Hw)
    as [lo [hi [sc [mn [_ [_ [_ [_ [_ [_ [_ [_ [_ [_ [_ Ht]]]]]]]]]]]]]]].
  exists j, x, sc, mn. split; [exact Hw |]. split; [exact Hj |].
  rewrite Hj in Ht. now injection Ht.
Qed.

Lemma inverse_transform64_scaled (X : matrix) (s : MinMaxScaler) :
  fit64 X = Ok s -> rectangular X -> all_moderate X ->
  inverse_transform64 s (map (transform_row64 s) X)
  = Ok (map (inverse_row64 s) (map (transform_row64 s) X)).
Proof.
  intros Hfit Hrect Hmod. destruct (fit64_inv X s Hfit) as [Hchk _].
  destruct (fit64_lengths X s Hfit) as [Ls Lm].
  destruct (check_array_inv X Hchk) as [Hne _].
  unfold inverse_transform64. rewrite check_array_ok; [reflexivity | | |].
  - destruct X; [contradiction | discriminate].
  - destruct X as [| r0 tl]; [contradiction |]. cbn [map hd].
    assert (L0 : length (transform_row64 s r0) = length r0).
    { apply length_transform_row64; rewrite ?Ls, ?Lm; symmetry;
        apply Hrect; now left. }
    unfold check_array in Hchk.
    destruct (existsb (existsb isinf) (r0 :: tl)); [discriminate |].
    destruct r0; [discriminate |].
    intros C. rewrite C in L0. discriminate.
  - intros row' v Hrow' Hv. apply in_map_iff in Hrow'.
    destruct Hrow' as [row [<- Hrow]].
    destruct (transform64_entries X s row v Hfit Hrect Hmod Hrow Hv)
      as [j [x [sc [mn [_ [_ ->]]]]]].
    reflexivity.
Qed.

Lemma tolerance_consts :
  (1 # 2 ^ 49) * 2 + pow2 (-600) / pow2 (-400) <= 1 # 1000000.
Proof. apply Qle_bool_iff. vm_compute. reflexivity. Qed.

(** In a column whose minimum is not negative, a value that is zero or
    at least [2^-400] comes back within 1e-6 relative tolerance. *)
Lemma round_trip_within_tolerance (lo sc mn x : Q) :
  Qabs lo <= pow2 400 -> pow2 (-403) <= sc <= pow2 50 ->
  mn == - round (lo * sc) -> Qabs x <= pow2 400 ->
  0 <= lo <= x -> x == 0 \/ pow2 (-400) <= x ->
  within_tolerance (Fin x) (Fin (unscaled64 sc mn (scaled64 sc mn x))).
Proof.
  intros Bl Bs Hmn Bx [Hpos Hle] Hx.
  pose proof (round_trip64 lo sc mn Bl Bs Hmn x Bx) as Herr.
  eexists. split; [reflexivity |].
  destruct Hx as [Hz | Hbig].
  - assert (Zl : lo == 0) by lra.
    rewrite (round_trip64_zero lo sc mn Bs Hmn x Hz Zl).
    assert (E : Qabs (0 - x) == 0) by (rewrite Hz; reflexivity).
    rewrite E. apply Qmult_le_0_compat; [discriminate | apply Qabs_nonneg].
  - pose proof (pow2_pos (-400)) as P.
    assert (Ax : Qabs x == x) by (apply Qabs_pos; lra).
    assert (Al : Qabs lo == lo) by (apply Qabs_pos; lra).
    rewrite Ax, Al in Herr. rewrite Ax.
    pose proof tolerance_consts as C.
    assert (D : pow2 (-600) <= pow2 (-600) / pow2 (-400) * x).
    { assert (E : pow2 (-600) == pow2 (-600) / pow2 (-400) * pow2 (-400))
        by (field; lra).
      rewrite E at 1. apply Qmult_le_l; [| exact Hbig].
      apply Qlt_shift_div_l; [exact P |]. rewrite Qmult_0_l.
      apply pow2_pos. }
    assert (K : ((1 # 2 ^ 49) * 2 + pow2 (-600) / pow2 (-400)) * x
                <= (1 # 1000000) * x)
      by (apply Qmult_le_compat_r; [exact C | lra]).
    change (1 # 2 ^ 49) with (1 # 562949953421312) in *.
    lra.
Qed.

(** C4, as stated, fails in binary64.  On a column that runs from -1 to
    1, the scaler sends [2^-60] to [0.5] and brings it back as 0: the
    value is lost whole, not reproduced to one part in a million. *)
Lemma scaling_round_trip_counterexample :
  let X := [[Fin (-1)]; [Fin (1 # 2 ^ 60)]; [Fin 1]] in
  exists s,
    fit64 X = Ok s
    /\ transform64 s X = Ok [[Fin 0]; [Fin (1 # 2)]; [Fin 1]]
    /\ inverse_transform64 s [[Fin 0]; [Fin (1 # 2)]; [Fin 1]]
       = Ok [[Fin (-1)]; [Fin 0]; [Fin 1]]
    /\ ~ within_tolerance (Fin (1 # 2 ^ 60)) (Fin 0)
    /\ ~ (forall (X : matrix) (s : MinMaxScaler) (Xs back : matrix),
            fit64 X = Ok s -> transform64 s X = Ok Xs ->
            inverse_transform64 s Xs = Ok back ->
            Forall2 (Forall2 within_tolerance) X back).
Proof.
  intros X.
  assert (F : fit64 X
              = Ok (mkScaler [Fin (-1)] [Fin 1] [Fin 2] [Fin (1 # 2)]
                             [Fin (1 # 2)]))
    by (vm_compute; reflexivity).
  assert (T : transform64 (mkScaler [Fin (-1)] [Fin 1] [Fin 2] [Fin (1 # 2)]
                                    [Fin (1 # 2)]) X
              = Ok [[Fin 0]; [Fin (1 # 2)]; [Fin 1]])
    by (vm_compute; reflexivity).
  assert (I : inverse_transform64
                (mkScaler [Fin (-1)] [Fin 1] [Fin 2] [Fin (1 # 2)]
                          [Fin (1 # 2)])
                [[Fin 0]; [Fin (1 # 2)]; [Fin 1]]
              = Ok [[Fin (-1)]; [Fin 0]; [Fin 1]])
    by (vm_compute; reflexivity).
  assert (N : ~ within_tolerance (Fin (1 # 2 ^ 60)) (Fin 0)).
  { intros [y [[= <-] C]]. revert C. apply Qlt_not_le. reflexivity. }
  eexists. split; [exact F |]. split; [exact T |]. split; [exact I |].
  split; [exact N |].
  intros C. specialize (C X _ _ _ F T I).
  inversion C as [| ? ? ? ? _ C1]; subst.
  inversion C1 as [| ? ? ? ? C2 _]; subst.
  inversion C2 as [| ? ? ? ? C3 _]; subst.
  exact (N C3).
Qed.

(** C4, amended.  In binary64, on an array of numbers no larger than
    [2^400] in magnitude, a fitted min-max scaler transforms the array
    it was fitted on and transforms the result back, and an entry [x]
    comes back as a number [y] with
    [|y - x| <= 2^-49 (|x| + |lo|) + 2^-600], where [lo] is the fitted
    minimum of the column: the error is relative to the larger of the
    value and the minimum.  So in a column whose minimum is not
    negative, a value that is zero or at least [2^-400] comes back
    within 1e-6 relative tolerance (a zero comes back as zero).  This
    covers the scaled feature array, the scaled target and the test
    targets the evaluation cell takes back to prices, whenever their
    columns hold no negative number. *)
Theorem round_trip_error_in_binary64 (X : matrix) (s : MinMaxScaler) :
  fit64 X = Ok s -> rectangular X -> all_moderate X ->
  exists Xs back,
    transform64 s X = Ok Xs
    /\ inverse_transform64 s Xs = Ok back
    /\ forall i j row x,
        nth_error X i = Some row -> nth_error row j = Some (Fin x) ->
        exists lo y,
          nth_error (data_min_ s) j = Some (Fin lo)
          /\ lo <= x
          /\ nth_error (nth i back []) j = Some (Fin y)
          /\ Qabs (y - x)
             <= (1 # 2 ^ 49) * (Qabs x + Qabs lo) + pow2 (-600)
          /\ (0 <= lo -> x == 0 \/ pow2 (-400) <= x ->
              within_tolerance (Fin x) (Fin y)).
Proof.
  intros Hfit Hrect Hmod.
  exists (map (transform_row64 s) X),
         (map (inverse_row64 s) (map (transform_row64 s) X)).
  split; [now apply transform64_fitted |].
  split; [now apply inverse_transform64_scaled |].
  intros i j row x Hi Hx.
  pose proof (nth_error_In _ _ Hi) as Hrow.
  destruct (scaled64_entry X s row j x Hfit Hrect Hmod Hrow Hx)
    as [lo [hi [sc [mn [E1 [_ [E3 [E4 [_ [_ [Hb [Bl [Bx [Bs [Hmn Ht]]]]]]]]]]]]]]].
  set (y := unscaled64 sc mn (scaled64 sc mn x)).
  assert (Hy : nth_error (nth i (map (inverse_row64 s)
                                     (map (transform_row64 s) X)) []) j
               = Some (Fin y)).
  { rewrite map_map.
    rewrite (nth_error_nth _ _ _ (map_nth_error _ _ _ Hi)).
    rewrite (nth_error_inverse_row64 s _ j _ _ _ Ht E3 E4).
    f_equal.
    exact (proj1 (proj2 (round_trip_scalar sc mn x lo Bs Bx Bl
                           (offset_bound lo sc mn Bs Hmn)))). }
  pose proof (round_trip64 lo sc mn Bl Bs Hmn x Bx) as Herr. fold y in Herr.
  exists lo, y. split; [exact E1 |]. split; [exact (proj1 Hb) |].
  split; [exact Hy |]. split; [exact Herr |].
  intros Hpos Hcase. unfold y.
  apply (round_trip_within_tolerance lo); try assumption.
  split; [exact Hpos | exact (proj1 Hb)].
Qed.

(** ** The target column through the rounded scaler *)

Lemma fit_transform64_inv (X : matrix) (s : MinMaxScaler) (Xs : matrix) :
  fit_transform64 X = Ok (s, Xs) ->
  fit64 X = Ok s /\ Xs = map (transform_row64 s) X.
Proof.
  unfold fit_transform64. destruct (fit64 X) as [s' |]; [| discriminate].
  cbn [bind]. unfold transform64.
  destruct (check_array X) as [[] |]; [| discriminate]. cbn [bind].
  destruct (check_n_features s' X) as [[] |]; [| discriminate]. cbn [bind].
  intros [= <- <-]. now split.
Qed.

Lemma rectangular_column (ys : list fval) : rectangular (reshape_column ys).
Proof.
  intros row Hrow. unfold reshape_column in Hrow. apply in_map_iff in Hrow.
  destruct Hrow as [v [<- Hv]]. now rewrite (n_features_column v ys Hv).
Qed.

Lemma all_moderate_column (ys : list fval) :
  Forall moderate ys -> all_moderate (reshape_column ys).
Proof.
  intros H row v Hrow Hv. unfold reshape_column in Hrow.
  apply in_map_iff in Hrow. destruct Hrow as [w [<- Hw]].
  destruct Hv as [<- | []]. rewrite Forall_forall in H. now apply H.
Qed.

(** The target scaler in binary64: one scale and one offset, fitted on
    the lowest and the highest target. *)
Lemma target_scaler64_form (ys : list fval) (s : MinMaxScaler)
      (scaled : matrix) :
  Forall moderate ys ->
  fit_transform64 (reshape_column ys) = Ok (s, scaled) ->
  exists lo hi sc mn,
    In (Fin lo) ys /\ In (Fin hi) ys
    /\ (forall v, In v ys ->
                  exists x, v = Fin x /\ lo <= x <= hi
                            /\ Qabs x <= pow2 400)
    /\ Qabs lo <= pow2 400
    /\ pow2 (-403) <= sc <= pow2 50
    /\ mn == - round (lo * sc)
    /\ data_min_ s = [Fin lo] /\ data_max_ s = [Fin hi]
    /\ scale_ s = [Fin sc] /\ min_ s = [Fin mn]
    /\ flatten scaled
       = map (fun v => add64 (mul64 v (Fin sc)) (Fin mn)) ys
    /\ data_range_ s = [Fin (round (hi + - lo))]
    /\ ((round (hi + - lo) < 10 * eps /\ sc = 1)
        \/ (10 * eps <= round (hi + - lo)
            /\ sc = round (1 / round (hi + - lo)))).
Proof.
  intros Hmod H. destruct (fit_transform64_inv _ _ _ H) as [Hfit ->].
  destruct (fit64_inv _ _ Hfit) as [Hca [Hmin [Hmax [Hscale [Hm Hrg]]]]].
  destruct (check_array_inv _ Hca) as [Hne _].
  destruct ys as [| y0 tl] eqn:Ey; [now destruct Hne |].
  rewrite <- Ey in *.
  assert (Hn : n_features (reshape_column ys) = 1%nat)
    by (rewrite Ey; reflexivity).
  destruct (fitted64_column (reshape_column ys) s 0 Hfit
              (rectangular_column ys) (all_moderate_column ys Hmod))
    as [lo [hi [sc [mn [E1 [E2 [E3 [E4 [Il [Ih [Hb [Bl [Bs [Hmn [E5 Hcase]]]]]]]]]]]]]]];
    [rewrite Hn; lia |].
  rewrite column_reshape in Il, Ih, Hb.
  rewrite Hn in Hmin, Hmax, Hscale, Hm, Hrg.
  cbn [seq map] in Hmin, Hmax, Hscale, Hm, Hrg.
  rewrite Hrg in E5. cbn [nth_error] in E5. injection E5 as E5.
  rewrite E5 in Hrg.
  rewrite Hmin in E1. rewrite Hmax in E2. rewrite Hscale in E3.
  rewrite Hm in E4. cbn [nth_error] in E1, E2, E3, E4.
  injection E1 as E1. injection E2 as E2. injection E3 as E3.
  injection E4 as E4.
  rewrite E1 in Hmin. rewrite E2 in Hmax. rewrite E3 in Hscale.
  rewrite E4 in Hm.
  exists lo, hi, sc, mn.
  split; [exact Il |]. split; [exact Ih |]. split.
  { intros v Hv. rewrite Forall_forall in Hmod.
    destruct (Hmod v Hv) as [x [-> Bx]]. exists x.
    split; [reflexivity |]. split; [now apply Hb | exact Bx]. }
  split; [exact Bl |]. split; [exact Bs |]. split; [exact Hmn |].
  split; [exact Hmin |]. split; [exact Hmax |].
  split; [exact Hscale |]. split; [exact Hm |].
  split; [| split; [exact Hrg | exact Hcase]].
  unfold reshape_column. rewrite map_map.
  unfold transform_row64. rewrite Hscale, Hm. cbn [map2].
  apply flatten_map_singleton.
Qed.

(** X9.  In binary64 the scaled target keeps the order of the targets:
    a target no larger than another has a scaled value no larger.  The
    lowest target is sent to 0 exactly, so no scaled target is negative,
    and none exceeds the scaled value [top] of the highest target.  That
    value is 1 up to rounding (it can lie above 1): unless the targets
    agree to within [10 eps], [|top - 1|] is at most
    [2^-50 (1 + (|lo| + |hi|) scale)], where [scale] is the fitted scale,
    [1 / (hi - lo)] rounded. *)
Theorem scaled_target_keeps_order (ys : list fval) (s : MinMaxScaler)
        (scaled : matrix) :
  Forall moderate ys ->
  fit_transform64 (reshape_column ys) = Ok (s, scaled) ->
  exists lo hi top,
    data_min_ s = [Fin lo]
    /\ data_max_ s = [Fin hi]
    /\ In (Fin lo) ys /\ In (Fin hi) ys
    /\ In (Fin top) (flatten scaled)
    /\ Forall2 (fun v t =>
                  exists x u,
                    v = Fin x /\ t = Fin u
                    /\ lo <= x <= hi /\ 0 <= u <= top
                    /\ (x == lo -> u = 0)
                    /\ (x == hi -> u = top))
               ys (flatten scaled)
    /\ (forall i j x x' u u',
          nth_error ys i = Some (Fin x) ->
          nth_error ys j = Some (Fin x') ->
          nth_error (flatten scaled) i = Some (Fin u) ->
          nth_error (flatten scaled) j = Some (Fin u') ->
          x <= x' -> u <= u')
    /\ (exists width scale,
          data_range_ s = [Fin width] /\ scale_ s = [Fin scale]
          /\ (10 * eps <= width ->
              Qabs (top - 1)
              <= (1 # 2 ^ 50) * (1 + (Qabs lo + Qabs hi) * scale))).
Proof.
  intros Hmod H.
  destruct (target_scaler64_form ys s scaled Hmod H)
    as [lo [hi [sc [mn [Il [Ih [Hb [Bl [Bs [Hmn [Hmin [Hmax [Hsc [_ [Hys [Hrg Hcase]]]]]]]]]]]]]]]].
  assert (Hval : forall v x, In v ys -> v = Fin x ->
                   add64 (mul64 v (Fin sc)) (Fin mn) = Fin (scaled64 sc mn x)).
  { intros v x Hv ->. destruct (Hb _ Hv) as [x' [[= <-] [_ Bx]]].
    now apply (scaled64_Fin lo). }
  exists lo, hi, (scaled64 sc mn hi).
  split; [exact Hmin |]. split; [exact Hmax |].
  split; [exact Il |]. split; [exact Ih |]. split.
  { rewrite Hys. apply in_map_iff. exists (Fin hi).
    split; [now apply Hval | exact Ih]. }
  split; [| split].
  - rewrite Hys. apply Forall2_map_self. intros v Hv.
    destruct (Hb v Hv) as [x [-> [Hx Bx]]].
    exists x, (scaled64 sc mn x).
    split; [reflexivity |]. split; [now apply Hval |].
    split; [exact Hx |]. split; [| split].
    + split.
      * rewrite <- (scaled64_min lo sc mn Hmn lo (Qeq_refl lo)).
        apply (scaled64_mono sc mn Bs). exact (proj1 Hx).
      * apply (scaled64_mono sc mn Bs). exact (proj2 Hx).
    + intros E. now apply (scaled64_min lo).
    + intros E. unfold scaled64.
      now rewrite (round_comp (x * sc) (hi * sc)) by (now rewrite E).
  - intros i j x x' u u' Hi Hj Hu Hu' Hle.
    rewrite Hys in Hu, Hu'.
    rewrite (map_nth_error _ _ _ Hi),
      (Hval _ x (nth_error_In _ _ Hi) eq_refl) in Hu.
    rewrite (map_nth_error _ _ _ Hj),
      (Hval _ x' (nth_error_In _ _ Hj) eq_refl) in Hu'.
    injection Hu as <-. injection Hu' as <-.
    now apply (scaled64_mono sc mn Bs).
  - exists (round (hi + - lo)), sc.
    split; [exact Hrg |]. split; [exact Hsc |]. intros Hw.
    destruct Hcase as [[Hn _] | [_ Esc]]; [lra |].
    destruct (Hb _ Il) as [l' [[= <-] [Hl _]]].
    destruct (Hb _ Ih) as [h' [[= <-] [_ Bh]]].
    apply scaled_maximum_near_one; try assumption. exact (proj2 Hl).
Qed.

(** ** The test targets, back in price units *)

Lemma inverse_transform64_column (s : MinMaxScaler) (sv mv : Q)
      (outs : list fval) :
  scale_ s = [Fin sv] -> min_ s = [Fin mv] -> outs <> [] ->
  (forall v, In v outs -> isinf v = false) ->
  inverse_transform64 s (reshape_column outs)
  = Ok (reshape_column
          (map (fun o => div64 (sub64 o (Fin mv)) (Fin sv)) outs)).
Proof.
  intros Hs Hm Hne Hinf. unfold inverse_transform64. rewrite check_array_ok.
  - cbn [bind]. unfold reshape_column. rewrite !map_map.
    apply f_equal, map_ext. intros o. unfold inverse_row64.
    now rewrite Hs, Hm.
  - destruct outs; [now destruct Hne | discriminate].
  - destruct outs; [now destruct Hne | discriminate].
  - intros row v Hrow Hv. unfold reshape_column in Hrow.
    apply in_map_iff in Hrow. destruct Hrow as [o [<- Ho]].
    destruct Hv as [<- | []]. now apply Hinf.
Qed.

Lemma price_like_moderate (v : fval) : price_like v -> moderate v.
Proof.
  intros [q [-> [L U]]]. exists q. split; [reflexivity |].
  pose proof (pow2_pos (-400)). rewrite Qabs_pos; lra.
Qed.

(** X13.  In binary64, the prices the metrics of cell 30 are computed
    against are the recorded Close prices of the test rows, in the order
    of the test set, each within 1e-6 relative tolerance: the test
    targets are the scaled Close prices at the test positions, and the
    inverse of the target scaler takes each back to its price up to
    rounding.  (The recorded prices are positive, between [2^-400] and
    [2^400].) *)
Theorem test_prices_are_the_recorded_closes
        (closes : list fval) (s : MinMaxScaler) (scaled : matrix)
        (test : list nat) :
  Forall price_like closes ->
  fit_transform64 (reshape_column closes) = Ok (s, scaled) ->
  test <> [] -> (forall i, In i test -> (i < length closes)%nat) ->
  exists back,
    inverse_transform64 s (reshape_column (take (flatten scaled) test))
    = Ok back
    /\ Forall (fun row => length row = 1%nat) back
    /\ length back = length test
    /\ Forall2 within_tolerance (take closes test) (flatten back).
Proof.
  intros Hprice H Hne Hpos.
  assert (Hmod : Forall moderate closes).
  { apply Forall_forall. intros v Hv. rewrite Forall_forall in Hprice.
    apply price_like_moderate. now apply Hprice. }
  destruct (target_scaler64_form closes s scaled Hmod H)
    as [lo [hi [sc [mn [Il [_ [Hb [Bl [Bs [Hmn [_ [_ [Hsc [Hm [Hys _]]]]]]]]]]]]]]].
  set (g := fun v => add64 (mul64 v (Fin sc)) (Fin mn)) in *.
  set (h := fun o => div64 (sub64 o (Fin mn)) (Fin sc)).
  assert (Hlo : 0 <= lo).
  { rewrite Forall_forall in Hprice.
    destruct (Hprice _ Il) as [q [[= <-] [L _]]].
    pose proof (pow2_pos (-400)). lra. }
  assert (Hval : forall v, In v closes ->
                   exists x, v = Fin x /\ g v = Fin (scaled64 sc mn x)
                             /\ within_tolerance v (h (g v))).
  { intros v Hv. rewrite Forall_forall in Hprice.
    destruct (Hprice v Hv) as [x [-> [Lx Ux]]].
    destruct (Hb _ Hv) as [x' [[= <-] [Hx Bx]]].
    exists x. split; [reflexivity |].
    assert (G : g (Fin x) = Fin (scaled64 sc mn x))
      by (now apply (scaled64_Fin lo)).
    split; [exact G |]. rewrite G. unfold h.
    rewrite (proj1 (proj2 (round_trip_scalar sc mn x lo Bs Bx Bl
                             (offset_bound lo sc mn Bs Hmn)))).
    apply (round_trip_within_tolerance lo); try assumption.
    - split; [exact Hlo | exact (proj1 Hx)].
    - now right. }
  rewrite Hys, take_map.
  exists (reshape_column (map h (map g (take closes test)))).
  assert (Lt : length (take closes test) = length test)
    by (now apply length_take).
  split; [| split; [| split]].
  - apply inverse_transform64_column; [exact Hsc | exact Hm | |].
    + intros C. apply (f_equal (@length fval)) in C.
      rewrite length_map, Lt in C. destruct test; [now apply Hne | discriminate].
    + intros v Hv. apply in_map_iff in Hv. destruct Hv as [w [<- Hw]].
      apply take_In in Hw. destruct (Hval w Hw) as [x [_ [-> _]]].
      reflexivity.
  - apply Forall_forall. intros row Hrow. unfold reshape_column in Hrow.
    apply in_map_iff in Hrow. now destruct Hrow as [v [<- _]].
  - unfold reshape_column. now rewrite !length_map.
  - unfold reshape_column. rewrite !map_map.
    rewrite (flatten_map_singleton (fun v => h (g v))).
    apply Forall2_map_self. intros v Hv. apply take_In in Hv.
    destruct (Hval v Hv) as [x [_ [_ W]]]. exact W.
Qed.

(** ** The arrays handed to the network *)

Lemma column_In_row (X : matrix) (j : nat) (v : fval) :
  rectangular X -> (j < n_features X)%nat -> In v (column X j) ->
  exists row, In row X /\ nth_error row j = Some v.
Proof.
  intros Hrect Hj Hv. unfold column in Hv. apply in_map_iff in Hv.
  destruct Hv as [row [<- Hrow]]. exists row. split; [exact Hrow |].
  apply nth_error_nth'. now rewrite (Hrect row Hrow).
Qed.

Lemma rectangular_features (df : list FeatureRow) :
  rectangular (map feature_values df).
Proof.
  intros row Hrow. destruct (n_features_selected df row Hrow) as [-> ->].
  reflexivity.
Qed.

(** One scaled column: it starts at 0, ends at the scaled maximum, and
    every entry lies between the two. *)
Lemma scaled64_column (X : matrix) (s : MinMaxScaler) (j : nat) :
  fit64 X = Ok s -> rectangular X -> all_moderate X ->
  (j < n_features X)%nat ->
  exists lo hi scale top,
    nth_error (data_min_ s) j = Some (Fin lo)
    /\ nth_error (data_max_ s) j = Some (Fin hi)
    /\ nth_error (scale_ s) j = Some (Fin scale)
    /\ nth_error (data_range_ s) j = Some (Fin (round (hi + - lo)))
    /\ In (Fin 0) (column (map (transform_row64 s) X) j)
    /\ In (Fin top) (column (map (transform_row64 s) X) j)
    /\ (forall row v,
          In row X -> nth_error (transform_row64 s row) j = Some v ->
          exists u, v = Fin u /\ 0 <= u <= top)
    /\ (10 * eps <= round (hi + - lo) ->
        Qabs (top - 1)
        <= (1 # 2 ^ 50) * (1 + (Qabs lo + Qabs hi) * scale)).
Proof.
  intros Hfit Hrect Hmod Hj.
  destruct (fitted64_column X s j Hfit Hrect Hmod Hj)
    as [lo [hi [sc [mn [E1 [E2 [E3 [E4 [Il [Ih [Hb [Bl [Bs [Hmn [E5 Hcase]]]]]]]]]]]]]]].
  destruct (fit64_lengths X s Hfit) as [Ls Lm].
  assert (Himg : forall row x,
             In row X -> nth_error row j = Some (Fin x) ->
             nth_error (transform_row64 s row) j
             = Some (Fin (scaled64 sc mn x))).
  { intros row x Hrow Hx.
    destruct (scaled64_entry X s row j x Hfit Hrect Hmod Hrow Hx)
      as [lo' [hi' [sc' [mn' [_ [_ [E3' [E4' [_ [_ [_ [_ [_ [_ [_ Ht]]]]]]]]]]]]]]].
    rewrite E3 in E3'. rewrite E4 in E4'.
    injection E3' as <-. injection E4' as <-. exact Ht. }
  assert (Hcol : forall x,
             In (Fin x) (column X j) ->
             In (Fin (scaled64 sc mn x))
                (column (map (transform_row64 s) X) j)).
  { intros x Hx.
    destruct (column_In_row X j _ Hrect Hj Hx) as [row [Hrow Hv]].
    unfold column. rewrite map_map. apply in_map_iff. exists row.
    split; [| exact Hrow].
    now apply nth_error_nth, Himg. }
  assert (Bh : Qabs hi <= pow2 400).
  { destruct (column_In_row X j _ Hrect Hj Ih) as [row [Hrow Hv]].
    destruct (Hmod row _ Hrow (nth_error_In _ _ Hv)) as [q [[= <-] B]].
    exact B. }
  exists lo, hi, sc, (scaled64 sc mn hi).
  split; [exact E1 |]. split; [exact E2 |]. split; [exact E3 |].
  split; [exact E5 |]. split.
  { rewrite <- (scaled64_min lo sc mn Hmn lo (Qeq_refl lo)).
    now apply Hcol. }
  split; [now apply Hcol |]. split.
  - intros row v Hrow Hv.
    assert (Lj : (j < length row)%nat) by (now rewrite (Hrect row Hrow)).
    destruct (nth_error row j) as [w |] eqn:Hw;
      [| apply nth_error_None in Hw; lia].
    destruct (Hmod row w Hrow (nth_error_In _ _ Hw)) as [x [-> _]].
    rewrite (Himg row x Hrow Hw) in Hv. injection Hv as <-.
    exists (scaled64 sc mn x). split; [reflexivity |].
    destruct (Hb x (column_entry X row j _ Hrow Hw)) as [Hlo Hhi].
    split.
    + rewrite <- (scaled64_min lo sc mn Hmn lo (Qeq_refl lo)).
      now apply (scaled64_mono sc mn Bs).
    + now apply (scaled64_mono sc mn Bs).
  - intros Hw. destruct Hcase as [[Hn _] | [_ Esc]]; [lra |].
    apply scaled_maximum_near_one; try assumption.
    exact (Qle_trans _ _ _ (proj1 (Hb lo Il)) (proj2 (Hb lo Il))).
Qed.

(** X22.  In binary64, the feature rows handed to the network hold ten
    numbers each.  In every column the scaled entries start at 0, which
    the lowest entry of the column is sent to exactly, and none exceeds
    the scaled value [top] of the highest entry; so no feature the
    network is given is negative.  That [top] is 1 up to rounding (it
    can lie above 1): on a column wider than [10 eps], [|top - 1|] is at
    most [2^-50 (1 + (|lo| + |hi|) scale)]. *)
Theorem network_input_lies_between_zero_and_the_scaled_maximum
        (df_clean : list FeatureRow) (s : MinMaxScaler) (Xs : matrix) :
  all_moderate (map feature_values df_clean) ->
  fit_transform64 (map feature_values df_clean) = Ok (s, Xs) ->
  (forall ind row, In row (take Xs ind) -> length row = 10%nat)
  /\ forall j,
      (j < 10)%nat ->
      exists lo hi scale width top,
        nth_error (data_min_ s) j = Some (Fin lo)
        /\ nth_error (data_max_ s) j = Some (Fin hi)
        /\ nth_error (scale_ s) j = Some (Fin scale)
        /\ nth_error (data_range_ s) j = Some (Fin width)
        /\ In (Fin 0) (column Xs j)
        /\ In (Fin top) (column Xs j)
        /\ (forall ind row v,
              In row (take Xs ind) -> nth_error row j = Some v ->
              exists u, v = Fin u /\ 0 <= u <= top)
        /\ (10 * eps <= width ->
            Qabs (top - 1)
            <= (1 # 2 ^ 50) * (1 + (Qabs lo + Qabs hi) * scale)).
Proof.
  intros Hmod H. destruct (fit_transform64_inv _ _ _ H) as [Hfit ->].
  pose proof (rectangular_features df_clean) as Hrect.
  destruct (fit64_inv _ _ Hfit) as [Hchk _].
  destruct (check_array_inv _ Hchk) as [Hne _].
  assert (Hn : n_features (map feature_values df_clean) = 10%nat).
  { destruct df_clean; [now destruct Hne | reflexivity]. }
  destruct (fit64_lengths _ _ Hfit) as [Ls Lm]. rewrite Hn in Ls, Lm.
  split.
  - intros ind row Hrow. apply take_In in Hrow.
    apply in_map_iff in Hrow. destruct Hrow as [r [<- Hr]].
    pose proof (proj2 (n_features_selected df_clean r Hr)) as Lr.
    rewrite length_transform_row64;
      [exact Lr | now rewrite Ls, Lr | now rewrite Lm, Lr].
  - intros j Hj.
    destruct (scaled64_column _ s j Hfit Hrect Hmod)
      as [lo [hi [sc [top [E1 [E2 [E3 [E5 [I0 [It [Hrows Htop]]]]]]]]]]];
      [rewrite Hn; exact Hj |].
    exists lo, hi, sc, (round (hi + - lo)), top.
    repeat (split; [assumption |]). split; [| exact Htop].
    intros ind row v Hrow Hv. apply take_In in Hrow.
    apply in_map_iff in Hrow. destruct Hrow as [r [<- Hr]].
    now apply (Hrows r v Hr).
Qed.

(** ** The rounded scaler on small arrays *)

Lemma moderateb_true (v : fval) : moderateb v = true -> moderate v.
Proof.
  destruct v as [| b | q]; try discriminate. intros H.
  exists q. split; [reflexivity | now apply Qle_bool_iff].
Qed.

Lemma price_likeb_true (v : fval) : price_likeb v = true -> price_like v.
Proof.
  destruct v as [| b | q]; try discriminate. intros H.
  apply andb_prop in H. destruct H as [L U].
  exists q. split; [reflexivity |]. split; now apply Qle_bool_iff.
Qed.

Lemma all_moderate_checked (X : matrix) :
  forallb (forallb moderateb) X = true -> all_moderate X.
Proof.
  intros H row v Hrow Hv. rewrite forallb_forall in H.
  specialize (H row Hrow). rewrite forallb_forall in H.
  now apply moderateb_true, H.
Qed.

Lemma Forall_checked {A : Type} (P : A -> Prop) (p : A -> bool)
      (l : list A) :
  (forall x, p x = true -> P x) -> forallb p l = true -> Forall P l.
Proof.
  intros Hp H. apply Forall_forall. intros x Hx.
  rewrite forallb_forall in H. now apply Hp, H.
Qed.

(** What binary64 makes of three prices: 15.64 is sent to 0, 31 to the
    float next above 1, and 31 comes back as the float next above 31. *)
Example scaled_prices_in_binary64 :
  exists s scaled,
    fit_transform64 (reshape_column float_prices) = Ok (s, scaled)
    /\ nth 0 scaled [] = [Fin 0]
    /\ nth 2 scaled [] = [Fin (1 + (1 # 2 ^ 52))]
    /\ inverse_transform64 s [[Fin (1 + (1 # 2 ^ 52))]]
       = Ok [[Fin (31 + (1 # 2 ^ 48))]].
Proof.
  do 2 eexists. split; [vm_compute; reflexivity |].
  split; [reflexivity |]. split; vm_compute; reflexivity.
Qed.

(** The inverse of 0 falls below the lowest price: on prices from 100.59
    to 101.17 it is the float next below 100.59. *)
Example unscaled_zero_in_binary64 :
  exists s scaled lo back,
    fit_transform64 (reshape_column narrow_prices) = Ok (s, scaled)
    /\ data_min_ s = [Fin lo]
    /\ inverse_transform64 s [[Fin 0]] = Ok [[Fin back]]
    /\ back < lo.
Proof.
  do 4 eexists. split; [vm_compute; reflexivity |].
  split; [reflexivity |]. split; [vm_compute; reflexivity |].
  reflexivity.
Qed.

Lemma round_trip_error_witness :
  exists s Xs back,
    fit64 (reshape_column float_prices) = Ok s
    /\ transform64 s (reshape_column float_prices) = Ok Xs
    /\ inverse_transform64 s Xs = Ok back.
Proof.
  destruct (fit64 (reshape_column float_prices)) as [s | e] eqn:E.
  - destruct (round_trip_error_in_binary64 _ s E)
      as [Xs [back [H1 [H2 _]]]].
    + apply rectangular_column.
    + apply all_moderate_checked. vm_compute. reflexivity.
    + exists s, Xs, back. now repeat split.
  - exfalso. vm_compute in E. discriminate E.
Defined.

Lemma scaled_target_witness :
  exists s scaled lo hi,
    fit_transform64 (reshape_column float_prices) = Ok (s, scaled)
    /\ data_min_ s = [Fin lo] /\ data_max_ s = [Fin hi].
Proof.
  destruct (fit_transform64 (reshape_column float_prices))
    as [[s scaled] | e] eqn:E.
  - destruct (scaled_target_keeps_order float_prices s scaled)
      as [lo [hi [top [H1 [H2 _]]]]].
    + apply (Forall_checked moderate moderateb); [exact moderateb_true |].
      vm_compute. reflexivity.
    + exact E.
    + exists s, scaled, lo, hi. now repeat split.
  - exfalso. vm_compute in E. discriminate E.
Defined.

Lemma test_prices_witness :
  exists s scaled back,
    fit_transform64 (reshape_column float_prices) = Ok (s, scaled)
    /\ inverse_transform64 s (reshape_column (take (flatten scaled)
                                                   [2; 0]%nat))
       = Ok back
    /\ Forall2 within_tolerance (take float_prices [2; 0]%nat)
               (flatten back).
Proof.
  destruct (fit_transform64 (reshape_column float_prices))
    as [[s scaled] | e] eqn:E.
  - destruct (test_prices_are_the_recorded_closes
                float_prices s scaled [2; 0]%nat)
      as [back [H1 [_ [_ H2]]]].
    + apply (Forall_checked price_like price_likeb);
        [exact price_likeb_true |].
      vm_compute. reflexivity.
    + exact E.
    + discriminate.
    + intros i [<- | [<- | []]]; cbn; lia.
    + exists s, scaled, back. now repeat split.
  - exfalso. vm_compute in E. discriminate E.
Defined.

Lemma network_input_witness :
  exists s Xs,
    fit_transform64 (map feature_values demo_usable) = Ok (s, Xs)
    /\ forall row, In row (take Xs [1; 0]%nat) -> length row = 10%nat.
Proof.
  destruct (fit_transform64 (map feature_values demo_usable))
    as [[s Xs] | e] eqn:E.
  - destruct (network_input_lies_between_zero_and_the_scaled_maximum
                demo_usable s Xs) as [H _].
    + apply all_moderate_checked. vm_compute. reflexivity.
    + exact E.
    + exists s, Xs. split; [reflexivity |]. apply H.
  - exfalso. vm_compute in E. discriminate E.
Defined.

(** The model of rounding gives what the machine gives: sum, difference,
    product and quotient of every pair of the samples, infinities
    included. *)
Example operations_agree_with_the_machine : Hardware.all_agree = true.
Proof. vm_compute. reflexivity. Qed.
